(* ===== verification/_CoqProject ===== *)
-Q . S2P
Prelude.v
BoundedQueue.v
Tier.v
Ring.v
RingSet.v
Routing.v
Subscriber.v
Broadcaster.v
SubscribeHandler.v
EventPlane.v
Envelope.v
Binder.v
Idempotency.v
AudioFrame.v
StereoPairer.v
StreamClient.v
SilenceDriver.v
BugManager.v
BugFanout.v
TtsPlayout.v
MediaStreams.v
Eavesdrop.v
Config.v
TtsStart.v
BotRegistry.v
Resampler.v
MediaSenders.v
MediaCallbacks.v
RecordingRelay.v
BotSession.v
CallControl.v
Module.v
MediaHandlers.v
Metrics.v
Server.v
Raii.v
Logging.v
ChannelLocks.v
TtsDump.v
EavesdropAudit.v
Startup.v
Service.v
FsMock.v
CallAudit.v
Hooks.v
