(* ===== verification/Prelude.v ===== *)
(** * open-switch: a verification development

    open-switch is a FreeSWITCH module: it streams the switch's events to gRPC
    subscribers, lets clients control calls, and connects the audio of calls to
    upstream media services (speech synthesis, recognition, voice bots,
    recording).  This library translates its C++ sources ([src/src] and
    [src/include/osw]) into executable definitions and proves what they promise.

    ** How the program is put together, and which file holds what

    Shared: [Prelude] (machine integers, strings, statuses, tactics) and
    [BoundedQueue] (the class of bounded drop-oldest queues, which the tier
    rings, the send ring, the pairer's rings and the fan-out queues implement).

    Events.  FreeSWITCH calls [Binder] ([events/binder.cc]) for each event; it
    asks [Tier] ([events/tier.cc]) for the tier, builds the message with
    [Envelope] ([events/envelope.cc]) and pushes it into a ring of [RingSet]
    ([events/ring_set.cc]), made of [Ring] ([events/ring.cc]).  One worker of
    [Broadcaster] ([events/subscribe/broadcaster.cc]) per tier pops batches,
    reads the fields filters need with [Routing] ([events/subscribe/routing.cc])
    and hands the bytes to each [Subscriber] ([subscriber.cc],
    [send_queue.cc]), whose gRPC thread is [SubscribeHandler]
    ([control/handlers/subscribe_events_handler.cc]).  [EventPlane] composes
    rings, workers and a registration in progress.

    Calls.  [CallControl] holds the nine call handlers, the originate options,
    the variable denylist and the causes, and [CallAudit] their audit events
    with the redaction of [execute_handler.cc]; [Idempotency]
    ([control/idempotency_cache.cc], [idempotency_utils.h]) makes their retries
    execute once; [Eavesdrop] ([src/security]) holds the eavesdrop policy, its
    application and its detector, and [EavesdropAudit] the events that record
    their decisions.

    Media.  A media bug is FreeSWITCH's hook on a channel's audio: [BugManager]
    ([media/bug_manager.cc]) admits them and owns their contexts, under the
    per-channel locks of [ChannelLocks];
    [SilenceDriver] keeps audio flowing on idle channels.  [StreamClient]
    ([media/stream_client.cc]) is one upstream stream; [MediaCallbacks]
    ([control/handlers/media_bug_callbacks.cc]) feeds it and plays what comes
    back through [TtsPlayout] ([media/tts_playout_buffer.cc], with its debug
    capture in [TtsDump]), converting rates with [Resampler]; [MediaSenders] is the three-call protocol with which every
    sender uses a client.  [AudioFrame] holds samples and the wire form.
    [RecordingRelay] records a call, in stereo through [StereoPairer].
    [BotSession] runs a bot on several calls, through [BugFanout], and
    [BotRegistry] is the registry of bots; [MediaStreams] is the registry of the
    other streams and their teardown.  [TtsStart] links a configuration to the
    buffer it makes.

    The module.  [Config] ([core/config.cc], [config_fs.cc]) is what an operator
    sets.  [Module] ([core/module.cc], [lifecycle.cc]) loads
    and unloads it all: the scripts of [Load], its guard and [Shutdown], run
    beside the threads that use what they create and free.  [Startup]
    ([core/module.cc], [mod_open_switch.cc]) is a load from the file to the wired
    components.  [MediaHandlers]
    ([control/handlers/start_*.cc], [stop_*.cc]) starts and stops streams, and
    [Service] ([control/control_service_skeleton.h]) is the methods that call them.
    [Metrics] ([observability/prometheus.cc], [health_metrics.cc],
    [metrics_server.cc], [control/rpc_metrics.cc]) counts calls and answers
    scrapes.  [Server] ([control/server.cc], [tls.cc], [tls_reloader.cc],
    [config_tls.cc]) listens, with which credentials, and watches the certificate
    files.  [Logging] ([observability/log.cc], [log_default_sink.cc], [audit.cc])
    redacts and traces log lines and fires audit events, with the ownership
    wrappers of [Raii] ([include/osw/raii], [control/session_guard.h],
    [media/bug_handle.cc], [control/originate_options.cc]).  [FsMock]
    ([include/osw/raii/fs_mock.h]) is the double of FreeSWITCH that the unit tests
    run against.  [Hooks] is what FreeSWITCH calls back: the CS_DESTROY hook of
    [bug_manager.cc], the event shim of [binder.cc] and the detector's binding.

    ** How code corresponds to definitions

    A class is a record with the names of its members; a method is a function on
    the record with the class's name before it ([Ring_Push] is [Ring::Push]),
    which returns the new record after the result.  A method that holds its
    mutex from beginning to end is one function.  Where the code releases a
    lock, waits, or calls out while other threads can run, the method is split
    there, and the file composes the parts with the steps of the other threads:
    either an operation type with an executable [exec] ([Ring], [StreamClient],
    [MediaSenders], [RecordingRelay]), so that a run is any list of operations,
    or an inductive step relation ([EventPlane], [BugManager], [MediaStreams]).
    Integers are [Z] with the wrap of their width written where the code can
    leave it ([u32], [u64], [i32]).  Strings are byte strings.  A pointer to a
    shared object is a location into a heap, or an identity; frees and uses are
    effects, and the theorems on lifetimes say that no effect of a run touches
    what was freed.  Errors are [Status] values, [option] or sums.  What comes
    from outside (FreeSWITCH, gRPC, protobuf, [std::regex], the clock, random
    numbers, generated ids, the order an [unordered_map] is iterated in) is an
    argument of the definition that uses it.

    ** What the theorems show

    - Events: nothing is lost between a replay and the live tail ([EventPlane]),
      a ring conserves its entries and grants only complete replays ([Ring]), every
      event is classified, numbered without gaps on its tier and put in the tier's
      ring ([Binder]), filters see what the event said
      ([Binder], [Routing] against an encoder of the wire format), a dispatch
      touches each subscriber alone ([Broadcaster]), a stream is a prefix of
      what its queue accepted and is drained at its close ([Subscriber],
      [SubscribeHandler]), the drain wait is truthful and woken ([RingSet]).
    - Calls: a key is executed once per reservation, and the cache refines an LRU
      list ([Idempotency]); reserved variables are out of reach of literal
      arguments and every path settles its reservation, transient failures by
      releasing it ([CallControl]); the secrets in the arguments of an
      application stay off the record ([CallAudit]); the policy configured is the one
      enforced ([Eavesdrop]), and each decision about a bot's call is one audit
      event, of the critical tier, with the call, the policy, the decision and the
      supervisor on it ([EavesdropAudit]).
    - Media: the registries of bugs, streams and bots keep their invariants under
      every interleaving, and no object is used after it is freed
      ([BugManager], [MediaStreams], [BotRegistry], [BotSession]); the weak
      pointers at mutexes implement one lock per channel, whose section only a
      detach enters without the lock, when it could not be allocated
      ([ChannelLocks]), and
      the manager keeps what the start handlers assume of its answers
      ([manager_answers_ok]); audio is
      neither reordered nor lost without being counted on its way to the wire
      ([StreamClient], [MediaSenders], [MediaCallbacks]), to the channel
      ([TtsPlayout], [MediaCallbacks]), to the debug files ([TtsDump]), to bots ([BugFanout]), into a recording
      ([StereoPairer], [RecordingRelay]); frames survive their wire form
      ([AudioFrame]); the playout, the pairing and the conversion of rates are those of
      reference machines written apart from the code ([TtsPlayout],
      [StereoPairer], [MediaCallbacks]); configured buffers do start playing
      ([TtsStart]).
    - The module: whatever fails, a load or a shutdown never lets a thread use
      what was freed, and every request returns ([Module]); a load succeeds
      exactly when the configuration and the environment allow it, and then every
      component starts inside its own invariant, wired to the others ([Startup]);
      a start of a stream
      is all or nothing and is refused by the first check that fails
      ([MediaHandlers]), and through the service of a load it acts once per
      request id, and the stream or bot and every relay torn down is in a critical
      audit event ([Service]); what a scraper reads is what was recorded ([Metrics]);
      a configuration validates exactly when its rules hold ([Config]);
      a server that starts has the credentials its configuration names, insecure
      ones only without a certificate, and a watcher reloads exactly when a configured file changes ([Server]); handles
      are released once ([Raii]), every log line is whole, redacted and traced,
      every audit event fired or destroyed ([Logging]); tests on the double do not
      depend on the tests before them ([FsMock]); no event is handed to a binder that
      is gone, however its start and stop interleave with dispatch ([Hooks]).

    Examples at the end of the files show where the code departs from its
    comments or its purpose (lemmas in the same style, each on a concrete run).

    ** Bounds and fuel

    Recursion is structural but for these loops, whose fuel is the length of
    the input (plus one where the end takes an iteration): the scanner and the
    varints of [Routing] (lemma [extract_loop_fuel]), the splits of [Config] and
    [Eavesdrop] (lemmas [split_pipe_loop_chunks] and [*_loop_list] say that it
    is enough), the eviction of [Idempotency], the channel picker of
    [RecordingRelay], the fill of [TtsPlayout], the label reader of [Metrics]
    (lemma [label_tail_length]), the replacement of [CallAudit] (lemma
    [replace_loop_render]), and the walk over inotify's events in [Server]
    (lemma [encode_events_length]).  The worker and writer loops
    ([Broadcaster], [SubscribeHandler], [StreamClient]) do not terminate by
    themselves and are modelled one iteration at a time, or with a number of
    iterations; termination is stated as enough of them.  Where a theorem assumes a bound (fewer than 2^64
    events, fewer than 2^32 samples in a frame), the bound is the width of the
    counter it is about.

    ** What is not modelled

    - Code outside [src/]: FreeSWITCH, gRPC, protobuf, OpenSSL, the C++ library's
      threads and, but for the fixed pattern of [CallAudit], regular expressions; and [raii/fs_api.h], which only forwards to
      FreeSWITCH.
    - What log lines say, and the deadlines that only bound a wait.
    - Allocation failure (but in [ChannelLocks], [BugManager] and [TtsDump], which
      handle it), and exceptions where the code cannot throw otherwise. *)

From Stdlib Require Export ZArith Lia Ascii String.
From stdpp Require Export base gmap strings list sorting pretty.

(** ** Notation scope *)

Declare Scope osw_scope.
Delimit Scope osw_scope with osw.

#[global] Open Scope Z_scope.
#[global] Open Scope osw_scope.

(** ** Machine integers

    A [w]-bit unsigned integer is a [Z] in [0, 2^w); every C++ conversion or
    arithmetic operation that can leave the range is followed by the wrap. *)

Definition u8 (z : Z) : Z := z mod 2 ^ 8.
Definition u16 (z : Z) : Z := z mod 2 ^ 16.
Definition u32 (z : Z) : Z := z mod 2 ^ 32.
Definition u64 (z : Z) : Z := z mod 2 ^ 64.

(** [static_cast<std::int16_t>] of an unsigned 16-bit value. *)
Definition i16_of_u16 (z : Z) : Z := if z <? 2 ^ 15 then z else z - 2 ^ 16.

(** [static_cast<int>] (32 bits) of a 64-bit value. *)
Definition i32 (z : Z) : Z :=
  let m := z mod 2 ^ 32 in if m <? 2 ^ 31 then m else m - 2 ^ 32.

Notation "x +u32 y" := (u32 (x + y)) (at level 50, left associativity) : osw_scope.
Notation "x -u32 y" := (u32 (x - y)) (at level 50, left associativity) : osw_scope.
Notation "x +u64 y" := (u64 (x + y)) (at level 50, left associativity) : osw_scope.
Notation "x -u64 y" := (u64 (x - y)) (at level 50, left associativity) : osw_scope.
Notation "x *u64 y" := (u64 (x * y)) (at level 40, left associativity) : osw_scope.

Definition UINT32_MAX : Z := 2 ^ 32 - 1.
Definition UINT64_MAX : Z := 2 ^ 64 - 1.
Definition INT64_MAX : Z := 2 ^ 63 - 1.

Create HintDb osw.
Create Rewrite HintDb osw_list.

Lemma u16_small z : 0 <= z < 2 ^ 16 -> u16 z = z.
Proof. apply Z.mod_small. Qed.

Lemma u32_small z : 0 <= z < 2 ^ 32 -> u32 z = z.
Proof. apply Z.mod_small. Qed.

Lemma u64_small z : 0 <= z < 2 ^ 64 -> u64 z = z.
Proof. apply Z.mod_small. Qed.

Lemma u64_add_l a b : u64 (u64 a + b) = u64 (a + b).
Proof. unfold u64. by rewrite Zplus_mod_idemp_l. Qed.

Lemma u32_range z : 0 <= u32 z < 2 ^ 32.
Proof. apply Z.mod_pos_bound. lia. Qed.

Lemma u64_range z : 0 <= u64 z < 2 ^ 64.
Proof. apply Z.mod_pos_bound. lia. Qed.

#[export] Hint Resolve u32_range u64_range : osw.

(** Two bit fields that do not overlap. *)
Lemma lor_shiftl_add a b n :
  0 <= n -> 0 <= a < 2 ^ n -> Z.lor a (Z.shiftl b n) = a + b * 2 ^ n.
Proof.
  intros Hn Ha. rewrite <- Z.shiftl_mul_pow2 by done.
  rewrite <- (Z.add_lor_land a (Z.shiftl b n)).
  assert (Z.land a (Z.shiftl b n) = 0) as ->; [|lia].
  apply Z.bits_inj'. intros k Hk. rewrite Z.land_spec, Z.bits_0, Z.shiftl_spec by done.
  destruct (Z.lt_ge_cases k n) as [Hlt|Hge].
  - by rewrite (Z.testbit_neg_r b), andb_false_r by lia.
  - assert (a < 2 ^ k) by (eapply Z.lt_le_trans; [apply Ha|by apply Z.pow_le_mono_r; lia]).
    rewrite (proj2 (Z.testbit_false a k Hk)); [done|]. by rewrite Z.div_small by lia.
Qed.

(** ** Tactics *)

(** Turn the boolean integer tests of the code into propositions. *)
Ltac b2p :=
  repeat match goal with
  | H : (_ && _)%bool = true |- _ => apply andb_prop in H as [? ?]
  | H : (_ || _)%bool = false |- _ => apply orb_false_elim in H as [? ?]
  | H : negb _ = true |- _ => apply negb_true_iff in H
  | H : negb _ = false |- _ => apply negb_false_iff in H
  | H : (_ <? _)%Z = true |- _ => apply Z.ltb_lt in H
  | H : (_ <? _)%Z = false |- _ => apply Z.ltb_ge in H
  | H : (_ <=? _)%Z = true |- _ => apply Z.leb_le in H
  | H : (_ <=? _)%Z = false |- _ => apply Z.leb_gt in H
  | H : (_ =? _)%Z = true |- _ => apply Z.eqb_eq in H
  | H : (_ =? _)%Z = false |- _ => apply Z.eqb_neq in H
  | H : (_ <? _)%nat = true |- _ => apply Nat.ltb_lt in H
  | H : (_ <? _)%nat = false |- _ => apply Nat.ltb_ge in H
  | H : (_ <=? _)%nat = true |- _ => apply Nat.leb_le in H
  | H : (_ <=? _)%nat = false |- _ => apply Nat.leb_gt in H
  | H : (_ =? _)%nat = true |- _ => apply Nat.eqb_eq in H
  | H : (_ =? _)%nat = false |- _ => apply Nat.eqb_neq in H
  | H : bool_decide _ = true |- _ => apply bool_decide_eq_true in H
  | H : bool_decide _ = false |- _ => apply bool_decide_eq_false in H
  end.

(** Case analysis on the first test of the goal or of a hypothesis, with the
    test recorded as a proposition. *)
Ltac case_test :=
  match goal with
  | |- context [if ?b then _ else _] => let E := fresh "E" in destruct b eqn:E
  | H : context [if ?b then _ else _] |- _ => let E := fresh "E" in destruct b eqn:E
  end; b2p.

Ltac osw := eauto with osw; try lia; try done.

(** ** C++ strings

    [std::string] and [std::string_view] are byte strings. *)

Definition string_empty (s : string) : bool := String.eqb s "".

(** [s.back() == c], false on the empty string. *)
Fixpoint string_back_is (c : ascii) (s : string) : bool :=
  match s with
  | EmptyString => false
  | String a EmptyString => Ascii.eqb a c
  | String _ s' => string_back_is c s'
  end.

(** [s.substr(0, s.size() - 1)]. *)
Fixpoint string_drop_back (s : string) : string :=
  match s with
  | EmptyString => EmptyString
  | String a EmptyString => EmptyString
  | String a s' => String a (string_drop_back s')
  end.

(** [s.size() >= p.size() && s.compare(0, p.size(), p) == 0]. *)
Fixpoint string_starts_with (p s : string) : bool :=
  match p, s with
  | EmptyString, _ => true
  | String _ _, EmptyString => false
  | String a p', String b s' => Ascii.eqb a b && string_starts_with p' s'
  end.

(** [static_cast<std::uint8_t>] of a character, and back. *)
Definition byte_of (c : ascii) : Z := Z.of_N (N_of_ascii c).
Definition char_of (b : Z) : ascii := ascii_of_N (Z.to_N b).

Fixpoint string_take (n : nat) (s : string) : string :=
  match n, s with
  | S n', String c s' => String c (string_take n' s')
  | _, _ => EmptyString
  end.

Fixpoint string_skip (n : nat) (s : string) : string :=
  match n, s with
  | S n', String _ s' => string_skip n' s'
  | _, _ => s
  end.

(** [size()] of a string, as an integer. *)
Abbreviation zsize s := (Z.of_nat (String.length s)).

Lemma string_app_cons c s t : String c s +:+ t = String c (s +:+ t).
Proof. done. Qed.

Lemma string_app_nil_l t : EmptyString +:+ t = t.
Proof. done. Qed.

Lemma string_app_assoc (s t u : string) : s +:+ t +:+ u = (s +:+ t) +:+ u.
Proof. induction s as [|c s IH]; [done|]. exact (f_equal (String c) IH). Qed.

Lemma string_take_app s t : string_take (String.length s) (s +:+ t) = s.
Proof. induction s as [|c s IH]; [by destruct t|]. simpl. by rewrite IH. Qed.

Lemma string_skip_app s t : string_skip (String.length s) (s +:+ t) = t.
Proof. induction s as [|c s IH]; [by destruct t|]. done. Qed.

Lemma string_length_app s t : String.length (s +:+ t) = (String.length s + String.length t)%nat.
Proof. induction s as [|c s IH]; [done|]. simpl. by rewrite IH. Qed.

Lemma string_skip_length n s : String.length (string_skip n s) = (String.length s - n)%nat.
Proof. revert s. induction n as [|n IH]; intros [|c s]; simpl; auto. Qed.

#[global] Arguments string_take : simpl never.
#[global] Arguments string_skip : simpl never.

Lemma byte_of_range c : 0 <= byte_of c < 256.
Proof. unfold byte_of. pose proof (N_ascii_bounded c). lia. Qed.

Lemma byte_of_char_of b : 0 <= b < 256 -> byte_of (char_of b) = b.
Proof. intros H. unfold byte_of, char_of. rewrite N_ascii_embedding by lia. lia. Qed.

Lemma string_empty_spec s : string_empty s = true <-> s = ""%string.
Proof. apply String.eqb_eq. Qed.

Lemma string_starts_with_app p s : string_starts_with p (p +:+ s) = true.
Proof. induction p as [|a p IH]; simpl; [done|]. by rewrite Ascii.eqb_refl, IH. Qed.

Lemma string_starts_with_spec p s :
  string_starts_with p s = true <-> exists t, s = p +:+ t.
Proof.
  split; [|intros [t ->]; apply string_starts_with_app].
  revert s. induction p as [|a p IH]; intros s H; [by exists s|].
  destruct s as [|b s]; simpl in H; [done|].
  apply andb_prop in H as [Hab H]. apply Ascii.eqb_eq in Hab as ->.
  destruct (IH s H) as [t ->]. by exists t.
Qed.

Lemma string_drop_back_app s c : string_drop_back (s +:+ String c "") = s.
Proof.
  induction s as [|a s IH]; [done|]. simpl.
  destruct (s +:+ String c "") as [|b t] eqn:E; [by destruct s|].
  by rewrite IH.
Qed.

Lemma string_back_is_app c s : string_back_is c (s +:+ String c "") = true.
Proof.
  induction s as [|a s IH]; simpl; [apply Ascii.eqb_refl|].
  destruct (s +:+ String c "") as [|b t] eqn:E; [by destruct s|]. done.
Qed.

Lemma string_back_is_spec c s :
  string_back_is c s = true <-> s = string_drop_back s +:+ String c "".
Proof.
  split; [|intros ->; apply string_back_is_app].
  induction s as [|a s IH]; [done|]. intros H.
  destruct s as [|b t].
  - simpl in H. apply Ascii.eqb_eq in H as ->. done.
  - change (string_back_is c (String b t) = true) in H.
    specialize (IH H).
    change (string_drop_back (String a (String b t))) with (String a (string_drop_back (String b t))).
    simpl app. simpl. rewrite IH at 1. done.
Qed.

(** [s.find(c)]: the position, or [None] for [npos]. *)
Fixpoint find_char (c : ascii) (s : string) : option nat :=
  match s with
  | EmptyString => None
  | String a s' => if Ascii.eqb a c then Some 0%nat else S <$> find_char c s'
  end.

(** The chunks between the separators [c]: what the splitting loops compute. *)
Fixpoint split_on (c : ascii) (s : string) : list string :=
  match s with
  | EmptyString => [EmptyString]
  | String a s' =>
      if Ascii.eqb a c then EmptyString :: split_on c s'
      else match split_on c s' with
           | chunk :: chunks => String a chunk :: chunks
           | [] => []
           end
  end.

(** [P] holds of every character. *)
Fixpoint string_all (P : ascii -> bool) (s : string) : bool :=
  match s with EmptyString => true | String a s' => P a && string_all P s' end.

Fixpoint string_join (c : ascii) (ss : list string) : string :=
  match ss with
  | [] => EmptyString
  | [s] => s
  | s :: ss' => s +:+ String c (string_join c ss')
  end.

Definition is_not (c a : ascii) : bool := negb (Ascii.eqb a c).

Lemma string_all_app P s t : string_all P (s +:+ t) = string_all P s && string_all P t.
Proof. induction s as [|a s IH]; simpl; [done|]. by rewrite IH, andb_assoc. Qed.

Lemma string_all_impl P Q s :
  (forall a, P a = true -> Q a = true) -> string_all P s = true -> string_all Q s = true.
Proof.
  intros Hpq. induction s as [|a s IH]; simpl; [done|]. intros [Ha Hs]%andb_prop.
  by rewrite (Hpq a Ha), IH.
Qed.

Lemma find_char_app c s t :
  string_all (is_not c) s = true -> find_char c (s +:+ String c t) = Some (String.length s).
Proof.
  induction s as [|a s IH]; simpl; [by rewrite Ascii.eqb_refl|].
  unfold is_not at 1. destruct (Ascii.eqb a c); simpl; [done|]. intros H. by rewrite IH.
Qed.

Lemma find_char_none c s : string_all (is_not c) s = true -> find_char c s = None.
Proof.
  induction s as [|a s IH]; simpl; [done|]. unfold is_not at 1.
  destruct (Ascii.eqb a c); simpl; [done|]. intros H. by rewrite IH.
Qed.

(** The first occurrence cuts the string. *)
Lemma find_char_split c s i :
  find_char c s = Some i -> s = string_take i s +:+ String c (string_skip (S i) s) /\
    split_on c s = string_take i s :: split_on c (string_skip (S i) s) /\ (i < String.length s)%nat.
Proof.
  revert i. induction s as [|a s IH]; simpl; [done|]. intros i.
  destruct (Ascii.eqb_spec a c) as [->|Hne]; [intros [= <-]; split; [done|]; split; [done|lia]|].
  destruct (find_char c s) as [j|]; [|done]. intros [= <-].
  destruct (IH j eq_refl) as (E1 & E2 & E3). split; [|split; [|lia]].
  - change (string_take (S j) (String a s)) with (String a (string_take j s)).
    change (string_skip (S (S j)) (String a s)) with (string_skip (S j) s).
    rewrite string_app_cons. by rewrite <- E1.
  - by rewrite E2.
Qed.

Lemma find_char_none_split c s : find_char c s = None -> split_on c s = [s].
Proof.
  induction s as [|a s IH]; simpl; [done|]. destruct (Ascii.eqb a c); [done|].
  destruct (find_char c s); [done|]. intros _. by rewrite IH.
Qed.

Lemma split_on_app c s t :
  string_all (is_not c) s = true -> split_on c (s +:+ String c t) = s :: split_on c t.
Proof.
  induction s as [|a s IH]; simpl; [by rewrite Ascii.eqb_refl|]. unfold is_not at 1.
  destruct (Ascii.eqb a c); simpl; [done|]. intros H. by rewrite (IH H).
Qed.

Lemma split_on_join c ss :
  Forall (fun s => string_all (is_not c) s = true) ss -> ss <> [] -> split_on c (string_join c ss) = ss.
Proof.
  induction 1 as [|s ss Hs Hss IH]; [done|]. intros _. destruct ss as [|s' ss].
  - simpl. apply find_char_none_split. by apply find_char_none.
  - change (string_join c (s :: s' :: ss)) with (s +:+ String c (string_join c (s' :: ss))).
    rewrite split_on_app by done. by rewrite IH.
Qed.

(** Concatenation computes on a known head. *)
Ltac sapp := repeat (rewrite string_app_cons || rewrite string_app_nil_l).

Lemma string_app_nil_r s : s +:+ "" = s.
Proof. induction s as [|c s IH]; [done|]. sapp. by rewrite IH. Qed.

(** [find(pat)]: the part before the first occurrence, and what follows it. *)
Fixpoint find_str (pat s : string) : option (string * string) :=
  if string_starts_with pat s then Some ("", string_skip (String.length pat) s)
  else match s with
       | EmptyString => None
       | String c s => match find_str pat s with Some (a, b) => Some (String c a, b) | None => None end
       end.

Lemma find_str_first c a b :
  string_all (is_not c) a = true -> find_str (String c "") (a +:+ String c b) = Some (a, b).
Proof.
  induction a as [|d a IH]; intros Ha.
  - sapp. cbn. by rewrite Ascii.eqb_refl.
  - cbn in Ha. apply andb_prop in Ha as [Hd Ha]. sapp. cbn [find_str string_starts_with].
    unfold is_not in Hd. apply negb_true_iff in Hd. rewrite Ascii.eqb_sym, Hd. cbn [andb]. by rewrite IH.
Qed.

(** ** Lists *)

(** [size()] of a container, as an integer. *)
Abbreviation zlen l := (Z.of_nat (length l)).

Lemma filter_all_true {A} (P : A -> Prop) `{!forall x, Decision (P x)} (l : list A) :
  Forall P l -> filter P l = l.
Proof.
  induction 1 as [|x l Hx _ IH]; [done|]. rewrite filter_cons_True by done. by rewrite IH.
Qed.

Lemma filter_all_false {A} (P : A -> Prop) `{!forall x, Decision (P x)} (l : list A) :
  Forall (fun x => ~ P x) l -> filter P l = [].
Proof.
  induction 1 as [|x l Hx _ IH]; [done|]. by rewrite filter_cons_False by done.
Qed.

Lemma filter_ext_in {A} (P Q : A -> Prop) `{!forall x, Decision (P x), !forall x, Decision (Q x)}
    (l : list A) :
  (forall x, x ∈ l -> P x <-> Q x) -> filter P l = filter Q l.
Proof.
  induction l as [|x l IH]; intros Hpq; [done|]. rewrite !filter_cons.
  pose proof (Hpq x ltac:(set_solver)). rewrite IH by set_solver.
  repeat case_decide; naive_solver.
Qed.

Lemma StronglySorted_of_lookup {A} (R : A -> A -> Prop) (l : list A) :
  (forall i j a b, l !! i = Some a -> l !! j = Some b -> (i < j)%nat -> R a b) ->
  StronglySorted R l.
Proof.
  induction l as [|x l IH]; intros H; constructor.
  - apply IH. intros i j a b Hi Hj Hlt. apply (H (S i) (S j)); [done|done|lia].
  - apply Forall_lookup. intros i a Hi. apply (H 0%nat (S i)); [done|done|lia].
Qed.

Lemma nodup_map_inj {A B} (f : A -> B) (l : list A) x y :
  NoDup (f <$> l) -> x ∈ l -> y ∈ l -> f x = f y -> x = y.
Proof.
  intros Hnd Hx Hy E. apply list_elem_of_lookup in Hx as [i Hi]. apply list_elem_of_lookup in Hy as [j Hj].
  assert (i = j) as ->; [|by simplify_eq].
  eapply NoDup_lookup; [exact Hnd| |]; rewrite list_lookup_fmap.
  - by rewrite Hi.
  - rewrite Hj. simpl. by rewrite E.
Qed.

Lemma NoDup_fmap_filter {A B} (f : A -> B) (P : A -> Prop) `{!forall x, Decision (P x)} (l : list A) :
  NoDup (f <$> l) -> NoDup (f <$> filter P l).
Proof.
  induction l as [|x l IH]; [done|]. rewrite filter_cons, fmap_cons, NoDup_cons. intros [Hx Hl].
  case_decide; [|by apply IH]. rewrite fmap_cons, NoDup_cons. split; [|by apply IH].
  intros Hin. apply Hx. apply list_elem_of_fmap in Hin as (y & -> & Hy).
  apply list_elem_of_filter in Hy as [_ Hy]. by apply list_elem_of_fmap_2.
Qed.

Lemma length_filter_le {A} (P : A -> Prop) `{!forall x, Decision (P x)} (l : list A) :
  (length (filter P l) <= length l)%nat.
Proof. induction l as [|x l IH]; [done|]. rewrite filter_cons. case_decide; simpl; lia. Qed.

Lemma Forall_filter_keep {A} (P Q : A -> Prop) `{!forall x, Decision (P x)} (l : list A) :
  Forall Q l -> Forall Q (filter P l).
Proof.
  rewrite !Forall_forall. intros Hq x Hx. apply list_elem_of_filter in Hx as [_ Hx]. by apply Hq.
Qed.

(** ** gRPC status

    [grpc::Status]: the code and the message. *)

Inductive StatusCode :=
| OK | CANCELLED | UNKNOWN | INVALID_ARGUMENT | DEADLINE_EXCEEDED | NOT_FOUND | ALREADY_EXISTS
| PERMISSION_DENIED | RESOURCE_EXHAUSTED | FAILED_PRECONDITION | ABORTED | OUT_OF_RANGE
| UNIMPLEMENTED | INTERNAL | UNAVAILABLE | DATA_LOSS | UNAUTHENTICATED.

#[export] Instance StatusCode_eq_dec : EqDecision StatusCode.
Proof. solve_decision. Defined.

Record Status := mkStatus { st_code : StatusCode; st_message : string }.

Definition Status_OK : Status := mkStatus OK "".

(** ** Maps *)

(** [unordered_map::emplace]: an existing key keeps its value. *)
Definition map_emplace {V} (k : string) (v : V) (m : gmap string V) : gmap string V :=
  match m !! k with Some _ => m | None => <[k := v]> m end.

Lemma lookup_map_emplace {V} (k j : string) (v : V) (m : gmap string V) :
  map_emplace k v m !! j =
    match m !! j with Some w => Some w | None => if decide (k = j) then Some v else None end.
Proof.
  unfold map_emplace. destruct (m !! k) as [w|] eqn:E.
  - destruct (m !! j) eqn:Ej; [done|]. case_decide; [congruence|done].
  - destruct (decide (k = j)) as [->|Hne].
    + by rewrite lookup_insert_eq, E.
    + rewrite lookup_insert_ne by done. by destruct (m !! j).
Qed.
