(* ===== verification/BoundedQueue.v ===== *)
(** * Bounded drop-oldest queues

    Four components keep a bounded FIFO that evicts its oldest element when it
    is full: the tier rings ([src/events/ring.cc]), the send ring of the media
    stream client ([src/media/stream_client.cc]), the two side rings of the
    stereo pairer ([src/media/stereo_pairer.cc]) and the per-target queues of
    the bot fanout ([src/media/bug_fanout.cc]).  This file states what such a
    queue promises as a type class, derives the conservation property every
    client relies on from the class alone, and holds the index arithmetic of
    the two circular-array implementations. *)

From S2P Require Import Prelude.

(** ** The interface *)

(** [fifo_push] reports whether it evicted, [fifo_pop] returns the element. *)
Class DropOldestFifo (S E : Type) := {
  fifo_inv : S -> Prop;
  fifo_capacity : S -> nat;
  fifo_contents : S -> list E;
  fifo_push : E -> S -> S * bool;
  fifo_pop : S -> option (E * S) }.

Class DropOldestFifoLaws (S E : Type) `{!DropOldestFifo S E} := {
  fifo_bound s : fifo_inv s -> (length (fifo_contents s) <= fifo_capacity s)%nat;
  fifo_push_room s e : fifo_inv s ->
    (length (fifo_contents s) < fifo_capacity s)%nat ->
    fifo_contents (fifo_push e s).1 = fifo_contents s ++ [e] /\ (fifo_push e s).2 = false;
  fifo_push_full s e x l : fifo_inv s ->
    fifo_contents s = x :: l -> length (x :: l) = fifo_capacity s ->
    fifo_contents (fifo_push e s).1 = l ++ [e] /\ (fifo_push e s).2 = true;
  fifo_capacity_pos s : fifo_inv s -> (0 < fifo_capacity s)%nat;
  fifo_push_inv s e : fifo_inv s ->
    fifo_inv (fifo_push e s).1 /\ fifo_capacity (fifo_push e s).1 = fifo_capacity s;
  fifo_pop_nil s : fifo_inv s -> fifo_contents s = [] -> fifo_pop s = None;
  fifo_pop_cons s x l : fifo_inv s -> fifo_contents s = x :: l ->
    exists s', fifo_pop s = Some (x, s') /\ fifo_contents s' = l /\ fifo_inv s' /\
               fifo_capacity s' = fifo_capacity s }.

(** ** Runs *)

Inductive fifo_op (E : Type) := FPush (e : E) | FPop.
Arguments FPush {E} e.
Arguments FPop {E}.

(** Why an element left the queue. *)
Inductive removal := Popped | Evicted.

#[export] Instance removal_eq_dec : EqDecision removal.
Proof. solve_decision. Defined.

(** What was popped, and how many were evicted. *)
Definition popped {E} (rem : list (removal * E)) : list E :=
  rem ≫= (fun x => match x.1 with Popped => [x.2] | Evicted => [] end).

Definition evictions {E} (rem : list (removal * E)) : Z :=
  foldr (fun x n => match x.1 with Evicted => 1 + n | Popped => n end) 0 rem.

Lemma popped_app {E} (a b : list (removal * E)) : popped (a ++ b) = popped a ++ popped b.
Proof. apply bind_app. Qed.

Lemma evictions_app {E} (a b : list (removal * E)) : evictions (a ++ b) = evictions a + evictions b.
Proof. induction a as [|[[] x] a IH]; simpl; [done|..]; rewrite ?IH; lia. Qed.

Lemma popped_evicted {E} (l : list E) : popped ((fun x => (Evicted, x)) <$> l) = [].
Proof. by induction l. Qed.

Lemma evictions_evicted {E} (l : list E) :
  evictions ((fun x => (Evicted, x)) <$> l) = Z.of_nat (length l).
Proof.
  induction l as [|x l IH]; [done|]. rewrite fmap_cons. unfold evictions in *.
  cbn [foldr fst length]. lia.
Qed.

Section Runs.
Context {S E : Type} `{!DropOldestFifo S E} `{!DropOldestFifoLaws S E}.

(** One operation, with the element that left the queue. *)
Definition fifo_step (s : S) (o : fifo_op E) : S * list (removal * E) :=
  match o with
  | FPush e =>
      let '(s', evicted) := fifo_push e s in
      (s', if evicted then match head (fifo_contents s) with
                           | Some x => [(Evicted, x)] | None => [] end else [])
  | FPop => match fifo_pop s with
            | Some (x, s') => (s', [(Popped, x)])
            | None => (s, []) end
  end.

Fixpoint fifo_run (s : S) (os : list (fifo_op E)) : S * list (removal * E) :=
  match os with
  | [] => (s, [])
  | o :: os' =>
      let '(s', r) := fifo_step s o in
      let '(s'', r') := fifo_run s' os' in (s'', r ++ r')
  end.

Definition fifo_pushed (os : list (fifo_op E)) : list E :=
  os ≫= (fun o => match o with FPush e => [e] | FPop => [] end).

Lemma fifo_step_conserves s o s' r :
  fifo_inv s -> fifo_step s o = (s', r) ->
  fifo_inv s' /\ fifo_capacity s' = fifo_capacity s /\
  fifo_contents s ++ fifo_pushed [o] = r.*2 ++ fifo_contents s' /\
  Forall (fun x => x.1 = Evicted -> length (fifo_contents s) = fifo_capacity s) r.
Proof.
  intros Hi Hs. pose proof (fifo_bound s Hi) as Hb.
  destruct o as [e|]; unfold fifo_step in Hs.
  - pose proof (fifo_push_inv s e Hi) as [Hi' Hc].
    destruct (decide (length (fifo_contents s) < fifo_capacity s)%nat) as [Hlt|Hge].
    + destruct (fifo_push_room s e Hi Hlt) as [Hq Hf].
      destruct (fifo_push e s) as [s1 b]. simplify_eq/=. split_and!; auto.
    + pose proof (fifo_capacity_pos s Hi).
      destruct (fifo_contents s) as [|x l] eqn:Ec; simpl in *; [lia|].
      destruct (fifo_push_full s e x l Hi Ec ltac:(simpl; lia)) as [Hq Hf].
      destruct (fifo_push e s) as [s1 b]. simplify_eq/=.
      rewrite Hq. split_and!; auto. repeat constructor. simpl. lia.
  - destruct (fifo_contents s) as [|x l] eqn:Ec.
    + rewrite (fifo_pop_nil s Hi Ec) in Hs. simplify_eq/=. rewrite Ec. split_and!; auto.
    + destruct (fifo_pop_cons s x l Hi Ec) as (s1 & Hp & Hq & Hi' & Hc).
      rewrite Hp in Hs. simplify_eq/=. rewrite app_nil_r. split_and!; auto.
      by repeat constructor.
Qed.

(** Conservation: whatever the sequence of operations, what was in the queue
    followed by what was pushed is, in order, what left the queue (popped or
    evicted) followed by what is still in it. *)
Lemma fifo_run_conserves os s s' r :
  fifo_inv s -> fifo_run s os = (s', r) ->
  fifo_inv s' /\ fifo_capacity s' = fifo_capacity s /\
  fifo_contents s ++ fifo_pushed os = r.*2 ++ fifo_contents s'.
Proof.
  revert s s' r. induction os as [|o os IH]; intros s s' r Hi Hr; simpl in Hr.
  { simplify_eq/=. by rewrite app_nil_r. }
  destruct (fifo_step s o) as [s1 r1] eqn:E1.
  destruct (fifo_run s1 os) as [s2 r2] eqn:E2. simplify_eq.
  destruct (fifo_step_conserves _ _ _ _ Hi E1) as (Hi1 & Hc1 & Hq1 & _).
  destruct (IH _ _ _ Hi1 E2) as (Hi2 & Hc2 & Hq2).
  split_and!; [done|congruence|].
  change (fifo_pushed (o :: os)) with (fifo_pushed ([o] ++ os)).
  unfold fifo_pushed in *. rewrite bind_app, app_assoc, Hq1.
  rewrite <- app_assoc, Hq2, app_assoc, <- fmap_app. done.
Qed.

Lemma fifo_run_bound os s s' r :
  fifo_inv s -> fifo_run s os = (s', r) ->
  (length (fifo_contents s') <= fifo_capacity s)%nat.
Proof.
  intros Hi Hr. destruct (fifo_run_conserves _ _ _ _ Hi Hr) as (Hi' & <- & _).
  by apply fifo_bound.
Qed.
End Runs.

(** ** Circular arrays

    The elements of a circular array with [count] live slots from [tail]. *)

Section Circular.
Context {E : Type}.
Implicit Types (slots : list E) (tail count i : nat).

Definition circ_index (cap tail i : nat) : nat := ((tail + i) mod cap)%nat.

Definition circ_contents slots tail count : list E :=
  omap (fun i => slots !! circ_index (length slots) tail i) (seq 0 count).

Lemma circ_index_lt cap tail i : (0 < cap)%nat -> (circ_index cap tail i < cap)%nat.
Proof. intros. apply Nat.mod_upper_bound. lia. Qed.

Lemma circ_index_inj cap tail i j :
  (i < cap)%nat -> (j < cap)%nat -> circ_index cap tail i = circ_index cap tail j -> i = j.
Proof.
  unfold circ_index. intros Hi Hj H.
  pose proof (Nat.div_mod_eq (tail + i) cap). pose proof (Nat.div_mod_eq (tail + j) cap).
  rewrite H in *.
  destruct (Nat.lt_total ((tail + i) / cap) ((tail + j) / cap)) as [Hlt|[Heq|Hlt]]; [nia| |nia].
  rewrite Heq in *. lia.
Qed.

Lemma circ_index_S cap tail i :
  (0 < cap)%nat -> circ_index cap ((tail + 1) mod cap) i = circ_index cap tail (S i).
Proof.
  intros Hc. unfold circ_index. rewrite Nat.Div0.add_mod_idemp_l. f_equal. lia.
Qed.

Lemma circ_contents_length slots tail count :
  (0 < length slots)%nat -> length (circ_contents slots tail count) = count.
Proof.
  intros Hc. unfold circ_contents.
  assert (forall l : list nat, length (omap (fun i => slots !! circ_index (length slots) tail i) l)
            = length l) as ->; [|apply length_seq].
  induction l as [|i l IH]; [done|]. cbn [omap list_omap].
  destruct (lookup_lt_is_Some_2 slots (circ_index (length slots) tail i)) as [x ->].
  { by apply circ_index_lt. }
  cbn. f_equal. apply IH.
Qed.

(** Taking the oldest element. *)
Lemma circ_contents_uncons slots tail count :
  (0 < length slots)%nat ->
  circ_contents slots tail (S count) =
    match slots !! circ_index (length slots) tail 0 with
    | Some x => [x] | None => [] end
    ++ circ_contents slots ((tail + 1) mod length slots) count.
Proof.
  intros Hc. unfold circ_contents. rewrite <- cons_seq. cbn [omap list_omap].
  rewrite <- fmap_S_seq.
  assert (omap (fun i => slots !! circ_index (length slots) tail i) (S <$> seq 0 count) =
          omap (fun i => slots !! circ_index (length slots) ((tail + 1) mod length slots) i)
            (seq 0 count)) as ->.
  { generalize (seq 0 count). induction l as [|i l IH]; [done|].
    cbn [fmap list_fmap omap list_omap]. rewrite circ_index_S by done.
    destruct (slots !! _); cbn; by rewrite <- IH. }
  by destruct (slots !! circ_index (length slots) tail 0).
Qed.

(** Writing the next free slot, at [tail + count]. *)
Lemma circ_contents_snoc slots tail count x :
  (count < length slots)%nat ->
  circ_contents (<[circ_index (length slots) tail count := x]> slots) tail (S count) =
    circ_contents slots tail count ++ [x].
Proof.
  intros Hc. unfold circ_contents. rewrite length_insert, seq_S, omap_app. f_equal.
  - apply list_omap_ext. apply Forall2_same_length_lookup_2; [done|].
    intros i a b Ha Hb. simplify_eq. apply lookup_seq in Ha as [-> Hi].
    rewrite list_lookup_insert_ne; [done|]. intros Heq.
    apply circ_index_inj in Heq; lia.
  - cbn. rewrite list_lookup_insert_eq; [done|]. apply circ_index_lt. lia.
Qed.

(** Overwriting a slot that holds no live element changes nothing. *)
Lemma circ_contents_insert_dead slots tail count j x :
  (count <= length slots)%nat ->
  (forall i, (i < count)%nat -> circ_index (length slots) tail i <> j) ->
  circ_contents (<[j := x]> slots) tail count = circ_contents slots tail count.
Proof.
  intros Hc Hj. unfold circ_contents. rewrite length_insert.
  apply list_omap_ext. apply Forall2_same_length_lookup_2; [done|].
  intros i a b Ha Hb. simplify_eq. apply lookup_seq in Ha as [-> Hi].
  rewrite list_lookup_insert_ne; [done|]. intros Heq. by apply (Hj i).
Qed.

(** The state of a circular array: [head] is the next slot to write, [tail]
    the next to read. *)
Definition circ_wf slots head tail count : Prop :=
  (tail < length slots)%nat /\ (count <= length slots)%nat /\
  head = circ_index (length slots) tail count.

Lemma circ_wf_empty slots : (0 < length slots)%nat -> circ_wf slots 0 0 0.
Proof. intros H. unfold circ_wf, circ_index. rewrite Nat.Div0.mod_0_l. lia. Qed.

Lemma circ_index_0 cap tail : (tail < cap)%nat -> circ_index cap tail 0 = tail.
Proof. intros H. unfold circ_index. rewrite Nat.add_0_r. by apply Nat.mod_small. Qed.

Lemma circ_index_next cap tail i :
  (0 < cap)%nat -> ((circ_index cap tail i + 1) mod cap)%nat = circ_index cap tail (S i).
Proof. intros H. unfold circ_index. rewrite Nat.Div0.add_mod_idemp_l. f_equal. lia. Qed.

(** Writing at [head] when there is room. *)
Lemma circ_push slots head tail count x :
  circ_wf slots head tail count -> (count < length slots)%nat ->
  circ_wf (<[head := x]> slots) ((head + 1) mod length slots) tail (S count) /\
  circ_contents (<[head := x]> slots) tail (S count) = circ_contents slots tail count ++ [x].
Proof.
  intros (Ht & Hc & ->) Hlt. split; [|by apply circ_contents_snoc].
  unfold circ_wf. rewrite length_insert, circ_index_next by lia. split_and!; lia || done.
Qed.

(** Advancing [tail] past the oldest element; the slot it leaves may be
    overwritten. *)
Lemma circ_pop slots head tail count :
  circ_wf slots head tail (S count) ->
  exists x, slots !! tail = Some x /\
    circ_contents slots tail (S count) = x :: circ_contents slots ((tail + 1) mod length slots) count /\
    circ_wf slots head ((tail + 1) mod length slots) count.
Proof.
  intros (Ht & Hc & ->). destruct (lookup_lt_is_Some_2 slots tail Ht) as [x Hx].
  exists x. split_and!; [done| |].
  - rewrite circ_contents_uncons, circ_index_0, Hx by lia. done.
  - split_and!; [apply Nat.mod_upper_bound; lia|lia|]. by rewrite circ_index_S by lia.
Qed.

Lemma circ_clear_left slots head tail count x :
  (tail < length slots)%nat -> circ_wf slots head ((tail + 1) mod length slots) count ->
  (count < length slots)%nat ->
  circ_wf (<[tail := x]> slots) head ((tail + 1) mod length slots) count /\
  circ_contents (<[tail := x]> slots) ((tail + 1) mod length slots) count =
    circ_contents slots ((tail + 1) mod length slots) count.
Proof.
  intros Ht (Ht' & Hc & ->) Hlt. split.
  - unfold circ_wf. rewrite length_insert. done.
  - apply circ_contents_insert_dead; [lia|]. intros i Hi. rewrite circ_index_S by lia.
    intros Heq. rewrite <- (circ_index_0 (length slots) tail) in Heq at 2 by lia.
    apply circ_index_inj in Heq; lia.
Qed.
End Circular.
