(* ===== verification/Tier.v ===== *)
(** * Event tiers and the tier classifier

    [src/events/tier.cc] and [include/osw/events/tier.h]: the [Tier] enum, the
    rule table an operator configures, the default table, and the classifier
    that compiles the subclass globs into prefixes and maps an event to a tier. *)

From S2P Require Import Prelude.

Inductive Tier := kUnspecified | k1Critical | k2State | k3Ephemeral.

#[export] Instance Tier_eq_dec : EqDecision Tier.
Proof. solve_decision. Defined.

#[export] Instance Tier_countable : Countable Tier.
Proof.
  refine (inj_countable'
    (fun t => match t with kUnspecified => 0 | k1Critical => 1 | k2State => 2 | k3Ephemeral => 3 end)
    (fun n => match n with 0 => kUnspecified | 1 => k1Critical | 2 => k2State | _ => k3Ephemeral end)
    _).
  by intros [].
Defined.

Definition Tier_ToString (t : Tier) : string :=
  match t with
  | k1Critical => "tier1"
  | k2State => "tier2"
  | k3Ephemeral => "tier3"
  | kUnspecified => "unspecified"
  end.

Record TierRules := mkTierRules {
  events : gmap string Tier;
  subclass_globs : list (string * Tier);
  default_tier : Tier }.

Definition kDefaultTier1Events : list string :=
  ["CHANNEL_CREATE"; "CHANNEL_PROGRESS"; "CHANNEL_ANSWER"; "CHANNEL_BRIDGE";
   "CHANNEL_UNBRIDGE"; "CHANNEL_DESTROY"; "CHANNEL_HANGUP_COMPLETE"; "CDR_REPORT";
   "RECORD_START"; "RECORD_STOP"]%string.

Definition kDefaultTier2Events : list string :=
  ["CHANNEL_CALLSTATE"; "CHANNEL_HOLD"; "CHANNEL_UNHOLD"; "DTMF"]%string.

Definition kDefaultTier3Events : list string :=
  ["HEARTBEAT"; "RE_SCHEDULE"; "SESSION_HEARTBEAT"; "MEDIA_BUG_START";
   "MEDIA_BUG_STOP"; "MESSAGE"; "CALL_UPDATE"; "LOG"]%string.

Definition emplace_all (t : Tier) (ns : list string) (m : gmap string Tier) : gmap string Tier :=
  fold_left (fun m n => map_emplace n t m) ns m.

Definition MakeDefaultRules : TierRules := {|
  events :=
    emplace_all k3Ephemeral kDefaultTier3Events
      (emplace_all k2State kDefaultTier2Events
         (emplace_all k1Critical kDefaultTier1Events ∅));
  subclass_globs :=
    [("osw.recording.relay_started", k1Critical);
     ("osw.recording.relay_stopped", k1Critical);
     ("osw.recording.warn_record_before_inject", k1Critical);
     ("osw.recording.send_overflow", k2State);
     ("osw.recording.lr_desync", k2State);
     ("osw.eavesdrop.denied", k1Critical);
     ("osw.eavesdrop.audit", k1Critical);
     ("osw.eavesdrop.allowed", k1Critical);
     ("osw.eavesdrop.detected_post_attach", k1Critical);
     ("osw.media.bot.started", k1Critical);
     ("osw.media.bot.stopped", k1Critical);
     ("osw.media.bot.target_attach_failed", k1Critical);
     ("osw.media.bot.target_drop", k2State);
     ("osw.audit.*", k1Critical);
     ("sofia::register", k2State);
     ("sofia::unregister", k2State)]%string;
  default_tier := k3Ephemeral |}.

Record CompiledGlob := mkCompiledGlob {
  cg_prefix : string;
  cg_has_wildcard : bool;
  cg_tier : Tier }.

Record TierClassifier := mkTierClassifier {
  tc_rules : TierRules;
  tc_compiled_globs : list CompiledGlob }.

Definition compile_glob (g : string * Tier) : CompiledGlob :=
  let '(src, tier) := g in
  if negb (string_empty src) && string_back_is "*" src
  then mkCompiledGlob (string_drop_back src) true tier
  else mkCompiledGlob src false tier.

Definition TierClassifier_new (rules : TierRules) : TierClassifier :=
  mkTierClassifier rules (map compile_glob (subclass_globs rules)).

Definition compiled_glob_matches (g : CompiledGlob) (subclass_name : string) : bool :=
  if cg_has_wildcard g
  then string_starts_with (cg_prefix g) subclass_name
  else String.eqb subclass_name (cg_prefix g).

Fixpoint classify_globs (gs : list CompiledGlob) (subclass_name : string) : option Tier :=
  match gs with
  | [] => None
  | g :: gs' =>
      if compiled_glob_matches g subclass_name then Some (cg_tier g)
      else classify_globs gs' subclass_name
  end.

Definition Classify (c : TierClassifier) (event_name subclass_name : string) : Tier :=
  let by_glob :=
    if negb (string_empty subclass_name)
    then classify_globs (tc_compiled_globs c) subclass_name else None in
  match by_glob with
  | Some t => t
  | None =>
      match events (tc_rules c) !! event_name with
      | Some t => t
      | None => default_tier (tc_rules c)
      end
  end.

Definition DefaultTier (c : TierClassifier) : Tier := default_tier (tc_rules c).

(** ** Reference semantics of the rule table

    A glob denotes a set of subclass names: the names that extend its literal
    prefix when it ends in a star, the name itself otherwise. *)

Definition glob_denotes (g s : string) : Prop :=
  (exists p t, g = p +:+ "*" /\ s = p +:+ t) \/
  ((forall p, g <> p +:+ "*") /\ s = g).

Lemma compile_glob_denotes src t s :
  compiled_glob_matches (compile_glob (src, t)) s = true <-> glob_denotes src s.
Proof.
  unfold compile_glob, glob_denotes.
  destruct (string_back_is "*" src) eqn:Hb.
  - assert (string_empty src = false) as -> by (destruct src; done).
    cbn [negb andb]. unfold compiled_glob_matches. cbn [cg_has_wildcard cg_prefix].
    rewrite string_starts_with_spec.
    apply string_back_is_spec in Hb. split.
    + intros [u ->]. left. by exists (string_drop_back src), u.
    + intros [(p & u & -> & ->)|[Hn _]]; [|by destruct (Hn (string_drop_back src))].
      exists u. by rewrite string_drop_back_app.
  - rewrite andb_false_r. unfold compiled_glob_matches. simpl.
    rewrite String.eqb_eq. split.
    + intros ->. right. split; [|done]. intros p ->.
      by rewrite string_back_is_app in Hb.
    + intros [(p & u & -> & ->)|[_ ->]]; [|done].
      by rewrite string_back_is_app in Hb.
Qed.

Lemma compile_glob_tier src t : cg_tier (compile_glob (src, t)) = t.
Proof. unfold compile_glob. by case_match. Qed.

(** The tier the rule table assigns: the first subclass glob that denotes a
    non-empty subclass, else the exact event name, else the default. *)
Inductive table_tier (r : TierRules) (ev sub : string) : Tier -> Prop :=
| tt_glob gs1 g t gs2 :
    sub <> ""%string ->
    subclass_globs r = gs1 ++ (g, t) :: gs2 ->
    glob_denotes g sub ->
    Forall (fun gt => ~ glob_denotes gt.1 sub) gs1 ->
    table_tier r ev sub t
| tt_event t :
    (sub = ""%string \/ Forall (fun gt => ~ glob_denotes gt.1 sub) (subclass_globs r)) ->
    events r !! ev = Some t ->
    table_tier r ev sub t
| tt_default :
    (sub = ""%string \/ Forall (fun gt => ~ glob_denotes gt.1 sub) (subclass_globs r)) ->
    events r !! ev = None ->
    table_tier r ev sub (default_tier r).

Lemma classify_globs_spec gs sub :
  match classify_globs (map compile_glob gs) sub with
  | Some t => exists gs1 g gs2, gs = gs1 ++ (g, t) :: gs2 /\ glob_denotes g sub /\
                Forall (fun gt => ~ glob_denotes gt.1 sub) gs1
  | None => Forall (fun gt => ~ glob_denotes gt.1 sub) gs
  end.
Proof.
  induction gs as [|[g t] gs IH]; [constructor|]. cbn [map classify_globs].
  destruct (compiled_glob_matches (compile_glob (g, t)) sub) eqn:E.
  - rewrite compile_glob_tier. exists [], g, gs.
    split_and!; [done|by apply compile_glob_denotes in E|constructor].
  - assert (~ glob_denotes g sub) as Hn.
    { intros H. rewrite <- (compile_glob_denotes g t) in H. congruence. }
    destruct (classify_globs _ sub) as [t'|].
    + destruct IH as (gs1 & g' & gs2 & -> & ? & ?).
      exists ((g, t) :: gs1), g', gs2. split_and!; [done|done|by constructor].
    + by constructor.
Qed.

(** The compiled classifier implements the rule table: for every rule
    table and event, [Classify] returns the tier of the first subclass glob
    that denotes the (non-empty) subclass, else of the exact event name, else
    the default tier. *)
Theorem Classify_table (r : TierRules) (ev sub : string) :
  table_tier r ev sub (Classify (TierClassifier_new r) ev sub).
Proof.
  unfold Classify, TierClassifier_new. cbn [tc_compiled_globs tc_rules].
  destruct (string_empty sub) eqn:Es; cbn [negb].
  - apply string_empty_spec in Es.
    destruct (events r !! ev) eqn:E; [apply tt_event|apply tt_default]; auto.
  - assert (sub <> ""%string) by (intros Hs; apply string_empty_spec in Hs; congruence).
    pose proof (classify_globs_spec (subclass_globs r) sub) as H'.
    destruct (classify_globs _ sub) as [t|].
    + destruct H' as (gs1 & g & gs2 & ? & ? & ?). by eapply tt_glob.
    + destruct (events r !! ev) eqn:E; [apply tt_event|apply tt_default]; auto.
Qed.

Lemma table_tier_fun r ev sub t1 t2 :
  table_tier r ev sub t1 -> table_tier r ev sub t2 -> t1 = t2.
Proof.
  assert (forall gs1 g t gs2, subclass_globs r = gs1 ++ (g, t) :: gs2 -> glob_denotes g sub ->
    sub <> ""%string ->
    ~ (sub = ""%string \/ Forall (fun gt => ~ glob_denotes gt.1 sub) (subclass_globs r))) as Hx.
  { intros gs1 g t gs2 -> Hg Hne [?|H]; [done|].
    rewrite Forall_app, Forall_cons in H. by destruct H as (_ & H & _). }
  destruct 1 as [gs1 g t gs2 Hne E Hg Hall|t Hn E|Hn E];
    destruct 1 as [gs1' g' t' gs2' Hne' E' Hg' Hall'|t' Hn' E'|Hn' E'];
    try (exfalso; eapply Hx; eauto; fail); try congruence.
  rewrite E in E'.
  assert (gs1 = gs1' /\ (g, t) = (g', t')) as [_ [= _ ->]]; [|done].
  clear -E' Hg Hall Hg' Hall'. revert gs1' E' Hall'.
  induction Hall as [|x l Hx _ IH]; intros [|y l'] E' Hall'; simplify_eq/=; auto.
  - by inv Hall'.
  - by inv Hall'.
  - inv Hall'. by edestruct IH as [-> ->].
Qed.
