(* ===== verification/Ring.v ===== *)
(** * The tier ring

    [src/events/ring.cc] and [include/osw/events/ring.h]: the bounded FIFO each
    tier owns.  Every method runs under [mu_], so each is a function on the ring
    state; the condition variable only decides when [WaitAndPopBatch] resumes,
    and [Ring_WaitAndPopBatch] takes the state in which the wait returned
    ([Ring_wait_pred], or the timeout). *)

From S2P Require Import Prelude BoundedQueue.

(** [std::shared_ptr<const std::string>]: [None] is the null pointer. *)
Record RingEntry := mkRingEntry { seq : Z; envelope_bytes : option string }.

#[export] Instance RingEntry_eq_dec : EqDecision RingEntry.
Proof. solve_decision. Defined.

(** [drain_notifier_] is installed once by the ring set; what matters of it is
    whether it is set, and each pop reports whether it was called. *)
Record Ring := mkRing {
  capacity_ : nat;
  q_ : list RingEntry;
  closed_ : bool;
  drain_notifier_ : bool;
  max_seq_ever_pushed_ : Z }.

Definition Ring_new (capacity : nat) : Ring :=
  mkRing (if (capacity =? 0)%nat then 1%nat else capacity) [] false false 0.

Definition Ring_with_q (r : Ring) (q : list RingEntry) : Ring :=
  mkRing (capacity_ r) q (closed_ r) (drain_notifier_ r) (max_seq_ever_pushed_ r).

(** Result: "no eviction", the updated out-counter, the ring. *)
Definition Ring_Push (r : Ring) (entry : RingEntry) (dropped_out : option Z)
  : bool * option Z * Ring :=
  let evicted := (capacity_ r <=? length (q_ r))%nat in
  let q1 := if evicted then tail (q_ r) else q_ r in
  let max' := if max_seq_ever_pushed_ r <? seq entry then seq entry
              else max_seq_ever_pushed_ r in
  let r' := mkRing (capacity_ r) (q1 ++ [entry]) (closed_ r) (drain_notifier_ r) max' in
  let dropped' := match dropped_out with
                  | Some d => if evicted then Some (d +u64 1) else Some d
                  | None => None end in
  (negb evicted, dropped', r').

(** Result: the entry, whether the drain notifier ran, the ring. *)
Definition Ring_TryPop (r : Ring) : option RingEntry * bool * Ring :=
  match q_ r with
  | [] => (None, false, r)
  | e :: q' =>
      let notified := match q' with [] => drain_notifier_ r | _ => false end in
      (Some e, notified, Ring_with_q r q')
  end.

(** The predicate [WaitAndPopBatch] blocks on. *)
Definition Ring_wait_pred (r : Ring) : bool :=
  match q_ r with [] => closed_ r | _ => true end.

(** [while (!q_.empty() && out.size() < max_batch)]. *)
Fixpoint pop_batch_loop (max_batch : nat) (q out : list RingEntry)
  : list RingEntry * list RingEntry :=
  match q with
  | [] => (out, [])
  | e :: q' =>
      if (length out <? max_batch)%nat then pop_batch_loop max_batch q' (out ++ [e])
      else (out, q)
  end.

Definition Ring_WaitAndPopBatch (r : Ring) (max_batch : nat) : list RingEntry * bool * Ring :=
  match q_ r with
  | [] => ([], false, r)
  | _ =>
      let '(out, q') := pop_batch_loop max_batch (q_ r) [] in
      let notified := match q' with [] => drain_notifier_ r | _ => false end in
      (out, notified, Ring_with_q r q')
  end.

Record ReplaySnapshot := mkReplaySnapshot {
  found_in_window : bool;
  entries : list RingEntry;
  current_min_seq : Z;
  current_max_seq : Z }.

Definition Ring_SnapshotFromSeq (r : Ring) (since_seq : Z) : ReplaySnapshot :=
  match q_ r with
  | [] =>
      if (max_seq_ever_pushed_ r =? 0) || (max_seq_ever_pushed_ r <=? since_seq)
      then mkReplaySnapshot true [] 0 0
      else mkReplaySnapshot false [] 0 (max_seq_ever_pushed_ r)
  | front :: _ =>
      let min_seq := seq front in
      let max_seq := match last (q_ r) with Some e => seq e | None => 0 end in
      if since_seq =? 0 then mkReplaySnapshot true [] min_seq max_seq
      else if (since_seq +u64 1) <? min_seq
      then mkReplaySnapshot false [] min_seq max_seq
      else mkReplaySnapshot true (filter (fun e => since_seq < seq e) (q_ r)) min_seq max_seq
  end.

Definition Ring_Size (r : Ring) : nat := length (q_ r).
Definition Ring_Capacity (r : Ring) : nat := capacity_ r.

Definition Ring_Close (r : Ring) : Ring :=
  mkRing (capacity_ r) (q_ r) true (drain_notifier_ r) (max_seq_ever_pushed_ r).

Definition Ring_IsClosed (r : Ring) : bool := closed_ r.

Definition Ring_SetDrainNotifier (r : Ring) (notifier : bool) : Ring :=
  mkRing (capacity_ r) (q_ r) (closed_ r) notifier (max_seq_ever_pushed_ r).

(** ** The ring is a bounded drop-oldest queue *)

Definition Ring_bounded (r : Ring) : Prop :=
  (0 < capacity_ r)%nat /\ (length (q_ r) <= capacity_ r)%nat.

Lemma Ring_new_bounded c : Ring_bounded (Ring_new c).
Proof. unfold Ring_bounded, Ring_new. simpl. case_test; lia. Qed.

#[export] Instance Ring_fifo : DropOldestFifo Ring RingEntry := {|
  fifo_inv := Ring_bounded;
  fifo_capacity := capacity_;
  fifo_contents := q_;
  fifo_push := fun e r => let '(ok, _, r') := Ring_Push r e None in (r', negb ok);
  fifo_pop := fun r => match Ring_TryPop r with
                       | (Some e, _, r') => Some (e, r') | (None, _, _) => None end |}.

#[export] Instance Ring_fifo_laws : DropOldestFifoLaws Ring RingEntry.
Proof.
  split; unfold fifo_inv, fifo_capacity, fifo_contents, fifo_push, fifo_pop, Ring_fifo, Ring_bounded,
    Ring_Push, Ring_TryPop.
  - by intros s [].
  - intros s e [Hp Hl] Hlt. rewrite (proj2 (Nat.leb_gt _ _)) by lia. done.
  - intros s e x l [Hp Hl] Hq Hlen. rewrite Hq, Hlen, Nat.leb_refl. done.
  - by intros s [].
  - intros s e [Hp Hl]. simpl. rewrite length_app. simpl. split_and!; [done| |done].
    destruct (q_ s) as [|x l]; simpl in *; [case_match; simpl; lia|].
    case_test; simpl; lia.
  - by intros s _ ->.
  - intros s x l [Hp Hl] Hq. rewrite Hq in *. eexists. split_and!; try done. simpl in *. lia.
Qed.

Lemma pop_batch_loop_spec n q out :
  pop_batch_loop n q out = (out ++ take (n - length out) q, drop (n - length out) q).
Proof.
  revert out. induction q as [|e q IH]; intros out; simpl.
  { by rewrite take_nil, drop_nil, app_nil_r. }
  case_test.
  - rewrite IH, length_app. simpl.
    replace (n - length out)%nat with (S (n - (length out + 1)))%nat by lia.
    simpl. by rewrite <- app_assoc.
  - replace (n - length out)%nat with 0%nat by lia. simpl. by rewrite app_nil_r.
Qed.

Lemma Ring_WaitAndPopBatch_spec r n :
  Ring_WaitAndPopBatch r n =
    (take n (q_ r),
     match q_ r, drop n (q_ r) with _ :: _, [] => drain_notifier_ r | _, _ => false end,
     Ring_with_q r (drop n (q_ r))).
Proof.
  unfold Ring_WaitAndPopBatch. destruct r as [c [|e q] cl dn mx]; simpl.
  { by rewrite take_nil, drop_nil. }
  change (if (0 <? n)%nat then pop_batch_loop n q [e] else ([], e :: q))
    with (pop_batch_loop n (e :: q) []).
  rewrite pop_batch_loop_spec. simpl. by rewrite Nat.sub_0_r.
Qed.

(** A batch is what the same number of single pops returns. *)
Lemma Ring_batch_is_pops r n :
  Ring_bounded r ->
  fifo_run r (replicate n FPop) =
    ((Ring_WaitAndPopBatch r n).2, (Popped,.) <$> (Ring_WaitAndPopBatch r n).1.1).
Proof.
  rewrite Ring_WaitAndPopBatch_spec. cbn [fst snd].
  revert r. induction n as [|n IH]; intros r Hb.
  { simpl. by destruct r. }
  cbn [replicate fifo_run fifo_step fifo_pop Ring_fifo]. unfold Ring_TryPop.
  destruct r as [c [|e q] cl dn mx]; cbn [q_].
  - rewrite IH by done. cbn [q_]. by rewrite !take_nil, !drop_nil.
  - rewrite IH.
    + done.
    + destruct Hb as [? Hl]. split; simpl in *; lia.
Qed.

(** ** Operation sequences on one ring *)

Inductive RingOp :=
| OpPush (e : RingEntry) | OpTryPop | OpPopBatch (n : nat) | OpClose.

(** What the operations return: the entries popped and the evictions counted. *)
Record RingTrace := mkRingTrace { rt_popped : list RingEntry; rt_dropped : Z }.

Definition Ring_exec (st : Ring * RingTrace) (o : RingOp) : Ring * RingTrace :=
  let '(r, tr) := st in
  match o with
  | OpPush e =>
      let '(_, d, r') := Ring_Push r e (Some (rt_dropped tr)) in
      (r', mkRingTrace (rt_popped tr) (default 0 d))
  | OpTryPop =>
      let '(oe, _, r') := Ring_TryPop r in
      (r', mkRingTrace (rt_popped tr ++ option_list oe) (rt_dropped tr))
  | OpPopBatch n =>
      let '(es, _, r') := Ring_WaitAndPopBatch r n in
      (r', mkRingTrace (rt_popped tr ++ es) (rt_dropped tr))
  | OpClose => (Ring_Close r, tr)
  end.

Definition Ring_exec_all (st : Ring * RingTrace) (os : list RingOp) : Ring * RingTrace :=
  fold_left Ring_exec os st.

Definition ring_pushed (os : list RingOp) : list RingEntry :=
  os ≫= (fun o => match o with OpPush e => [e] | _ => [] end).

Definition popped_of (r : list (removal * RingEntry)) : list RingEntry :=
  omap (fun x => match x with (Popped, e) => Some e | _ => None end) r.

Definition evicted_of (r : list (removal * RingEntry)) : list RingEntry :=
  omap (fun x => match x with (Evicted, e) => Some e | _ => None end) r.

Lemma popped_of_popped (es : list RingEntry) : popped_of ((Popped,.) <$> es) = es.
Proof. induction es as [|e es IH]; [done|]. by cbn; f_equal. Qed.

Lemma evicted_of_popped (es : list RingEntry) : evicted_of ((Popped,.) <$> es) = [].
Proof. by induction es. Qed.

Lemma snd_popped (es : list RingEntry) : ((Popped,.) <$> es).*2 = es.
Proof. induction es as [|e es IH]; [done|]. by cbn; f_equal. Qed.

(** One operation, as a conservation step. *)
Lemma Ring_exec_step r tr o :
  Ring_bounded r -> 0 <= rt_dropped tr < 2 ^ 64 ->
  let '(r', tr') := Ring_exec (r, tr) o in
  exists rem,
    Ring_bounded r' /\ capacity_ r' = capacity_ r /\
    q_ r ++ ring_pushed [o] = rem.*2 ++ q_ r' /\
    rt_popped tr' = rt_popped tr ++ popped_of rem /\
    rt_dropped tr' = u64 (rt_dropped tr + zlen (evicted_of rem)).
Proof.
  intros Hb Hd. destruct o as [e| |n|]; simpl.
  - pose proof (fifo_step_conserves r (FPush e) _ _ Hb eq_refl) as (Hb' & Hc & Hq & _).
    cbn in *. eexists. split_and!; [exact Hb'|done|exact Hq| |].
    + rewrite negb_involutive. case_test; [|by rewrite app_nil_r].
      destruct (q_ r); simpl; by rewrite app_nil_r.
    + rewrite negb_involutive. case_test; simpl.
      * destruct Hb. destruct (q_ r); simpl in *; [lia|done].
      * by rewrite Z.add_0_r, u64_small.
  - destruct (fifo_step r FPop) as [r1 rem] eqn:E.
    pose proof (fifo_step_conserves r FPop _ _ Hb E) as (Hb' & Hc & Hq & _).
    cbn in E. destruct (Ring_TryPop r) as [[oe nb] r2] eqn:Et. exists rem.
    unfold Ring_TryPop in Et. destruct (q_ r) as [|x l] eqn:Eq; simplify_eq/=.
    + rewrite Eq. rewrite Z.add_0_r, u64_small by done. by rewrite app_nil_r.
    + rewrite app_nil_r, Z.add_0_r, u64_small by done. by split_and!; auto.
  - pose proof (Ring_batch_is_pops r n Hb) as Hr.
    pose proof (fifo_run_conserves _ _ _ _ Hb Hr) as (Hb' & Hc & Hq).
    destruct (Ring_WaitAndPopBatch r n) as [[es nb] r1]. cbn [fst snd] in *.
    exists ((Popped,.) <$> es). rewrite popped_of_popped, evicted_of_popped.
    simpl. rewrite Z.add_0_r, u64_small by done. split_and!; auto; try apply Hb'.
    rewrite app_nil_r. rewrite snd_popped in *.
    assert (fifo_pushed (replicate n FPop) = ([] : list RingEntry)) as Hp.
    { clear. by induction n. }
    rewrite Hp, app_nil_r in Hq. done.
  - exists []. simpl. by rewrite !app_nil_r, Z.add_0_r, u64_small.
Qed.

Lemma ring_pushed_cons o os : ring_pushed (o :: os) = ring_pushed [o] ++ ring_pushed os.
Proof. unfold ring_pushed. change (o :: os) with ([o] ++ os). by rewrite bind_app. Qed.

Lemma Ring_exec_all_conserves os r tr :
  Ring_bounded r -> 0 <= rt_dropped tr < 2 ^ 64 ->
  let '(r', tr') := Ring_exec_all (r, tr) os in
  exists rem,
    Ring_bounded r' /\ capacity_ r' = capacity_ r /\
    q_ r ++ ring_pushed os = rem.*2 ++ q_ r' /\
    rt_popped tr' = rt_popped tr ++ popped_of rem /\
    rt_dropped tr' = u64 (rt_dropped tr + zlen (evicted_of rem)).
Proof.
  unfold Ring_exec_all. revert r tr. induction os as [|o os IH]; intros r tr Hb Hd.
  { exists []. cbn. by rewrite !app_nil_r, Z.add_0_r, u64_small. }
  cbn [fold_left]. pose proof (Ring_exec_step r tr o Hb Hd) as Hs.
  destruct (Ring_exec (r, tr) o) as [r1 tr1].
  destruct Hs as (rem1 & Hb1 & Hc1 & Hq1 & Hp1 & Hd1).
  assert (0 <= rt_dropped tr1 < 2 ^ 64) as Hd1' by (rewrite Hd1; apply u64_range).
  pose proof (IH r1 tr1 Hb1 Hd1') as IH'.
  destruct (fold_left Ring_exec os (r1, tr1)) as [r2 tr2].
  destruct IH' as (rem2 & Hb2 & Hc2 & Hq2 & Hp2 & Hd2).
  exists (rem1 ++ rem2). unfold popped_of, evicted_of in *.
  rewrite !omap_app, fmap_app, length_app.
  rewrite ring_pushed_cons, app_assoc, Hq1, <- app_assoc, Hq2, app_assoc.
  split_and!; try done; [congruence|by rewrite Hp2, Hp1, app_assoc|].
  rewrite Hd2, Hd1. unfold u64. rewrite Zplus_mod_idemp_l. f_equal. lia.
Qed.

Definition ring_start (cap : nat) : Ring * RingTrace := (Ring_new cap, mkRingTrace [] 0).

(** Conservation and FIFO order of a tier ring.  For every capacity and
    every sequence of pushes, pops, batch pops and closes on a fresh ring, what
    was pushed is, in push order, what left the ring followed by what is still
    in it; the entries the pop operations returned are the popped ones in that
    order, the drop counter counts the others, and the ring never holds more
    than its capacity. *)
Theorem Ring_conservation (cap : nat) (os : list RingOp) :
  let '(r, tr) := Ring_exec_all (ring_start cap) os in
  exists removed : list (removal * RingEntry),
    ring_pushed os = removed.*2 ++ q_ r /\
    rt_popped tr = popped_of removed /\
    rt_dropped tr = u64 (zlen (evicted_of removed)) /\
    (length (q_ r) <= Nat.max 1 cap)%nat.
Proof.
  pose proof (Ring_exec_all_conserves os (Ring_new cap) (mkRingTrace [] 0)
    (Ring_new_bounded cap) ltac:(simpl; lia)) as H.
  unfold ring_start. destruct (Ring_exec_all _ os) as [r tr].
  destruct H as (rem & [_ Hb] & Hc & Hq & Hp & Hd).
  exists rem. split_and!; auto. rewrite Hc in Hb. simpl in Hb. case_test; lia.
Qed.

(** ** The replay window *)

Lemma Ring_exec_max r tr o :
  max_seq_ever_pushed_ (Ring_exec (r, tr) o).1 =
    fold_left Z.max (seq <$> ring_pushed [o]) (max_seq_ever_pushed_ r).
Proof.
  destruct o as [e| |n|]; simpl.
  - case_test; lia.
  - unfold Ring_TryPop. by destruct (q_ r).
  - rewrite Ring_WaitAndPopBatch_spec. done.
  - done.
Qed.

Lemma Ring_exec_all_max os st :
  max_seq_ever_pushed_ (Ring_exec_all st os).1 =
    fold_left Z.max (seq <$> ring_pushed os) (max_seq_ever_pushed_ st.1).
Proof.
  unfold Ring_exec_all. revert st. induction os as [|o os IH]; intros [r tr]; [done|].
  cbn [fold_left]. rewrite IH, Ring_exec_max.
  by rewrite (ring_pushed_cons o os), fmap_app, fold_left_app.
Qed.

(** Sequence numbers in push order, as one producer allocates them. *)
Definition seqs_increasing (es : list RingEntry) : Prop :=
  StronglySorted (fun a b => seq a < seq b) es /\ Forall (fun e => 1 <= seq e < 2 ^ 64) es.

Lemma fold_max_ge l b : b <= fold_left Z.max l b /\ Forall (fun x => x <= fold_left Z.max l b) l.
Proof.
  revert b. induction l as [|x l IH]; intros b; simpl; [split; [lia|constructor]|].
  destruct (IH (Z.max b x)) as [H1 H2]. split; [lia|]. constructor; [lia|done].
Qed.

Lemma fold_max_in l b : fold_left Z.max l b = b \/ fold_left Z.max l b ∈ l.
Proof.
  revert b. induction l as [|x l IH]; intros b; simpl; [by left|].
  destruct (IH (Z.max b x)) as [H|H]; [|right; set_solver].
  rewrite H. destruct (Z.max_spec b x) as [[? ->]|[? ->]]; [right; set_solver|by left].
Qed.

Lemma sorted_split_lt (rem q : list RingEntry) :
  StronglySorted (fun a b => seq a < seq b) (rem ++ q) ->
  forall a b, a ∈ rem -> b ∈ q -> seq a < seq b.
Proof.
  induction rem as [|x rem IH]; intros Hs a b Ha Hb; [by inv Ha|].
  apply StronglySorted_inv in Hs as [Hs Hall]. inv Ha.
  - rewrite Forall_forall in Hall. apply Hall, elem_of_app. by right.
  - by apply IH.
Qed.

Section Window.
Context (r : Ring) (removed pushed : list RingEntry) (since : Z).
Context (Hsplit : pushed = removed ++ q_ r).
Context (Hinc : seqs_increasing pushed).
Context (Hmax : max_seq_ever_pushed_ r = fold_left Z.max (seq <$> pushed) 0).
Context (Hsince : 1 <= since < UINT64_MAX).

Lemma window_found :
  found_in_window (Ring_SnapshotFromSeq r since) = true ->
  Forall (fun e => seq e <= since) removed.
Proof using Hsplit Hinc Hmax Hsince.
  destruct Hinc as [Hs Hr]. intros Hf. apply Forall_forall. intros e He.
  unfold Ring_SnapshotFromSeq in Hf. destruct (q_ r) as [|f q] eqn:Eq.
  - rewrite app_nil_r in Hsplit.
    destruct (fold_max_ge (seq <$> pushed) 0) as [_ Hge].
    rewrite Forall_forall in Hge. rewrite Hsplit in Hge, Hr, Hmax.
    rewrite Forall_forall in Hr.
    pose proof (Hge (seq e) ltac:(apply list_elem_of_fmap; eauto)).
    pose proof (Hr e He).
    case_test; [|done]. apply orb_prop in E as [E|E]; b2p; lia.
  - rewrite (proj2 (Z.eqb_neq since 0)) in Hf by lia.
    rewrite u64_small in Hf by (unfold UINT64_MAX in *; lia).
    case_test; [done|]. rewrite Hsplit in Hs.
    pose proof (sorted_split_lt _ _ Hs e f He ltac:(set_solver)). lia.
Qed.

Lemma window_entries :
  found_in_window (Ring_SnapshotFromSeq r since) = true ->
  entries (Ring_SnapshotFromSeq r since) = filter (fun e => since < seq e) pushed.
Proof using Hsplit Hinc Hmax Hsince.
  intros Hf. pose proof (window_found Hf) as Hrem.
  rewrite Hsplit, filter_app, (filter_all_false _ removed).
  2: { eapply Forall_impl; [exact Hrem|]. simpl. lia. }
  unfold Ring_SnapshotFromSeq in *. destruct (q_ r) as [|f q] eqn:Eq.
  - by case_match.
  - rewrite (proj2 (Z.eqb_neq since 0)) in * by lia. by case_match.
Qed.
End Window.

Lemma Ring_exec_all_window cap os :
  let r := (Ring_exec_all (ring_start cap) os).1 in
  exists removed, ring_pushed os = removed ++ q_ r /\
    max_seq_ever_pushed_ r = fold_left Z.max (seq <$> ring_pushed os) 0.
Proof.
  cbn. pose proof (Ring_exec_all_conserves os (Ring_new cap) (mkRingTrace [] 0)
    (Ring_new_bounded cap) ltac:(simpl; lia)) as H.
  pose proof (Ring_exec_all_max os (ring_start cap)) as Hm.
  unfold ring_start in *. destruct (Ring_exec_all _ os) as [r tr].
  destruct H as (rem & _ & _ & Hq & _). by exists (rem.*2).
Qed.

Lemma filter_above_max es :
  Forall (fun e => 1 <= seq e < 2 ^ 64) es -> filter (fun e => UINT64_MAX < seq e) es = [].
Proof.
  intros H. apply filter_all_false. eapply Forall_impl; [exact H|]. unfold UINT64_MAX. simpl. lia.
Qed.

Lemma max_seq_zero es :
  Forall (fun e => 1 <= seq e < 2 ^ 64) es -> fold_left Z.max (seq <$> es) 0 = 0 <-> es = [].
Proof.
  intros H. split; [|by intros ->]. intros Hm. destruct es as [|e es]; [done|].
  destruct (fold_max_ge (seq <$> e :: es) 0) as [_ Hge]. rewrite Hm in Hge.
  apply Forall_cons in H as [H _]. cbn in Hge. apply Forall_cons in Hge as [Hge _]. lia.
Qed.

(** C15. A replay that is granted is complete.  On any ring reached from a
    fresh one by pushes with increasing sequence numbers and any pops and
    batch pops, and for every 64-bit [since] but zero, when
    [SnapshotFromSeq(since)] reports [found_in_window] the snapshot holds
    exactly the entries ever pushed with a sequence number above [since], in
    push order: none of them was popped or evicted.  Zero asks for no replay:
    the snapshot is empty, and refused exactly when the ring has been emptied
    after a push. *)
Theorem SnapshotFromSeq_complete (cap : nat) (os : list RingOp) (since : Z) :
  seqs_increasing (ring_pushed os) ->
  0 <= since < 2 ^ 64 ->
  let r := (Ring_exec_all (ring_start cap) os).1 in
  let snap := Ring_SnapshotFromSeq r since in
  (since <> 0 -> found_in_window snap = true ->
     entries snap = filter (fun e => since < seq e) (ring_pushed os)) /\
  (since = 0 -> entries snap = [] /\
     (found_in_window snap = false <-> q_ r = [] /\ ring_pushed os <> [])).
Proof.
  intros Hinc Hs r snap. destruct (Ring_exec_all_window cap os) as (rem & Hq & Hm). fold r in Hq, Hm.
  split.
  - intros H0 Hf. destruct (decide (since = UINT64_MAX)) as [->|Hn].
    + rewrite filter_above_max by apply Hinc. pose proof (proj2 Hinc) as Hr.
      rewrite Hq in Hr. apply Forall_app in Hr as [_ Hr]. unfold snap, Ring_SnapshotFromSeq in *.
      destruct (q_ r) as [|f q]; [by case_match|]. case_test; [done|]. case_test; [done|].
      by apply filter_above_max.
    + eapply window_entries; [exact Hq|exact Hinc|exact Hm| |exact Hf]. unfold UINT64_MAX in *. lia.
  - intros ->. pose proof (max_seq_zero _ (proj2 Hinc)) as Hz. rewrite <- Hm in Hz.
    unfold snap, Ring_SnapshotFromSeq. destruct (q_ r) as [|f q]; cbn [entries found_in_window].
    + destruct (max_seq_ever_pushed_ r =? 0) eqn:E; b2p; cbn.
      * split; [done|]. split; [done|]. intros [_ Hne]. by destruct Hne; apply Hz.
      * split; [by case_match|]. rewrite <- Hz. destruct (fold_max_ge (seq <$> ring_pushed os) 0) as [Hge _].
        rewrite <- Hm in Hge. case_test; cbn; [lia|]. by split.
    + cbn. split; [done|]. by split; [|intros [? _]].
Qed.

(** ... and refused only when something was lost. *)
Definition seqs_contiguous (es : list RingEntry) : Prop :=
  (seq <$> es) = (Z.of_nat ∘ S) <$> List.seq 0 (length es) /\ zlen es < 2 ^ 64.

Lemma seqs_contiguous_lookup es i e :
  seqs_contiguous es -> es !! i = Some e -> seq e = Z.of_nat (S i).
Proof.
  intros [H _] Hi. apply (f_equal (lookup i)) in H. rewrite !list_lookup_fmap, Hi in H.
  rewrite (lookup_seq_lt 0 (length es) i) in H by (eapply lookup_lt_Some; eauto).
  by simplify_eq/=.
Qed.

Lemma seqs_contiguous_increasing es : seqs_contiguous es -> seqs_increasing es.
Proof.
  intros H. split.
  - apply StronglySorted_of_lookup. intros i j a b Hi Hj Hlt.
    rewrite (seqs_contiguous_lookup _ _ _ H Hi), (seqs_contiguous_lookup _ _ _ H Hj). lia.
  - apply Forall_lookup. intros i e Hi. rewrite (seqs_contiguous_lookup _ _ _ H Hi).
    apply lookup_lt_Some in Hi. destruct H as [_ Hn]. lia.
Qed.

Lemma window_not_found (r : Ring) removed pushed since :
  pushed = removed ++ q_ r -> seqs_contiguous pushed ->
  max_seq_ever_pushed_ r = fold_left Z.max (seq <$> pushed) 0 ->
  1 <= since < UINT64_MAX ->
  found_in_window (Ring_SnapshotFromSeq r since) = false ->
  exists e, e ∈ pushed /\ since < seq e /\ e ∉ q_ r.
Proof.
  intros Hsplit Hc Hmax Hs Hf. pose proof (seqs_contiguous_increasing _ Hc) as [Hso Hr].
  unfold Ring_SnapshotFromSeq in Hf. destruct (q_ r) as [|f q] eqn:Eq.
  - case_test; [done|]. destruct (fold_max_in (seq <$> pushed) 0) as [Hz|Hin]; [lia|].
    rewrite <- Hmax in Hin. apply list_elem_of_fmap in Hin as (e & He & Hin).
    exists e. split_and!; [done|lia|set_solver].
  - rewrite (proj2 (Z.eqb_neq since 0)) in Hf by lia. unfold UINT64_MAX in Hs.
    rewrite u64_small in Hf by lia. case_test; [|done].
    assert (pushed !! length removed = Some f) as Hl.
    { rewrite Hsplit, lookup_app_r, Nat.sub_diag by lia. done. }
    pose proof (seqs_contiguous_lookup _ _ _ Hc Hl) as Hsf.
    destruct (lookup_lt_is_Some_2 removed (Z.to_nat since)) as [e He]; [lia|].
    assert (pushed !! Z.to_nat since = Some e) as Hp.
    { rewrite Hsplit. by apply lookup_app_l_Some. }
    pose proof (seqs_contiguous_lookup _ _ _ Hc Hp) as Hse.
    exists e. split_and!; [by eapply list_elem_of_lookup_2|lia|].
    intros Hin. rewrite Hsplit in Hso.
    pose proof (sorted_split_lt _ _ Hso e e ltac:(by eapply list_elem_of_lookup_2) Hin). lia.
Qed.

(** The replay window is exact when the tier's sequence numbers have no
    gaps (the k-th push carries sequence number k): [SnapshotFromSeq(since)]
    reports [found_in_window] if and only if every entry ever pushed above
    [since] is still resident. *)
Theorem SnapshotFromSeq_exact (cap : nat) (os : list RingOp) (since : Z) :
  seqs_contiguous (ring_pushed os) ->
  1 <= since < UINT64_MAX ->
  let r := (Ring_exec_all (ring_start cap) os).1 in
  found_in_window (Ring_SnapshotFromSeq r since) = true <->
  (forall e, e ∈ ring_pushed os -> since < seq e -> e ∈ q_ r).
Proof.
  intros Hc Hs r. destruct (Ring_exec_all_window cap os) as (rem & Hq & Hm). split.
  - intros Hf e He Hlt.
    pose proof (window_found _ _ _ _ Hq (seqs_contiguous_increasing _ Hc) Hm Hs Hf) as Hrem.
    rewrite Hq in He. apply elem_of_app in He as [He|He]; [|done].
    rewrite Forall_forall in Hrem. apply Hrem in He. lia.
  - intros Hall. destruct (found_in_window _) eqn:Hf; [done|].
    destruct (window_not_found _ _ _ _ Hq Hc Hm Hs Hf) as (e & He & Hlt & Hn).
    by destruct (Hn (Hall e He Hlt)).
Qed.

(** ** Witnesses *)

Definition ring_demo_entry (k : Z) : RingEntry := mkRingEntry k (Some "bytes"%string).

(** Capacity 3, five pushes (two evictions), one pop: 4 and 5 are resident. *)
Definition ring_demo_ops : list RingOp :=
  (OpPush ∘ ring_demo_entry) <$> [1; 2; 3; 4; 5].

Lemma SnapshotFromSeq_complete_witness :
  entries (Ring_SnapshotFromSeq (Ring_exec_all (ring_start 3) (ring_demo_ops ++ [OpTryPop])).1 3)
  = [ring_demo_entry 4; ring_demo_entry 5].
Proof.
  assert (seqs_increasing (ring_pushed (ring_demo_ops ++ [OpTryPop]))) as Hi.
  { apply seqs_contiguous_increasing. split; [reflexivity|]. vm_compute. reflexivity. }
  destruct (SnapshotFromSeq_complete 3 (ring_demo_ops ++ [OpTryPop]) 3 Hi ltac:(lia)) as [H _].
  rewrite (H ltac:(lia) ltac:(reflexivity)). reflexivity.
Defined.

Lemma SnapshotFromSeq_exact_witness :
  found_in_window
    (Ring_SnapshotFromSeq (Ring_exec_all (ring_start 3) (ring_demo_ops ++ [OpTryPop])).1 2) = true
  <-> (forall e, e ∈ ring_pushed (ring_demo_ops ++ [OpTryPop]) -> 2 < seq e ->
       e ∈ q_ (Ring_exec_all (ring_start 3) (ring_demo_ops ++ [OpTryPop])).1).
Proof.
  apply (SnapshotFromSeq_exact 3 (ring_demo_ops ++ [OpTryPop]) 2).
  - split; [reflexivity|]. vm_compute. reflexivity.
  - unfold UINT64_MAX. lia.
Defined.
