(* ===== verification/RingSet.v ===== *)
(** * The set of tier rings and its drain wait

    [src/events/ring_set.cc] and [include/osw/events/binder.h] (class
    [RingSet]): the three rings, the drain generation counter their notifiers
    bump, and [WaitUntilAllEmpty] as a program counter that interleaves with the
    other threads.  [AllEmpty] takes the three ring locks one after the other,
    so each [Size()] read is a step of its own. *)

From S2P Require Import Prelude BoundedQueue Tier Ring.

Record RingSet := mkRingSet {
  tier1_ : Ring;
  tier2_ : Ring;
  tier3_ : Ring;
  drain_generation_ : Z }.

Definition RingSet_new (cap1 cap2 cap3 : nat) : RingSet :=
  mkRingSet (Ring_SetDrainNotifier (Ring_new cap1) true)
            (Ring_SetDrainNotifier (Ring_new cap2) true)
            (Ring_SetDrainNotifier (Ring_new cap3) true) 0.

Definition RingSet_Get (rs : RingSet) (t : Tier) : option Ring :=
  match t with
  | k1Critical => Some (tier1_ rs)
  | k2State => Some (tier2_ rs)
  | k3Ephemeral => Some (tier3_ rs)
  | kUnspecified => None
  end.

(** A write through the pointer [Get] returned. *)
Definition RingSet_put (rs : RingSet) (t : Tier) (r : Ring) : RingSet :=
  match t with
  | k1Critical => mkRingSet r (tier2_ rs) (tier3_ rs) (drain_generation_ rs)
  | k2State => mkRingSet (tier1_ rs) r (tier3_ rs) (drain_generation_ rs)
  | k3Ephemeral => mkRingSet (tier1_ rs) (tier2_ rs) r (drain_generation_ rs)
  | kUnspecified => rs
  end.

Definition NotifyDrainTransition (rs : RingSet) : RingSet :=
  mkRingSet (tier1_ rs) (tier2_ rs) (tier3_ rs) (drain_generation_ rs +u64 1).

Definition RingSet_CloseAll (rs : RingSet) : RingSet :=
  NotifyDrainTransition
    (mkRingSet (Ring_Close (tier1_ rs)) (Ring_Close (tier2_ rs)) (Ring_Close (tier3_ rs))
               (drain_generation_ rs)).

Definition RingSet_AllEmpty (rs : RingSet) : bool :=
  (Ring_Size (tier1_ rs) =? 0)%nat && (Ring_Size (tier2_ rs) =? 0)%nat &&
  (Ring_Size (tier3_ rs) =? 0)%nat.

(** [Get(t)->Push(entry, &dropped)]. *)
Definition RingSet_Push (rs : RingSet) (t : Tier) (e : RingEntry) (dropped : option Z)
  : option Z * RingSet :=
  match RingSet_Get rs t with
  | None => (dropped, rs)
  | Some r => let '(_, d, r') := Ring_Push r e dropped in (d, RingSet_put rs t r')
  end.

(** [Get(t)->WaitAndPopBatch(n, ...)]: the ring's drain notifier is
    [NotifyDrainTransition]. *)
Definition RingSet_PopBatch (rs : RingSet) (t : Tier) (n : nat) : list RingEntry * RingSet :=
  match RingSet_Get rs t with
  | None => ([], rs)
  | Some r =>
      let '(es, notified, r') := Ring_WaitAndPopBatch r n in
      let rs' := RingSet_put rs t r' in
      (es, if notified then NotifyDrainTransition rs' else rs')
  end.

(** ** [WaitUntilAllEmpty] as a thread *)

Inductive WaitPc :=
| WCheck (i : nat)           (* in the loop's [AllEmpty()], about to read ring [i] *)
| WSnapshot                  (* about to lock [drain_mu_] and read the generation *)
| WWaiting (seen : Z)        (* inside [wait_until] *)
| WFinal (i : nat)           (* timed out: in the last [AllEmpty()] *)
| WDone (result : bool).

#[export] Instance WaitPc_eq_dec : EqDecision WaitPc.
Proof. solve_decision. Defined.

Definition ring_at (rs : RingSet) (i : nat) : Ring :=
  match i with O => tier1_ rs | S O => tier2_ rs | _ => tier3_ rs end.

(** [past_deadline]: the steady clock has reached [deadline] when the thread is
    scheduled inside [wait_until]; the generation predicate is read first. *)
Definition WaitUntilAllEmpty_step (rs : RingSet) (pc : WaitPc) (past_deadline : bool) : WaitPc :=
  match pc with
  | WCheck i =>
      if (Ring_Size (ring_at rs i) =? 0)%nat
      then if (i =? 2)%nat then WDone true else WCheck (S i)
      else WSnapshot
  | WSnapshot => WWaiting (drain_generation_ rs)
  | WWaiting seen =>
      if negb (drain_generation_ rs =? seen) then WCheck 0
      else if past_deadline then WFinal 0 else WWaiting seen
  | WFinal i =>
      if (Ring_Size (ring_at rs i) =? 0)%nat
      then if (i =? 2)%nat then WDone true else WFinal (S i)
      else WDone false
  | WDone b => WDone b
  end.

(** The other threads' operations on the set, and the waiter's steps. *)
Inductive RsLabel :=
| RsPush (t : Tier) (e : RingEntry)
| RsPopBatch (t : Tier) (n : nat)
| RsCloseAll
| RsWaiter (past_deadline : bool).

Definition RingSet_op (rs : RingSet) (l : RsLabel) : RingSet :=
  match l with
  | RsPush t e => (RingSet_Push rs t e None).2
  | RsPopBatch t n => (RingSet_PopBatch rs t n).2
  | RsCloseAll => RingSet_CloseAll rs
  | RsWaiter _ => rs
  end.

Definition rs_step (st : RingSet * WaitPc) (l : RsLabel) : RingSet * WaitPc :=
  match l with
  | RsWaiter past => (st.1, WaitUntilAllEmpty_step st.1 st.2 past)
  | _ => (RingSet_op st.1 l, st.2)
  end.

Definition rs_run (st : RingSet * WaitPc) (ls : list RsLabel) : RingSet * WaitPc :=
  fold_left rs_step ls st.

(** ** What [AllEmpty] reads *)

Definition rings_empty (rs : RingSet) (n : nat) : Prop :=
  forall i, (i < n)%nat -> q_ (ring_at rs i) = [].

Lemma Ring_Size_0 r : (Ring_Size r =? 0)%nat = true <-> q_ r = [].
Proof. unfold Ring_Size. rewrite Nat.eqb_eq. apply length_zero_iff_nil. Qed.

Lemma rings_empty_S rs i :
  rings_empty rs i -> q_ (ring_at rs i) = [] -> rings_empty rs (S i).
Proof. intros H Hi j Hj. destruct (decide (j = i)) as [->|]; [done|]. apply H. lia. Qed.

Lemma RingSet_AllEmpty_spec rs : RingSet_AllEmpty rs = true <-> rings_empty rs 3.
Proof.
  unfold RingSet_AllEmpty, rings_empty. rewrite !andb_true_iff, !Ring_Size_0. split.
  - intros [[H1 H2] H3] [|[|[|i]]] Hi; simpl; [done|done|done|lia].
  - intros H. pose proof (H 0%nat). pose proof (H 1%nat). pose proof (H 2%nat).
    simpl in *. auto with lia.
Qed.

(** Without a push an empty ring stays empty. *)
Lemma RingSet_op_keeps_empty rs l i :
  (forall t e, l <> RsPush t e) -> q_ (ring_at rs i) = [] ->
  q_ (ring_at (RingSet_op rs l) i) = [].
Proof.
  intros Hl Hq. destruct l as [t e|t n| |b]; [by destruct (Hl t e)| | |done].
  - simpl. unfold RingSet_PopBatch. destruct t; cbn -[Ring_WaitAndPopBatch]; [done| | |];
      rewrite Ring_WaitAndPopBatch_spec; cbn [fst snd];
      destruct i as [|[|i]]; simpl in Hq |- *; case_match; simpl; rewrite ?Hq, ?drop_nil; done.
  - by destruct i as [|[|i]].
Qed.

(** ** Soundness of the result *)

Definition wait_inv (rs : RingSet) (pc : WaitPc) (timed_out : bool) : Prop :=
  match pc with
  | WCheck i => (i <= 2)%nat /\ rings_empty rs i
  | WFinal i => (i <= 2)%nat /\ rings_empty rs i /\ timed_out = true
  | WDone true => rings_empty rs 3
  | WDone false => timed_out = true
  | _ => True
  end.

Definition label_timed_out (l : RsLabel) : bool :=
  match l with RsWaiter b => b | _ => false end.

Lemma wait_inv_step rs pc b l :
  (forall t e, l <> RsPush t e) -> wait_inv rs pc b ->
  wait_inv (rs_step (rs, pc) l).1 (rs_step (rs, pc) l).2 (b || label_timed_out l).
Proof.
  intros Hl Hi. assert (forall n, rings_empty rs n -> rings_empty (RingSet_op rs l) n) as Hk.
  { intros n He i Hlt. by apply RingSet_op_keeps_empty, He. }
  destruct l as [t e|t n| |past]; [by destruct (Hl t e)| | |]; cbn -[RingSet_op] in *.
  1,2: rewrite orb_false_r; destruct pc as [i| |s|i|[|]]; simpl in *; naive_solver.
  destruct pc as [i| |s|i|r]; simpl in *; try done.
  - destruct Hi as [Hle He]. destruct (_ =? 0)%nat eqn:E; [|done].
    apply Ring_Size_0 in E. pose proof (rings_empty_S _ _ He E).
    case_test; [by subst|split; [lia|done]].
  - case_test; [split; [lia|intros j Hj; lia]|]. destruct past; [|done].
    rewrite orb_true_r. split_and!; [lia|intros j Hj; lia|done].
  - destruct Hi as (Hle & He & ->). destruct (_ =? 0)%nat eqn:E; [|done].
    apply Ring_Size_0 in E. pose proof (rings_empty_S _ _ He E).
    case_test; [by subst|split_and!; [lia|done|done]].
  - destruct r; [done|]. by rewrite Hi.
Qed.

Lemma wait_inv_run ls rs pc b :
  Forall (fun l => forall t e, l <> RsPush t e) ls -> wait_inv rs pc b ->
  wait_inv (rs_run (rs, pc) ls).1 (rs_run (rs, pc) ls).2 (b || existsb label_timed_out ls).
Proof.
  intros Hls. revert rs pc b. induction Hls as [|l ls Hl Hls IH]; intros rs pc b Hi.
  { simpl. by rewrite orb_false_r. }
  cbn [rs_run fold_left existsb]. rewrite orb_assoc.
  pose proof (wait_inv_step rs pc b l Hl Hi) as Hi'.
  destruct (rs_step (rs, pc) l) as [rs' pc']. by apply IH.
Qed.

(** [WaitUntilAllEmpty] tells the truth about a drain.  With the producers
    stopped, however the broadcaster's pops, ring closes and the waiter's own
    steps interleave, when the wait has returned true all three rings are empty
    (and stay so), and it returns false only after the deadline passed. *)
Theorem WaitUntilAllEmpty_sound (rs : RingSet) (ls : list RsLabel) (result : bool) :
  Forall (fun l => forall t e, l <> RsPush t e) ls ->
  (rs_run (rs, WCheck 0) ls).2 = WDone result ->
  if result then RingSet_AllEmpty (rs_run (rs, WCheck 0) ls).1 = true
  else exists l, l ∈ ls /\ l = RsWaiter true.
Proof.
  intros Hls Hd. pose proof (wait_inv_run ls rs (WCheck 0) false Hls) as Hi.
  rewrite Hd in Hi. simpl in Hi. destruct result.
  - apply RingSet_AllEmpty_spec, Hi. split; [lia|intros j Hj; lia].
  - assert (existsb label_timed_out ls = true) as He.
    { apply Hi. split; [lia|intros j Hj; lia]. }
    apply existsb_exists in He as (l & Hin & Hl). exists l.
    split; [by apply list_elem_of_In|]. by destruct l as [| | |[|]].
Qed.

Definition drain_demo : RingSet :=
  (RingSet_Push (RingSet_new 4 4 4) k2State (mkRingEntry 1 None) None).2.

Lemma WaitUntilAllEmpty_sound_witness :
  RingSet_AllEmpty
    (rs_run (drain_demo, WCheck 0)
       [RsWaiter false; RsWaiter false; RsWaiter false; RsCloseAll; RsWaiter false;
        RsPopBatch k2State 64; RsWaiter false; RsWaiter false; RsWaiter false]).1 = true.
Proof.
  apply (WaitUntilAllEmpty_sound drain_demo _ true).
  - by repeat constructor.
  - reflexivity.
Defined.

(** ** Wake-ups *)

Definition notifiers_set (rs : RingSet) : Prop :=
  forall i, drain_notifier_ (ring_at rs i) = true.

Lemma RingSet_op_notifiers rs l : notifiers_set rs -> notifiers_set (RingSet_op rs l).
Proof.
  intros H i. pose proof (H i) as Hi. destruct l as [[] e|[] n| |b];
    cbn -[Ring_WaitAndPopBatch]; rewrite ?Ring_WaitAndPopBatch_spec;
    cbn [fst snd]; repeat case_match; destruct i as [|[|i]]; simpl in *; done.
Qed.

(** How far one operation advances the generation. *)
Definition drain_steps (rs : RingSet) (l : RsLabel) : Z :=
  match l with
  | RsPopBatch t n =>
      match RingSet_Get rs t with
      | Some r => if (Ring_WaitAndPopBatch r n).1.2 then 1 else 0 | None => 0 end
  | RsCloseAll => 1
  | _ => 0
  end.

Lemma drain_steps_generation rs l :
  0 <= drain_generation_ rs < 2 ^ 64 ->
  drain_generation_ (RingSet_op rs l) = u64 (drain_generation_ rs + drain_steps rs l).
Proof.
  intros Hg. destruct l as [t e|t n| |b]; simpl.
  - rewrite Z.add_0_r, u64_small by done. by destruct t.
  - unfold RingSet_PopBatch. destruct (RingSet_Get rs t) as [r|] eqn:Er.
    + destruct (Ring_WaitAndPopBatch r n) as [[es [|]] r']; simpl; destruct t; simpl; try done;
        by rewrite Z.add_0_r, u64_small.
    + simpl. by rewrite Z.add_0_r, u64_small.
  - done.
  - by rewrite Z.add_0_r, u64_small.
Qed.

Lemma drain_steps_bound rs l : 0 <= drain_steps rs l <= 1.
Proof. destruct l; simpl; repeat case_match; lia. Qed.

(** An operation that does not advance it leaves a non-empty ring non-empty. *)
Lemma drain_steps_keeps rs l i :
  notifiers_set rs -> drain_steps rs l = 0 ->
  q_ (ring_at rs i) <> [] -> q_ (ring_at (RingSet_op rs l) i) <> [].
Proof.
  intros Hn Hz Hq. pose proof (Hn i) as Hni. destruct l as [t e|t n| |b]; [| |done|done].
  - destruct t; simpl; [done| | |]; destruct i as [|[|i]]; simpl; try done;
      by intros []%app_nil.
  - simpl in *. unfold RingSet_PopBatch. destruct t; simpl in Hz |- *; [done| | |];
      rewrite Ring_WaitAndPopBatch_spec in *; cbn [fst snd] in *;
      destruct i as [|[|i]]; simpl in *; repeat case_match; simpl in *; try done; by try congruence.
Qed.

Lemma drain_run_generation ls rs :
  Forall (fun l => forall b, l <> RsWaiter b) ls ->
  notifiers_set rs -> 0 <= drain_generation_ rs < 2 ^ 64 ->
  exists k, 0 <= k <= zlen ls /\
    drain_generation_ (fold_left RingSet_op ls rs) = u64 (drain_generation_ rs + k) /\
    (k = 0 -> forall i, q_ (ring_at rs i) <> [] -> q_ (ring_at (fold_left RingSet_op ls rs) i) <> []).
Proof.
  intros Hls. revert rs. induction Hls as [|l ls Hl Hls IH]; intros rs Hn Hg.
  { exists 0. simpl. rewrite Z.add_0_r, u64_small by done. split_and!; [lia|lia|done|done]. }
  pose proof (drain_steps_generation rs l Hg) as Hg1.
  pose proof (drain_steps_bound rs l) as Hb.
  destruct (IH (RingSet_op rs l)) as (k & Hk & Hgk & Hkeep).
  - by apply RingSet_op_notifiers.
  - rewrite Hg1. apply u64_range.
  - exists (drain_steps rs l + k). cbn [fold_left]. split_and!; [lia|simpl; lia| |].
    + rewrite Hgk, Hg1. unfold u64. rewrite Zplus_mod_idemp_l. f_equal. lia.
    + intros Hz i Hi. apply Hkeep; [lia|]. by apply drain_steps_keeps; [|lia|].
Qed.

Lemma rs_run_ops ls rs pc :
  Forall (fun l => forall b, l <> RsWaiter b) ls ->
  rs_run (rs, pc) ls = (fold_left RingSet_op ls rs, pc).
Proof.
  intros Hls. revert rs. induction Hls as [|l ls Hl Hls IH]; intros rs; [done|].
  cbn [rs_run fold_left]. rewrite <- IH. unfold rs_run. f_equal.
  destruct l as [| | |b]; try done. by destruct (Hl b).
Qed.

(** C32. No wake-up is lost once the generation was sampled over a non-empty
    set.  If a ring holds an entry when the waiter enters [wait_until], then
    after any operations of the other threads (fewer than 2^64) that leave all
    rings empty, the waiter's next four steps return true, whatever the
    clock says. *)
Theorem drain_wakes_waiter (rs : RingSet) (ls : list RsLabel) (i : nat) (late : bool) :
  notifiers_set rs -> 0 <= drain_generation_ rs < 2 ^ 64 ->
  q_ (ring_at rs i) <> [] ->
  Forall (fun l => forall b, l <> RsWaiter b) ls -> zlen ls < 2 ^ 64 ->
  RingSet_AllEmpty (fold_left RingSet_op ls rs) = true ->
  (rs_run (rs, WWaiting (drain_generation_ rs)) (ls ++ replicate 4 (RsWaiter late))).2 = WDone true.
Proof.
  intros Hn Hg Hi Hls Hlen He.
  destruct (drain_run_generation ls rs Hls Hn Hg) as (k & Hk & Hgk & Hkeep).
  apply RingSet_AllEmpty_spec in He.
  assert (k <> 0) as Hk0.
  { intros ->. assert (q_ (ring_at (fold_left RingSet_op ls rs) i) = []) as Hx; [|by eapply Hkeep].
    destruct i as [|[|i]]; [apply (He 0%nat)|apply (He 1%nat)|apply (He 2%nat)]; lia. }
  unfold rs_run. rewrite fold_left_app. change (fold_left rs_step ls ?x) with (rs_run x ls).
  rewrite rs_run_ops by done. set (rs' := fold_left RingSet_op ls rs) in *.
  assert ((drain_generation_ rs' =? drain_generation_ rs) = false) as Hne.
  { apply Z.eqb_neq. rewrite Hgk. unfold u64. intros Hc.
    rewrite Z.mod_eq in Hc by lia.
    assert (0 < (drain_generation_ rs + k) / 2 ^ 64 < 1 \/ (drain_generation_ rs + k) / 2 ^ 64 <= 0
      \/ 1 <= (drain_generation_ rs + k) / 2 ^ 64) as [?|[?|?]] by lia; lia. }
  pose proof (He 0%nat ltac:(lia)) as E0. pose proof (He 1%nat ltac:(lia)) as E1.
  pose proof (He 2%nat ltac:(lia)) as E2.
  apply Ring_Size_0 in E0, E1, E2. cbn -[Ring_Size Nat.eqb]. rewrite Hne. cbn -[Ring_Size Nat.eqb].
  cbn -[Ring_Size Nat.eqb] in E0, E1, E2. rewrite E0. cbn -[Ring_Size Nat.eqb].
  change (0 =? 2)%nat with false. cbn -[Ring_Size Nat.eqb]. rewrite E1.
  change (1 =? 2)%nat with false. cbn -[Ring_Size Nat.eqb]. by rewrite E2.
Qed.

Lemma drain_wakes_waiter_witness :
  (rs_run (drain_demo, WWaiting 0) ([RsPopBatch k2State 64] ++ replicate 4 (RsWaiter true))).2
  = WDone true.
Proof.
  apply (drain_wakes_waiter drain_demo [RsPopBatch k2State 64] 1 true).
  - by intros [|[|i]].
  - vm_compute. by split.
  - done.
  - by repeat constructor.
  - done.
  - reflexivity.
Defined.

(** The window before the sample.  The wait's [AllEmpty()] runs before the
    generation is read, so a drain that completes in between is not seen: the
    rings are empty, the waiter sleeps, and without a further drain transition
    every step before the deadline leaves it asleep.  (The comment on
    [drain_mu_] in [binder.h] says that a drain-empty transition is never
    missed.) *)
Theorem drain_transition_missed :
  exists rs ls,
    rs_run (rs, WCheck 0) ls = ((rs_run (rs, WCheck 0) ls).1, WWaiting 1) /\
    RingSet_AllEmpty (rs_run (rs, WCheck 0) ls).1 = true /\
    (forall n, (rs_run (rs, WCheck 0) (ls ++ replicate n (RsWaiter false))).2 = WWaiting 1).
Proof.
  exists drain_demo.
  exists [RsWaiter false; RsWaiter false; RsPopBatch k2State 64; RsWaiter false].
  split_and!; [reflexivity|reflexivity|].
  intros n. unfold rs_run. rewrite fold_left_app. induction n as [|n IH]; [done|].
  replace (S n) with (n + 1)%nat by lia. rewrite replicate_add, fold_left_app.
  destruct (fold_left rs_step (replicate n _) _) as [rs pc] eqn:E. cbn [snd] in IH. subst pc.
  assert (drain_generation_ rs = 1) as Hg; [|cbn; by rewrite Hg].
  assert (forall m st, (fold_left rs_step (replicate m (RsWaiter false)) st).1 = st.1) as Hs.
  { clear. induction m as [|m IH]; intros st; [done|]. cbn. by rewrite IH. }
  apply (f_equal fst) in E. rewrite Hs in E. cbn [fst] in E. by rewrite <- E.
Qed.
