(* ===== verification/Routing.v ===== *)
(** * The routing-field scanner

    [src/events/subscribe/routing.cc]: a hand-written scanner of the protobuf
    wire format that picks the four fields a subscriber filter needs out of a
    serialised [EventEnvelope].  The pointer pair [p]/[end] is the suffix of the
    byte string still to be read.  The round trip is against the wire format
    itself, [encode_message], for messages with arbitrary fields. *)

From S2P Require Import Prelude Tier.

Record RoutingFields := mkRoutingFields {
  rf_tier : Tier;
  rf_event_name : string;
  rf_subclass_name : string;
  rf_node_id : string }.

Definition RoutingFields_default : RoutingFields := mkRoutingFields kUnspecified "" "" "".

(** The loop of [ReadVarint]; a failed read is always followed by leaving the
    caller's loop, so [p] is not returned then. *)
Fixpoint ReadVarint_loop (p : string) (shift out : Z) : option (Z * string) :=
  match p with
  | EmptyString => None
  | String c p' =>
      let b := byte_of c in
      let out := Z.lor out (u64 (Z.shiftl (Z.land b 0x7F) shift)) in
      if Z.land b 0x80 =? 0 then Some (out, p')
      else if 64 <=? shift + 7 then None
      else ReadVarint_loop p' (shift + 7) out
  end.

Definition ReadVarint (p : string) : option (Z * string) := ReadVarint_loop p 0 0.

Definition SkipField (p : string) (wire_type : Z) : option string :=
  if wire_type =? 0 then snd <$> ReadVarint p
  else if wire_type =? 1 then (if zsize p <? 8 then None else Some (string_skip 8 p))
  else if wire_type =? 2 then
    match ReadVarint p with
    | None => None
    | Some (len, p) => if zsize p <? len then None else Some (string_skip (Z.to_nat len) p)
    end
  else if wire_type =? 5 then (if zsize p <? 4 then None else Some (string_skip 4 p))
  else None.

(** [switch (v)] on the tier varint. *)
Definition tier_of_varint (v : Z) : Tier :=
  if v =? 1 then k1Critical else if v =? 2 then k2State
  else if v =? 3 then k3Ephemeral else kUnspecified.

(** A length-delimited field: its bytes and the rest. *)
Definition ReadBytes (p : string) : option (string * string) :=
  match ReadVarint p with
  | None => None
  | Some (len, p) =>
      if zsize p <? len then None
      else Some (string_take (Z.to_nat len) p, string_skip (Z.to_nat len) p)
  end.

Definition set_rf_tier t rf := mkRoutingFields t (rf_event_name rf) (rf_subclass_name rf) (rf_node_id rf).
Definition set_rf_event_name s rf := mkRoutingFields (rf_tier rf) s (rf_subclass_name rf) (rf_node_id rf).
Definition set_rf_subclass_name s rf := mkRoutingFields (rf_tier rf) (rf_event_name rf) s (rf_node_id rf).
Definition set_rf_node_id s rf := mkRoutingFields (rf_tier rf) (rf_event_name rf) (rf_subclass_name rf) s.

(** One iteration of the scan: [None] is the [break]. *)
Definition extract_step (p : string) (rf : RoutingFields) : option (string * RoutingFields) :=
  match ReadVarint p with
  | None => None
  | Some (key, p) =>
      let field_num := i32 (Z.shiftr key 3) in
      let wire_type := i32 (Z.land key 0x7) in
      if (field_num =? 2) && (wire_type =? 0) then
        match ReadVarint p with
        | None => None | Some (v, p) => Some (p, set_rf_tier (tier_of_varint v) rf) end
      else if (field_num =? 3) && (wire_type =? 2) then
        match ReadBytes p with
        | None => None | Some (s, p) => Some (p, set_rf_event_name s rf) end
      else if (field_num =? 4) && (wire_type =? 2) then
        match ReadBytes p with
        | None => None | Some (s, p) => Some (p, set_rf_subclass_name s rf) end
      else if (field_num =? 5) && (wire_type =? 2) then
        match ReadBytes p with
        | None => None | Some (s, p) => Some (p, set_rf_node_id s rf) end
      else
        match SkipField p wire_type with
        | None => None | Some p => Some (p, rf) end
  end.

(** [while (p < end)]; every iteration reads at least the key byte, so the
    length of the input bounds the iterations ([extract_loop_fuel]). *)
Fixpoint extract_loop (fuel : nat) (p : string) (rf : RoutingFields) : RoutingFields :=
  match fuel with
  | O => rf
  | S fuel =>
      if string_empty p then rf
      else match extract_step p rf with
           | None => rf
           | Some (p, rf) => extract_loop fuel p rf
           end
  end.

Definition ExtractRoutingFields (bytes : string) : RoutingFields :=
  extract_loop (String.length bytes) bytes RoutingFields_default.

(** ** Progress: the fuel is enough *)

Lemma ReadVarint_loop_progress p shift out v p' :
  ReadVarint_loop p shift out = Some (v, p') -> (String.length p' < String.length p)%nat.
Proof.
  revert shift out. induction p as [|c p IH]; intros shift out H; simpl in *; [done|].
  case_test; [simplify_eq; lia|]. case_test; [done|]. apply IH in H. lia.
Qed.

Lemma ReadVarint_progress p v p' :
  ReadVarint p = Some (v, p') -> (String.length p' < String.length p)%nat.
Proof. apply ReadVarint_loop_progress. Qed.

Lemma ReadBytes_progress p s p' :
  ReadBytes p = Some (s, p') -> (String.length p' < String.length p)%nat.
Proof.
  unfold ReadBytes. destruct (ReadVarint p) as [[len q]|] eqn:E; [|done].
  apply ReadVarint_progress in E. case_test; [done|]. intros [= _ <-].
  rewrite string_skip_length. lia.
Qed.

Lemma SkipField_progress p w p' :
  SkipField p w = Some p' -> (String.length p' <= String.length p)%nat.
Proof.
  unfold SkipField. intros H. destruct (ReadVarint p) as [[v q]|] eqn:E;
    [apply ReadVarint_progress in E|]; repeat case_match; simplify_option_eq;
    rewrite ?string_skip_length; lia.
Qed.

Lemma extract_step_progress p rf p' rf' :
  extract_step p rf = Some (p', rf') -> (String.length p' < String.length p)%nat.
Proof.
  unfold extract_step. destruct (ReadVarint p) as [[key q]|] eqn:E; [|done].
  apply ReadVarint_progress in E. intros H.
  repeat case_match; simplify_eq;
    repeat match goal with
    | H : ReadVarint _ = Some _ |- _ => apply ReadVarint_progress in H
    | H : ReadBytes _ = Some _ |- _ => apply ReadBytes_progress in H
    | H : SkipField _ _ = Some _ |- _ => apply SkipField_progress in H
    end; lia.
Qed.

Lemma extract_loop_fuel f g p rf :
  (String.length p <= f)%nat -> (String.length p <= g)%nat ->
  extract_loop f p rf = extract_loop g p rf.
Proof.
  revert g p rf. induction f as [|f IH]; intros g p rf Hf Hg.
  { destruct p; [|simpl in Hf; lia]. by destruct g. }
  destruct g as [|g]. { destruct p; [done|simpl in Hg; lia]. }
  simpl. case_test; [done|]. destruct (extract_step p rf) as [[p' rf']|] eqn:Es; [|done].
  apply extract_step_progress in Es. apply IH; lia.
Qed.

(** ** The wire format *)

Inductive wire_field :=
| WVarint (num : Z) (v : Z)
| WFixed64 (num : Z) (bytes : string)
| WLen (num : Z) (bytes : string)
| WFixed32 (num : Z) (bytes : string).

Fixpoint encode_varint_fuel (fuel : nat) (v : Z) : string :=
  match fuel with
  | O => EmptyString
  | S fuel =>
      if v <? 128 then String (char_of v) EmptyString
      else String (char_of (v mod 128 + 128)) (encode_varint_fuel fuel (v / 128))
  end.

(** A 64-bit varint takes at most ten bytes. *)
Definition encode_varint (v : Z) : string := encode_varint_fuel 10 v.

Definition encode_field (f : wire_field) : string :=
  match f with
  | WVarint n v => encode_varint (8 * n) +:+ encode_varint v
  | WFixed64 n b => encode_varint (8 * n + 1) +:+ b
  | WLen n b => encode_varint (8 * n + 2) +:+ encode_varint (zsize b) +:+ b
  | WFixed32 n b => encode_varint (8 * n + 5) +:+ b
  end.

Fixpoint encode_message (fs : list wire_field) : string :=
  match fs with [] => EmptyString | f :: fs => encode_field f +:+ encode_message fs end.

(** Field numbers of protobuf are 1 to 2^29 - 1. *)
Definition wire_field_ok (f : wire_field) : Prop :=
  match f with
  | WVarint n v => 1 <= n < 2 ^ 29 /\ 0 <= v < 2 ^ 64
  | WFixed64 n b => 1 <= n < 2 ^ 29 /\ String.length b = 8%nat
  | WLen n b => 1 <= n < 2 ^ 29 /\ zsize b < 2 ^ 64
  | WFixed32 n b => 1 <= n < 2 ^ 29 /\ String.length b = 4%nat
  end.

(** What the fields mean to the router: the last occurrence wins. *)
Definition route_field (rf : RoutingFields) (f : wire_field) : RoutingFields :=
  match f with
  | WVarint n v => if n =? 2 then set_rf_tier (tier_of_varint v) rf else rf
  | WLen n b =>
      if n =? 3 then set_rf_event_name b rf
      else if n =? 4 then set_rf_subclass_name b rf
      else if n =? 5 then set_rf_node_id b rf else rf
  | _ => rf
  end.

Lemma land_low7 v : 0 <= v -> Z.land v 127 = v mod 128.
Proof. intros. change 127 with (Z.ones 7). by rewrite Z.land_ones. Qed.

Lemma land_high_bit b : 0 <= b < 256 -> Z.land b 128 = if b <? 128 then 0 else 128.
Proof.
  intros H. assert (forall n, (n < 256)%nat ->
    Z.land (Z.of_nat n) 128 = if Z.of_nat n <? 128 then 0 else 128) as Hn.
  { intros n Hlt. do 256 (destruct n as [|n]; [reflexivity|]). lia. }
  replace b with (Z.of_nat (Z.to_nat b)) by lia. apply Hn. lia.
Qed.

(** One byte of a varint: its seven bits go above the bits read so far. *)
Lemma varint_accumulate out b shift :
  0 <= shift < 64 -> 0 <= out < 2 ^ shift -> 0 <= b -> b mod 128 < 2 ^ (64 - shift) ->
  Z.lor out (u64 (Z.shiftl (Z.land b 127) shift)) = out + (b mod 128) * 2 ^ shift.
Proof.
  intros Hs Ho Hb Hlt. rewrite land_low7 by done.
  pose proof (Z.mod_pos_bound b 128 ltac:(lia)).
  rewrite u64_small; [by apply lor_shiftl_add; lia|].
  rewrite Z.shiftl_mul_pow2 by lia.
  replace (2 ^ 64) with (2 ^ (64 - shift) * 2 ^ shift) by (rewrite <- Z.pow_add_r by lia; f_equal; lia).
  assert (0 < 2 ^ shift) by (apply Z.pow_pos_nonneg; lia). nia.
Qed.

Lemma ReadVarint_last_byte v shift out rest :
  0 <= v < 128 -> 0 <= shift < 64 -> v < 2 ^ (64 - shift) -> 0 <= out < 2 ^ shift ->
  ReadVarint_loop (String (char_of v) EmptyString +:+ rest) shift out = Some (out + v * 2 ^ shift, rest).
Proof.
  intros Hv Hs Hvs Ho. rewrite ?string_app_cons, ?string_app_nil_l. cbn [ReadVarint_loop]. rewrite byte_of_char_of by lia.
  rewrite land_high_bit, (proj2 (Z.ltb_lt v 128)) by lia. cbn [Z.eqb].
  rewrite varint_accumulate by (rewrite ?Z.mod_small; lia). by rewrite Z.mod_small by lia.
Qed.

Lemma ReadVarint_encode_loop fuel v shift out rest :
  0 <= v < 2 ^ (7 * Z.of_nat (S fuel)) -> 0 <= shift < 64 -> v < 2 ^ (64 - shift) ->
  0 <= out < 2 ^ shift ->
  ReadVarint_loop (encode_varint_fuel (S fuel) v +:+ rest) shift out = Some (out + v * 2 ^ shift, rest).
Proof.
  revert v shift out. induction fuel as [|fuel IH]; intros v shift out Hv Hs Hvs Ho.
  - assert ((v <? 128) = true) as Hlt by (apply Z.ltb_lt; simpl in Hv; lia).
    cbn [encode_varint_fuel]. rewrite Hlt. apply ReadVarint_last_byte; apply Z.ltb_lt in Hlt; lia.
  - change (encode_varint_fuel (S (S fuel)) v) with
      (if v <? 128 then String (char_of v) EmptyString
       else String (char_of (v mod 128 + 128)) (encode_varint_fuel (S fuel) (v / 128))).
    case_test; [apply ReadVarint_last_byte; lia|].
    pose proof (Z.mod_pos_bound v 128 ltac:(lia)). pose proof (Z.div_mod v 128 ltac:(lia)).
    assert (shift + 7 < 64) as Hs7.
    { apply Z.lt_nge. intros Hc. assert (2 ^ (64 - shift) <= 2 ^ 7) by (apply Z.pow_le_mono_r; lia). lia. }
    rewrite ?string_app_cons, ?string_app_nil_l. cbn [ReadVarint_loop]. rewrite byte_of_char_of by lia.
    rewrite land_high_bit, (proj2 (Z.ltb_ge _ 128)) by lia.
    cbn [Z.eqb]. rewrite (proj2 (Z.leb_gt _ _)) by lia.
    assert ((v mod 128 + 128) mod 128 = v mod 128) as Hm.
    { rewrite <- (Z.mod_mod v 128) at 2 by lia. rewrite <- Zplus_mod_idemp_r.
      by rewrite Z.mod_same, Z.add_0_r by lia. }
    rewrite varint_accumulate by (rewrite ?Hm; lia). rewrite Hm.
    assert (2 ^ (64 - shift) = 128 * 2 ^ (64 - (shift + 7))) as Hp1.
    { change 128 with (2 ^ 7). rewrite <- Z.pow_add_r by lia. f_equal. lia. }
    assert (2 ^ (7 * Z.of_nat (S (S fuel))) = 128 * 2 ^ (7 * Z.of_nat (S fuel))) as Hp2.
    { change 128 with (2 ^ 7). rewrite <- Z.pow_add_r by lia. f_equal. lia. }
    assert (2 ^ (shift + 7) = 2 ^ shift * 128) as Hp3 by (rewrite Z.pow_add_r by lia; done).
    rewrite Hp1 in Hvs. rewrite Hp2 in Hv.
    assert (0 < 2 ^ shift) by (apply Z.pow_pos_nonneg; lia).
    rewrite IH; [f_equal; f_equal; rewrite Hp3; nia|lia|lia|lia|rewrite Hp3; nia].
Qed.

Lemma ReadVarint_encode v rest :
  0 <= v < 2 ^ 64 -> ReadVarint (encode_varint v +:+ rest) = Some (v, rest).
Proof.
  intros Hv. unfold ReadVarint, encode_varint. rewrite ReadVarint_encode_loop.
  - f_equal. f_equal. lia.
  - assert (2 ^ 64 <= 2 ^ (7 * Z.of_nat 10)) by (apply Z.pow_le_mono_r; lia). lia.
  - lia.
  - lia.
  - simpl. lia.
Qed.

Lemma encode_varint_fuel_length n v : (0 < String.length (encode_varint_fuel (S n) v))%nat.
Proof. cbn [encode_varint_fuel]. case_test; simpl; lia. Qed.

Lemma ReadBytes_encode b rest :
  zsize b < 2 ^ 64 -> ReadBytes (encode_varint (zsize b) +:+ b +:+ rest) = Some (b, rest).
Proof.
  intros Hb. unfold ReadBytes. rewrite ReadVarint_encode by lia.
  rewrite (proj2 (Z.ltb_ge _ _)) by (rewrite string_length_app; lia).
  by rewrite Nat2Z.id, string_take_app, string_skip_app.
Qed.

(** The key of a field: its number and wire type come back. *)
Lemma key_split n w :
  1 <= n < 2 ^ 29 -> 0 <= w < 8 ->
  i32 (Z.shiftr (8 * n + w) 3) = n /\ i32 (Z.land (8 * n + w) 0x7) = w.
Proof.
  intros Hn Hw. assert (Z.shiftr (8 * n + w) 3 = n) as ->.
  { rewrite Z.shiftr_div_pow2 by lia. change (2 ^ 3) with 8.
    symmetry. apply (Z.div_unique _ _ _ w); lia. }
  assert (Z.land (8 * n + w) 7 = w) as ->.
  { change 7 with (Z.ones 3). rewrite Z.land_ones by lia. change (2 ^ 3) with 8.
    symmetry. apply (Z.mod_unique _ _ n); lia. }
  unfold i32. rewrite !Z.mod_small by lia. rewrite !(proj2 (Z.ltb_lt _ _)) by lia. done.
Qed.

Lemma SkipField_fixed k w s rest :
  (w = 1 /\ k = 8%nat) \/ (w = 5 /\ k = 4%nat) -> String.length s = k ->
  SkipField (s +:+ rest) w = Some rest.
Proof.
  intros Hw Hs. unfold SkipField.
  assert (string_skip k (s +:+ rest) = rest) as Hk by (rewrite <- Hs; apply string_skip_app).
  assert ((zsize (s +:+ rest) <? Z.of_nat k) = false) as Hz.
  { apply Z.ltb_ge. rewrite string_length_app. lia. }
  destruct Hw as [[-> ->]|[-> ->]]; cbn [Z.eqb Pos.eqb];
    [change (Z.of_nat 8) with 8 in Hz|change (Z.of_nat 4) with 4 in Hz]; by rewrite Hz, Hk.
Qed.

Lemma extract_step_field f rest rf :
  wire_field_ok f -> extract_step (encode_field f +:+ rest) rf = Some (rest, route_field rf f).
Proof.
  destruct f as [n v|n b|n b|n b]; intros [Hn Hv]; unfold extract_step, encode_field;
    rewrite <- !string_app_assoc, ReadVarint_encode by lia.
  - replace (8 * n) with (8 * n + 0) by lia. destruct (key_split n 0 Hn ltac:(lia)) as [-> ->].
    rewrite ReadVarint_encode by done. rewrite !andb_false_r, andb_true_r. simpl.
    case_test; [done|]. unfold SkipField. cbn [Z.eqb]. by rewrite ReadVarint_encode.
  - destruct (key_split n 1 Hn ltac:(lia)) as [-> ->]. rewrite !andb_false_r.
    by rewrite (SkipField_fixed 8) by auto.
  - destruct (key_split n 2 Hn ltac:(lia)) as [-> ->].
    rewrite ReadBytes_encode by done. rewrite !andb_false_r, !andb_true_r. simpl.
    repeat (case_test; [done|]). unfold SkipField. cbn [Z.eqb Pos.eqb].
    rewrite ReadVarint_encode by lia.
    rewrite (proj2 (Z.ltb_ge _ _)) by (rewrite string_length_app; lia).
    by rewrite Nat2Z.id, string_skip_app.
  - destruct (key_split n 5 Hn ltac:(lia)) as [-> ->]. rewrite !andb_false_r.
    by rewrite (SkipField_fixed 4) by auto.
Qed.

Lemma encode_field_nonempty f : (0 < String.length (encode_field f))%nat.
Proof.
  destruct f; unfold encode_field, encode_varint; rewrite string_length_app;
    match goal with |- context [encode_varint_fuel 10 ?v] =>
      pose proof (encode_varint_fuel_length 9 v) end; lia.
Qed.

Lemma extract_loop_message fs rf fuel :
  Forall wire_field_ok fs -> (String.length (encode_message fs) <= fuel)%nat ->
  extract_loop fuel (encode_message fs) rf = fold_left route_field fs rf.
Proof.
  intros Hfs. revert rf fuel. induction Hfs as [|f fs Hf Hfs IH]; intros rf fuel Hlen.
  { by destruct fuel. }
  cbn [encode_message fold_left] in *. rewrite string_length_app in Hlen.
  pose proof (encode_field_nonempty f). destruct fuel as [|fuel]; [lia|].
  cbn [extract_loop]. rewrite extract_step_field by done.
  destruct (string_empty _) eqn:E.
  - apply string_empty_spec in E. apply (f_equal String.length) in E.
    rewrite string_length_app in E. simpl in E. lia.
  - apply IH. lia.
Qed.

(** C35. The scanner reads what the wire format means.  For every serialised
    message, whatever fields of whatever wire types it holds and in whatever
    order, [ExtractRoutingFields] returns the last tier (field 2), event name
    (3), subclass (4) and node id (5) of the message and the defaults for those
    it lacks. *)
Theorem ExtractRoutingFields_roundtrip (fs : list wire_field) :
  Forall wire_field_ok fs ->
  ExtractRoutingFields (encode_message fs) = fold_left route_field fs RoutingFields_default.
Proof. intros Hfs. by apply extract_loop_message. Qed.

(** A CUSTOM event as the module serialises it: event id, tier, names, node,
    and later fields of every wire type. *)
Definition routing_demo : list wire_field :=
  [WLen 1 "id"; WVarint 2 1; WLen 3 "CUSTOM"; WLen 4 "osw.audit.x"; WLen 5 "node-a";
   WVarint 6 300; WFixed64 7 "12345678"; WFixed32 9 "abcd"].

Lemma ExtractRoutingFields_roundtrip_witness :
  ExtractRoutingFields (encode_message routing_demo)
  = mkRoutingFields k1Critical "CUSTOM" "osw.audit.x" "node-a".
Proof.
  rewrite (ExtractRoutingFields_roundtrip routing_demo); [reflexivity|].
  repeat constructor; simpl; lia.
Defined.

(** Malformed input keeps what was read before the defect, it does not give
    the default fields [routing.h] announces: a message cut in the middle of its
    subclass still routes with its tier and event name. *)
Theorem ExtractRoutingFields_malformed_partial :
  ExtractRoutingFields
    (encode_message [WVarint 2 1; WLen 3 "CUSTOM"] +:+ encode_varint 34 +:+ encode_varint 9 +:+ "osw")
  = mkRoutingFields k1Critical "CUSTOM" "" "".
Proof. reflexivity. Qed.
