(* ===== verification/Subscriber.v ===== *)
(** * Subscribers

    [src/events/subscribe/send_queue.cc] and [src/events/subscribe/subscriber.cc]:
    the bounded outbox of one stream (it refuses when full, unlike the rings),
    the subscriber's filter, and its close state, where the first reason wins. *)

From S2P Require Import Prelude Tier.

(** [std::shared_ptr<const std::string>]. *)
Abbreviation bytes_ptr := (option string).

(** ** SendQueue *)

Record SendQueue := mkSendQueue {
  sq_capacity_ : nat;
  sq_q_ : list bytes_ptr;
  sq_closed_ : bool }.

Definition SendQueue_new (capacity : nat) : SendQueue :=
  mkSendQueue (if (capacity =? 0)%nat then 1%nat else capacity) [] false.

Definition SendQueue_TryPush (q : SendQueue) (bytes : bytes_ptr) : bool * SendQueue :=
  if sq_closed_ q then (false, q)
  else if (sq_capacity_ q <=? length (sq_q_ q))%nat then (false, q)
  else (true, mkSendQueue (sq_capacity_ q) (sq_q_ q ++ [bytes]) (sq_closed_ q)).

(** The part after the wait; [None] is the empty optional. *)
Definition SendQueue_WaitAndPop (q : SendQueue) : option bytes_ptr * SendQueue :=
  match sq_q_ q with
  | [] => (None, q)
  | out :: rest => (Some out, mkSendQueue (sq_capacity_ q) rest (sq_closed_ q))
  end.

Definition SendQueue_Close (q : SendQueue) : SendQueue :=
  mkSendQueue (sq_capacity_ q) (sq_q_ q) true.

Definition SendQueue_IsClosed (q : SendQueue) : bool := sq_closed_ q.
Definition SendQueue_Size (q : SendQueue) : nat := length (sq_q_ q).
Definition SendQueue_Capacity (q : SendQueue) : nat := sq_capacity_ q.

(** ** Subscriber *)

Inductive KickReason := kNone | kQueueFull | kReplayEvicted | kShutdown | kClientCancelled.

#[export] Instance KickReason_eq_dec : EqDecision KickReason.
Proof. solve_decision. Defined.

Definition KickReason_ToString (r : KickReason) : string :=
  match r with
  | kQueueFull => "queue_full"
  | kReplayEvicted => "replay_evicted"
  | kShutdown => "shutdown"
  | kClientCancelled => "client_cancelled"
  | kNone => "none"
  end.

(** [static_cast<std::size_t>(KickReason)]. *)
Definition KickReason_index (r : KickReason) : nat :=
  match r with
  | kNone => 0 | kQueueFull => 1 | kReplayEvicted => 2 | kShutdown => 3 | kClientCancelled => 4
  end.

Record SubscriberFilter := mkSubscriberFilter {
  f_tiers : gset Tier;
  f_event_name_globs : list string;
  f_subclass_globs : list string;
  f_node_id : string }.

Record Subscriber := mkSubscriber {
  id_ : string;
  filter_ : SubscriberFilter;
  send_queue_ : SendQueue;
  close_flag_ : bool;
  kick_reason_ : KickReason }.

Definition Subscriber_new (subscriber_id : string) (flt : SubscriberFilter)
    (send_queue_capacity : nat) : Subscriber :=
  mkSubscriber subscriber_id flt (SendQueue_new send_queue_capacity) false kNone.

Definition Subscriber_with_queue (s : Subscriber) (q : SendQueue) : Subscriber :=
  mkSubscriber (id_ s) (filter_ s) q (close_flag_ s) (kick_reason_ s).

Definition Subscriber_IsClosed (s : Subscriber) : bool :=
  close_flag_ s || SendQueue_IsClosed (send_queue_ s).

Definition RequestClose (s : Subscriber) (reason : KickReason) : Subscriber :=
  mkSubscriber (id_ s) (filter_ s) (SendQueue_Close (send_queue_ s)) true
    (match kick_reason_ s with kNone => reason | r => r end).

Definition GetKickReason (s : Subscriber) : KickReason := kick_reason_ s.

Definition MatchPrefixGlob (pat s : string) : bool :=
  if negb (string_empty pat) && string_back_is "*" pat
  then string_starts_with (string_drop_back pat) s
  else String.eqb s pat.

Fixpoint MatchAnyPattern (patterns : list string) (s : string) : bool :=
  match patterns with
  | [] => false
  | g :: gs => if MatchPrefixGlob g s then true else MatchAnyPattern gs s
  end.

Definition MatchesFilter (sub : Subscriber) (tier : Tier) (event_name subclass_name node_id : string)
  : bool :=
  let f := filter_ sub in
  if negb (bool_decide (f_tiers f = ∅)) && negb (bool_decide (tier ∈ f_tiers f)) then false
  else if negb (string_empty (f_node_id f)) && negb (String.eqb node_id (f_node_id f)) then false
  else if (match f_event_name_globs f with [] => false | _ => true end)
          && negb (MatchAnyPattern (f_event_name_globs f) event_name) then false
  else if (match f_subclass_globs f with [] => false | _ => true end)
          && negb (MatchAnyPattern (f_subclass_globs f) subclass_name) then false
  else true.

(** ** The filter's meaning *)

Lemma MatchPrefixGlob_denotes pat s : MatchPrefixGlob pat s = true <-> glob_denotes pat s.
Proof. rewrite <- (compile_glob_denotes pat kUnspecified s). unfold compile_glob, MatchPrefixGlob. by case_match. Qed.

Lemma MatchAnyPattern_spec gs s :
  MatchAnyPattern gs s = true <-> exists g, g ∈ gs /\ glob_denotes g s.
Proof.
  induction gs as [|g gs IH]; simpl; [set_solver|].
  destruct (MatchPrefixGlob g s) eqn:E.
  - split; [|done]. intros _. exists g. split; [set_solver|by apply MatchPrefixGlob_denotes].
  - rewrite IH. split; intros (h & Hin & Hd); [set_solver|].
    apply elem_of_cons in Hin as [->|Hin]; [|by exists h].
    apply MatchPrefixGlob_denotes in Hd. congruence.
Qed.

(** An axis of the filter: an empty list of patterns lets everything through. *)
Definition axis_allows (globs : list string) (s : string) : Prop :=
  globs = [] \/ exists g, g ∈ globs /\ glob_denotes g s.

Lemma axis_test globs s :
  (match globs with [] => false | _ => true end) && negb (MatchAnyPattern globs s) = false
  <-> axis_allows globs s.
Proof.
  unfold axis_allows. rewrite <- MatchAnyPattern_spec.
  destruct globs as [|g gs]; [naive_solver|]. rewrite andb_true_l, negb_false_iff. naive_solver.
Qed.

Lemma MatchesFilter_axes (s : Subscriber) (t : Tier) (ev sub node : string) :
  MatchesFilter s t ev sub node = true <->
  (f_tiers (filter_ s) = ∅ \/ t ∈ f_tiers (filter_ s)) /\
  (f_node_id (filter_ s) = ""%string \/ node = f_node_id (filter_ s)) /\
  axis_allows (f_event_name_globs (filter_ s)) ev /\
  axis_allows (f_subclass_globs (filter_ s)) sub.
Proof.
  rewrite <- !axis_test. unfold MatchesFilter.
  rewrite <- (string_empty_spec (f_node_id (filter_ s))), <- (String.eqb_eq node).
  repeat case_bool_decide; destruct (string_empty (f_node_id _)), (String.eqb node _); simpl;
    repeat match goal with |- context [if ?b then _ else _] => destruct b end; naive_solver.
Qed.

(** [MatchesFilter] is the conjunction of its four axes: the tier is
    requested (or none was), the node is the requested one (or none was), and
    the event name and the subclass are each denoted by a pattern of their list
    (or the list is empty), where a trailing star denotes every extension. *)
Theorem MatchesFilter_spec (s : Subscriber) (t : Tier) (ev sub node : string) :
  MatchesFilter s t ev sub node = true <->
  (f_tiers (filter_ s) = ∅ \/ t ∈ f_tiers (filter_ s)) /\
  (f_node_id (filter_ s) = ""%string \/ node = f_node_id (filter_ s)) /\
  axis_allows (f_event_name_globs (filter_ s)) ev /\
  axis_allows (f_subclass_globs (filter_ s)) sub.
Proof.
  apply MatchesFilter_axes.
Qed.

(** ** Closing *)

Lemma RequestClose_closed s r : Subscriber_IsClosed (RequestClose s r) = true.
Proof. done. Qed.

Lemma RequestClose_reason s r :
  GetKickReason (RequestClose s r) = if decide (kick_reason_ s = kNone) then r else kick_reason_ s.
Proof. unfold GetKickReason. simpl. case_decide as H; [by rewrite H|by destruct (kick_reason_ s)]. Qed.

Lemma TryPush_spec q b :
  SendQueue_TryPush q b =
    if decide (sq_closed_ q = false /\ (length (sq_q_ q) < sq_capacity_ q)%nat)
    then (true, mkSendQueue (sq_capacity_ q) (sq_q_ q ++ [b]) (sq_closed_ q)) else (false, q).
Proof.
  unfold SendQueue_TryPush. destruct (sq_closed_ q); [by rewrite decide_False by naive_solver|].
  case_test; [rewrite decide_False by lia|rewrite decide_True by lia]; done.
Qed.

(** The threads' operations on one subscriber. *)
Inductive SubOp :=
| SPush (b : bytes_ptr) | SPop | SClose (r : KickReason).

Definition Subscriber_exec (s : Subscriber) (o : SubOp) : Subscriber * list bytes_ptr * list bytes_ptr :=
  match o with
  | SPush b => let '(ok, q) := SendQueue_TryPush (send_queue_ s) b in
               (Subscriber_with_queue s q, if ok then [b] else [], [])
  | SPop => let '(ob, q) := SendQueue_WaitAndPop (send_queue_ s) in
            (Subscriber_with_queue s q, [], option_list ob)
  | SClose r => (RequestClose s r, [], [])
  end.

(** The run with what was accepted and what was popped. *)
Fixpoint Subscriber_run (s : Subscriber) (os : list SubOp)
  : Subscriber * list bytes_ptr * list bytes_ptr :=
  match os with
  | [] => (s, [], [])
  | o :: os =>
      let '(s1, a1, p1) := Subscriber_exec s o in
      let '(s2, a2, p2) := Subscriber_run s1 os in (s2, a1 ++ a2, p1 ++ p2)
  end.

Definition sub_inv (s : Subscriber) : Prop :=
  (length (sq_q_ (send_queue_ s)) <= sq_capacity_ (send_queue_ s))%nat /\
  (close_flag_ s = sq_closed_ (send_queue_ s)).

Lemma Subscriber_exec_step s o :
  sub_inv s ->
  let '(s', acc, pop) := Subscriber_exec s o in
  sub_inv s' /\ sq_capacity_ (send_queue_ s') = sq_capacity_ (send_queue_ s) /\
  sq_q_ (send_queue_ s) ++ acc = pop ++ sq_q_ (send_queue_ s') /\
  (Subscriber_IsClosed s = true -> acc = [] /\ Subscriber_IsClosed s' = true).
Proof.
  intros [Hl Hc]. unfold sub_inv, Subscriber_IsClosed, SendQueue_IsClosed in *.
  destruct o as [b| |r]; simpl.
  - rewrite TryPush_spec. case_decide as H; simpl.
    + destruct H as [H1 H2]. rewrite length_app. simpl.
      split_and!; try done; try lia. rewrite Hc, H1. done.
    + rewrite app_nil_r. split_and!; auto.
  - unfold SendQueue_WaitAndPop. destruct (sq_q_ (send_queue_ s)) as [|x l] eqn:E; simpl;
      rewrite ?E, ?app_nil_r; simpl in *; split_and!; auto; lia.
  - rewrite app_nil_r. split_and!; auto.
Qed.

Lemma Subscriber_run_conserves os s :
  sub_inv s ->
  let '(s', acc, pop) := Subscriber_run s os in
  sub_inv s' /\ sq_capacity_ (send_queue_ s') = sq_capacity_ (send_queue_ s) /\
  sq_q_ (send_queue_ s) ++ acc = pop ++ sq_q_ (send_queue_ s') /\
  (Subscriber_IsClosed s = true -> acc = [] /\ Subscriber_IsClosed s' = true).
Proof.
  revert s. induction os as [|o os IH]; intros s Hs; simpl.
  { rewrite app_nil_r. split_and!; auto; apply Hs. }
  pose proof (Subscriber_exec_step s o Hs) as H1.
  destruct (Subscriber_exec s o) as [[s1 a1] p1]. destruct H1 as (Hs1 & Hc1 & Hq1 & Hx1).
  pose proof (IH s1 Hs1) as H2. destruct (Subscriber_run s1 os) as [[s2 a2] p2].
  destruct H2 as (Hs2 & Hc2 & Hq2 & Hx2). split_and!; [done|congruence| |].
  - rewrite app_assoc, Hq1, <- app_assoc, Hq2, app_assoc. done.
  - intros H. destruct (Hx1 H) as [-> H']. destruct (Hx2 H') as [-> ?]. done.
Qed.

Lemma Subscriber_run_app os1 os2 s :
  Subscriber_run s (os1 ++ os2) =
    let '(s1, a1, p1) := Subscriber_run s os1 in
    let '(s2, a2, p2) := Subscriber_run s1 os2 in (s2, a1 ++ a2, p1 ++ p2).
Proof.
  revert s. induction os1 as [|o os1 IH]; intros s; simpl; [by destruct (Subscriber_run s os2) as [[]]|].
  destruct (Subscriber_exec s o) as [[s1 a1] p1]. rewrite IH.
  destruct (Subscriber_run s1 os1) as [[s2 a2] p2]. destruct (Subscriber_run s2 os2) as [[s3 a3] p3].
  by rewrite !app_assoc.
Qed.

(** The kick reason after a run is the first one requested. *)
Definition first_close (os : list SubOp) : option KickReason :=
  head (omap (fun o => match o with SClose r => Some r | _ => None end) os).

Lemma Subscriber_run_reason os s :
  Forall (fun o => o <> SClose kNone) os ->
  kick_reason_ (Subscriber_run s os).1.1 =
    match kick_reason_ s with kNone => default kNone (first_close os) | r => r end.
Proof.
  intros Hos. revert s. induction Hos as [|o os Ho Hos IH]; intros s; simpl.
  { by destruct (kick_reason_ s). }
  destruct (Subscriber_exec s o) as [[s1 a1] p1] eqn:E. specialize (IH s1).
  destruct (Subscriber_run s1 os) as [[s2 a2] p2]. simpl in IH |- *. rewrite IH.
  destruct o as [b| |r]; simpl in E.
  - destruct (SendQueue_TryPush _ b). by simplify_eq/=.
  - destruct (SendQueue_WaitAndPop _). by simplify_eq/=.
  - simplify_eq/=. by destruct (kick_reason_ s), r.
Qed.

(** A subscriber's outbox under any interleaving of broadcaster pushes,
    writer pops and close requests.  What was accepted is, in order, what the
    writer popped followed by what is still queued; the queue never exceeds its
    capacity; nothing is accepted after the first close request; and the reason
    reported is that of the first close request. *)
Theorem Subscriber_outbox (sid : string) (flt : SubscriberFilter) (cap : nat) (os1 os2 : list SubOp)
    (r : KickReason) :
  Forall (fun o => o <> SClose kNone) (os1 ++ SClose r :: os2) ->
  Forall (fun o => forall r', o <> SClose r') os1 ->
  let '(s1, acc1, pop1) := Subscriber_run (Subscriber_new sid flt cap) os1 in
  let '(s, acc, pop) := Subscriber_run (Subscriber_new sid flt cap) (os1 ++ SClose r :: os2) in
  acc = acc1 /\ acc = pop ++ sq_q_ (send_queue_ s) /\
  (length (sq_q_ (send_queue_ s)) <= Nat.max 1 cap)%nat /\
  Subscriber_IsClosed s = true /\ GetKickReason s = r.
Proof.
  intros Hnn Hno.
  assert (sub_inv (Subscriber_new sid flt cap)) as Hi by (split; simpl; [lia|done]).
  pose proof (Subscriber_run_reason _ (Subscriber_new sid flt cap) Hnn) as Hr.
  pose proof (Subscriber_run_conserves (os1 ++ SClose r :: os2) _ Hi) as Hall.
  pose proof (Subscriber_run_conserves os1 _ Hi) as H1.
  rewrite Subscriber_run_app in *.
  destruct (Subscriber_run _ os1) as [[s1 acc1] pop1].
  destruct H1 as (Hi1 & _). cbn [Subscriber_run Subscriber_exec] in *.
  assert (sub_inv (RequestClose s1 r)) as Hi1' by (split; [apply Hi1|done]).
  pose proof (Subscriber_run_conserves os2 _ Hi1') as H2.
  destruct (Subscriber_run (RequestClose s1 r) os2) as [[s2 acc2] pop2].
  destruct H2 as (Hi2 & _ & _ & Hx). destruct (Hx (RequestClose_closed _ _)) as [-> Hcl].
  destruct Hall as ([Hb _] & Hc & Hq & _). simpl in Hc, Hq. rewrite Hc in Hb.
  split_and!; [by rewrite !app_nil_r|done| |done|].
  - case_test; lia.
  - unfold GetKickReason. simpl in Hr. rewrite Hr. unfold first_close.
    rewrite omap_app. assert (omap (fun o => match o with SClose r => Some r | _ => None end) os1 = []) as ->.
    { clear -Hno. induction Hno as [|o os Ho Hos IH]; [done|]. destruct o; [done|done|by destruct (Ho r)]. }
    done.
Qed.

Definition outbox_demo_filter : SubscriberFilter := mkSubscriberFilter ∅ [] [] "".

Definition outbox_demo_ops1 : list SubOp :=
  [SPush (Some "a"%string); SPush (Some "b"%string); SPush (Some "c"%string); SPop].
Definition outbox_demo_ops2 : list SubOp := [SPush (Some "d"%string); SClose kShutdown; SPop].

Lemma Subscriber_outbox_witness :
  let '(s, acc, pop) :=
    Subscriber_run (Subscriber_new "sub-1" outbox_demo_filter 2)
      (outbox_demo_ops1 ++ SClose kQueueFull :: outbox_demo_ops2) in
  acc = pop ++ sq_q_ (send_queue_ s) /\ GetKickReason s = kQueueFull.
Proof.
  pose proof (Subscriber_outbox "sub-1" outbox_demo_filter 2 outbox_demo_ops1 outbox_demo_ops2 kQueueFull
    ltac:(by repeat constructor) ltac:(by repeat constructor)) as H.
  destruct (Subscriber_run _ outbox_demo_ops1) as [[s1 acc1] pop1].
  destruct (Subscriber_run _ (outbox_demo_ops1 ++ _)) as [[s acc] pop].
  by destruct H as (_ & H & _ & _ & Hr).
Defined.
