(* ===== verification/Broadcaster.v ===== *)
(** * The broadcaster

    [src/events/subscribe/broadcaster.cc]: the roster of live subscribers, the
    dispatch of one ring entry to them, and the per-tier worker loop.
    Subscribers are shared objects ([std::shared_ptr]): the roster and every
    roster snapshot hold locations into one heap, so a push through a snapshot
    is seen by the subscriber's writer thread.  Logging is not modelled. *)

From S2P Require Import Prelude BoundedQueue Tier Ring RingSet Routing Subscriber.

Abbreviation loc := nat.
Abbreviation sub_heap := (gmap nat Subscriber).

(** [bc_health] is [None] for a null [health_], else the subscriber count
    stored there last. *)
Record Broadcaster := mkBroadcaster {
  running_ : bool;
  stop_requested_ : bool;
  roster_ : list loc;
  kick_counters_ : list Z;
  total_dispatched_ : Z;
  bc_health : option Z }.

Definition kNumKickReasons : nat := 5.
Definition kBatchMax : nat := 64.

Definition Broadcaster_new (health : option Z) : Broadcaster :=
  mkBroadcaster false false [] (replicate kNumKickReasons 0) 0 health.

Definition with_roster (b : Broadcaster) (r : list loc) : Broadcaster :=
  mkBroadcaster (running_ b) (stop_requested_ b) r (kick_counters_ b) (total_dispatched_ b)
    (const (u32 (zlen r)) <$> bc_health b).

Definition with_flags (b : Broadcaster) (running stop : bool) : Broadcaster :=
  mkBroadcaster running stop (roster_ b) (kick_counters_ b) (total_dispatched_ b) (bc_health b).

Definition bump_kick (b : Broadcaster) (r : KickReason) : Broadcaster :=
  mkBroadcaster (running_ b) (stop_requested_ b) (roster_ b)
    (alter (fun c => c +u64 1) (KickReason_index r) (kick_counters_ b))
    (total_dispatched_ b) (bc_health b).

Definition bump_dispatched (b : Broadcaster) : Broadcaster :=
  mkBroadcaster (running_ b) (stop_requested_ b) (roster_ b) (kick_counters_ b)
    (total_dispatched_ b +u64 1) (bc_health b).

(** ** Roster *)

(** [None] is the null [shared_ptr]. *)
Definition AddSubscriber (b : Broadcaster) (sub : option loc) : Broadcaster :=
  match sub with
  | None => b
  | Some l => with_roster b (roster_ b ++ [l])
  end.

(** [replay_fn] acts on the subscriber in the heap, under the roster lock. *)
Definition AddSubscriberAtomic (h : sub_heap) (b : Broadcaster) (sub : option loc)
    (replay_fn : option (Subscriber -> Subscriber)) : sub_heap * Broadcaster :=
  match sub with
  | None => (h, b)
  | Some l =>
      let h' := match replay_fn with Some f => alter f l h | None => h end in
      (h', with_roster b (roster_ b ++ [l]))
  end.

Definition has_id (h : sub_heap) (id : string) (l : loc) : Prop := (id_ <$> h !! l) = Some id.

#[export] Instance has_id_dec h id l : Decision (has_id h id l).
Proof. unfold has_id. apply _. Defined.

Definition RemoveSubscriber (h : sub_heap) (b : Broadcaster) (id : string) : Broadcaster :=
  with_roster b (filter (fun l => ~ has_id h id l) (roster_ b)).

Definition SubscriberCount (b : Broadcaster) : nat := length (roster_ b).

Definition KicksForReason (b : Broadcaster) (r : KickReason) : Z :=
  default 0 (kick_counters_ b !! KickReason_index r).

Definition RosterSnapshot (b : Broadcaster) : list loc := roster_ b.

(** ** Dispatch *)

Definition effective_tier (tier : Tier) (rf : RoutingFields) : Tier :=
  match tier with kUnspecified => rf_tier rf | t => t end.

Definition matches_bytes (s : Subscriber) (tier : Tier) (bytes : string) : bool :=
  let rf := ExtractRoutingFields bytes in
  MatchesFilter s (effective_tier tier rf) (rf_event_name rf) (rf_subclass_name rf) (rf_node_id rf).

(** The loop body of [Dispatch] for one subscriber of the roster; the flag says
    whether [TryPush] accepted. *)
Definition dispatch_sub (tier : Tier) (bytes : string) (st : sub_heap * Broadcaster) (l : loc)
  : sub_heap * Broadcaster * bool :=
  let '(h, b) := st in
  match h !! l with
  | None => (h, b, false)
  | Some sub =>
      if Subscriber_IsClosed sub then (h, b, false)
      else if negb (matches_bytes sub tier bytes) then (h, b, false)
      else
        let '(ok, q) := SendQueue_TryPush (send_queue_ sub) (Some bytes) in
        if ok then (<[l := Subscriber_with_queue sub q]> h, b, true)
        else (<[l := RequestClose sub kQueueFull]> h, bump_kick b kQueueFull, false)
  end.

Definition Dispatch (tier : Tier) (entry : RingEntry) (roster : list loc)
    (st : sub_heap * Broadcaster) : sub_heap * Broadcaster :=
  match envelope_bytes entry with
  | None => st
  | Some bytes =>
      let '(h, b) := fold_left (fun st l => (dispatch_sub tier bytes st l).1) roster st in
      (h, bump_dispatched b)
  end.

Definition ProcessOneForTesting (tier : Tier) (entry : RingEntry) (st : sub_heap * Broadcaster)
  : sub_heap * Broadcaster :=
  Dispatch tier entry (RosterSnapshot st.2) st.

(** ** Start, Stop and the worker loop *)

Definition Broadcaster_Start (b : Broadcaster) : Broadcaster :=
  if running_ b then b else with_flags b true false.

(** [Stop] up to the joins: raise the flag, close the rings. *)
Definition Stop_request (rs : option RingSet) (b : Broadcaster) : option RingSet * Broadcaster :=
  if negb (running_ b) then (rs, b)
  else (RingSet_CloseAll <$> rs, with_flags b (running_ b) true).

(** [Stop] after the joins: every subscriber of the roster is closed. *)
Definition Stop_finish (h : sub_heap) (b : Broadcaster) : sub_heap * Broadcaster :=
  (fold_left (fun h l => alter (fun s => RequestClose s kShutdown) l h) (roster_ b) h,
   with_flags b false (stop_requested_ b)).

(** A worker's program counter; [WkDispatch roster todo batch] is inside
    [Dispatch] for the first entry of [batch], with [todo] of the snapshot
    [roster] still to visit. *)
Inductive WorkerPc :=
| WkHead
| WkPop
| WkPopped (batch : list RingEntry)
| WkDispatch (roster todo : list loc) (batch : list RingEntry)
| WkExit.

(** A step of the worker of [tier].  [None]: blocked on [roster_mu_].  [cap] is
    true when [WaitAndPopBatch] gives up on its timeout; the last component is
    the delivery [TryPush] accepted, if any. *)
Definition WorkerLoop_step (tier : Tier) (locked timeout : bool) (rs : RingSet) (h : sub_heap)
    (b : Broadcaster) (pc : WorkerPc)
  : option (RingSet * sub_heap * Broadcaster * WorkerPc * option (loc * RingEntry)) :=
  match pc with
  | WkHead =>
      match RingSet_Get rs tier with
      | None => Some (rs, h, b, WkExit, None)
      | Some _ => Some (rs, h, b, if stop_requested_ b then WkExit else WkPop, None)
      end
  | WkPop =>
      match RingSet_Get rs tier with
      | None => Some (rs, h, b, WkExit, None)
      | Some ring =>
          if negb (Ring_wait_pred ring || timeout) then None
          else
            let '(batch, rs') := RingSet_PopBatch rs tier kBatchMax in
            match batch with
            | [] => Some (rs', h, b, if Ring_IsClosed ring then WkExit else WkHead, None)
            | _ => Some (rs', h, b, WkPopped batch, None)
            end
      end
  | WkPopped batch =>
      if locked then None
      else Some (rs, h, b, WkDispatch (RosterSnapshot b) (RosterSnapshot b) batch, None)
  | WkDispatch roster todo [] => Some (rs, h, b, WkHead, None)
  | WkDispatch roster todo (entry :: batch) =>
      match envelope_bytes entry with
      | None => Some (rs, h, b, WkDispatch roster roster batch, None)
      | Some bytes =>
          match todo with
          | [] => Some (rs, h, bump_dispatched b, WkDispatch roster roster batch, None)
          | l :: todo =>
              let '(h', b', ok) := dispatch_sub tier bytes (h, b) l in
              Some (rs, h', b', WkDispatch roster todo (entry :: batch),
                    if ok then Some (l, entry) else None)
          end
      end
  | WkExit => Some (rs, h, b, WkExit, None)
  end.

(** ** Dispatch is local to each subscriber *)

(** What a dispatch does to one open or closed subscriber. *)
Inductive delivered (tier : Tier) (bytes : string) (s : Subscriber) : Subscriber -> bool -> Prop :=
| del_closed : Subscriber_IsClosed s = true -> delivered tier bytes s s false
| del_filtered : matches_bytes s tier bytes = false -> delivered tier bytes s s false
| del_queued :
    Subscriber_IsClosed s = false -> matches_bytes s tier bytes = true ->
    (length (sq_q_ (send_queue_ s)) < sq_capacity_ (send_queue_ s))%nat ->
    delivered tier bytes s
      (Subscriber_with_queue s (mkSendQueue (sq_capacity_ (send_queue_ s))
         (sq_q_ (send_queue_ s) ++ [Some bytes]) false)) false
| del_kicked :
    Subscriber_IsClosed s = false -> matches_bytes s tier bytes = true ->
    (sq_capacity_ (send_queue_ s) <= length (sq_q_ (send_queue_ s)))%nat ->
    delivered tier bytes s (RequestClose s kQueueFull) true.

Lemma dispatch_sub_delivered tier bytes h b l s :
  h !! l = Some s ->
  exists s' kicked,
    delivered tier bytes s s' kicked /\
    (dispatch_sub tier bytes (h, b) l).1 =
      (<[l := s']> h, if kicked then bump_kick b kQueueFull else b).
Proof.
  intros Hl. unfold dispatch_sub. rewrite Hl. destruct (Subscriber_IsClosed s) eqn:Hc.
  { exists s, false. split; [by constructor|]. simpl. by rewrite insert_id. }
  destruct (matches_bytes s tier bytes) eqn:Hm; simpl.
  2: { exists s, false. split; [by constructor|]. by rewrite insert_id. }
  rewrite TryPush_spec. apply orb_false_elim in Hc as Hcc. destruct Hcc as [Hc1 Hc2].
  unfold SendQueue_IsClosed in Hc2. case_decide as Hd; simpl.
  - eexists _, false. split; [apply del_queued; [done|done|lia]|]. by rewrite Hc2.
  - eexists _, true. split; [apply del_kicked; [done|done|]|done].
    destruct (decide (length (sq_q_ (send_queue_ s)) < sq_capacity_ (send_queue_ s))%nat); [naive_solver|lia].
Qed.

Lemma dispatch_sub_other tier bytes h b l l' :
  l <> l' -> (dispatch_sub tier bytes (h, b) l).1.1 !! l' = h !! l'.
Proof.
  intros Hne. unfold dispatch_sub. repeat case_match; simplify_eq/=; try done;
    by rewrite lookup_insert_ne.
Qed.

Lemma dispatch_fold_other tier bytes roster st l :
  l ∉ roster ->
  (fold_left (fun st l => (dispatch_sub tier bytes st l).1) roster st).1 !! l = st.1 !! l.
Proof.
  revert st. induction roster as [|x roster IH]; intros [h b] Hl; [done|]. cbn [fold_left].
  rewrite IH by set_solver. by rewrite dispatch_sub_other by set_solver.
Qed.

Lemma dispatch_fold_member tier bytes roster st l s :
  NoDup roster -> l ∈ roster -> st.1 !! l = Some s ->
  exists s' kicked,
    delivered tier bytes s s' kicked /\
    (fold_left (fun st l => (dispatch_sub tier bytes st l).1) roster st).1 !! l = Some s'.
Proof.
  intros Hnd. revert st. induction Hnd as [|x roster Hx Hnd IH]; intros [h b] Hin Hs; [set_solver|].
  cbn [fold_left]. destruct (decide (x = l)) as [->|Hne].
  - destruct (dispatch_sub_delivered tier bytes h b l s Hs) as (s' & k & Hd & E).
    exists s', k. split; [done|]. rewrite dispatch_fold_other, E by done. apply lookup_insert_eq.
  - apply IH; [set_solver|]. by rewrite dispatch_sub_other.
Qed.

(** Kicks: the counter moves by the number of subscribers closed for a full
    queue. *)
Definition full_matching (tier : Tier) (bytes : string) (h : sub_heap) (l : loc) : bool :=
  match h !! l with
  | None => false
  | Some s => negb (Subscriber_IsClosed s) && matches_bytes s tier bytes &&
              (sq_capacity_ (send_queue_ s) <=? length (sq_q_ (send_queue_ s)))%nat
  end.

Lemma KicksForReason_bump b :
  length (kick_counters_ b) = kNumKickReasons ->
  KicksForReason (bump_kick b kQueueFull) kQueueFull = KicksForReason b kQueueFull +u64 1.
Proof.
  unfold KicksForReason, bump_kick. intros Hl. cbn [kick_counters_ KickReason_index].
  rewrite list_lookup_alter_eq.
  destruct (lookup_lt_is_Some_2 (kick_counters_ b) 1) as [c ->]; [rewrite Hl; unfold kNumKickReasons; lia|done].
Qed.

Lemma dispatch_sub_kicks tier bytes h b l :
  length (kick_counters_ b) = kNumKickReasons -> 0 <= KicksForReason b kQueueFull < 2 ^ 64 ->
  let b' := (dispatch_sub tier bytes (h, b) l).1.2 in
  length (kick_counters_ b') = kNumKickReasons /\
  KicksForReason b' kQueueFull =
    u64 (KicksForReason b kQueueFull + if full_matching tier bytes h l then 1 else 0).
Proof.
  intros Hlen Hr. unfold full_matching. destruct (h !! l) as [s|] eqn:Hl; simpl; rewrite Hl.
  2: { split; [done|]. by rewrite Z.add_0_r, u64_small. }
  destruct (Subscriber_IsClosed s) eqn:Hc; simpl; [by rewrite Z.add_0_r, u64_small|].
  destruct (matches_bytes s tier bytes); simpl; [|by rewrite Z.add_0_r, u64_small].
  unfold SendQueue_TryPush. apply orb_false_elim in Hc as [_ Hc].
  unfold SendQueue_IsClosed in Hc. rewrite Hc. case_test; simpl.
  - split; [by rewrite length_alter|by apply KicksForReason_bump].
  - by rewrite Z.add_0_r, u64_small.
Qed.

(** A dispatch is local.  For a roster without repeated subscribers, each
    subscriber in it is either closed or filtered out and unchanged, or gets the
    entry's bytes at the end of its queue, or, when its queue is full, is closed
    with reason queue_full and loses nothing it had; no other subscriber of the
    heap changes.  So a slow subscriber costs the others nothing. *)
Theorem Dispatch_local (tier : Tier) (entry : RingEntry) (bytes : string) (roster : list loc)
    (h : sub_heap) (b : Broadcaster) :
  envelope_bytes entry = Some bytes -> NoDup roster ->
  let h' := (Dispatch tier entry roster (h, b)).1 in
  (forall l, l ∉ roster -> h' !! l = h !! l) /\
  (forall l s, l ∈ roster -> h !! l = Some s ->
     exists s' kicked, delivered tier bytes s s' kicked /\ h' !! l = Some s').
Proof.
  intros He Hnd h'. unfold h', Dispatch. rewrite He.
  destruct (fold_left _ roster (h, b)) as [h1 b1] eqn:E. cbn [fst].
  change h1 with (h1, b1).1. rewrite <- E. split.
  - intros l Hl. by rewrite dispatch_fold_other.
  - intros l s Hin Hs. by apply dispatch_fold_member.
Qed.

Definition dispatch_demo_heap : sub_heap :=
  <[0%nat := Subscriber_new "slow" outbox_demo_filter 0]>
  {[1%nat := Subscriber_new "fast" outbox_demo_filter 9]}.

Lemma Dispatch_local_witness :
  exists s' kicked,
    delivered k1Critical "" (Subscriber_new "fast" outbox_demo_filter 9) s' kicked /\
    (Dispatch k1Critical (mkRingEntry 1 (Some ""%string)) [0%nat; 1%nat]
       (dispatch_demo_heap, Broadcaster_new None)).1 !! 1%nat = Some s'.
Proof.
  apply (Dispatch_local k1Critical (mkRingEntry 1 (Some ""%string)) "" [0%nat; 1%nat]
    dispatch_demo_heap (Broadcaster_new None)).
  - reflexivity.
  - apply NoDup_cons_2; [set_solver|]. apply NoDup_singleton.
  - set_solver.
  - reflexivity.
Defined.

Lemma dispatch_fold_kicks tier bytes roster h b :
  NoDup roster -> length (kick_counters_ b) = kNumKickReasons ->
  0 <= KicksForReason b kQueueFull < 2 ^ 64 ->
  KicksForReason (fold_left (fun st l => (dispatch_sub tier bytes st l).1) roster (h, b)).2 kQueueFull
  = u64 (KicksForReason b kQueueFull + zlen (filter (fun l => full_matching tier bytes h l = true) roster)).
Proof.
  intros Hnd. revert h b. induction Hnd as [|l roster Hl Hnd IH]; intros h b Hlen Hr.
  { simpl. by rewrite Z.add_0_r, u64_small. }
  cbn [fold_left]. destruct (dispatch_sub_kicks tier bytes h b l Hlen Hr) as [Hlen' Hk'].
  destruct (dispatch_sub tier bytes (h, b) l) as [[h1 b1] ok] eqn:E. cbn [fst snd] in *.
  rewrite IH; [|done|rewrite Hk'; apply u64_range].
  assert (filter (fun l => full_matching tier bytes h1 l = true) roster =
          filter (fun l => full_matching tier bytes h l = true) roster) as ->.
  { apply filter_ext_in. intros x Hx. unfold full_matching.
    pose proof (dispatch_sub_other tier bytes h b l x ltac:(set_solver)) as Hx'.
    rewrite E in Hx'. simpl in Hx'. by rewrite Hx'. }
  rewrite Hk'. unfold u64. rewrite Zplus_mod_idemp_l, filter_cons. f_equal.
  case_decide as Hd; [rewrite Hd; simpl; lia|].
  destruct (full_matching tier bytes h l); [done|lia].
Qed.

(** The kick counter is exact: one dispatch adds to the queue_full counter
    the number of open, matching subscribers of the roster whose queue was full. *)
Theorem Dispatch_kick_count (tier : Tier) (entry : RingEntry) (bytes : string) (roster : list loc)
    (h : sub_heap) (b : Broadcaster) :
  envelope_bytes entry = Some bytes -> NoDup roster ->
  length (kick_counters_ b) = kNumKickReasons -> 0 <= KicksForReason b kQueueFull < 2 ^ 64 ->
  KicksForReason (Dispatch tier entry roster (h, b)).2 kQueueFull =
    u64 (KicksForReason b kQueueFull
         + zlen (filter (fun l => full_matching tier bytes h l = true) roster)).
Proof.
  intros He Hnd Hlen Hr. rewrite <- (dispatch_fold_kicks tier bytes roster h b Hnd Hlen Hr).
  unfold Dispatch. rewrite He. by destruct (fold_left _ roster (h, b)).
Qed.

Definition dispatch_demo_full : sub_heap :=
  (Dispatch k1Critical (mkRingEntry 1 (Some ""%string)) [0%nat]
     (dispatch_demo_heap, Broadcaster_new None)).1.

Lemma Dispatch_kick_count_witness :
  KicksForReason (Dispatch k1Critical (mkRingEntry 2 (Some ""%string)) [0%nat; 1%nat]
    (dispatch_demo_full, Broadcaster_new None)).2 kQueueFull = 1.
Proof.
  rewrite (Dispatch_kick_count k1Critical (mkRingEntry 2 (Some ""%string)) "" [0%nat; 1%nat]
    dispatch_demo_full (Broadcaster_new None)).
  - reflexivity.
  - reflexivity.
  - apply NoDup_cons_2; [set_solver|]. apply NoDup_singleton.
  - reflexivity.
  - vm_compute. by split.
Defined.
