(* ===== verification/SubscribeHandler.v ===== *)
(** * The SubscribeEvents handler

    [src/control/handlers/subscribe_events_handler.cc]: the request is turned
    into a filter, the subscriber is registered atomically with its replay, the
    handler thread then writes the subscriber's queue to the stream until it is
    closed.  The handler is modelled in three parts, as other threads run
    between them: [SubscribeEvents_register] (up to and including the atomic
    add), [WriterLoop_step] (one iteration of the writer) and
    [SubscribeEvents_unwind].  The generated subscriber id, the protobuf parser
    and the gRPC writer are arguments. *)

From S2P Require Import Prelude BoundedQueue Tier Ring RingSet Routing Subscriber Broadcaster.

Record SubscribeEventsRequest := mkSubscribeEventsRequest {
  rq_tiers : list string;
  rq_event_names : list string;
  rq_subclass_globs : list string;
  rq_node_id : string;
  rq_since_seq : Z }.

Definition ParseTierString (s : string) : option Tier :=
  if (s =? "1")%string || (s =? "tier1")%string || (s =? "TIER_1_CRITICAL")%string
     || (s =? "tier_1_critical")%string then Some k1Critical
  else if (s =? "2")%string || (s =? "tier2")%string || (s =? "TIER_2_STATE")%string
     || (s =? "tier_2_state")%string then Some k2State
  else if (s =? "3")%string || (s =? "tier3")%string || (s =? "TIER_3_EPHEMERAL")%string
     || (s =? "tier_3_ephemeral")%string then Some k3Ephemeral
  else None.

Record FilterResult := mkFilterResult {
  fr_filter : SubscriberFilter;
  fr_replay_tiers : list Tier;
  fr_ok : bool;
  fr_error : string }.

Definition bad_tiers_error : string :=
  "no valid tier in `tiers`; allowed values: TIER_1_CRITICAL/TIER_2_STATE/TIER_3_EPHEMERAL (also 1/2/3 or tier1/tier2/tier3)".

(** The loop over [req.tiers()]. *)
Fixpoint parse_tiers (ts : list string) (set : gset Tier) (replay : list Tier)
  : gset Tier * list Tier :=
  match ts with
  | [] => (set, replay)
  | s :: ts =>
      match ParseTierString s with
      | Some t => parse_tiers ts ({[t]} ∪ set) (replay ++ [t])
      | None => parse_tiers ts set replay
      end
  end.

Definition BuildFilter (req : SubscribeEventsRequest) : FilterResult :=
  let tiers_requested := negb (length (rq_tiers req) =? 0)%nat in
  let '(tiers, replay_tiers) := parse_tiers (rq_tiers req) ∅ [] in
  let none_parsed := (length replay_tiers =? 0)%nat in
  if tiers_requested && none_parsed
  then mkFilterResult (mkSubscriberFilter tiers [] [] "") replay_tiers false bad_tiers_error
  else
    mkFilterResult
      (mkSubscriberFilter tiers (rq_event_names req) (rq_subclass_globs req) (rq_node_id req))
      (if none_parsed then [k1Critical; k2State; k3Ephemeral] else replay_tiers) true "".

Definition KickReasonToStatus (r : KickReason) (detail : string) : Status :=
  match r with
  | kQueueFull =>
      mkStatus RESOURCE_EXHAUSTED ("subscriber kicked: queue full (" +:+ detail +:+ ")")
  | kReplayEvicted => mkStatus RESOURCE_EXHAUSTED "since_seq outside replay window"
  | kShutdown | kClientCancelled | kNone => Status_OK
  end.

(** ** Replay *)

(** The loop over one tier's snapshot; [false] when the queue overflowed. *)
Fixpoint replay_entries (t : Tier) (es : list RingEntry) (sub : Subscriber) : bool * Subscriber :=
  match es with
  | [] => (true, sub)
  | e :: es =>
      match envelope_bytes e with
      | None => replay_entries t es sub
      | Some bytes =>
          if negb (matches_bytes sub t bytes) then replay_entries t es sub
          else
            let '(ok, q) := SendQueue_TryPush (send_queue_ sub) (Some bytes) in
            if ok then replay_entries t es (Subscriber_with_queue sub q)
            else (false, RequestClose sub kQueueFull)
      end
  end.

(** One iteration of the loop over the requested tiers. *)
Definition replay_tier (rings : RingSet) (t : Tier) (since_seq : Z) (sub : Subscriber)
  : bool * Subscriber :=
  match RingSet_Get rings t with
  | None => (true, sub)
  | Some ring =>
      let snap := Ring_SnapshotFromSeq ring since_seq in
      if negb (found_in_window snap) then (false, RequestClose sub kReplayEvicted)
      else replay_entries t (entries snap) sub
  end.

Fixpoint replay_tiers_loop (rings : RingSet) (ts : list Tier) (since_seq : Z) (sub : Subscriber)
  : bool * Subscriber :=
  match ts with
  | [] => (true, sub)
  | t :: ts =>
      let '(ok, sub') := replay_tier rings t since_seq sub in
      if ok then replay_tiers_loop rings ts since_seq sub' else (false, sub')
  end.

Definition ReplaySinceSeq (rings : option RingSet) (ts : list Tier) (since_seq : Z) (sub : Subscriber)
  : bool * Subscriber :=
  match rings with
  | None => (true, sub)
  | Some rs => replay_tiers_loop rs ts since_seq sub
  end.

(** ** Registration *)

(** [inl status]: the RPC ends with that status; [inr sub]: the subscription
    runs.  [sub_id] is what [GenerateSubscriberId] returned, [l] the location
    [make_shared] allocated, [writer] whether the writer is non-null. *)
Definition SubscribeEvents_register (req : option SubscribeEventsRequest) (writer : bool)
    (bcast : option Broadcaster) (rings : option RingSet) (max_subscribers queue_capacity : Z)
    (sub_id : string) (l : loc) (h : sub_heap)
  : (Status + loc) * sub_heap * option Broadcaster :=
  match req with
  | None => (inl (mkStatus INTERNAL "null request or writer"), h, bcast)
  | Some req =>
      if negb writer then (inl (mkStatus INTERNAL "null request or writer"), h, bcast)
      else
        match bcast with
        | None => (inl (mkStatus UNIMPLEMENTED "event plane not initialised"), h, bcast)
        | Some b =>
            if (0 <? max_subscribers) && (max_subscribers <=? Z.of_nat (SubscriberCount b))
            then (inl (mkStatus RESOURCE_EXHAUSTED "at max_subscribers cap"), h, bcast)
            else
              let fr := BuildFilter req in
              if negb (fr_ok fr) then (inl (mkStatus INVALID_ARGUMENT (fr_error fr)), h, bcast)
              else
                let cap := if queue_capacity =? 0 then 4096%nat else Z.to_nat queue_capacity in
                let sub := Subscriber_new sub_id (fr_filter fr) cap in
                let replay_ok :=
                  if 0 <? rq_since_seq req
                  then (ReplaySinceSeq rings (fr_replay_tiers fr) (rq_since_seq req) sub).1 else true in
                let replay_fn s :=
                  if 0 <? rq_since_seq req
                  then (ReplaySinceSeq rings (fr_replay_tiers fr) (rq_since_seq req) s).2 else s in
                let '(h, b) := AddSubscriberAtomic (<[l := sub]> h) b (Some l) (Some replay_fn) in
                if negb replay_ok then
                  (inl (KickReasonToStatus (default kNone (GetKickReason <$> h !! l))
                          "during since_seq replay"),
                   h, Some (RemoveSubscriber h b sub_id))
                else (inr l, h, Some b)
        end
  end.

(** After [WriterLoop]: the audit event emitted and the status. *)
Definition SubscribeEvents_unwind (h : sub_heap) (b : Broadcaster) (sub : Subscriber)
  : Status * string * Broadcaster :=
  let reason := GetKickReason sub in
  (KickReasonToStatus reason "writer-loop exit",
   match reason with
   | kQueueFull | kReplayEvicted => "subscriber_kicked"
   | _ => "subscriber_disconnected" end,
   RemoveSubscriber h b (id_ sub)).

(** ** The writer *)

Section Writer.
Context {Env : Type} (ParseFromString : string -> option Env).

Inductive WriterPc := WrTop | WrCheckClosed | WrReturned.

(** One step of the writer thread: the subscriber, the program counter, what
    was popped and what was passed to [writer->Write].  [cancelled] is
    [ctx->IsCancelled()], [write_ok] the result of a [Write].  The closed test
    after an empty pop is a step of its own: others run in between. *)
Definition WriterLoop_step (cancelled write_ok : bool) (s : Subscriber) (pc : WriterPc)
  : Subscriber * WriterPc * list bytes_ptr * list Env :=
  match pc with
  | WrTop =>
      if cancelled then (RequestClose s kClientCancelled, WrReturned, [], [])
      else
        let '(maybe_bytes, q) := SendQueue_WaitAndPop (send_queue_ s) in
        let s := Subscriber_with_queue s q in
        match maybe_bytes with
        | None => (s, WrCheckClosed, [], [])
        | Some None => (s, WrTop, [None], [])
        | Some (Some bytes) =>
            match ParseFromString bytes with
            | None => (s, WrTop, [Some bytes], [])
            | Some env =>
                if write_ok then (s, WrTop, [Some bytes], [env])
                else (RequestClose s kClientCancelled, WrReturned, [Some bytes], [env])
            end
        end
  | WrCheckClosed => (s, if Subscriber_IsClosed s then WrReturned else WrTop, [], [])
  | WrReturned => (s, WrReturned, [], [])
  end.

(** The writer's steps interleaved with the other threads' pushes and closes. *)
Inductive WriterLabel :=
| WlStep (cancelled write_ok : bool)
| WlPush (b : bytes_ptr)
| WlClose (r : KickReason).

Record WriterState := mkWriterState {
  ws_sub : Subscriber;
  ws_pc : WriterPc;
  ws_accepted : list bytes_ptr;
  ws_popped : list bytes_ptr;
  ws_written : list Env }.

Definition writer_step (w : WriterState) (lb : WriterLabel) : WriterState :=
  match lb with
  | WlStep c ok =>
      let '(s, pc, pop, wr) := WriterLoop_step c ok (ws_sub w) (ws_pc w) in
      mkWriterState s pc (ws_accepted w) (ws_popped w ++ pop) (ws_written w ++ wr)
  | WlPush b =>
      let '(s, acc, _) := Subscriber_exec (ws_sub w) (SPush b) in
      mkWriterState s (ws_pc w) (ws_accepted w ++ acc) (ws_popped w) (ws_written w)
  | WlClose r =>
      mkWriterState (RequestClose (ws_sub w) r) (ws_pc w) (ws_accepted w) (ws_popped w) (ws_written w)
  end.

Definition writer_run (w : WriterState) (ls : list WriterLabel) : WriterState :=
  fold_left writer_step ls w.

Definition writer_start (s : Subscriber) : WriterState :=
  mkWriterState s WrTop (sq_q_ (send_queue_ s)) [] [].

(** What the popped pointers give to the stream. *)
Definition stream_of (bs : list bytes_ptr) : list Env :=
  omap (fun b => match b with Some bytes => ParseFromString bytes | None => None end) bs.

Lemma writer_step_inv w lb :
  ws_written w = stream_of (ws_popped w) /\
    ws_accepted w = ws_popped w ++ sq_q_ (send_queue_ (ws_sub w)) ->
  ws_written (writer_step w lb) = stream_of (ws_popped (writer_step w lb)) /\
    ws_accepted (writer_step w lb)
      = ws_popped (writer_step w lb) ++ sq_q_ (send_queue_ (ws_sub (writer_step w lb))).
Proof.
  intros [Hw Ha]. destruct lb as [c ok|b|r]; simpl.
  - destruct (ws_pc w); simpl; try by rewrite !app_nil_r.
    destruct c; simpl; [by rewrite !app_nil_r|].
    unfold SendQueue_WaitAndPop. destruct (sq_q_ (send_queue_ (ws_sub w))) as [|[bytes|] q] eqn:Eq; simpl.
    + rewrite Eq, !app_nil_r in *. done.
    + unfold stream_of in *. destruct (ParseFromString bytes) as [env|] eqn:Ep; [destruct ok|]; simpl;
        rewrite omap_app; simpl; rewrite Ep, Hw, Ha; simpl; rewrite <- ?app_assoc, ?app_nil_r; done.
    + unfold stream_of in *. rewrite omap_app. simpl. rewrite !app_nil_r, Hw, Ha, <- app_assoc. done.
  - rewrite TryPush_spec. case_decide; simpl; [|by rewrite app_nil_r]. by rewrite Ha, app_assoc.
  - done.
Qed.

(** C30. The stream is faithful.  However the writer's iterations interleave
    with broadcaster pushes and close requests, and whatever the gRPC calls
    return, the envelopes passed to [Write] are exactly the parses, in order, of
    a prefix of what the subscriber's queue accepted: nothing is reordered,
    repeated or invented, and what is not yet written is still queued. *)
Theorem WriterLoop_stream (s : Subscriber) (ls : list WriterLabel) :
  let w := writer_run (writer_start s) ls in
  ws_accepted w = ws_popped w ++ sq_q_ (send_queue_ (ws_sub w)) /\
  ws_written w = stream_of (ws_popped w).
Proof.
  assert (forall w, ws_written w = stream_of (ws_popped w) /\
    ws_accepted w = ws_popped w ++ sq_q_ (send_queue_ (ws_sub w)) ->
    ws_written (writer_run w ls) = stream_of (ws_popped (writer_run w ls)) /\
    ws_accepted (writer_run w ls)
      = ws_popped (writer_run w ls) ++ sq_q_ (send_queue_ (ws_sub (writer_run w ls)))) as H.
  { unfold writer_run. induction ls as [|lb ls IH]; intros w Hw; [done|].
    cbn [fold_left]. by apply IH, writer_step_inv. }
  cbn. destruct (H (writer_start s)) as [? ?]; [done|]. done.
Qed.

Lemma writer_drains_from (q : list bytes_ptr) s acc pop wr :
  Subscriber_IsClosed s = true -> sq_q_ (send_queue_ s) = q ->
  let w := writer_run (mkWriterState s WrTop acc pop wr)
             (replicate (length q + 2) (WlStep false true)) in
  ws_pc w = WrReturned /\ sq_q_ (send_queue_ (ws_sub w)) = [] /\ ws_written w = wr ++ stream_of q.
Proof.
  revert s acc pop wr. induction q as [|ob q IH]; intros s acc pop wr Hc Hq; cbn -[Subscriber_IsClosed].
  - unfold SendQueue_WaitAndPop. rewrite Hq. cbn -[Subscriber_IsClosed].
    change (Subscriber_IsClosed (Subscriber_with_queue s (send_queue_ s))) with (Subscriber_IsClosed s).
    rewrite Hc. cbn. rewrite Hq, !app_nil_r. done.
  - unfold SendQueue_WaitAndPop. rewrite Hq.
    set (s' := Subscriber_with_queue s _).
    assert (Subscriber_IsClosed s' = true) as Hc' by done.
    destruct ob as [bytes|]; [destruct (ParseFromString bytes) as [env|] eqn:Ep|].
    + pose proof (IH s' acc (pop ++ [Some bytes]) (wr ++ [env]) Hc' eq_refl) as (H1 & H2 & H3).
      rewrite <- app_assoc in H3. done.
    + rewrite app_nil_r. by apply (IH s' acc (pop ++ [Some bytes]) wr Hc' eq_refl).
    + rewrite app_nil_r. by apply (IH s' acc (pop ++ [None]) wr Hc' eq_refl).
Qed.

(** C31. A closed subscriber is drained.  From the top of the loop on a closed
    subscriber, with the client connected, the writer writes every queued
    envelope and returns, within one iteration per entry and two more. *)
Theorem WriterLoop_drains (s : Subscriber) :
  Subscriber_IsClosed s = true ->
  let n := length (sq_q_ (send_queue_ s)) in
  let w := writer_run (writer_start s) (replicate (n + 2) (WlStep false true)) in
  ws_pc w = WrReturned /\ sq_q_ (send_queue_ (ws_sub w)) = [] /\
  ws_written w = stream_of (sq_q_ (send_queue_ s)).
Proof.
  intros Hc. by apply (writer_drains_from _ s (sq_q_ (send_queue_ s)) [] [] Hc eq_refl).
Qed.
End Writer.

Definition drain_demo_sub : Subscriber :=
  RequestClose (Subscriber_run (Subscriber_new "s" outbox_demo_filter 4)
    [SPush (Some "a"%string); SPush None; SPush (Some "b"%string)]).1.1 kShutdown.

Lemma WriterLoop_drains_witness :
  ws_written (writer_run (Some : string -> option string) (writer_start drain_demo_sub)
    (replicate 5 (WlStep false true))) = ["a"; "b"]%string.
Proof.
  apply (WriterLoop_drains Some drain_demo_sub). reflexivity.
Defined.

(** The closed test of the writer is not atomic with the pop before it: an
    entry accepted in between, followed by a shutdown close, is never written
    although the stream ends with status OK. *)
Theorem WriterLoop_loses_on_close_race :
  exists ls,
    let w := writer_run (Some : string -> option string)
               (writer_start (Subscriber_new "s" outbox_demo_filter 4)) ls in
    ws_accepted w = [Some "event"%string] /\ ws_written w = [] /\ ws_pc w = WrReturned /\
    KickReasonToStatus (GetKickReason (ws_sub w)) "writer-loop exit" = Status_OK.
Proof.
  exists [WlStep false true; WlPush (Some "event"%string); WlClose kShutdown; WlStep false true].
  done.
Qed.

(** ** Requests *)

Lemma parse_tiers_spec ts set rep :
  parse_tiers ts set rep =
    (list_to_set (omap ParseTierString ts) ∪ set, rep ++ omap ParseTierString ts).
Proof.
  revert set rep. induction ts as [|s ts IH]; intros set rep; simpl.
  { by rewrite app_nil_r, (left_id_L ∅ (∪)). }
  destruct (ParseTierString s) as [t|]; rewrite IH; simpl.
  - rewrite <- app_assoc. f_equal. set_solver.
  - done.
Qed.

(** What a request subscribes to.  [BuildFilter] refuses exactly the
    requests that name tiers of which none parses; otherwise a tier passes the
    tier axis of the built filter if and only if it is one of the tiers the
    replay scans, and the other axes are the request's. *)
Theorem BuildFilter_spec (req : SubscribeEventsRequest) (sid : string) (cap : nat) (ev sub node : string) :
  (fr_ok (BuildFilter req) = false <-> rq_tiers req <> [] /\ omap ParseTierString (rq_tiers req) = []) /\
  (fr_ok (BuildFilter req) = true -> forall t, t <> kUnspecified ->
     MatchesFilter (Subscriber_new sid (fr_filter (BuildFilter req)) cap) t ev sub node = true <->
     t ∈ fr_replay_tiers (BuildFilter req) /\
     (rq_node_id req = ""%string \/ node = rq_node_id req) /\
     axis_allows (rq_event_names req) ev /\ axis_allows (rq_subclass_globs req) sub).
Proof.
  unfold BuildFilter. rewrite parse_tiers_spec. cbn [app].
  destruct (rq_tiers req) as [|s ts] eqn:Et.
  { cbn. split; [naive_solver|]. intros _ t Ht. rewrite MatchesFilter_axes. cbn.
    assert (t ∈ [k1Critical; k2State; k3Ephemeral]) by (destruct t; set_solver). set_solver. }
  rewrite andb_true_l.
  destruct (omap ParseTierString (s :: ts)) as [|t0 r] eqn:Eo.
  { cbn. naive_solver. }
  cbn -[list_to_set]. split; [naive_solver|]. intros _ t Ht. rewrite MatchesFilter_axes. cbn -[list_to_set].
  rewrite (right_id_L ∅ (∪)), elem_of_list_to_set. set_solver.
Qed.

(** ** Admission *)

Lemma replay_entries_props t es s :
  kick_reason_ s = kNone ->
  id_ (replay_entries t es s).2 = id_ s /\
  ((replay_entries t es s).1 = true -> kick_reason_ (replay_entries t es s).2 = kNone) /\
  ((replay_entries t es s).1 = false -> kick_reason_ (replay_entries t es s).2 = kQueueFull).
Proof.
  revert s. induction es as [|e es IH]; intros s Hk; simpl; [done|].
  destruct (envelope_bytes e) as [bytes|]; [|by apply IH].
  case_test; [by apply IH|]. destruct (SendQueue_TryPush _ _) as [[|] q].
  - by apply (IH (Subscriber_with_queue s q)).
  - simpl. by rewrite Hk.
Qed.

Lemma replay_tiers_loop_props rs ts since s :
  kick_reason_ s = kNone ->
  id_ (replay_tiers_loop rs ts since s).2 = id_ s /\
  ((replay_tiers_loop rs ts since s).1 = false ->
   kick_reason_ (replay_tiers_loop rs ts since s).2 ∈ [kQueueFull; kReplayEvicted]).
Proof.
  revert s. induction ts as [|t ts IH]; intros s Hk; simpl; [done|].
  unfold replay_tier. destruct (RingSet_Get rs t) as [r|]; [|by apply IH].
  case_test; [simpl; rewrite Hk; set_solver|].
  pose proof (replay_entries_props t (entries (Ring_SnapshotFromSeq r since)) s Hk) as (Hi & Ht & Hf).
  destruct (replay_entries t _ s) as [[|] s']; simpl in *.
  - destruct (IH s' (Ht eq_refl)) as [-> ?]. done.
  - split; [done|]. intros _. rewrite Hf by done. set_solver.
Qed.

Lemma ReplaySinceSeq_props rs ts since s :
  kick_reason_ s = kNone ->
  id_ (ReplaySinceSeq rs ts since s).2 = id_ s /\
  ((ReplaySinceSeq rs ts since s).1 = false ->
   kick_reason_ (ReplaySinceSeq rs ts since s).2 ∈ [kQueueFull; kReplayEvicted]).
Proof. destruct rs as [rs|]; [apply replay_tiers_loop_props|done]. Qed.

Lemma RemoveSubscriber_last h b l id :
  has_id h id l -> (forall x, x ∈ roster_ b -> ~ has_id h id x) ->
  roster_ (RemoveSubscriber h (with_roster b (roster_ b ++ [l])) id) = roster_ b.
Proof.
  intros Hl Hx. simpl. rewrite filter_app, filter_all_true.
  - rewrite filter_cons_False by naive_solver. by rewrite filter_nil, app_nil_r.
  - by apply Forall_forall.
Qed.

(** Admission control.  With a fresh subscriber id and a fresh object, a
    registration that does not lead to a running stream returns an error status
    and leaves the roster as it was, also when the replay failed after the
    subscriber had been added; one that does appends exactly the new subscriber,
    and the roster then respects a non-zero cap. *)
Theorem SubscribeEvents_admission (req : option SubscribeEventsRequest) (writer : bool) (b : Broadcaster)
    (rings : option RingSet) (max_subscribers queue_capacity : Z) (sub_id : string) (l : loc) (h : sub_heap) :
  l ∉ roster_ b -> (forall x, x ∈ roster_ b -> ~ has_id h sub_id x) ->
  match SubscribeEvents_register req writer (Some b) rings max_subscribers queue_capacity sub_id l h with
  | (inl status, _, b') => st_code status <> OK /\ roster_ <$> b' = Some (roster_ b)
  | (inr l', h', b') =>
      l' = l /\ roster_ <$> b' = Some (roster_ b ++ [l]) /\ (id_ <$> h' !! l) = Some sub_id /\
      (0 < max_subscribers -> zlen (roster_ b ++ [l]) <= max_subscribers)
  end.
Proof.
  intros Hl Hid. unfold SubscribeEvents_register. destruct req as [req|]; [|done].
  destruct writer; cbn [negb]; [|done]. case_test; [done|].
  destruct (negb (fr_ok (BuildFilter req))); [done|].
  cbn [AddSubscriberAtomic]. set (s := Subscriber_new sub_id _ _).
  set (f := fun s => _).
  assert (id_ (f s) = sub_id) as Hfs.
  { unfold f. destruct (0 <? rq_since_seq req); [|done]. by apply ReplaySinceSeq_props. }
  assert (alter f l (<[l := s]> h) !! l = Some (f s)) as Hal.
  { by rewrite lookup_alter_eq, lookup_insert_eq. }
  case_test.
  - rewrite Hal. cbn [default fmap option_fmap option_map].
    assert (GetKickReason (f s) ∈ [kQueueFull; kReplayEvicted]) as Hk.
    { unfold f. destruct (0 <? rq_since_seq req); [|done]. by apply ReplaySinceSeq_props. }
    split.
    + apply elem_of_cons in Hk as [->|Hk]; [done|]. apply elem_of_cons in Hk as [->|Hk]; [done|set_solver].
    + f_equal. apply RemoveSubscriber_last.
      * unfold has_id. rewrite Hal. simpl. by rewrite Hfs.
      * intros x Hx. unfold has_id. rewrite lookup_alter_ne, lookup_insert_ne by (intros ->; done).
        by apply Hid.
  - rewrite Hal. split_and!; [done|done|simpl; by rewrite Hfs|]. intros Hm.
    rewrite (proj2 (Z.ltb_lt 0 max_subscribers)), andb_true_l in * by done. b2p.
    unfold SubscriberCount in *. rewrite length_app. simpl. lia.
Qed.

Definition admission_demo_req : SubscribeEventsRequest :=
  mkSubscribeEventsRequest ["tier2"]%string [] [] "" 7.

Lemma SubscribeEvents_admission_witness :
  match SubscribeEvents_register (Some admission_demo_req) true (Some (Broadcaster_new None))
          (Some drain_demo) 1 8 "sub-0" 0%nat ∅ with
  | (inl status, _, b') => st_code status <> OK /\ roster_ <$> b' = Some []
  | (inr l', h', b') =>
      l' = 0%nat /\ roster_ <$> b' = Some [0%nat] /\ (id_ <$> h' !! 0%nat) = Some "sub-0"%string /\
      (0 < 1 -> zlen [0%nat] <= 1)
  end.
Proof.
  apply (SubscribeEvents_admission (Some admission_demo_req) true (Broadcaster_new None)
           (Some drain_demo) 1 8 "sub-0" 0%nat ∅).
  - set_solver.
  - intros x Hx. set_solver.
Defined.
