(* ===== verification/EventPlane.v ===== *)
(** * The event plane: producers, workers and subscriptions together

    One state holds the rings, the subscriber heap, the broadcaster, the three
    worker threads and the registration in progress (the holder of
    [roster_mu_]).  The threads' steps are those of the component files; a run
    is any interleaving of them in which no thread passes a lock another holds.
    The theorem of this file is the one the comments in
    [Broadcaster::AddSubscriberAtomic] and [SubscribeEvents] argue for: a
    subscription with a replay point misses nothing at the seam between the
    replay and the live tail. *)

From S2P Require Import Prelude BoundedQueue Tier Ring RingSet Routing Subscriber Broadcaster SubscribeHandler.

(** The handler inside [AddSubscriberAtomic]'s critical section: its
    subscriber, the tiers it has still to replay, and its replay point. *)
Record Adder := mkAdder { ad_loc : loc; ad_tiers : list Tier; ad_since : Z }.

Record Plane := mkPlane {
  pl_rings : RingSet;
  pl_heap : sub_heap;
  pl_bc : Broadcaster;
  pl_workers : Tier -> WorkerPc;
  pl_adder : option Adder }.

Definition plane_init (c1 c2 c3 : nat) : Plane :=
  mkPlane (RingSet_new c1 c2 c3) ∅ (Broadcaster_Start (Broadcaster_new None)) (fun _ => WkHead) None.

Inductive PlaneLabel :=
| PPush (t : Tier) (e : RingEntry)
| PWorker (t : Tier) (timeout : bool)
| PBeginAdd (l : loc) (sub : Subscriber) (ts : list Tier) (since : Z)
| PReplay
| PEndAdd
| PRemove (id : string)
| PWriterPop (l : loc)
| PClose (l : loc) (r : KickReason)
| PStopRequest
| PStopFinish.

Inductive PlaneOutput :=
| ODelivered (l : loc) (t : Tier) (e : RingEntry)
| OEvicted (t : Tier) (e : RingEntry).

(** The entries a replay of one snapshot puts into the queue. *)
Fixpoint replay_accepted (t : Tier) (es : list RingEntry) (sub : Subscriber) : list RingEntry :=
  match es with
  | [] => []
  | e :: es =>
      match envelope_bytes e with
      | None => replay_accepted t es sub
      | Some bytes =>
          if negb (matches_bytes sub t bytes) then replay_accepted t es sub
          else
            let '(ok, q) := SendQueue_TryPush (send_queue_ sub) (Some bytes) in
            if ok then e :: replay_accepted t es (Subscriber_with_queue sub q) else []
      end
  end.

Definition replay_outputs (rs : RingSet) (l : loc) (t : Tier) (since : Z) (sub : Subscriber)
  : list PlaneOutput :=
  match RingSet_Get rs t with
  | None => []
  | Some ring =>
      let snap := Ring_SnapshotFromSeq ring since in
      if found_in_window snap then ODelivered l t <$> replay_accepted t (entries snap) sub else []
  end.

(** The entry a push evicts. *)
Definition push_outputs (rs : RingSet) (t : Tier) : list PlaneOutput :=
  match RingSet_Get rs t with
  | None => []
  | Some ring =>
      if (capacity_ ring <=? length (q_ ring))%nat
      then OEvicted t <$> option_list (head (q_ ring)) else []
  end.

Definition set_worker (t : Tier) (pc : WorkerPc) (ws : Tier -> WorkerPc) : Tier -> WorkerPc :=
  fun t' => if decide (t = t') then pc else ws t'.

Definition locked (p : Plane) : bool := match pl_adder p with Some _ => true | None => false end.

(** [None]: the thread is blocked (or the step is not one the thread can
    take). *)
Definition plane_step (p : Plane) (lb : PlaneLabel) : option (Plane * list PlaneOutput) :=
  let '(mkPlane rs h b ws ad) := p in
  match lb with
  | PPush t e => Some (mkPlane (RingSet_Push rs t e None).2 h b ws ad, push_outputs rs t)
  | PWorker t timeout =>
      match WorkerLoop_step t (locked p) timeout rs h b (ws t) with
      | None => None
      | Some (rs', h', b', pc', out) =>
          Some (mkPlane rs' h' b' (set_worker t pc' ws) ad,
                match out with Some (l, e) => [ODelivered l t e] | None => [] end)
      end
  | PBeginAdd l sub ts since =>
      match ad, h !! l with
      | None, None => Some (mkPlane rs (<[l := sub]> h) b ws (Some (mkAdder l ts since)), [])
      | _, _ => None
      end
  | PReplay =>
      match ad with
      | Some (mkAdder l (t :: ts) since) =>
          match h !! l with
          | None => None
          | Some sub =>
              let '(ok, sub') := replay_tier rs t since sub in
              Some (mkPlane rs (<[l := sub']> h) b ws (Some (mkAdder l (if ok then ts else []) since)),
                    replay_outputs rs l t since sub)
          end
      | _ => None
      end
  | PEndAdd =>
      match ad with
      | Some (mkAdder l [] since) => Some (mkPlane rs h (AddSubscriber b (Some l)) ws None, [])
      | _ => None
      end
  | PRemove id => if locked p then None else Some (mkPlane rs h (RemoveSubscriber h b id) ws ad, [])
  | PWriterPop l =>
      Some (mkPlane rs (alter (fun s => (Subscriber_exec s SPop).1.1) l h) b ws ad, [])
  | PClose l r => Some (mkPlane rs (alter (fun s => RequestClose s r) l h) b ws ad, [])
  | PStopRequest =>
      let '(rs', b') := Stop_request (Some rs) b in
      match rs' with Some rs' => Some (mkPlane rs' h b' ws ad, []) | None => None end
  | PStopFinish =>
      if locked p then None
      else let '(h', b') := Stop_finish h b in Some (mkPlane rs h' b' ws ad, [])
  end.

Fixpoint plane_run (p : Plane) (ls : list PlaneLabel) : option (Plane * list PlaneOutput) :=
  match ls with
  | [] => Some (p, [])
  | lb :: ls =>
      match plane_step p lb with
      | None => None
      | Some (p', o) =>
          match plane_run p' ls with
          | None => None
          | Some (p'', o') => Some (p'', o ++ o')
          end
      end
  end.

Definition pushed_to (t : Tier) (ls : list PlaneLabel) : list RingEntry :=
  omap (fun lb => match lb with PPush t' e => if decide (t = t') then Some e else None | _ => None end) ls.

(** An entry of tier [t] a worker has popped and will still offer to [l]. *)
Definition in_flight (pc : WorkerPc) (l : loc) (e : RingEntry) : Prop :=
  match pc with
  | WkPopped batch => e ∈ batch
  | WkDispatch roster todo (x :: batch) => (e = x /\ l ∈ todo) \/ (e ∈ batch /\ l ∈ roster)
  | _ => False
  end.

(** ** Subscribers only move towards closed *)

Definition sub_evolves (s s' : Subscriber) : Prop :=
  filter_ s' = filter_ s /\ (Subscriber_IsClosed s = true -> Subscriber_IsClosed s' = true).

Definition heap_evolves (h h' : sub_heap) : Prop :=
  forall l s, h !! l = Some s -> exists s', h' !! l = Some s' /\ sub_evolves s s'.

#[export] Instance sub_evolves_preorder : PreOrder sub_evolves.
Proof. split; [done|]. intros s1 s2 s3 [? ?] [? ?]. split; [congruence|auto]. Qed.

#[export] Instance heap_evolves_preorder : PreOrder heap_evolves.
Proof.
  split.
  - intros h l s Hs. by exists s.
  - intros h1 h2 h3 H12 H23 l s Hs. destruct (H12 l s Hs) as (s2 & H2 & E2).
    destruct (H23 l s2 H2) as (s3 & H3 & E3). exists s3. split; [done|by etrans].
Qed.

Lemma heap_evolves_insert h l s s' :
  h !! l = Some s -> sub_evolves s s' -> heap_evolves h (<[l := s']> h).
Proof.
  intros Hs E x sx Hx. destruct (decide (l = x)) as [->|Hne].
  - exists s'. rewrite lookup_insert_eq. simplify_eq. done.
  - exists sx. by rewrite lookup_insert_ne.
Qed.

Lemma heap_evolves_fresh h l s : h !! l = None -> heap_evolves h (<[l := s]> h).
Proof.
  intros Hn x sx Hx. exists sx. rewrite lookup_insert_ne by (intros ->; congruence). done.
Qed.

Lemma heap_evolves_alter h l f :
  (forall s, sub_evolves s (f s)) -> heap_evolves h (alter f l h).
Proof.
  intros Hf x sx Hx. destruct (decide (l = x)) as [->|Hne].
  - exists (f sx). by rewrite lookup_alter_eq, Hx.
  - exists sx. by rewrite lookup_alter_ne.
Qed.

Lemma close_evolves s r : sub_evolves s (RequestClose s r).
Proof. done. Qed.

Lemma push_evolves s b : sub_evolves s (Subscriber_with_queue s (SendQueue_TryPush (send_queue_ s) b).2).
Proof.
  split; [done|]. unfold SendQueue_TryPush, Subscriber_IsClosed, SendQueue_IsClosed.
  repeat case_test; simpl; congruence.
Qed.

Lemma pop_evolves s : sub_evolves s (Subscriber_exec s SPop).1.1.
Proof.
  simpl. unfold SendQueue_WaitAndPop. split; [by repeat case_match|].
  unfold Subscriber_IsClosed. by repeat case_match; simplify_eq/=.
Qed.

#[export] Hint Resolve close_evolves push_evolves pop_evolves heap_evolves_insert
  heap_evolves_fresh heap_evolves_alter : osw.

Lemma replay_entries_evolves t es s : sub_evolves s (replay_entries t es s).2.
Proof.
  revert s. induction es as [|e es IH]; intros s; simpl; [done|].
  destruct (envelope_bytes e) as [bytes|]; [|done]. case_test; [done|].
  pose proof (push_evolves s (Some bytes)) as Hp.
  destruct (SendQueue_TryPush _ _) as [[|] q]; [|done]. etrans; [exact Hp|apply IH].
Qed.

Lemma replay_tier_evolves rs t since s : sub_evolves s (replay_tier rs t since s).2.
Proof.
  unfold replay_tier. destruct (RingSet_Get rs t); [|done]. case_test; [done|].
  apply replay_entries_evolves.
Qed.

Lemma dispatch_sub_evolves t bytes h b l : heap_evolves h (dispatch_sub t bytes (h, b) l).1.1.
Proof.
  unfold dispatch_sub. destruct (h !! l) as [s|] eqn:Hs; [|done].
  case_test; [done|]. case_test; [done|].
  pose proof (push_evolves s (Some bytes)) as Hp.
  destruct (SendQueue_TryPush _ _) as [[|] q]; simpl; eauto with osw.
Qed.

Lemma WorkerLoop_step_evolves t lk to rs h b pc rs' h' b' pc' o :
  WorkerLoop_step t lk to rs h b pc = Some (rs', h', b', pc', o) -> heap_evolves h h'.
Proof.
  unfold WorkerLoop_step. intros H. repeat case_match; simplify_eq; try done.
  all: match goal with H : dispatch_sub ?t ?bs ?st ?l = _ |- _ =>
    pose proof (dispatch_sub_evolves t bs st.1 st.2 l) as He; cbn [fst snd] in He; by rewrite H in He end.
Qed.

Lemma Stop_finish_evolves h b : heap_evolves h (Stop_finish h b).1.
Proof.
  unfold Stop_finish. simpl. generalize (roster_ b). intros r. revert h.
  induction r as [|l r IH]; intros h; [done|]. cbn [fold_left].
  etrans; [|apply IH]. apply heap_evolves_alter. intros; apply close_evolves.
Qed.

Lemma plane_step_evolves p lb p' o :
  plane_step p lb = Some (p', o) -> heap_evolves (pl_heap p) (pl_heap p').
Proof.
  destruct p as [rs h b ws ad]. intros H.
  destruct lb as [t e|t to|l s ts n| | |i|l|l r| |]; cbn [plane_step] in H.
  - by simplify_eq/=.
  - repeat case_match; simplify_eq; by eapply WorkerLoop_step_evolves.
  - repeat case_match; simplify_eq/=. eauto with osw.
  - destruct ad as [[l [|t ts] n]|]; [done| |done]. destruct (h !! l) as [s|] eqn:Hs; [|done].
    pose proof (replay_tier_evolves rs t n s). destruct (replay_tier rs t n s) as [ok s'].
    simplify_eq/=. eauto with osw.
  - repeat case_match; by simplify_eq/=.
  - repeat case_match; by simplify_eq/=.
  - simplify_eq/=. apply heap_evolves_alter, pop_evolves.
  - simplify_eq/=. apply heap_evolves_alter. intros. apply close_evolves.
  - unfold Stop_request in H. repeat case_match; by simplify_eq/=.
  - case_match; [done|]. destruct (Stop_finish h b) as [h' b'] eqn:E. simplify_eq/=.
    pose proof (Stop_finish_evolves h b) as He. by rewrite E in He.
Qed.

(** ** Coverage of one tier for one subscriber *)

Section Coverage.
Context (l : loc) (t : Tier) (since : Z) (flt : SubscriberFilter).
Context (Hsince : 1 <= since < UINT64_MAX) (Ht : t <> kUnspecified).

(** An entry the subscriber asked for. *)
Definition wanted (e : RingEntry) : Prop :=
  since < seq e /\
  exists bytes, envelope_bytes e = Some bytes /\
    matches_bytes (Subscriber_new "" flt 0) t bytes = true.

Definition accounted (p : Plane) (outs : list PlaneOutput) (e : RingEntry) : Prop :=
  ODelivered l t e ∈ outs \/ OEvicted t e ∈ outs \/
  (exists r, RingSet_Get (pl_rings p) t = Some r /\ e ∈ q_ r) \/ in_flight (pl_workers p t) l e.

Definition covered (p : Plane) (pushed : list RingEntry) (outs : list PlaneOutput) : Prop :=
  forall e, e ∈ pushed -> wanted e -> accounted p outs e.

(** What the ring remembers of its pushes. *)
Definition ring_window (p : Plane) (pushed : list RingEntry) : Prop :=
  exists r removed, RingSet_Get (pl_rings p) t = Some r /\ pushed = removed ++ q_ r /\
    max_seq_ever_pushed_ r = fold_left Z.max (seq <$> pushed) 0.

(** The subscriber's progress: closed, registering (tier [t] still to replay or
    covered), or in the roster and covered. *)
Definition subscribed (p : Plane) (pushed : list RingEntry) (outs : list PlaneOutput) : Prop :=
  exists s, pl_heap p !! l = Some s /\ filter_ s = flt /\
    (Subscriber_IsClosed s = true \/
     (exists rem, pl_adder p = Some (mkAdder l rem since) /\ (t ∈ rem \/ covered p pushed outs)) \/
     ((forall a, pl_adder p = Some a -> ad_loc a <> l) /\ (l ∈ roster_ (pl_bc p) -> covered p pushed outs))).

Lemma matches_bytes_filter s s' t' bytes :
  filter_ s = filter_ s' -> matches_bytes s t' bytes = matches_bytes s' t' bytes.
Proof. unfold matches_bytes, MatchesFilter. by intros ->. Qed.

(** ** The ring window under every step *)

Lemma ring_window_push p e r pushed rs' :
  ring_window p pushed -> RingSet_Get (pl_rings p) t = Some r ->
  RingSet_Get rs' t = Some (Ring_Push r e None).2 ->
  forall h b ws ad, ring_window (mkPlane rs' h b ws ad) (pushed ++ [e]).
Proof.
  intros (r0 & rem & Hr & Hq & Hm) Hr' Hg h b ws ad.
  assert (r0 = r) as -> by congruence. simpl in Hg.
  eexists _, (if (capacity_ r <=? length (q_ r))%nat then rem ++ option_list (head (q_ r)) else rem).
  split_and!; [exact Hg| |].
  - simpl. rewrite Hq, <- app_assoc. case_test; [|done].
    destruct (q_ r) as [|x q]; simpl; by rewrite <- ?app_assoc, ?app_nil_r.
  - simpl. rewrite fmap_app, fold_left_app. simpl. rewrite <- Hm. case_test; lia.
Qed.

Lemma ring_window_pop p r n pushed rs' :
  ring_window p pushed -> RingSet_Get (pl_rings p) t = Some r ->
  RingSet_Get rs' t = Some (Ring_WaitAndPopBatch r n).2 ->
  forall h b ws ad, ring_window (mkPlane rs' h b ws ad) pushed.
Proof.
  intros (r0 & rem & Hr & Hq & Hm) Hr' Hg h b ws ad. assert (r0 = r) as -> by congruence.
  rewrite Ring_WaitAndPopBatch_spec in Hg. cbn [snd] in Hg.
  eexists _, (rem ++ take n (q_ r)). split_and!; [exact Hg| |done].
  simpl. by rewrite <- app_assoc, take_drop.
Qed.

Lemma RingSet_Get_put rs t1 t2 r :
  RingSet_Get rs t1 <> None ->
  RingSet_Get (RingSet_put rs t1 r) t2 = if decide (t1 = t2) then Some r else RingSet_Get rs t2.
Proof. by destruct t1, t2. Qed.

Lemma RingSet_Get_push rs t1 e :
  RingSet_Get (RingSet_Push rs t1 e None).2 t =
    if decide (t1 = t) then (fun r => (Ring_Push r e None).2) <$> RingSet_Get rs t
    else RingSet_Get rs t.
Proof. by destruct t1, t. Qed.

Lemma RingSet_Get_pop rs t1 n :
  RingSet_Get (RingSet_PopBatch rs t1 n).2 t =
    if decide (t1 = t) then (fun r => (Ring_WaitAndPopBatch r n).2) <$> RingSet_Get rs t
    else RingSet_Get rs t.
Proof.
  unfold RingSet_PopBatch. destruct t1; simpl; try (by destruct t);
    destruct (Ring_WaitAndPopBatch _ n) as [[es nb] r'] eqn:E; simpl;
    case_match; destruct t; simpl; try done; by rewrite E.
Qed.

Lemma WorkerLoop_step_rings t1 lk to rs h b pc rs' h' b' pc' o :
  WorkerLoop_step t1 lk to rs h b pc = Some (rs', h', b', pc', o) ->
  rs' = rs \/ rs' = (RingSet_PopBatch rs t1 kBatchMax).2.
Proof.
  unfold WorkerLoop_step. intros H. repeat case_match; simplify_eq; auto.
Qed.

Lemma ring_window_ext p p' pushed :
  RingSet_Get (pl_rings p') t = RingSet_Get (pl_rings p) t ->
  ring_window p pushed -> ring_window p' pushed.
Proof. intros Hg (r & rem & Hr & Hq). exists r, rem. by rewrite Hg. Qed.

Lemma ring_window_step p lb p' o pushed :
  plane_step p lb = Some (p', o) -> ring_window p pushed ->
  ring_window p' (pushed ++ pushed_to t [lb]).
Proof.
  destruct p as [rs h b ws ad]. intros H Hw. pose proof Hw as (r & _ & Hr & _). cbn [pl_rings] in Hr.
  destruct lb as [t1 e|t1 to|x s ts n| | |i|x|x k| |]; cbn [plane_step] in H;
    rewrite ?app_nil_r.
  2: { destruct (WorkerLoop_step _ _ _ _ _ _ _) as [[[[[rs' h'] b'] pc'] out]|] eqn:E; [|done].
       simplify_eq. cbn [pushed_to omap list_omap]. rewrite ?app_nil_r.
       destruct (WorkerLoop_step_rings _ _ _ _ _ _ _ _ _ _ _ _ E) as [->| ->]; [by (eapply ring_window_ext; [|exact Hw])|].
       pose proof (RingSet_Get_pop rs t1 kBatchMax) as Hg. case_decide; [|by (eapply ring_window_ext; [|exact Hw])].
       eapply ring_window_pop; [done|done|]. by rewrite Hg, Hr. }
  1: { simplify_eq. cbn [pushed_to omap list_omap]. pose proof (RingSet_Get_push rs t1 e) as Hg.
       destruct (decide (t1 = t)) as [->|Hne].
       - rewrite decide_True by done. eapply ring_window_push; [done|done|]. by rewrite Hg, Hr.
       - rewrite decide_False by done. rewrite app_nil_r. by (eapply ring_window_ext; [|exact Hw]). }
  all: cbn [pushed_to omap list_omap]; rewrite ?app_nil_r.
  7: { unfold Stop_request in H. destruct (negb (running_ b)); simplify_eq/=; [by (eapply ring_window_ext; [|exact Hw])|].
       destruct Hw as (r0 & rem & Hr0 & Hq & Hm). exists (Ring_Close r0), rem.
       split_and!; [|done|done]. simpl in Hr0. by destruct t; simplify_eq/=. }
  all: repeat case_match; simplify_eq/=; by (eapply ring_window_ext; [|exact Hw]).
Qed.

(** ** A worker of the tier loses nothing *)

Lemma dispatch_sub_at tier bytes h b s :
  h !! l = Some s ->
  matches_bytes s tier bytes = true ->
  (forall s', (dispatch_sub tier bytes (h, b) l).1.1 !! l = Some s' -> Subscriber_IsClosed s' = false) ->
  (dispatch_sub tier bytes (h, b) l).2 = true.
Proof.
  intros Hs Hm Ho. unfold dispatch_sub in *. rewrite Hs in *.
  destruct (Subscriber_IsClosed s) eqn:Hc; [by rewrite (Ho s Hs) in Hc|].
  rewrite Hm in *. cbn [negb] in *. destruct (SendQueue_TryPush _ _) as [[|] q]; [done|].
  cbn [fst] in Ho. specialize (Ho _ (lookup_insert_eq _ _ _)). done.
Qed.

Lemma worker_keeps rs h b pc lk to rs' h' b' pc' out s e :
  WorkerLoop_step t lk to rs h b pc = Some (rs', h', b', pc', out) ->
  (lk = false -> l ∈ roster_ b) -> h !! l = Some s -> filter_ s = flt ->
  (forall s', h' !! l = Some s' -> Subscriber_IsClosed s' = false) -> wanted e ->
  (exists r, RingSet_Get rs t = Some r /\ e ∈ q_ r) \/ in_flight pc l e ->
  out = Some (l, e) \/ (exists r, RingSet_Get rs' t = Some r /\ e ∈ q_ r) \/ in_flight pc' l e.
Proof.
  intros H Hlk Hs Hf Ho (Hse & bytes & Hb & Hm) He. destruct pc as [| |batch|ro todo [|x batch]|];
    cbn [WorkerLoop_step] in H.
  - repeat case_match; simplify_eq/=; naive_solver.
  - destruct He as [(r & Hr & He)|[]]. rewrite Hr in H. case_match; [done|].
    pose proof (RingSet_Get_pop rs t kBatchMax) as Hg. rewrite decide_True, Hr in Hg by done.
    destruct (RingSet_PopBatch rs t kBatchMax) as [es rs1] eqn:Ep.
    assert (es = take kBatchMax (q_ r)) as Hes.
    { unfold RingSet_PopBatch in Ep. rewrite Hr, Ring_WaitAndPopBatch_spec in Ep. by simplify_eq. }
    cbn [snd fmap option_fmap option_map] in Hg. rewrite Ring_WaitAndPopBatch_spec in Hg. cbn [snd] in Hg.
    rewrite <- (take_drop kBatchMax (q_ r)), elem_of_app, <- Hes in He.
    assert (pc' = WkPopped es \/ es = []) as Hpc by (destruct es; simplify_eq/=; auto).
    assert (rs' = rs1) as -> by (destruct es; by simplify_eq/=). right.
    destruct He as [He|He]; [right|left; by eexists].
    destruct Hpc as [->| ->]; [done|by inv He].
  - case_match; [done|]. simplify_eq. destruct He as [He|He]; [by auto|]. right; right. simpl in He.
    specialize (Hlk eq_refl). destruct batch as [|x batch]; [by inv He|].
    apply elem_of_cons in He as [->|He]; [left|right]; done.
  - simplify_eq/=. naive_solver.
  - destruct (envelope_bytes x) as [bx|] eqn:Ebx.
    2: { simplify_eq. destruct He as [He|[[-> _]|[He Hl]]]; [by auto|congruence|].
         right; right. destruct batch as [|y batch]; [by inv He|].
         apply elem_of_cons in He as [->|He]; [left|right]; done. }
    destruct todo as [|l' todo].
    + simplify_eq. destruct He as [He|[[_ He]|[He Hl]]]; [by auto|by inv He|].
      right; right. destruct batch as [|y batch]; [by inv He|].
      apply elem_of_cons in He as [->|He]; [left|right]; done.
    + destruct (dispatch_sub t bx (h, b) l') as [[h1 b1] ok] eqn:Ed. simplify_eq.
      destruct He as [He|[[-> He]|[He Hl]]]; [by auto| |by right; right; right].
      apply elem_of_cons in He as [<-|He]; [|by right; right; left].
      assert (bx = bytes) as -> by congruence.
      pose proof (dispatch_sub_at t bytes h b s Hs) as Hd. rewrite Ed in Hd. cbn [fst snd] in Hd.
      rewrite Hd; [by left| |done].
      erewrite matches_bytes_filter; [exact Hm|done].
  - repeat case_match; simplify_eq/=; naive_solver.
Qed.

(** ** Every step keeps the coverage *)

(** Steps that touch neither the rings nor the workers. *)
Ltac simplify_plane_step H Hcov He :=
  cbn [pushed_to omap list_omap] in He; rewrite ?app_nil_r in He;
  repeat case_match; simplify_eq; unfold accounted; cbn;
  match goal with
  | Hw : wanted ?e |- _ =>
      let K := fresh in pose proof (Hcov e He Hw) as K; unfold accounted in K; cbn in K;
      rewrite !elem_of_app; tauto
  end.

Lemma covered_step p lb p' o pushed outs s :
  plane_step p lb = Some (p', o) ->
  (locked p = false -> l ∈ roster_ (pl_bc p)) -> pl_heap p !! l = Some s -> filter_ s = flt ->
  (forall s', pl_heap p' !! l = Some s' -> Subscriber_IsClosed s' = false) ->
  covered p pushed outs -> covered p' (pushed ++ pushed_to t [lb]) (outs ++ o).
Proof.
  intros H Hlk Hs Hf Ho Hcov e He Hw.
  assert (forall e, accounted p outs e ->
    (ODelivered l t e ∈ outs \/ OEvicted t e ∈ outs) \/
    ((exists r, RingSet_Get (pl_rings p) t = Some r /\ e ∈ q_ r) \/ in_flight (pl_workers p t) l e)) as Hsplit
    by (unfold accounted; naive_solver).
  assert (ODelivered l t e ∈ outs \/ OEvicted t e ∈ outs -> accounted p' (outs ++ o) e) as Hold.
  { unfold accounted. intros [?|?]; [left|right; left]; apply elem_of_app; by left. }
  destruct p as [rs h b ws ad].
  destruct lb as [t1 x|t1 to|x sx ts n| | |i|x|x k| |]; cbn [plane_step] in H.
  - simplify_eq. cbn [pl_rings pl_workers] in *.
    pose proof (RingSet_Get_push rs t1 x) as Hg. apply elem_of_app in He as [He|He].
    + destruct (Hsplit e (Hcov e He Hw)) as [?|[(r & Hr & Hin)|Hin]]; [by apply Hold| |].
      2: { right; right; right. done. }
      case_decide as Ht1; [subst t1|right; right; left; exists r; cbn [pl_rings]; by rewrite Hg].
      rewrite Hr in Hg. destruct (decide (e ∈ q_ (Ring_Push r x None).2)) as [Hin'|Hin'].
      { right; right; left. by eexists. }
      right; left. apply elem_of_app. right. unfold push_outputs. rewrite Hr.
      simpl in Hin'. case_test; [|set_solver].
      destruct (q_ r) as [|y q]; simpl in *; [by inv Hin|]. set_solver.
    + unfold pushed_to in He. cbn [omap list_omap] in He.
      destruct (decide (t = t1)) as [<-|]; [|by inv He]. apply list_elem_of_singleton in He as ->.
      rewrite decide_True in Hg by done. right; right; left.
      destruct (RingSet_Get rs t) as [r|] eqn:Hr; [|by destruct t].
      eexists. split; [exact Hg|]. simpl. set_solver.
  - destruct (WorkerLoop_step _ _ _ _ _ _ _) as [[[[[rs' h'] b'] pc'] out]|] eqn:E; [|done].
    simplify_eq. cbn [pushed_to omap list_omap] in He. rewrite ?app_nil_r in He.
    destruct (Hsplit e (Hcov e He Hw)) as [?|Hin]; [by apply Hold|].
    cbn [pl_rings pl_workers pl_heap pl_bc] in *. unfold accounted. cbn [pl_rings pl_workers].
    unfold set_worker. destruct (decide (t1 = t)) as [->|Hne].
    + destruct (worker_keeps _ _ _ _ _ _ _ _ _ _ _ s e E Hlk Hs Hf Ho Hw Hin) as [->|[Hr|Hr]]; set_solver.
    + destruct (WorkerLoop_step_rings _ _ _ _ _ _ _ _ _ _ _ _ E) as [->| ->]; [tauto|].
      pose proof (RingSet_Get_pop rs t1 kBatchMax) as Hg. rewrite decide_False in Hg by done.
      rewrite Hg. tauto.
  - simplify_plane_step H Hcov He.
  - simplify_plane_step H Hcov He.
  - simplify_plane_step H Hcov He.
  - simplify_plane_step H Hcov He.
  - simplify_plane_step H Hcov He.
  - simplify_plane_step H Hcov He.
  - unfold Stop_request in H. cbn [pushed_to omap list_omap] in He. rewrite ?app_nil_r in He.
    destruct (Hsplit e (Hcov e He Hw)) as [?|Hin]; [by apply Hold|].
    destruct (negb (running_ b)); simplify_eq/=; unfold accounted; cbn in Hin |- *; [tauto|].
    destruct Hin as [(r & Hr & Hin)|Hin]; [|tauto]. right; right; left.
    exists (Ring_Close r). destruct t; simplify_eq/=; done.
  - simplify_plane_step H Hcov He.
Qed.

(** ** The replay of the tier covers it *)

Lemma replay_accepted_ok es s e bytes :
  (replay_entries t es s).1 = true -> e ∈ es -> envelope_bytes e = Some bytes ->
  matches_bytes s t bytes = true -> e ∈ replay_accepted t es s.
Proof.
  revert s. induction es as [|x es IH]; intros s Hok He Hb Hm; simpl in *; [by inv He|].
  apply elem_of_cons in He as [<-|He].
  - rewrite Hb, Hm in *. cbn [negb] in *.
    destruct (SendQueue_TryPush _ _) as [[|] q]; [set_solver|done].
  - destruct (envelope_bytes x) as [bx|]; [|by apply IH]. case_test; [by apply IH|].
    destruct (SendQueue_TryPush _ _) as [[|] q]; [|done].
    apply elem_of_cons. right. apply IH; [done|done|done|].
    by rewrite (matches_bytes_filter _ s).
Qed.

Lemma replay_covers p s s' pushed :
  ring_window p pushed -> seqs_increasing pushed -> filter_ s = flt ->
  replay_tier (pl_rings p) t since s = (true, s') ->
  forall e, e ∈ pushed -> wanted e -> ODelivered l t e ∈ replay_outputs (pl_rings p) l t since s.
Proof.
  intros (r & rem & Hr & Hq & Hm) Hinc Hf Hrep e He (Hse & bytes & Hb & Hmt).
  unfold replay_tier in Hrep. unfold replay_outputs. rewrite Hr in *.
  destruct (found_in_window (Ring_SnapshotFromSeq r since)) eqn:Efound; [|done]. cbn [negb] in Hrep.
  rewrite (window_entries r rem pushed since Hq Hinc Hm Hsince Efound) in *.
  apply list_elem_of_fmap_2. eapply replay_accepted_ok.
  - by rewrite Hrep.
  - by apply list_elem_of_filter.
  - exact Hb.
  - erewrite matches_bytes_filter; [exact Hmt|done].
Qed.

Lemma replay_tier_false rs t0 n s s' : replay_tier rs t0 n s = (false, s') -> Subscriber_IsClosed s' = true.
Proof.
  unfold replay_tier. destruct (RingSet_Get rs t0); [|done]. case_test; [by intros [= <-]|].
  generalize (entries (Ring_SnapshotFromSeq r n)). intros es. revert s.
  induction es as [|e es IH]; intros s H; simpl in H; [done|].
  destruct (envelope_bytes e); [|by eapply IH]. case_test; [by eapply IH|].
  destruct (SendQueue_TryPush _ _) as [[|] q]; [by eapply IH|]. by simplify_eq.
Qed.

Lemma dispatch_sub_roster tier bytes h b x : roster_ (dispatch_sub tier bytes (h, b) x).1.2 = roster_ b.
Proof. unfold dispatch_sub. by repeat case_match; simplify_eq/=. Qed.

Lemma WorkerLoop_step_roster t1 lk to rs h b pc rs' h' b' pc' o :
  WorkerLoop_step t1 lk to rs h b pc = Some (rs', h', b', pc', o) -> roster_ b' = roster_ b.
Proof.
  unfold WorkerLoop_step. intros H. repeat case_match; simplify_eq; try done.
  all: match goal with H : dispatch_sub ?t ?bs ?st ?x = _ |- _ =>
    pose proof (dispatch_sub_roster t bs st.1 st.2 x) as He; cbn [fst snd] in He; by rewrite H in He end.
Qed.

Lemma roster_step p lb p' o :
  plane_step p lb = Some (p', o) -> (forall a, pl_adder p = Some a -> ad_loc a <> l) ->
  l ∈ roster_ (pl_bc p') -> l ∈ roster_ (pl_bc p).
Proof.
  destruct p as [rs h b ws ad]. intros H Had Hin. cbn [pl_adder] in Had.
  destruct lb as [t1 x|t1 to|x sx ts n| | |i|x|x k| |]; cbn [plane_step] in H.
  2: { repeat case_match; simplify_eq; cbn in *;
       match goal with H : WorkerLoop_step _ _ _ _ _ _ _ = _ |- _ =>
         apply WorkerLoop_step_roster in H; by rewrite H in Hin end. }
  all: repeat case_match; simplify_eq/=; try done.
  - apply elem_of_app in Hin as [Hin|Hin]; [done|]. apply list_elem_of_singleton in Hin as ->.
    by destruct (Had _ eq_refl).
  - by apply list_elem_of_filter in Hin as [_ Hin].
  - unfold Stop_request in *. by repeat case_match; simplify_eq/=.
  - unfold Stop_finish in *. by simplify_eq/=.
Qed.

Lemma adder_step p lb p' o s :
  plane_step p lb = Some (p', o) -> pl_heap p !! l = Some s ->
  (forall a, pl_adder p = Some a -> ad_loc a <> l) -> forall a, pl_adder p' = Some a -> ad_loc a <> l.
Proof.
  destruct p as [rs h b ws ad]. intros H Hs Had a Ha. cbn [pl_adder pl_heap] in *.
  destruct lb as [t1 x|t1 to|x sx ts n| | |i|x|x k| |]; cbn [plane_step] in H;
    repeat case_match; simplify_eq; cbn in *; simplify_eq; auto.
  - cbn. intros Hx. subst x. congruence.
  - by apply (Had _ eq_refl).
  - by apply (Had _ eq_refl).
Qed.

Lemma subscribed_step p lb p' o pushed outs :
  plane_step p lb = Some (p', o) -> ring_window p pushed ->
  seqs_increasing pushed ->
  subscribed p pushed outs -> subscribed p' (pushed ++ pushed_to t [lb]) (outs ++ o).
Proof.
  intros H Hwin Hinc (s & Hs & Hf & Hsub).
  destruct (plane_step_evolves _ _ _ _ H l s Hs) as (s' & Hs' & Hf' & Hcl).
  exists s'. split; [done|]. split; [congruence|].
  destruct (Subscriber_IsClosed s') eqn:Ec; [by left|right].
  assert (forall s'', pl_heap p' !! l = Some s'' -> Subscriber_IsClosed s'' = false) as Ho.
  { intros s'' Hs''. by simplify_eq. }
  destruct Hsub as [Hsub|Hsub]; [by specialize (Hcl Hsub)|].
  destruct Hsub as [(rem & Had & Hrem)|[Had Hro]].
  2: { right. split; [by eapply adder_step|]. intros Hin.
       pose proof (roster_step _ _ _ _ H Had Hin) as Hin'.
       by eapply covered_step; eauto. }
  assert (covered p pushed outs -> covered p' (pushed ++ pushed_to t [lb]) (outs ++ o)) as Hkeep.
  { intros. eapply covered_step; eauto. unfold locked. by rewrite Had. }
  destruct p as [rs h b ws ad]. cbn [pl_adder pl_heap] in *. subst ad.
  assert (pl_adder p' = Some (mkAdder l rem since) -> exists rem', pl_adder p' = Some (mkAdder l rem' since)
    /\ (t ∈ rem' \/ covered p' (pushed ++ pushed_to t [lb]) (outs ++ o))) as Hsame.
  { intros ->. exists rem. split; [done|]. destruct Hrem; auto. }
  destruct lb as [t1 x|t1 to|x sx ts n| | |i|x|x k| |]; cbn [plane_step] in H.
  all: try (left; apply Hsame; unfold Stop_request in H; repeat case_match; by simplify_eq/=).
  - (* PReplay *)
    left. destruct rem as [|t0 ts]; [done|]. rewrite Hs in H.
    destruct (replay_tier rs t0 since s) as [ok s1] eqn:Er. simplify_eq. cbn [pl_heap pl_adder] in *.
    rewrite lookup_insert_eq in Hs'. simplify_eq.
    exists (if ok then ts else []). split; [done|].
    destruct (decide (t0 = t)) as [->|Hne].
    + right. destruct ok; [|by rewrite (replay_tier_false _ _ _ _ _ Er) in Ec].
      intros e He Hw. cbn [pushed_to omap list_omap] in He. rewrite ?app_nil_r in He.
      left. apply elem_of_app. right.
      by apply (replay_covers (mkPlane rs h b ws (Some (mkAdder l (t :: ts) since))) s s' pushed).
    + destruct ok; [|by rewrite (replay_tier_false _ _ _ _ _ Er) in Ec].
      destruct Hrem as [Hrem|Hrem]; [left; set_solver|by right; apply Hkeep].
  - (* PEndAdd *)
    right. destruct rem as [|t0 ts]; [|done]. simplify_eq. cbn. split; [done|]. intros _.
    destruct Hrem as [Hrem|Hrem]; [by inv Hrem|]. by apply Hkeep.
Qed.

Lemma seqs_increasing_prefix es es' : seqs_increasing (es ++ es') -> seqs_increasing es.
Proof.
  intros [Hs Hr]. apply Forall_app in Hr as [Hr _]. split; [|done].
  clear Hr. induction es as [|e es IH]; [constructor|]. apply StronglySorted_inv in Hs as [Hs Hall].
  constructor; [by apply IH|]. by apply Forall_app in Hall as [? _].
Qed.

Lemma pushed_to_cons lb ls : pushed_to t (lb :: ls) = pushed_to t [lb] ++ pushed_to t ls.
Proof. unfold pushed_to. change (lb :: ls) with ([lb] ++ ls). by rewrite omap_app. Qed.

Lemma plane_run_window ls p p' o pushed :
  plane_run p ls = Some (p', o) -> ring_window p pushed ->
  ring_window p' (pushed ++ pushed_to t ls).
Proof.
  revert p o pushed. induction ls as [|lb ls IH]; intros p o pushed H Hw; simpl in H.
  { simplify_eq. by rewrite app_nil_r. }
  destruct (plane_step p lb) as [[p1 o1]|] eqn:E; [|done].
  destruct (plane_run p1 ls) as [[p2 o2]|] eqn:E2; [|done]. simplify_eq.
  rewrite pushed_to_cons, app_assoc. eapply IH; [done|]. by eapply ring_window_step.
Qed.

Lemma plane_run_subscribed ls p p' o pushed outs :
  plane_run p ls = Some (p', o) -> seqs_increasing (pushed ++ pushed_to t ls) ->
  ring_window p pushed -> subscribed p pushed outs ->
  subscribed p' (pushed ++ pushed_to t ls) (outs ++ o).
Proof.
  revert p o pushed outs. induction ls as [|lb ls IH]; intros p o pushed outs H Hinc Hw Hs; simpl in H.
  { simplify_eq. by rewrite !app_nil_r. }
  destruct (plane_step p lb) as [[p1 o1]|] eqn:E; [|done].
  destruct (plane_run p1 ls) as [[p2 o2]|] eqn:E2; [|done]. simplify_eq.
  rewrite pushed_to_cons, app_assoc in *. rewrite (app_assoc outs). eapply IH; [done|done| |].
  - by eapply ring_window_step.
  - eapply subscribed_step; eauto. rewrite <- app_assoc in Hinc.
    by eapply seqs_increasing_prefix.
Qed.
End Coverage.

Lemma plane_run_app ls1 ls2 p p' o :
  plane_run p (ls1 ++ ls2) = Some (p', o) ->
  exists p1 o1 o2, plane_run p ls1 = Some (p1, o1) /\ plane_run p1 ls2 = Some (p', o2) /\ o = o1 ++ o2.
Proof.
  revert p o. induction ls1 as [|lb ls1 IH]; intros p o H; simpl in *; [by exists p, [], o|].
  destruct (plane_step p lb) as [[p1 o1]|]; [|done].
  destruct (plane_run p1 (ls1 ++ ls2)) as [[p2 o2]|] eqn:E; [|done]. simplify_eq.
  destruct (IH _ _ E) as (p3 & o3 & o4 & -> & H4 & ->). exists p3, (o1 ++ o3), o4.
  by rewrite app_assoc.
Qed.

Lemma plane_init_window t c1 c2 c3 : t <> kUnspecified -> ring_window t (plane_init c1 c2 c3) [].
Proof. intros Ht. destruct t; [done| | |]; eexists _, []; by split_and!. Qed.

(** C1. No event is lost between the replay and the live tail.  In any run of
    the event plane, from empty rings of any capacities, take a subscriber that
    registers with a replay point [since] (1 or more) for tiers that include
    [t], and let tier [t] be fed with increasing sequence numbers.  Once it has
    finished registering, for as long as it stays in the roster and is not
    closed (a refused replay or an overflowing queue closes it), every entry of
    tier [t] after [since] that its filter matches, pushed before, during or
    after the registration, has been put into its queue, or is still in the
    ring, or is in the hands of the tier's worker on its way to it, or was
    evicted from the full ring before any worker popped it. *)
Theorem replay_live_no_loss (c1 c2 c3 : nat) (ls1 ls2 : list PlaneLabel) (l : loc) (sub : Subscriber)
    (ts : list Tier) (since : Z) (t : Tier) (p : Plane) (outs : list PlaneOutput) (s : Subscriber) :
  let ls := ls1 ++ PBeginAdd l sub ts since :: ls2 in
  plane_run (plane_init c1 c2 c3) ls = Some (p, outs) ->
  1 <= since < UINT64_MAX -> t ∈ ts -> t <> kUnspecified ->
  seqs_increasing (pushed_to t ls) ->
  pl_heap p !! l = Some s -> Subscriber_IsClosed s = false ->
  l ∈ roster_ (pl_bc p) -> (forall a, pl_adder p = Some a -> ad_loc a <> l) ->
  forall e bytes, e ∈ pushed_to t ls -> since < seq e ->
    envelope_bytes e = Some bytes -> matches_bytes s t bytes = true ->
    ODelivered l t e ∈ outs \/ OEvicted t e ∈ outs \/
    (exists r, RingSet_Get (pl_rings p) t = Some r /\ e ∈ q_ r) \/ in_flight (pl_workers p t) l e.
Proof.
  intros ls Hrun Hsince Hts Ht Hinc Hs Hop Hro Had e bytes He Hse Hb Hm. unfold ls in *.
  destruct (plane_run_app _ _ _ _ _ Hrun) as (p1 & o1 & o2 & H1 & H2 & ->).
  assert (ring_window t p1 (pushed_to t ls1)) as Hw1.
  { exact (plane_run_window t Ht _ _ _ _ [] H1 (plane_init_window t c1 c2 c3 Ht)). }
  cbn [plane_run] in H2. destruct (plane_step p1 (PBeginAdd l sub ts since)) as [[p2 o3]|] eqn:E2; [|done].
  destruct (plane_run p2 ls2) as [[p3 o4]|] eqn:E3; [|done]. simplify_eq.
  assert (ring_window t p2 (pushed_to t ls1)) as Hw2.
  { rewrite <- (app_nil_r (pushed_to t ls1)). exact (ring_window_step t Ht _ _ _ _ _ E2 Hw1). }
  assert (pushed_to t (ls1 ++ PBeginAdd l sub ts since :: ls2) = pushed_to t ls1 ++ pushed_to t ls2) as Hpt.
  { unfold pushed_to. by rewrite omap_app. }
  rewrite Hpt in *.
  assert (subscribed l t since (filter_ sub) p2 (pushed_to t ls1) (o1 ++ o3)) as Hsub2.
  { destruct p1 as [rs h b ws ad]. simpl in E2. repeat case_match; simplify_eq/=.
    exists sub. split_and!; [apply lookup_insert_eq|done|]. right; left. eexists. by split; [|left]. }
  pose proof (plane_run_subscribed l t since (filter_ sub) Hsince Ht _ _ _ _ _ _ E3 Hinc Hw2 Hsub2)
    as (s' & Hs' & Hf & Hcases).
  simplify_eq. destruct Hcases as [Hc|[(rem & Ha & _)|[_ Hcov]]]; [congruence|by destruct (Had _ Ha)|].
  rewrite app_assoc. apply (Hcov Hro e He). split; [done|]. exists bytes. split; [done|].
  rewrite <- Hm. by apply matches_bytes_filter.
Qed.

(** The worker pops entry 2 after its replay and before the registration is
    complete, and is held at the roster lock; entry 3 arrives meanwhile. *)
Definition plane_demo_entry (k : Z) : RingEntry := mkRingEntry k (Some ""%string).

Definition plane_demo_before : list PlaneLabel :=
  [PPush k1Critical (plane_demo_entry 1); PWorker k1Critical false; PWorker k1Critical false;
   PWorker k1Critical false; PWorker k1Critical false; PWorker k1Critical false;
   PWorker k1Critical false; PPush k1Critical (plane_demo_entry 2)].

Definition plane_demo_after : list PlaneLabel :=
  [PReplay; PWorker k1Critical false; PPush k1Critical (plane_demo_entry 3); PEndAdd;
   PWorker k1Critical false; PWorker k1Critical false].

Definition plane_demo_sub : Subscriber := Subscriber_new "s" outbox_demo_filter 8.

Definition plane_demo_run : option (Plane * list PlaneOutput) :=
  plane_run (plane_init 4 4 4)
    (plane_demo_before ++ PBeginAdd 0%nat plane_demo_sub [k1Critical] 1 :: plane_demo_after).

Definition plane_demo_final : Plane * list PlaneOutput :=
  default (plane_init 0 0 0, []) plane_demo_run.

Lemma replay_live_no_loss_witness :
  ODelivered 0 k1Critical (plane_demo_entry 2) ∈ plane_demo_final.2 \/
  OEvicted k1Critical (plane_demo_entry 2) ∈ plane_demo_final.2 \/
  (exists r, RingSet_Get (pl_rings plane_demo_final.1) k1Critical = Some r /\ plane_demo_entry 2 ∈ q_ r) \/
  in_flight (pl_workers plane_demo_final.1 k1Critical) 0 (plane_demo_entry 2).
Proof.
  apply (replay_live_no_loss 4 4 4 plane_demo_before plane_demo_after 0 plane_demo_sub [k1Critical] 1
    k1Critical plane_demo_final.1 plane_demo_final.2
    (default plane_demo_sub (pl_heap plane_demo_final.1 !! 0%nat))) with (bytes := ""%string).
  - vm_compute. reflexivity.
  - unfold UINT64_MAX. lia.
  - set_solver.
  - done.
  - apply seqs_contiguous_increasing. split; [reflexivity|]. vm_compute. reflexivity.
  - vm_compute. reflexivity.
  - vm_compute. reflexivity.
  - vm_compute. set_solver.
  - vm_compute. done.
  - change (pushed_to _ _) with [plane_demo_entry 1; plane_demo_entry 2; plane_demo_entry 3]. set_solver.
  - vm_compute. reflexivity.
  - reflexivity.
  - vm_compute. reflexivity.
Defined.
