(* ===== verification/Envelope.v ===== *)
(** * Event envelopes

    [src/events/envelope.cc]: building the [EventEnvelope] of a FreeSWITCH
    event, the timestamp parser, and the UUIDv7 generator.  An event is what
    the FreeSWITCH API shows of it (header lookup and body), the clock and the
    random numbers are arguments. *)

From S2P Require Import Prelude Tier Routing.

(** ** Timestamps *)

Definition digit_value (c : ascii) : option Z :=
  let b := byte_of c in if (b <? 48) || (57 <? b) then None else Some (b - 48).

(** [std::int64_t] arithmetic: [None] is signed overflow, undefined in C++. *)
Definition i64_checked (z : Z) : option Z :=
  if (z <? - 2 ^ 63) || (INT64_MAX <? z) then None else Some z.

Fixpoint parse_micros_loop (s : string) (out : Z) : option Z :=
  match s with
  | EmptyString => Some out
  | String c s =>
      match digit_value c with
      | None => Some 0
      | Some d =>
          if INT64_MAX / 10 <? out then Some 0
          else match i64_checked (out * 10) with
               | None => None
               | Some m =>
                   match i64_checked (m + d) with
                   | None => None
                   | Some out => parse_micros_loop s out
                   end
               end
      end
  end.

Definition ParseEventTimestampMicros (s : string) : option Z :=
  if string_empty s then Some 0 else parse_micros_loop s 0.

(** The decimal value of a digit string. *)
Fixpoint decimal_value (s : string) (acc : Z) : option Z :=
  match s with
  | EmptyString => Some acc
  | String c s => match digit_value c with
                  | None => None | Some d => decimal_value s (acc * 10 + d) end
  end.

Lemma digit_value_range c d : digit_value c = Some d -> 0 <= d <= 9.
Proof. unfold digit_value. case_test; [done|]. b2p. intros [= <-]. lia. Qed.

Lemma decimal_value_ge s acc v : 0 <= acc -> decimal_value s acc = Some v -> acc <= v.
Proof.
  revert acc. induction s as [|c s IH]; intros acc Ha H; simpl in H; [by simplify_eq|].
  destruct (digit_value c) as [d|] eqn:E; [|done]. apply digit_value_range in E.
  apply IH in H; lia.
Qed.

(** A step that stays in range. *)
Lemma parse_micros_loop_cons c s out d :
  digit_value c = Some d -> 0 <= out -> out * 10 + d <= INT64_MAX ->
  parse_micros_loop (String c s) out = parse_micros_loop s (out * 10 + d).
Proof.
  intros Hd Ho Hle. pose proof (digit_value_range _ _ Hd). simpl. rewrite Hd.
  assert ((INT64_MAX / 10 <? out) = false) as ->.
  { apply Z.ltb_ge, Z.div_le_lower_bound; lia. }
  assert (forall z, 0 <= z <= INT64_MAX -> i64_checked z = Some z) as Hc.
  { intros z Hz. unfold i64_checked. rewrite (proj2 (Z.ltb_ge z _)), (proj2 (Z.ltb_ge _ z)) by lia. done. }
  by rewrite !Hc by lia.
Qed.

Lemma parse_micros_loop_value s out v :
  0 <= out -> decimal_value s out = Some v -> v <= INT64_MAX -> parse_micros_loop s out = Some v.
Proof.
  revert out. induction s as [|c s IH]; intros out Ho H Hv; simpl in H; [by simplify_eq|].
  destruct (digit_value c) as [d|] eqn:E; [|done]. pose proof (digit_value_range _ _ E).
  pose proof (decimal_value_ge _ (out * 10 + d) _ ltac:(lia) H) as Hge.
  rewrite (parse_micros_loop_cons _ _ _ d) by (done || lia). apply IH; [lia|done|done].
Qed.

(** C39. A decimal timestamp that fits a signed 64-bit integer parses to its
    value; the empty string and a string that holds a non-digit (with its
    leading digits in range) parse to 0, the unknown timestamp. *)
Theorem ParseEventTimestampMicros_value (s : string) :
  (forall v, s <> ""%string -> decimal_value s 0 = Some v -> v <= INT64_MAX ->
     ParseEventTimestampMicros s = Some v) /\
  ParseEventTimestampMicros "" = Some 0 /\
  (forall p c q v, s = p +:+ String c q -> decimal_value p 0 = Some v -> v <= INT64_MAX ->
     digit_value c = None -> ParseEventTimestampMicros s = Some 0).
Proof.
  split_and!; [|done|].
  - intros v Hs H Hv. unfold ParseEventTimestampMicros.
    destruct (string_empty s) eqn:E; [by apply string_empty_spec in E|].
    by apply parse_micros_loop_value.
  - intros p c q v -> H Hv Hc. unfold ParseEventTimestampMicros.
    destruct (string_empty _) eqn:E; [done|]. clear E.
    assert (forall out, 0 <= out -> decimal_value p out = Some v ->
      parse_micros_loop (p +:+ String c q) out = Some 0) as Hp; [|by apply Hp].
    clear H. induction p as [|x p IH]; intros out Ho H.
    { rewrite string_app_nil_l. simpl. by rewrite Hc. }
    rewrite string_app_cons. simpl in H. destruct (digit_value x) as [d|] eqn:E; [|done].
    pose proof (digit_value_range _ _ E).
    pose proof (decimal_value_ge _ (out * 10 + d) _ ltac:(lia) H) as Hge.
    rewrite (parse_micros_loop_cons _ _ _ d) by (done || lia). apply IH; [lia|done].
Qed.

Lemma ParseEventTimestampMicros_value_witness :
  ParseEventTimestampMicros "1700000000123456" = Some 1700000000123456.
Proof.
  apply (proj1 (ParseEventTimestampMicros_value "1700000000123456")).
  - done.
  - reflexivity.
  - vm_compute. discriminate.
Defined.

(** The overflow guard of the parser is off by a digit: the two values just
    above [INT64_MAX] that share its leading digits pass the guard and overflow
    the signed accumulator. *)
Theorem ParseEventTimestampMicros_overflow :
  ParseEventTimestampMicros "9223372036854775808" = None /\
  ParseEventTimestampMicros "9223372036854775809" = None /\
  ParseEventTimestampMicros "9223372036854775810" = Some 0.
Proof. by vm_compute. Qed.

(** ** UUIDv7 *)

Definition hex_digit (n : Z) : ascii := char_of (if n <? 10 then 48 + n else 87 + n).

(** [%02x] of a byte. *)
Definition hex2 (b : Z) : string := String (hex_digit (b / 16)) (String (hex_digit (b mod 16)) "").

(** [ms] is the clock in milliseconds, [r1] and [r2] the two random words. *)
Definition uuid_bytes (ms r1 r2 : Z) : list Z :=
  let ts_ms := Z.land (u64 ms) 0xFFFFFFFFFFFF in
  let rand_a := u16 (Z.land r1 0x0FFF) in
  [u8 (Z.land (Z.shiftr ts_ms 40) 0xFF); u8 (Z.land (Z.shiftr ts_ms 32) 0xFF);
   u8 (Z.land (Z.shiftr ts_ms 24) 0xFF); u8 (Z.land (Z.shiftr ts_ms 16) 0xFF);
   u8 (Z.land (Z.shiftr ts_ms 8) 0xFF); u8 (Z.land (Z.shiftr ts_ms 0) 0xFF);
   u8 (Z.lor 0x70 (Z.land (Z.shiftr rand_a 8) 0x0F)); u8 (Z.land rand_a 0xFF);
   u8 (Z.lor 0x80 (Z.land (Z.shiftr r2 56) 0x3F)); u8 (Z.land (Z.shiftr r2 48) 0xFF);
   u8 (Z.land (Z.shiftr r2 40) 0xFF); u8 (Z.land (Z.shiftr r2 32) 0xFF);
   u8 (Z.land (Z.shiftr r2 24) 0xFF); u8 (Z.land (Z.shiftr r2 16) 0xFF);
   u8 (Z.land (Z.shiftr r2 8) 0xFF); u8 (Z.land (Z.shiftr r2 0) 0xFF)].

Definition uuid_format (b : list Z) : string :=
  match b with
  | [b0; b1; b2; b3; b4; b5; b6; b7; b8; b9; b10; b11; b12; b13; b14; b15] =>
      hex2 b0 +:+ hex2 b1 +:+ hex2 b2 +:+ hex2 b3 +:+ "-" +:+ hex2 b4 +:+ hex2 b5 +:+ "-" +:+
      hex2 b6 +:+ hex2 b7 +:+ "-" +:+ hex2 b8 +:+ hex2 b9 +:+ "-" +:+
      hex2 b10 +:+ hex2 b11 +:+ hex2 b12 +:+ hex2 b13 +:+ hex2 b14 +:+ hex2 b15
  | _ => ""%string
  end.

Definition GenerateUuidV7 (ms r1 r2 : Z) : string := uuid_format (uuid_bytes ms r1 r2).

(** Byte [k] of a word. *)
Lemma byte_field v k : 0 <= v -> 0 <= k -> u8 (Z.land (Z.shiftr v k) 0xFF) = (v / 2 ^ k) mod 256.
Proof.
  intros Hv Hk. change 0xFF with (Z.ones 8). rewrite Z.land_ones, Z.shiftr_div_pow2 by lia.
  unfold u8. change (2 ^ 8) with 256. by rewrite Z.mod_mod by lia.
Qed.

Lemma Ascii_compare_nat a b : Ascii.compare a b = (byte_of a ?= byte_of b).
Proof. unfold Ascii.compare, byte_of. by rewrite N2Z.inj_compare. Qed.

Lemma string_compare_cons_same c s t : String.compare (String c s) (String c t) = String.compare s t.
Proof. simpl. rewrite Ascii_compare_nat, Z.compare_refl. done. Qed.

Lemma string_compare_app_same p s t : String.compare (p +:+ s) (p +:+ t) = String.compare s t.
Proof.
  induction p as [|c p IH]; [done|]. rewrite !string_app_cons, string_compare_cons_same. done.
Qed.

Lemma hex_digit_lt a b : 0 <= a < b -> b < 16 -> byte_of (hex_digit a) < byte_of (hex_digit b).
Proof.
  intros Ha Hb. unfold hex_digit. repeat case_test; rewrite !byte_of_char_of by lia; lia.
Qed.

Lemma hex2_compare_lt a b s t :
  0 <= a < b -> b < 256 -> String.compare (hex2 a +:+ s) (hex2 b +:+ t) = Lt.
Proof.
  intros Ha Hb. unfold hex2. rewrite !string_app_cons, !string_app_nil_l.
  pose proof (Z.div_mod a 16 ltac:(lia)). pose proof (Z.div_mod b 16 ltac:(lia)).
  pose proof (Z.mod_pos_bound a 16 ltac:(lia)). pose proof (Z.mod_pos_bound b 16 ltac:(lia)).
  destruct (Z.lt_trichotomy (a / 16) (b / 16)) as [Hl|[He|Hg]]; [| |lia].
  - cbn [String.compare]. rewrite Ascii_compare_nat.
    by rewrite (proj2 (Z.compare_lt_iff _ _)) by (apply hex_digit_lt; lia).
  - rewrite He, string_compare_cons_same. cbn [String.compare]. rewrite Ascii_compare_nat.
    by rewrite (proj2 (Z.compare_lt_iff _ _)) by (apply hex_digit_lt; lia).
Qed.

(** The six bytes of a 48-bit value, most significant last. *)
Lemma six_bytes m :
  0 <= m < 2 ^ 48 -> exists d0 d1 d2 d3 d4 d5,
    (m / 2 ^ 40) mod 256 = d5 /\ (m / 2 ^ 32) mod 256 = d4 /\ (m / 2 ^ 24) mod 256 = d3 /\
    (m / 2 ^ 16) mod 256 = d2 /\ (m / 2 ^ 8) mod 256 = d1 /\ (m / 2 ^ 0) mod 256 = d0 /\
    m = d0 + 256 * (d1 + 256 * (d2 + 256 * (d3 + 256 * (d4 + 256 * d5)))) /\
    0 <= d0 < 256 /\ 0 <= d1 < 256 /\ 0 <= d2 < 256 /\ 0 <= d3 < 256 /\ 0 <= d4 < 256 /\ 0 <= d5 < 256.
Proof.
  intros Hm. do 6 eexists. split_and!; try reflexivity; try (apply Z.mod_pos_bound; lia).
  rewrite Z.div_1_r.
  pose proof (Z.div_mod m 256 ltac:(lia)) as E0.
  pose proof (Z.div_mod (m / 2 ^ 8) 256 ltac:(lia)) as E1.
  pose proof (Z.div_mod (m / 2 ^ 16) 256 ltac:(lia)) as E2.
  pose proof (Z.div_mod (m / 2 ^ 24) 256 ltac:(lia)) as E3.
  pose proof (Z.div_mod (m / 2 ^ 32) 256 ltac:(lia)) as E4.
  pose proof (Z.div_mod (m / 2 ^ 40) 256 ltac:(lia)) as E5.
  rewrite Z.div_div in E1, E2, E3, E4, E5 by lia.
  change (m / 256) with (m / 2 ^ 8) in E0. change (2 ^ 8 * 256) with (2 ^ 16) in E1.
  change (2 ^ 16 * 256) with (2 ^ 24) in E2. change (2 ^ 24 * 256) with (2 ^ 32) in E3.
  change (2 ^ 32 * 256) with (2 ^ 40) in E4. change (2 ^ 40 * 256) with (2 ^ 48) in E5.
  assert (m / 2 ^ 48 = 0) as Hz by (apply Z.div_small; lia). lia.
Qed.

(** Identifiers are time-ordered: of two identifiers generated at different
    milliseconds (within the 48-bit range of the format), whatever the random
    words, the earlier one is the smaller string. *)
Theorem GenerateUuidV7_ordered (ms ms' r1 r2 r1' r2' : Z) :
  0 <= ms < ms' -> ms' < 2 ^ 48 ->
  String.compare (GenerateUuidV7 ms r1 r2) (GenerateUuidV7 ms' r1' r2') = Lt.
Proof.
  intros Hms Hb. unfold GenerateUuidV7, uuid_bytes, uuid_format.
  assert (forall m, 0 <= m < 2 ^ 48 -> Z.land (u64 m) 0xFFFFFFFFFFFF = m) as Hts.
  { intros m Hm. rewrite u64_small by lia. change 0xFFFFFFFFFFFF with (Z.ones 48).
    by rewrite Z.land_ones, Z.mod_small by lia. }
  rewrite !Hts by lia. rewrite !(byte_field ms), !(byte_field ms') by lia.
  destruct (six_bytes ms ltac:(lia)) as (d0 & d1 & d2 & d3 & d4 & d5 & -> & -> & -> & -> & -> & -> & Hm & R).
  destruct (six_bytes ms' ltac:(lia)) as (e0 & e1 & e2 & e3 & e4 & e5 & -> & -> & -> & -> & -> & -> & Hm' & R').
  destruct (Z.lt_trichotomy d5 e5) as [?|[<-|?]]; [apply hex2_compare_lt; lia| |lia].
  rewrite string_compare_app_same.
  destruct (Z.lt_trichotomy d4 e4) as [?|[<-|?]]; [apply hex2_compare_lt; lia| |lia].
  rewrite string_compare_app_same.
  destruct (Z.lt_trichotomy d3 e3) as [?|[<-|?]]; [apply hex2_compare_lt; lia| |lia].
  rewrite string_compare_app_same.
  destruct (Z.lt_trichotomy d2 e2) as [?|[<-|?]]; [apply hex2_compare_lt; lia| |lia].
  rewrite !string_compare_app_same.
  destruct (Z.lt_trichotomy d1 e1) as [?|[<-|?]]; [apply hex2_compare_lt; lia| |lia].
  rewrite string_compare_app_same.
  destruct (Z.lt_trichotomy d0 e0) as [?|[<-|?]]; [apply hex2_compare_lt; lia| |lia]. lia.
Qed.

Lemma GenerateUuidV7_ordered_witness :
  String.compare (GenerateUuidV7 1700000000000 5 6) (GenerateUuidV7 1700000000001 0 0) = Lt.
Proof. apply (GenerateUuidV7_ordered 1700000000000 1700000000001 5 6 0 0); lia. Defined.

Example uuid_example :
  GenerateUuidV7 1700000000000 0xABC 0xFFFFFFFFFFFFFFFF = "018bcfe5-6800-7abc-bfff-ffffffffffff"%string.
Proof. reflexivity. Qed.

(** ** Building the envelope *)

(** What [EventGetHeader] and [EventGetBody] show of a [switch_event_t]. *)
Record Event := mkEvent {
  ev_header : string -> option string;
  ev_body : option string }.

Record EnvelopeBuildConfig := mkEnvelopeBuildConfig {
  headers_include : gset string;
  headers_always_exclude : gset string;
  variables_include : gset string }.

Definition MakeDefaultEnvelopeConfig : EnvelopeBuildConfig := {|
  headers_include :=
    list_to_set ["Caller-Caller-ID-Name"; "Caller-Caller-ID-Number"; "Caller-Destination-Number";
      "Caller-Direction"; "Caller-Context"; "Answer-State"; "Hangup-Cause"; "Hangup-Cause-Q.850";
      "Channel-State"; "Channel-Call-State"; "Channel-Name"]%string;
  headers_always_exclude :=
    list_to_set ["Event-Name"; "Event-Subclass"; "Event-Date-Timestamp"; "Unique-ID"]%string;
  variables_include := ∅ |}.

Record EventEnvelope := mkEventEnvelope {
  env_event_id : string;
  env_tier : Z;
  env_event_name : string;
  env_subclass_name : string;
  env_node_id : string;
  env_emitted_at : Z * Z;
  env_seq : Z;
  env_tenant_id : string;
  env_traceparent : string;
  env_channel_uuid : string;
  env_variables : gmap string string;
  env_headers : gmap string string;
  env_body : string;
  env_schema_version : Z }.

Definition MapTierToProto (t : Tier) : Z :=
  match t with k1Critical => 1 | k2State => 2 | k3Ephemeral => 3 | kUnspecified => 0 end.

Definition HeaderOrEmpty (ev : Event) (name : string) : string := default ""%string (ev_header ev name).

(** [mutable_headers()[h] = val] for the names found, one lookup per listed name. *)
Definition collect (look : string -> option string) (names : list string) : gmap string string :=
  fold_left (fun m n => match look n with Some v => <[n := v]> m | None => m end) names ∅.

(** [now_us] is the system clock, [uuid] what [GenerateUuidV7] returned.  The
    timestamp is [None] when the parser's arithmetic overflowed. *)
Definition BuildEnvelope (ev : option Event) (tier : Tier) (seq : Z) (node_id : string)
    (cfg : EnvelopeBuildConfig) (now_us : Z) (uuid : string) : option EventEnvelope :=
  match ev with
  | None => None
  | Some ev =>
      match ParseEventTimestampMicros (HeaderOrEmpty ev "Event-Date-Timestamp") with
      | None => None
      | Some parsed =>
          let micros := if 0 <? parsed then parsed else now_us in
          Some {|
            env_event_id := uuid;
            env_tier := MapTierToProto tier;
            env_event_name := HeaderOrEmpty ev "Event-Name";
            env_subclass_name := HeaderOrEmpty ev "Event-Subclass";
            env_node_id := node_id;
            env_emitted_at := (Z.quot micros 1000000, Z.rem micros 1000000 * 1000);
            env_seq := seq;
            env_tenant_id := HeaderOrEmpty ev "variable_osw_tenant_id";
            env_traceparent := HeaderOrEmpty ev "variable_osw_traceparent";
            env_channel_uuid := HeaderOrEmpty ev "Unique-ID";
            env_variables :=
              collect (fun v => ev_header ev ("variable_" +:+ v)) (elements (variables_include cfg));
            env_headers :=
              collect (ev_header ev)
                (filter (fun h => h ∉ headers_always_exclude cfg) (elements (headers_include cfg)));
            env_body := default ""%string (ev_body ev);
            env_schema_version := 1 |}
      end
  end.

Lemma lookup_collect look names k :
  collect look names !! k = if decide (k ∈ names) then look k else None.
Proof.
  unfold collect.
  assert (forall (m : gmap string string), (forall j, m !! j = None \/ m !! j = look j) ->
    fold_left (fun m n => match look n with Some v => <[n := v]> m | None => m end) names m !! k
    = if decide (k ∈ names) then look k else m !! k) as H; [|rewrite H by (intros; by left); done].
  induction names as [|n names IH]; intros m Hm; [done|]. cbn [fold_left].
  rewrite IH.
  - destruct (decide (k ∈ names)) as [Hk|Hk]; [by rewrite decide_True by set_solver|].
    destruct (decide (n = k)) as [->|Hne].
    + rewrite decide_True by set_solver. destruct (look k) eqn:E; [apply lookup_insert_eq|].
      destruct (Hm k) as [?|?]; congruence.
    + rewrite decide_False by set_solver. case_match; [by rewrite lookup_insert_ne|done].
  - intros j. destruct (look n) eqn:E; [|done]. destruct (decide (n = j)) as [->|Hne].
    + rewrite lookup_insert_eq. right. congruence.
    + by rewrite lookup_insert_ne.
Qed.

(** What an envelope forwards.  A header of the event appears under its
    name in the envelope's header map if and only if it is on the include list
    and not excluded (so an empty include list forwards none), a channel
    variable if and only if its name is listed, and the timestamp is normalised:
    its nanoseconds are below one second for every non-negative clock. *)
Theorem BuildEnvelope_forwards (ev : Event) (tier : Tier) (seq : Z) (node : string)
    (cfg : EnvelopeBuildConfig) (now_us : Z) (uuid : string) (env : EventEnvelope) :
  BuildEnvelope (Some ev) tier seq node cfg now_us uuid = Some env -> 0 <= now_us ->
  (forall k v, env_headers env !! k = Some v <->
     k ∈ headers_include cfg /\ (k ∉ headers_always_exclude cfg) /\ ev_header ev k = Some v) /\
  (forall k v, env_variables env !! k = Some v <->
     k ∈ variables_include cfg /\ ev_header ev ("variable_" +:+ k) = Some v) /\
  0 <= (env_emitted_at env).2 < 1000000000 /\ env_seq env = seq /\ env_node_id env = node.
Proof.
  unfold BuildEnvelope. destruct (ParseEventTimestampMicros _) as [parsed|]; [|done].
  intros [= <-] Hnow. cbn [env_headers env_variables env_emitted_at env_seq env_node_id fst snd].
  split_and!; [| | | |done|done].
  - intros k v. rewrite lookup_collect.
    case_decide as Hk; rewrite list_elem_of_filter, elem_of_elements in Hk; naive_solver.
  - intros k v. rewrite lookup_collect. case_decide as Hk; rewrite elem_of_elements in Hk; naive_solver.
  - assert (0 <= (if 0 <? parsed then parsed else now_us)) by (case_test; lia).
    pose proof (Z.rem_nonneg (if 0 <? parsed then parsed else now_us) 1000000 ltac:(lia)). lia.
  - assert (0 <= (if 0 <? parsed then parsed else now_us)) by (case_test; lia).
    pose proof (Z.rem_bound_pos (if 0 <? parsed then parsed else now_us) 1000000 ltac:(lia) ltac:(lia)). lia.
Qed.

Definition envelope_demo_event : Event :=
  mkEvent (fun h => if (h =? "Event-Name")%string then Some "CUSTOM"%string
                    else if (h =? "Event-Subclass")%string then Some "osw.audit.x"%string
                    else if (h =? "Channel-Name")%string then Some "sofia/a"%string else None) None.

Lemma BuildEnvelope_forwards_witness :
  exists env, BuildEnvelope (Some envelope_demo_event) k1Critical 7 "node-a" MakeDefaultEnvelopeConfig
                1700000000123456 "uuid" = Some env /\ 0 <= (env_emitted_at env).2 < 1000000000.
Proof.
  eexists. split; [reflexivity|].
  apply (BuildEnvelope_forwards envelope_demo_event k1Critical 7 "node-a" MakeDefaultEnvelopeConfig
    1700000000123456 "uuid").
  - reflexivity.
  - lia.
Defined.
