(* ===== verification/Binder.v ===== *)
(** * The binder: events in, ring entries out

    [src/events/binder.cc]: the handler FreeSWITCH calls for every event.  It
    classifies the event, takes the next sequence number of its tier (an atomic
    [fetch_add]), builds and serialises the envelope, and pushes the entry.
    FreeSWITCH calls it from several dispatch threads, so the handler is split
    where another one can run in between: [HandleEvent_alloc] and
    [HandleEvent_publish].  Protobuf's [SerializeToString] is an argument. *)

From S2P Require Import Prelude BoundedQueue Tier Ring RingSet Routing Subscriber Broadcaster Envelope.

(** The gauges of [osw::Health] the binder stores. *)
Record HealthGauges := mkHealthGauges {
  hg_events_emitted_total : Z;
  hg_ring_fill_pct : list Z;
  hg_dropped_total : list Z }.

Record Binder := mkBinder {
  next_seq_ : list Z;
  dropped_ : list Z;
  events_emitted_ : Z;
  active_ : bool;
  bd_health : option HealthGauges }.

Definition Binder_new (health : option HealthGauges) : Binder :=
  mkBinder [0; 0; 0] [0; 0; 0] 0 false health.

Definition TierIndex (t : Tier) : nat :=
  match t with k1Critical => 0 | k2State => 1 | k3Ephemeral => 2 | kUnspecified => 2 end.

(** ** Init, Stop and the dispatcher shim

    The process-wide slot holds at most one binder; [bind] is the result of
    [switch_event_bind]. *)

Definition Binder_Init (slot_taken bind_ok : bool) (b : Binder) : bool * bool * Binder :=
  if active_ b then (true, slot_taken, b)
  else if slot_taken then (false, true, b)
  else if negb bind_ok then (false, false, b)
  else (true, true, mkBinder (next_seq_ b) (dropped_ b) (events_emitted_ b) true (bd_health b)).

Definition Binder_Stop (slot_taken : bool) (b : Binder) : bool * Binder :=
  if negb (active_ b) then (slot_taken, b)
  else (false, mkBinder (next_seq_ b) (dropped_ b) (events_emitted_ b) false (bd_health b)).

Definition DropsForTier (b : Binder) (t : Tier) : Z := default 0 (dropped_ b !! TierIndex t).

(** [(sz * 100) / cap] as a 32-bit value. *)
Definition ring_fill_pct (r : Ring) : Z :=
  if (Ring_Capacity r =? 0)%nat then 0
  else u32 ((Z.of_nat (Ring_Size r) *u64 100) / Z.of_nat (Ring_Capacity r)).

Definition IncrementHealthCounters (rs : RingSet) (b : Binder) : Binder :=
  match bd_health b with
  | None => b
  | Some _ =>
      mkBinder (next_seq_ b) (dropped_ b) (events_emitted_ b) (active_ b)
        (Some (mkHealthGauges (events_emitted_ b)
                 [ring_fill_pct (tier1_ rs); ring_fill_pct (tier2_ rs); ring_fill_pct (tier3_ rs)]
                 (dropped_ b)))
  end.

Section Handle.
Context (SerializeToString : EventEnvelope -> option string).
Context (classifier : TierClassifier) (cfg : EnvelopeBuildConfig) (node_id : string).

(** Classification and the sequence number. *)
Definition HandleEvent_alloc (ev : Event) (rs : RingSet) (b : Binder) : option (Tier * Z) * Binder :=
  let tier := Classify classifier (HeaderOrEmpty ev "Event-Name") (HeaderOrEmpty ev "Event-Subclass") in
  match RingSet_Get rs tier with
  | None => (None, b)
  | Some _ =>
      let old := default 0 (next_seq_ b !! TierIndex tier) in
      (Some (tier, old +u64 1),
       mkBinder (<[TierIndex tier := old +u64 1]> (next_seq_ b)) (dropped_ b) (events_emitted_ b)
         (active_ b) (bd_health b))
  end.

(** Envelope, serialisation, push and counters; the entry pushed is returned. *)
Definition HandleEvent_publish (ev : Event) (tier : Tier) (seq now_us : Z) (uuid : string)
    (rs : RingSet) (b : Binder) : option RingEntry * RingSet * Binder :=
  match BuildEnvelope (Some ev) tier seq node_id cfg now_us uuid with
  | None => (None, rs, b)
  | Some env =>
      match SerializeToString env with
      | None => (None, rs, b)
      | Some bytes =>
          let entry := mkRingEntry seq (Some bytes) in
          let '(local_dropped, rs') := RingSet_Push rs tier entry (Some 0) in
          let d := default 0 local_dropped in
          let dropped' := if 0 <? d then alter (fun c => c +u64 d) (TierIndex tier) (dropped_ b)
                          else dropped_ b in
          let b' := mkBinder (next_seq_ b) dropped' (events_emitted_ b +u64 1) (active_ b) (bd_health b) in
          (Some entry, rs', IncrementHealthCounters rs' b')
      end
  end.

(** [None] stands for a null event, ring set or classifier pointer. *)
Definition HandleEvent (ev : option Event) (now_us : Z) (uuid : string) (rs : RingSet) (b : Binder)
  : option (Tier * RingEntry) * RingSet * Binder :=
  match ev with
  | None => (None, rs, b)
  | Some ev =>
      match HandleEvent_alloc ev rs b with
      | (None, b) => (None, rs, b)
      | (Some (tier, seq), b) =>
          let '(oe, rs, b) := HandleEvent_publish ev tier seq now_us uuid rs b in
          ((fun e => (tier, e)) <$> oe, rs, b)
      end
  end.

(** One dispatch thread: the events in order, with the clock and uuid of each. *)
Fixpoint HandleEvents (evs : list (Event * Z * string)) (rs : RingSet) (b : Binder)
  : list (Tier * RingEntry) * RingSet * Binder :=
  match evs with
  | [] => ([], rs, b)
  | (ev, now, uuid) :: evs =>
      let '(o, rs1, b1) := HandleEvent (Some ev) now uuid rs b in
      let '(os, rs2, b2) := HandleEvents evs rs1 b1 in
      (option_list o ++ os, rs2, b2)
  end.

Definition entries_of (t : Tier) (os : list (Tier * RingEntry)) : list RingEntry :=
  omap (fun te => if decide (te.1 = t) then Some te.2 else None) os.

(** Events that do become entries: the timestamp is in range and the
    serialiser accepts the envelope. *)
Definition publishable (ev : Event) (now : Z) (uuid : string) : Prop :=
  forall tier seq, 0 <= seq < 2 ^ 64 -> exists env bytes,
    BuildEnvelope (Some ev) tier seq node_id cfg now uuid = Some env /\
    SerializeToString env = Some bytes.

(** What a tier's ring holds, its size, and the newest entries of a list. *)
Definition tier_entries (rs : RingSet) (t : Tier) : list RingEntry :=
  match RingSet_Get rs t with Some r => q_ r | None => [] end.
Definition tier_capacity (rs : RingSet) (t : Tier) : nat :=
  match RingSet_Get rs t with Some r => capacity_ r | None => 0 end.
Definition newest (n : nat) (es : list RingEntry) : list RingEntry := drop (length es - n) es.

Lemma newest_snoc n l e :
  (0 < n)%nat -> (length l <= n)%nat ->
  newest n (l ++ [e]) = (if (n <=? length l)%nat then tail l else l) ++ [e].
Proof.
  intros Hn Hl. unfold newest. rewrite length_app. cbn [length]. case_test.
  - replace (length l + 1 - n)%nat with 1%nat by lia. destruct l as [|x l]; [simpl in *; lia|done].
  - replace (length l + 1 - n)%nat with 0%nat by lia. done.
Qed.

Lemma newest_app n l m : newest n (newest n l ++ m) = newest n (l ++ m).
Proof.
  unfold newest. destruct (decide (length l <= n)%nat) as [Hd|Hd].
  - replace (length l - n)%nat with 0%nat by lia. done.
  - rewrite <- (drop_app_le l m (length l - n)) by lia. rewrite drop_drop, length_drop, length_app.
    f_equal. lia.
Qed.

(** Every ring has room for an entry and holds no more than it may. *)
Definition rings_bounded (rs : RingSet) : Prop :=
  Ring_bounded (tier1_ rs) /\ Ring_bounded (tier2_ rs) /\ Ring_bounded (tier3_ rs).

Lemma rings_bounded_tier rs t :
  rings_bounded rs -> t <> kUnspecified ->
  (0 < tier_capacity rs t)%nat /\ (length (tier_entries rs t) <= tier_capacity rs t)%nat.
Proof. unfold rings_bounded, Ring_bounded. by intros (? & ? & ?); destruct t. Qed.

Lemma RingSet_Push_spec rs tier e :
  rings_bounded rs -> tier <> kUnspecified ->
  let '(d, rs') := RingSet_Push rs tier e (Some 0) in
  d = Some (if (tier_capacity rs tier <=? length (tier_entries rs tier))%nat then 1 else 0) /\
  rings_bounded rs' /\ forall t, t <> kUnspecified ->
    tier_capacity rs' t = tier_capacity rs t /\
    tier_entries rs' t = if decide (tier = t) then newest (tier_capacity rs t) (tier_entries rs t ++ [e])
                         else tier_entries rs t.
Proof.
  intros Hb Ht. pose proof (rings_bounded_tier rs tier Hb Ht) as [Hp Hl].
  unfold RingSet_Push, tier_capacity, tier_entries in *. destruct (RingSet_Get rs tier) as [r|] eqn:Er; [|by destruct tier].
  pose proof (newest_snoc (capacity_ r) (q_ r) e Hp Hl) as Hn.
  pose proof (fifo_push_inv r e (conj Hp Hl)) as [Hr _]. unfold fifo_push, fifo_inv, Ring_fifo in Hr.
  unfold Ring_Push in *. cbn [fst snd] in Hr. split; [by case_test|]. split.
  - destruct Hb as (?&?&?). by destruct tier.
  - intros t Htu. destruct tier, t; try done; cbn in *; simplify_eq; by rewrite ?Hn.
Qed.

Lemma HandleEvent_step ev now uuid rs b :
  length (next_seq_ b) = 3%nat -> publishable ev now uuid ->
  let tier := Classify classifier (HeaderOrEmpty ev "Event-Name") (HeaderOrEmpty ev "Event-Subclass") in
  tier <> kUnspecified ->
  exists env bytes,
    let s := default 0 (next_seq_ b !! TierIndex tier) +u64 1 in
    let e := mkRingEntry s (Some bytes) in
    BuildEnvelope (Some ev) tier s node_id cfg now uuid = Some env /\ SerializeToString env = Some bytes /\
    let '(o, rs', b') := HandleEvent (Some ev) now uuid rs b in
    let '(d, rs1) := RingSet_Push rs tier e (Some 0) in
    o = Some (tier, e) /\ rs' = rs1 /\
    next_seq_ b' = <[TierIndex tier := s]> (next_seq_ b) /\
    dropped_ b' = (if 0 <? default 0 d then alter (fun c => c +u64 default 0 d) (TierIndex tier) (dropped_ b)
                   else dropped_ b) /\
    events_emitted_ b' = events_emitted_ b +u64 1.
Proof.
  intros Hlen Hp tier Ht. unfold HandleEvent, HandleEvent_alloc. fold tier.
  destruct (RingSet_Get rs tier) as [r|] eqn:Er; [|by destruct tier].
  set (s := default 0 (next_seq_ b !! TierIndex tier) +u64 1).
  destruct (Hp tier s (u64_range _)) as (env & bytes & He & Hb). exists env, bytes. cbn zeta.
  split; [done|]. split; [done|]. unfold HandleEvent_publish. rewrite He, Hb.
  destruct (RingSet_Push rs tier _ _) as [d rs']. cbn. split; [done|]. split; [done|].
  unfold IncrementHealthCounters. by destruct (bd_health b).
Qed.

Definition routable (x : Event * Z * string) : Prop :=
  publishable x.1.1 x.1.2 x.2 /\
  Classify classifier (HeaderOrEmpty x.1.1 "Event-Name") (HeaderOrEmpty x.1.1 "Event-Subclass")
    <> kUnspecified.

Definition tier_counter (b : Binder) (t : Tier) : Z := default 0 (next_seq_ b !! TierIndex t).

Lemma tier_counter_insert b tier t s :
  length (next_seq_ b) = 3%nat -> tier <> kUnspecified -> t <> kUnspecified ->
  default 0 (<[TierIndex tier := s]> (next_seq_ b) !! TierIndex t)
  = if decide (tier = t) then s else tier_counter b t.
Proof.
  intros Hl Ht Htu. unfold tier_counter. destruct (decide (tier = t)) as [<-|Hne].
  - rewrite list_lookup_insert_eq by (rewrite Hl; destruct tier; simpl; lia). done.
  - by rewrite list_lookup_insert_ne by (by destruct tier, t).
Qed.

Lemma entries_of_cons t x os :
  entries_of t (x :: os) = (if decide (x.1 = t) then [x.2] else []) ++ entries_of t os.
Proof. unfold entries_of. cbn [omap list_omap]. by case_decide. Qed.

(** The entry of an event: its tier, and the bytes of its envelope under the
    number it got. *)
Definition entry_of (x : Event * Z * string) (te : Tier * RingEntry) : Prop :=
  te.1 = Classify classifier (HeaderOrEmpty x.1.1 "Event-Name") (HeaderOrEmpty x.1.1 "Event-Subclass") /\
  exists env bytes, BuildEnvelope (Some x.1.1) te.1 (Ring.seq te.2) node_id cfg x.1.2 x.2 = Some env /\
    SerializeToString env = Some bytes /\ envelope_bytes te.2 = Some bytes.

Lemma DropsForTier_alter b tier t d :
  length (dropped_ b) = 3%nat -> tier <> kUnspecified -> t <> kUnspecified ->
  default 0 (alter (fun c => c +u64 d) (TierIndex tier) (dropped_ b) !! TierIndex t) =
    if decide (tier = t) then DropsForTier b t +u64 d else DropsForTier b t.
Proof.
  intros Hl Ht Htu. unfold DropsForTier. destruct (decide (tier = t)) as [<-|Hne].
  - rewrite list_lookup_alter_eq. destruct (lookup_lt_is_Some_2 (dropped_ b) (TierIndex tier)) as [c ->]; [|done].
    rewrite Hl. destruct tier; simpl; lia.
  - by rewrite list_lookup_alter_ne by (by destruct tier, t).
Qed.

(** What a binder and its rings are before and after some entries were pushed. *)
Definition numbered_from (rs : RingSet) (b : Binder) (os : list (Tier * RingEntry)) (rs' : RingSet) (b' : Binder)
    (t : Tier) : Prop :=
  seq <$> entries_of t os = (fun k => tier_counter b t + Z.of_nat (S k)) <$> List.seq 0 (length (entries_of t os)) /\
  tier_entries rs' t = newest (tier_capacity rs t) (tier_entries rs t ++ entries_of t os) /\
  DropsForTier b' t = u64 (DropsForTier b t +
    Z.of_nat (length (tier_entries rs t) + length (entries_of t os) - tier_capacity rs t)).

Record binder_ready (rs : RingSet) (b : Binder) (n : Z) : Prop := {
  br_seqs : length (next_seq_ b) = 3%nat;
  br_drops : length (dropped_ b) = 3%nat;
  br_emitted : 0 <= events_emitted_ b;
  br_room : events_emitted_ b + n < 2 ^ 64;
  br_counters t : t <> kUnspecified -> 0 <= tier_counter b t <= events_emitted_ b;
  br_dropped t : t <> kUnspecified -> 0 <= DropsForTier b t < 2 ^ 64;
  br_rings : rings_bounded rs }.

Lemma numbered_from_nothing rs b n t :
  binder_ready rs b n -> t <> kUnspecified -> numbered_from rs b [] rs b t.
Proof.
  intros Hb Ht. destruct (rings_bounded_tier rs t (br_rings _ _ _ Hb) Ht) as [Hp Hl].
  split; [done|]. cbn [entries_of omap list_omap length]. unfold newest. rewrite app_nil_r.
  replace (length (tier_entries rs t) - tier_capacity rs t)%nat with 0%nat by lia. split; [done|].
  replace (length (tier_entries rs t) + 0 - tier_capacity rs t)%nat with 0%nat by lia.
  rewrite Z.add_0_r, u64_small; [done|]. by apply (br_dropped _ _ _ Hb).
Qed.

(** One event more, at the front. *)
Lemma HandleEvent_numbered x rs b n :
  binder_ready rs b (1 + n) -> 0 <= n -> routable x ->
  let '(o, rs1, b1) := HandleEvent (Some x.1.1) x.1.2 x.2 rs b in
  exists te, o = Some te /\ entry_of x te /\ binder_ready rs1 b1 n /\
    events_emitted_ b1 = events_emitted_ b + 1 /\
    forall os rs2 b2 t, t <> kUnspecified ->
      numbered_from rs1 b1 os rs2 b2 t -> numbered_from rs b (te :: os) rs2 b2 t.
Proof.
  destruct x as [[ev now] uuid]. intros Hb Hn0 [Hp Ht]. destruct Hb as [Hl Hld He Hn Hs Hdr Hrb]. cbn [fst snd] in *.
  destruct (HandleEvent_step ev now uuid rs b Hl Hp Ht) as (env & bytes & Hstep). cbn zeta in Hstep.
  set (tier := Classify _ _ _) in *. pose proof (Hs tier Ht) as Htier.
  change (default 0 (next_seq_ b !! TierIndex tier)) with (tier_counter b tier) in Hstep.
  rewrite u64_small in Hstep by lia. set (e := mkRingEntry _ _) in Hstep.
  pose proof (RingSet_Push_spec rs tier e Hrb Ht) as Hpush.
  destruct (RingSet_Push rs tier e (Some 0)) as [d rs1]. destruct Hpush as (-> & Hrb1 & Hrings).
  destruct (HandleEvent (Some ev) now uuid rs b) as [[o rs1'] b1].
  destruct Hstep as (Henv & Hbytes & -> & -> & Hns & Hds & Hee). rewrite u64_small in Hee by lia. cbn [default from_option id] in Hds.
  assert (Hnext : forall t, t <> kUnspecified ->
    tier_counter b1 t = tier_counter b t + (if decide (tier = t) then 1 else 0)).
  { intros t Htu. unfold tier_counter at 1. rewrite Hns, tier_counter_insert by done.
    case_decide; [by subst t|lia]. }
  set (full := (tier_capacity rs tier <=? length (tier_entries rs tier))%nat) in *.
  assert (Hdrop : forall t, t <> kUnspecified ->
    DropsForTier b1 t = if decide (tier = t) then u64 (DropsForTier b t + (if full then 1 else 0)) else DropsForTier b t).
  { intros t Htu. unfold DropsForTier at 1. rewrite Hds. destruct full; cbn [Z.ltb Z.compare].
    - by rewrite DropsForTier_alter.
    - case_decide; [|done]. rewrite Z.add_0_r, u64_small; [done|by apply Hdr]. }
  exists (tier, e). split; [done|]. split; [by split; [|exists env, bytes]|]. split; [|split; [done|]].
  { split; try done; try lia.
    - by rewrite Hns, length_insert.
    - rewrite Hds. by destruct full; cbn; rewrite ?length_alter.
    - intros t Htu. rewrite Hnext by done. pose proof (Hs t Htu). case_decide; lia.
    - intros t Htu. rewrite Hdrop by done. case_decide; [apply u64_range|by apply Hdr]. }
  intros os rs2 b2 t Htu (Hseq & Hring & Hdrops). destruct (Hrings t Htu) as [Hcap Hent].
  rewrite Hnext in Hseq by done. rewrite Hcap, Hent in Hring, Hdrops. rewrite Hdrop in Hdrops by done.
  unfold numbered_from. rewrite entries_of_cons. cbn [fst snd].
  destruct (decide (tier = t)) as [<-|Hne]; cbn [app].
  - split_and!.
    + rewrite fmap_cons, Hseq. cbn [Ring.seq length List.seq]. rewrite fmap_cons. apply (f_equal2 cons); [cbn; lia|].
      rewrite <- fmap_S_seq, <- list_fmap_compose. apply list_fmap_ext. intros i k _. simpl. lia.
    + rewrite Hring, newest_app, <- app_assoc. done.
    + rewrite Hdrops, u64_add_l, <- Z.add_assoc. do 2 f_equal. unfold newest. rewrite length_drop, length_app.
      destruct (rings_bounded_tier rs tier Hrb Ht) as [Hc1 Hc2]. cbn [length]. subst full. case_test; lia.
  - split_and!; [|done..]. rewrite Hseq. apply list_fmap_ext. intros i k _. lia.
Qed.

Lemma HandleEvents_numbers_from evs rs b :
  Forall routable evs -> binder_ready rs b (zlen evs) ->
  let '(os, rs', b') := HandleEvents evs rs b in
  Forall2 entry_of evs os /\ events_emitted_ b' = events_emitted_ b + zlen evs /\
  forall t, t <> kUnspecified -> numbered_from rs b os rs' b' t.
Proof.
  revert rs b. induction evs as [|x evs IH]; intros rs b Hevs Hb; cbn -[HandleEvent].
  { split; [constructor|]. split; [lia|]. intros t Ht. by eapply numbered_from_nothing. }
  apply Forall_cons in Hevs as [Hx Hevs]. destruct x as [[ev now] uuid].
  assert (Hb1 : binder_ready rs b (1 + zlen evs)).
  { destruct Hb. split; try done. simpl in *. lia. }
  pose proof (HandleEvent_numbered _ rs b (zlen evs) Hb1 ltac:(lia) Hx) as Hstep. cbn [fst snd] in Hstep.
  destruct (HandleEvent (Some ev) now uuid rs b) as [[o rs1] b1].
  destruct Hstep as (te & -> & Hte & Hr & He & Hmore).
  pose proof (IH rs1 b1 Hevs Hr) as IH'. destruct (HandleEvents evs rs1 b1) as [[os rs2] b2].
  destruct IH' as (Hos & Hemit & Hnum). split; [by constructor|]. split; [lia|]. intros t Ht. by apply Hmore, Hnum.
Qed.

Lemma entries_of_length t os : (length (entries_of t os) <= length os)%nat.
Proof. unfold entries_of. induction os as [|x os IH]; cbn; [lia|]. case_decide; simpl; lia. Qed.

(** C33. One dispatch thread numbers each tier without gaps and fills the rings.
    From a fresh binder on rings within their bounds, handling any list of
    publishable events (fewer than 2^64) makes one entry per event, in order, on
    the tier its name and subclass classify to, with the bytes of the envelope
    built from it under its number; the entries of each tier are numbered 1, 2, 3,
    ...; each tier's ring then holds the newest of what it held and of those
    entries, as many as its capacity; and the counters count the events and, per
    tier, the entries that were displaced. *)
Theorem HandleEvents_numbers (evs : list (Event * Z * string)) (rs : RingSet) (health : option HealthGauges) :
  Forall routable evs -> zlen evs < 2 ^ 64 -> rings_bounded rs ->
  let '(os, rs', b) := HandleEvents evs rs (Binder_new health) in
  Forall2 entry_of evs os /\ events_emitted_ b = zlen evs /\
  forall t, t <> kUnspecified ->
    seqs_contiguous (entries_of t os) /\
    tier_entries rs' t = newest (tier_capacity rs t) (tier_entries rs t ++ entries_of t os) /\
    DropsForTier b t = u64 (Z.of_nat (length (tier_entries rs t) + length (entries_of t os) - tier_capacity rs t)).
Proof.
  intros Hevs Hlen Hrb.
  assert (Hb : binder_ready rs (Binder_new health) (zlen evs)).
  { split; try done; try (by intros []). }
  pose proof (HandleEvents_numbers_from evs rs _ Hevs Hb) as Hr.
  destruct (HandleEvents evs rs (Binder_new health)) as [[os rs'] b]. destruct Hr as (Hl & He & Hs).
  split; [done|]. split; [simpl in He; lia|]. intros t Ht. destruct (Hs t Ht) as (H1 & H2 & H3). split_and!.
  - split.
    + rewrite H1. apply list_fmap_ext. intros i k _. by destruct t.
    + pose proof (entries_of_length t os). apply Forall2_length in Hl. lia.
  - exact H2.
  - rewrite H3. by destruct t.
Qed.

(** Protobuf writes the wire format, with the field numbers of
    [events.proto]. *)
Definition serializes_envelopes : Prop :=
  forall env bytes, SerializeToString env = Some bytes ->
  exists fs, Forall wire_field_ok fs /\ bytes = encode_message fs /\
    fold_left route_field fs RoutingFields_default =
      mkRoutingFields (tier_of_varint (env_tier env)) (env_event_name env) (env_subclass_name env)
        (env_node_id env).

(** C34. What a subscriber's filter sees of an entry is what the event said.
    For an entry the binder pushed, running any subscriber's filter on the
    serialised bytes, as the broadcaster and the replay do, gives the filter's
    answer on the classified tier, the event's own name and subclass, and the
    node's id. *)
Theorem HandleEvent_filterable (ev : Event) (now : Z) (uuid : string) (rs rs' : RingSet) (b b' : Binder)
    (t : Tier) (e : RingEntry) :
  serializes_envelopes ->
  HandleEvent (Some ev) now uuid rs b = (Some (t, e), rs', b') ->
  t = Classify classifier (HeaderOrEmpty ev "Event-Name") (HeaderOrEmpty ev "Event-Subclass") /\
  exists bytes, envelope_bytes e = Some bytes /\
    forall sub, matches_bytes sub t bytes =
      MatchesFilter sub t (HeaderOrEmpty ev "Event-Name") (HeaderOrEmpty ev "Event-Subclass") node_id.
Proof.
  intros Hser H. unfold HandleEvent, HandleEvent_alloc in H. set (tier := Classify _ _ _) in *.
  destruct (RingSet_Get rs tier) as [r|] eqn:Er; [|done].
  unfold HandleEvent_publish in H. destruct (BuildEnvelope _ _ _ _ _ _ _) as [env|] eqn:Eb; [|done].
  destruct (SerializeToString env) as [bytes|] eqn:Es; [|done].
  destruct (RingSet_Push _ _ _ _) as [d rs1]. cbn in H. simplify_eq. split; [done|].
  exists bytes. split; [done|]. intros sub.
  destruct (Hser env bytes Es) as (fs & Hok & -> & Hrf). unfold matches_bytes.
  assert (ExtractRoutingFields (encode_message fs) = fold_left route_field fs RoutingFields_default) as ->
    by (by apply extract_loop_message).
  unfold BuildEnvelope in Eb. destruct (ParseEventTimestampMicros _); [|done]. simplify_eq.
  rewrite Hrf. cbn [rf_event_name rf_subclass_name rf_node_id env_event_name env_subclass_name env_node_id].
  match goal with |- context [effective_tier ?x _] => revert Er; by destruct x end.
Qed.
End Handle.

(** ** A serialiser *)

Definition opt_len (n : Z) (s : string) : list wire_field := if string_empty s then [] else [WLen n s].
Definition opt_varint (n v : Z) : list wire_field := if v =? 0 then [] else [WVarint n v].

(** The scalar fields of the envelope in field order, defaults omitted. *)
Definition envelope_fields (env : EventEnvelope) : list wire_field :=
  opt_len 1 (env_event_id env) ++ opt_varint 2 (env_tier env) ++ opt_len 3 (env_event_name env) ++
  opt_len 4 (env_subclass_name env) ++ opt_len 5 (env_node_id env) ++ opt_varint 7 (env_seq env) ++
  opt_len 13 (env_body env) ++ opt_varint 14 (env_schema_version env).

Definition wire_field_okb (f : wire_field) : bool :=
  match f with
  | WVarint n v => (1 <=? n) && (n <? 2 ^ 29) && (0 <=? v) && (v <? 2 ^ 64)
  | WFixed64 n b => (1 <=? n) && (n <? 2 ^ 29) && (String.length b =? 8)%nat
  | WLen n b => (1 <=? n) && (n <? 2 ^ 29) && (zsize b <? 2 ^ 64)
  | WFixed32 n b => (1 <=? n) && (n <? 2 ^ 29) && (String.length b =? 4)%nat
  end.

Definition demo_serialize (env : EventEnvelope) : option string :=
  if forallb wire_field_okb (envelope_fields env) && (0 <=? env_tier env) && (env_tier env <=? 3)
  then Some (encode_message (envelope_fields env)) else None.

Lemma wire_field_okb_spec f : wire_field_okb f = true -> wire_field_ok f.
Proof. destruct f; simpl; intros H; b2p; lia. Qed.

Lemma demo_serialize_spec : serializes_envelopes demo_serialize.
Proof.
  intros env bytes H. unfold demo_serialize in H. case_test; [|done]. simplify_eq.
  exists (envelope_fields env). split_and!; [|done|].
  - apply Forall_forall. intros f Hf. apply wire_field_okb_spec.
    eapply forallb_forall; [eassumption|by apply list_elem_of_In].
  - unfold envelope_fields, opt_len, opt_varint. rewrite !fold_left_app.
    assert (env_tier env = 0 \/ env_tier env = 1 \/ env_tier env = 2 \/ env_tier env = 3) as Ht by lia.
    destruct (string_empty (env_event_id env)), (string_empty (env_event_name env)) eqn:E1,
      (string_empty (env_subclass_name env)) eqn:E2, (string_empty (env_node_id env)) eqn:E3,
      (env_seq env =? 0), (string_empty (env_body env)), (env_schema_version env =? 0);
      rewrite ?string_empty_spec in *; rewrite ?E1, ?E2, ?E3;
      destruct Ht as [->|[->|[->| ->]]]; reflexivity.
Qed.

Lemma HandleEvent_filterable_witness :
  k1Critical = Classify (TierClassifier_new MakeDefaultRules) "CUSTOM" "osw.audit.x" /\
  exists bytes,
    (HandleEvent demo_serialize (TierClassifier_new MakeDefaultRules) MakeDefaultEnvelopeConfig "node-a"
       (Some envelope_demo_event) 1 "id" (RingSet_new 2 2 2) (Binder_new None)).1.1
      = Some (k1Critical, mkRingEntry 1 (Some bytes)) /\
    forall sub, matches_bytes sub k1Critical bytes = MatchesFilter sub k1Critical "CUSTOM" "osw.audit.x" "node-a".
Proof.
  destruct (HandleEvent demo_serialize (TierClassifier_new MakeDefaultRules) MakeDefaultEnvelopeConfig "node-a"
    (Some envelope_demo_event) 1 "id" (RingSet_new 2 2 2) (Binder_new None)) as [[o rs] b] eqn:E.
  assert (exists bytes, o = Some (k1Critical, mkRingEntry 1 (Some bytes))) as [bytes ->].
  { apply (f_equal (fun x => x.1.1)) in E. cbv beta in E. cbn [fst] in E. rewrite <- E.
    eexists. vm_compute. reflexivity. }
  destruct (HandleEvent_filterable demo_serialize (TierClassifier_new MakeDefaultRules)
    MakeDefaultEnvelopeConfig "node-a" envelope_demo_event 1 "id" (RingSet_new 2 2 2) rs (Binder_new None) b
    k1Critical (mkRingEntry 1 (Some bytes)) demo_serialize_spec E) as (Hc & bs & Hb & Hm).
  split; [exact Hc|]. exists bytes. split; [done|]. cbn in Hb. injection Hb as <-. exact Hm.
Defined.

Lemma demo_publishable now uuid :
  (String.length uuid < 100)%nat ->
  publishable demo_serialize MakeDefaultEnvelopeConfig "n" envelope_demo_event now uuid.
Proof.
  intros Hu tier seq Hs. eexists _, _. split; [reflexivity|]. unfold demo_serialize.
  assert (forallb wire_field_okb (opt_len 1 uuid) = true) as Hu'.
  { unfold opt_len. case_test; [done|]. cbn. rewrite andb_true_r. apply Z.ltb_lt. lia. }
  assert (forallb wire_field_okb (opt_varint 7 seq) = true) as Hs'.
  { unfold opt_varint. case_test; [done|]. cbn -[Z.ltb Z.leb].
    rewrite !(proj2 (Z.leb_le _ _)), !(proj2 (Z.ltb_lt _ _)) by lia. done. }
  rewrite (proj2 (andb_true_iff _ _)); [reflexivity|]. split; [|by destruct tier].
  rewrite andb_true_iff. split; [|by destruct tier]. unfold envelope_fields. rewrite !forallb_app.
  cbn [env_event_id env_seq]. rewrite Hu', Hs'. by destruct tier.
Qed.

Definition demo_events : list (Event * Z * string) :=
  [(envelope_demo_event, 5, "id"%string); (envelope_demo_event, 6, "id2"%string); (envelope_demo_event, 7, "id3"%string)].

Lemma HandleEvents_numbers_witness :
  let '(os, rs, b) :=
    HandleEvents demo_serialize (TierClassifier_new MakeDefaultRules) MakeDefaultEnvelopeConfig "n"
      demo_events (RingSet_new 2 2 2) (Binder_new None) in
  Ring.seq <$> entries_of k1Critical os = [1; 2; 3] /\
  Ring.seq <$> tier_entries rs k1Critical = [2; 3] /\ DropsForTier b k1Critical = 1.
Proof.
  pose proof (HandleEvents_numbers demo_serialize (TierClassifier_new MakeDefaultRules) MakeDefaultEnvelopeConfig "n"
    demo_events (RingSet_new 2 2 2) None) as H.
  destruct (HandleEvents _ _ _ _ demo_events (RingSet_new 2 2 2) (Binder_new None)) as [[os rs] b] eqn:E.
  destruct H as (_ & _ & H).
  - repeat (apply Forall_cons; split; [split; [apply demo_publishable; simpl; lia|by vm_compute]|]). apply Forall_nil_2.
  - vm_compute. reflexivity.
  - repeat split; vm_compute; lia.
  - destruct (H k1Critical ltac:(discriminate)) as (_ & -> & ->). vm_compute in E. injection E as <- _ _.
    split; [reflexivity|]. split; reflexivity.
Defined.

(** ** Several dispatch threads

    Two handlers can allocate their numbers in one order and push in the other. *)

Inductive HandlerLabel :=
| HAlloc (thread : nat) (ev : Event)
| HPublish (thread : nat) (now_us : Z) (uuid : string)
| HWorkerPop (t : Tier) (n : nat).

Record HandlerState := mkHandlerState {
  hs_rings : RingSet;
  hs_binder : Binder;
  hs_pending : gmap nat (Event * Tier * Z);
  hs_pushed : list (Tier * RingEntry) }.

Section Threads.
Context (SerializeToString : EventEnvelope -> option string).
Context (classifier : TierClassifier) (cfg : EnvelopeBuildConfig) (node_id : string).

Definition handler_step (st : HandlerState) (lb : HandlerLabel) : HandlerState :=
  let '(mkHandlerState rs b pend pushed) := st in
  match lb with
  | HAlloc th ev =>
      match pend !! th, HandleEvent_alloc classifier ev rs b with
      | None, (Some (tier, seq), b') => mkHandlerState rs b' (<[th := (ev, tier, seq)]> pend) pushed
      | None, (None, b') => mkHandlerState rs b' pend pushed
      | Some _, _ => st
      end
  | HPublish th now uuid =>
      match pend !! th with
      | None => st
      | Some (ev, tier, seq) =>
          let '(oe, rs', b') :=
            HandleEvent_publish SerializeToString cfg node_id ev tier seq now uuid rs b in
          mkHandlerState rs' b' (delete th pend) (pushed ++ option_list ((fun e => (tier, e)) <$> oe))
      end
  | HWorkerPop t n => mkHandlerState (RingSet_PopBatch rs t n).2 b pend pushed
  end.

Definition handler_run (st : HandlerState) (ls : list HandlerLabel) : HandlerState :=
  fold_left handler_step ls st.
End Threads.

Definition handler_start (rs : RingSet) : HandlerState := mkHandlerState rs (Binder_new None) ∅ [].

(** The replay window needs pushes in number order, which two dispatch
    threads do not provide.  Thread A takes number 1 and is preempted, thread B
    takes 2 and pushes it, the worker pops it, A pushes 1: a client that saw 1
    and asks for what follows is told that the window is complete and replayed
    nothing, although 2 was pushed and is gone from the ring. *)
Theorem reordered_push_hides_event :
  exists ls,
    let st := handler_run demo_serialize (TierClassifier_new MakeDefaultRules) MakeDefaultEnvelopeConfig
                "node-a" (handler_start (RingSet_new 8 8 8)) ls in
    let snap := Ring_SnapshotFromSeq (tier1_ (hs_rings st)) 1 in
    seq <$> entries_of k1Critical (hs_pushed st) = [2; 1] /\
    found_in_window snap = true /\ entries snap = [] /\
    DropsForTier (hs_binder st) k1Critical = 0.
Proof.
  exists [HAlloc 0 envelope_demo_event; HAlloc 1 envelope_demo_event; HPublish 1 5 "b";
          HWorkerPop k1Critical kBatchMax; HPublish 0 6 "a"].
  vm_compute. done.
Qed.
