(* ===== verification/Idempotency.v ===== *)
(** * The idempotency cache

    [src/control/idempotency_cache.cc] and
    [src/control/handlers/idempotency_utils.h]: an LRU list of stored results
    with an index of list iterators, and the in-flight reservations that make
    concurrent calls with one key wait for the first.  A list iterator is the
    identity of its node; time is the steady clock's reading, passed in at each
    place the code reads it.  [LookupOrReserve] releases the lock while it waits,
    so it is two functions with the wait in between. *)

From S2P Require Import Prelude.

Record Entry := mkEntry {
  en_status : Status;
  en_serialized_response : string;
  en_expires_at : Z }.

Inductive LookupState := kMiss | kHit | kInFlight.

#[export] Instance LookupState_eq_dec : EqDecision LookupState.
Proof. solve_decision. Defined.

Definition Entry_default : Entry := mkEntry Status_OK "" 0.

Record LookupResult := mkLookupResult { lr_state : LookupState; lr_entry : Entry }.

Definition Miss : LookupResult := mkLookupResult kMiss Entry_default.

Record Node := mkNode { nd_id : nat; nd_key : string; nd_entry : Entry }.

Record IdempotencyCache := mkIdempotencyCache {
  index_ : gmap string nat;
  lru_list_ : list Node;
  in_flight_ : gmap string Z;
  next_node : nat;
  ic_capacity_ : nat;
  ttl_ : Z;
  in_flight_max_wait_ : Z }.

Definition IdempotencyCache_new (capacity : nat) (ttl max_wait : Z) : IdempotencyCache :=
  mkIdempotencyCache ∅ [] ∅ 0 capacity ttl max_wait.

Definition with_store (c : IdempotencyCache) (ix : gmap string nat) (l : list Node) : IdempotencyCache :=
  mkIdempotencyCache ix l (in_flight_ c) (next_node c) (ic_capacity_ c) (ttl_ c) (in_flight_max_wait_ c).

Definition with_in_flight (c : IdempotencyCache) (m : gmap string Z) : IdempotencyCache :=
  mkIdempotencyCache (index_ c) (lru_list_ c) m (next_node c) (ic_capacity_ c) (ttl_ c)
    (in_flight_max_wait_ c).

(** [*it]; [None] for an iterator that is not in the list. *)
Definition node_at (c : IdempotencyCache) (it : nat) : option Node :=
  snd <$> list_find (fun n => nd_id n = it) (lru_list_ c).

Definition Erase (c : IdempotencyCache) (it : nat) : IdempotencyCache :=
  match node_at c it with
  | None => c
  | Some n => with_store c (delete (nd_key n) (index_ c)) (filter (fun m => nd_id m <> it) (lru_list_ c))
  end.

(** [lru_list_.splice(lru_list_.begin(), lru_list_, it)]. *)
Definition splice_front (c : IdempotencyCache) (it : nat) : IdempotencyCache :=
  match node_at c it with
  | None => c
  | Some n => with_store c (index_ c) (n :: filter (fun m => nd_id m <> it) (lru_list_ c))
  end.

(** The [while] loop; [None]: [std::prev] of the end of an empty list. *)
Fixpoint evict_loop (fuel : nat) (c : IdempotencyCache) : option IdempotencyCache :=
  if (ic_capacity_ c <=? length (lru_list_ c))%nat then
    match fuel, last (lru_list_ c) with
    | S fuel, Some n => evict_loop fuel (Erase c (nd_id n))
    | _, _ => None
    end
  else Some c.

Definition EvictIfNeeded (c : IdempotencyCache) : option IdempotencyCache :=
  evict_loop (length (lru_list_ c)) c.

(** ** Operations *)

Inductive LookupPhase := LpDone (r : LookupResult) | LpWait (deadline : Z).

(** From the entry to the wait; [now'] is the second clock reading. *)
Definition LookupOrReserve_begin (c : IdempotencyCache) (request_id : string) (now now' : Z)
  : IdempotencyCache * LookupPhase :=
  if string_empty request_id then (c, LpDone Miss)
  else
    let reserve_or_wait c :=
      match in_flight_ c !! request_id with
      | Some until =>
          if until <=? now
          then (with_in_flight c (<[request_id := now + in_flight_max_wait_ c]> (in_flight_ c)), LpDone Miss)
          else (c, LpWait (Z.min (now' + in_flight_max_wait_ c) until))
      | None =>
          (with_in_flight c (<[request_id := now + in_flight_max_wait_ c]> (in_flight_ c)), LpDone Miss)
      end in
    match index_ c !! request_id with
    | Some it =>
        match node_at c it with
        | None => (c, LpDone Miss)
        | Some n =>
            if en_expires_at (nd_entry n) <=? now then reserve_or_wait (Erase c it)
            else (splice_front c it, LpDone (mkLookupResult kHit (nd_entry n)))
        end
    | None => reserve_or_wait c
    end.

(** The wait's predicate at clock reading [t]. *)
Definition wake_pred (c : IdempotencyCache) (request_id : string) (t : Z) : bool :=
  let still_in_flight := match in_flight_ c !! request_id with Some until => t <? until | None => false end in
  let has_entry := match index_ c !! request_id with Some _ => true | None => false end in
  negb still_in_flight || has_entry.

(** After the wait: [t] is the reading of its last predicate test, the others
    are the readings that follow. *)
Definition LookupOrReserve_resume (c : IdempotencyCache) (request_id : string) (t now2 now3 now4 : Z)
  : IdempotencyCache * LookupResult :=
  let after_wait c :=
    match in_flight_ c !! request_id with
    | Some until =>
        if until <=? now3
        then (with_in_flight c (<[request_id := now4 + in_flight_max_wait_ c]> (in_flight_ c)), Miss)
        else (c, Miss)
    | None => (c, Miss)
    end in
  if wake_pred c request_id t then
    match index_ c !! request_id with
    | Some it =>
        match node_at c it with
        | None => after_wait c
        | Some n =>
            if now2 <? en_expires_at (nd_entry n)
            then (splice_front c it, mkLookupResult kHit (nd_entry n))
            else after_wait (Erase c it)
        end
    | None => after_wait c
    end
  else after_wait c.

Definition IdempotencyCache_Store (c : IdempotencyCache) (request_id : string) (entry : Entry)
  : option IdempotencyCache :=
  if string_empty request_id then Some c
  else
    let c := match index_ c !! request_id with Some it => Erase c it | None => c end in
    match EvictIfNeeded c with
    | None => None
    | Some c =>
        Some (mkIdempotencyCache
                (<[request_id := next_node c]> (index_ c))
                (mkNode (next_node c) request_id entry :: lru_list_ c)
                (delete request_id (in_flight_ c)) (S (next_node c)) (ic_capacity_ c) (ttl_ c)
                (in_flight_max_wait_ c))
    end.

Definition IdempotencyCache_Cancel (c : IdempotencyCache) (request_id : string) : IdempotencyCache :=
  if string_empty request_id then c
  else with_in_flight c (delete request_id (in_flight_ c)).

Definition key_separator : ascii := char_of 31.

Definition MakeIdempotencyKey (method tenant_id request_id : string) : string :=
  if string_empty request_id then ""%string
  else method +:+ String key_separator (tenant_id +:+ String key_separator request_id).

(** ** Consistency of the two structures *)

Definition cache_wf (c : IdempotencyCache) : Prop :=
  NoDup (nd_id <$> lru_list_ c) /\ NoDup (nd_key <$> lru_list_ c) /\
  Forall (fun n => (nd_id n < next_node c)%nat) (lru_list_ c) /\
  (forall k it, index_ c !! k = Some it <-> exists n, n ∈ lru_list_ c /\ nd_id n = it /\ nd_key n = k) /\
  (length (lru_list_ c) <= ic_capacity_ c)%nat /\ (0 < ic_capacity_ c)%nat.

(** The abstract cache: keys and entries, most recent first. *)
Definition lru_view (c : IdempotencyCache) : list (string * Entry) :=
  (fun n => (nd_key n, nd_entry n)) <$> lru_list_ c.

Definition view_without (k : string) (v : list (string * Entry)) : list (string * Entry) :=
  filter (fun x => x.1 <> k) v.

Lemma node_at_Some c it n : node_at c it = Some n -> n ∈ lru_list_ c /\ nd_id n = it.
Proof.
  unfold node_at. destruct (list_find _ _) as [[i m]|] eqn:E; [|done]. intros [= ->].
  apply list_find_Some in E as (Hl & Hid & _). split; [by eapply list_elem_of_lookup_2|done].
Qed.

Lemma index_node c k it :
  cache_wf c -> index_ c !! k = Some it ->
  exists n, node_at c it = Some n /\ n ∈ lru_list_ c /\ nd_id n = it /\ nd_key n = k.
Proof.
  intros (Hid & _ & _ & Hix & _) Hk. apply Hix in Hk as (n & Hin & <- & <-).
  destruct (node_at c (nd_id n)) as [m|] eqn:E.
  - destruct (node_at_Some _ _ _ E) as [Hm Hmid]. exists m. split_and!; try done.
    f_equal. by apply (nodup_map_inj nd_id (lru_list_ c)).
  - unfold node_at in E. destruct (list_find _ _) eqn:Ef; [done|].
    apply list_find_None in Ef. rewrite Forall_forall in Ef. by destruct (Ef n Hin).
Qed.

(** Removing the node of a key is removing the key. *)
Lemma filter_id_key c n :
  cache_wf c -> n ∈ lru_list_ c ->
  filter (fun m => nd_id m <> nd_id n) (lru_list_ c) = filter (fun m => nd_key m <> nd_key n) (lru_list_ c).
Proof.
  intros (Hid & Hkey & _) Hn. apply filter_ext_in. intros m Hm. split; intros H E; apply H.
  - by rewrite (nodup_map_inj nd_key (lru_list_ c) m n).
  - by rewrite (nodup_map_inj nd_id (lru_list_ c) m n).
Qed.

Lemma view_filter k (l : list Node) :
  (fun n => (nd_key n, nd_entry n)) <$> filter (fun m => nd_key m <> k) l
  = view_without k ((fun n => (nd_key n, nd_entry n)) <$> l).
Proof.
  unfold view_without. induction l as [|m l IH]; [done|]. rewrite fmap_cons, !filter_cons. cbn [fst].
  repeat case_decide; try done. cbn. by rewrite IH.
Qed.

Lemma Erase_key c k it :
  cache_wf c -> index_ c !! k = Some it ->
  cache_wf (Erase c it) /\ lru_view (Erase c it) = view_without k (lru_view c) /\
  index_ (Erase c it) = delete k (index_ c) /\ in_flight_ (Erase c it) = in_flight_ c /\
  ic_capacity_ (Erase c it) = ic_capacity_ c /\ next_node (Erase c it) = next_node c /\
  in_flight_max_wait_ (Erase c it) = in_flight_max_wait_ c.
Proof.
  intros Hwf Hk. destruct (index_node _ _ _ Hwf Hk) as (n & Hat & Hin & <- & <-).
  unfold Erase. rewrite Hat, (filter_id_key _ _ Hwf Hin). unfold lru_view. cbn. rewrite view_filter.
  split_and!; try done. destruct Hwf as (Hid & Hkey & Hlt & Hix & Hlen & Hcap). unfold cache_wf. cbn.
  split_and!; try done.
  - by apply NoDup_fmap_filter.
  - by apply NoDup_fmap_filter.
  - by apply Forall_filter_keep.
  - intros k' it'. rewrite lookup_delete_Some, Hix. split.
    + intros [Hne (m & Hm & <- & <-)]. exists m. rewrite list_elem_of_filter. naive_solver.
    + intros (m & Hm & <- & <-). apply list_elem_of_filter in Hm as [Hne Hm]. split; [congruence|by exists m].
  - etrans; [apply length_filter_le|done].
Qed.

Lemma splice_key c k it :
  cache_wf c -> index_ c !! k = Some it ->
  exists n, node_at c it = Some n /\ nd_key n = k /\ (k, nd_entry n) ∈ lru_view c /\
  cache_wf (splice_front c it) /\
  lru_view (splice_front c it) = (k, nd_entry n) :: view_without k (lru_view c) /\
  in_flight_ (splice_front c it) = in_flight_ c /\ index_ (splice_front c it) = index_ c.
Proof.
  intros Hwf Hk. destruct (index_node _ _ _ Hwf Hk) as (n & Hat & Hin & <- & <-).
  exists n. unfold splice_front. rewrite Hat, (filter_id_key _ _ Hwf Hin). unfold lru_view. cbn.
  rewrite view_filter. split_and!; try done.
  { by apply (list_elem_of_fmap_2 (fun n => (nd_key n, nd_entry n))). }
  destruct Hwf as (Hid & Hkey & Hlt & Hix & Hlen & Hcap). unfold cache_wf. cbn.
  assert (forall m, m ∈ n :: filter (fun m => nd_key m <> nd_key n) (lru_list_ c) <-> m ∈ lru_list_ c) as Hmem.
  { intros m. rewrite elem_of_cons, list_elem_of_filter. split; [naive_solver|]. intros Hm.
    destruct (decide (nd_key m = nd_key n)) as [E|Hne]; [|by right].
    left. by apply (nodup_map_inj nd_key (lru_list_ c)). }
  split_and!; try done.
  - apply NoDup_cons. split; [|by apply NoDup_fmap_filter].
    intros Hx. apply list_elem_of_fmap in Hx as (m & E & Hm). apply list_elem_of_filter in Hm as [Hne Hm].
    apply Hne. f_equal. by apply (nodup_map_inj nd_id (lru_list_ c)).
  - apply NoDup_cons. split; [|by apply NoDup_fmap_filter].
    intros Hx. apply list_elem_of_fmap in Hx as (m & E & Hm). by apply list_elem_of_filter in Hm as [Hne _].
  - apply Forall_cons. split; [by rewrite Forall_forall in Hlt; apply Hlt|by apply Forall_filter_keep].
  - intros k' it'. rewrite Hix. by setoid_rewrite Hmem.
  - assert (length (filter (fun m => nd_key m <> nd_key n) (lru_list_ c)) < length (lru_list_ c))%nat; [|simpl; lia].
    apply list_elem_of_lookup in Hin as [i Hi].
    rewrite <- (take_drop_middle (lru_list_ c) i n Hi), filter_app, filter_cons_False by (intros H; by apply H).
    rewrite !length_app. simpl.
    pose proof (length_filter_le (fun m => nd_key m <> nd_key n) (take i (lru_list_ c))).
    pose proof (length_filter_le (fun m => nd_key m <> nd_key n) (drop (S i) (lru_list_ c))). lia.
Qed.

(** ** Operations on the abstract cache *)

Lemma Evict_view c :
  cache_wf c -> exists c', EvictIfNeeded c = Some c' /\ cache_wf c' /\
    lru_view c' = take (ic_capacity_ c - 1) (lru_view c) /\
    (length (lru_list_ c') < ic_capacity_ c)%nat /\
    in_flight_ c' = in_flight_ c /\ ic_capacity_ c' = ic_capacity_ c /\ next_node c' = next_node c /\
    in_flight_max_wait_ c' = in_flight_max_wait_ c.
Proof.
  intros Hwf. pose proof Hwf as (Hid & Hkey & Hlt & Hix & Hlen & Hcap).
  unfold EvictIfNeeded. destruct (lru_list_ c) as [|n0 l0] eqn:El using rev_ind.
  { exists c. simpl. rewrite El. simpl in *. case_test; [lia|].
    unfold lru_view. rewrite El. split_and!; try done. cbn. by rewrite take_nil. }
  clear IHl0. rewrite length_app in *. simpl in Hlen |- *. rewrite Nat.add_1_r. simpl.
  rewrite El, length_app. simpl.
  assert (length (lru_view c) = S (length l0)) as Hvl.
  { unfold lru_view. rewrite length_fmap, El, length_app. simpl. lia. }
  case_test.
  - rewrite last_snoc.
    assert (index_ c !! nd_key n0 = Some (nd_id n0)) as Hk.
    { apply Hix. exists n0. split_and!; try done. rewrite ?El. set_solver. }
    destruct (Erase_key _ _ _ Hwf Hk) as (Hwf' & Hv & _ & Hf & Hc & Hn & Hm).
    assert (lru_view (Erase c (nd_id n0)) = take (ic_capacity_ c - 1) (lru_view c)) as Hv'.
    { rewrite Hv. unfold lru_view, view_without. rewrite El, fmap_app, filter_app.
      rewrite (filter_all_true _ (_ <$> l0)).
      - rewrite (filter_all_false _ (_ <$> [n0])), app_nil_r by (apply Forall_singleton; naive_solver).
        rewrite take_app_le, take_ge by (rewrite ?length_fmap; lia). done.
      - apply Forall_forall. intros x Hx. apply list_elem_of_fmap in Hx as (m & -> & Hm'). cbn. intros E'.
        rewrite fmap_app in Hkey. apply NoDup_app in Hkey as (_ & Hdisj & _).
        apply (Hdisj (nd_key m)); [by apply list_elem_of_fmap_2|rewrite E'; set_solver]. }
    assert (length (lru_list_ (Erase c (nd_id n0))) = length l0) as Hl.
    { assert (length (lru_view (Erase c (nd_id n0))) = length l0) as H.
      { rewrite Hv', length_take. lia. } unfold lru_view in H. by rewrite length_fmap in H. }
    exists (Erase c (nd_id n0)). split_and!; try done; [|lia].
    destruct (length l0) eqn:Hl0; simpl; rewrite Hc, Hl; simpl; case_test; try done; lia.
  - exists c. split_and!; try done; [|rewrite El, length_app; simpl; lia].
    rewrite take_ge by lia. done.
Qed.

Lemma Store_view c k e :
  cache_wf c -> k <> ""%string ->
  exists c', IdempotencyCache_Store c k e = Some c' /\ cache_wf c' /\
    lru_view c' = (k, e) :: take (ic_capacity_ c - 1) (view_without k (lru_view c)) /\
    in_flight_ c' = delete k (in_flight_ c) /\ ic_capacity_ c' = ic_capacity_ c /\
    in_flight_max_wait_ c' = in_flight_max_wait_ c.
Proof.
  intros Hwf Hk. unfold IdempotencyCache_Store.
  destruct (string_empty k) eqn:Ek; [by apply string_empty_spec in Ek|].
  set (c1 := match index_ c !! k with Some it => Erase c it | None => c end).
  assert (cache_wf c1 /\ lru_view c1 = view_without k (lru_view c) /\ in_flight_ c1 = in_flight_ c /\
    ic_capacity_ c1 = ic_capacity_ c /\ in_flight_max_wait_ c1 = in_flight_max_wait_ c)
    as (Hwf1 & Hv1 & Hf1 & Hc1 & Hm1).
  { unfold c1. destruct (index_ c !! k) as [it|] eqn:Ei.
    - by destruct (Erase_key _ _ _ Hwf Ei) as (? & ? & _ & ? & ? & _ & ?).
    - split_and!; try done. unfold view_without. rewrite filter_all_true; [done|].
      apply Forall_forall. intros x Hx. apply list_elem_of_fmap in Hx as (n & -> & Hn). cbn. intros <-.
      assert (index_ c !! nd_key n = Some (nd_id n)); [|congruence]. apply Hwf. by exists n. }
  destruct (Evict_view c1 Hwf1) as (c2 & -> & Hwf2 & Hv2 & Hl2 & Hf2 & Hc2 & Hn2 & Hm2).
  eexists. split; [reflexivity|].
  assert (forall m, m ∈ lru_list_ c2 -> nd_key m <> k) as Hnk.
  { intros m Hm <-.
    assert ((nd_key m, nd_entry m) ∈ lru_view c2) as Hin.
    { by apply (list_elem_of_fmap_2 (fun n => (nd_key n, nd_entry n))). }
    rewrite Hv2, Hv1 in Hin. apply elem_of_take in Hin as (i & Hi & _).
    apply list_elem_of_lookup_2 in Hi. unfold view_without in Hi.
    by apply list_elem_of_filter in Hi as [Hne _]. }
  destruct Hwf2 as (Hid & Hkey & Hlt & Hix & Hlen & Hcap). unfold cache_wf. cbn.
  split_and!; try done; try congruence.
  - apply NoDup_cons. split; [|done]. intros Hx. apply list_elem_of_fmap in Hx as (m & E & Hm).
    rewrite Forall_forall in Hlt. specialize (Hlt m Hm). cbn in E. lia.
  - apply NoDup_cons. split; [|done]. intros Hx. apply list_elem_of_fmap in Hx as (m & E & Hm).
    by apply (Hnk m Hm).
  - apply Forall_cons. split; [cbn; lia|]. eapply Forall_impl; [exact Hlt|]. cbn. lia.
  - intros k' it. destruct (decide (k = k')) as [<-|Hne].
    + rewrite lookup_insert_eq. split.
      * intros [= <-]. eexists. split; [by apply elem_of_cons; left|done].
      * intros (m & Hm & <- & E). apply elem_of_cons in Hm as [->|Hm]; [done|by destruct (Hnk m Hm)].
    + rewrite lookup_insert_ne, Hix by done. split.
      * intros (m & Hm & ? & ?). exists m. split; [by apply elem_of_cons; right|done].
      * intros (m & Hm & ? & E). apply elem_of_cons in Hm as [->|Hm]; [done|by exists m].
  - lia.
  - unfold lru_view in *. cbn. by rewrite Hv2, Hv1, Hc1.
Qed.

(** ** Reference cache

    One list of keys and entries, most recent first, and the reservations. *)

Record LruSpec := mkLruSpec { sp_items : list (string * Entry); sp_flight : gmap string Z }.

Definition spec_find (k : string) (v : list (string * Entry)) : option Entry :=
  (fun x => x.2.2) <$> list_find (fun x => x.1 = k) v.

Definition spec_begin (mw : Z) (s : LruSpec) (k : string) (now now' : Z) : LruSpec * LookupPhase :=
  if string_empty k then (s, LpDone Miss)
  else
    let reserve_or_wait v :=
      match sp_flight s !! k with
      | Some until =>
          if until <=? now then (mkLruSpec v (<[k := now + mw]> (sp_flight s)), LpDone Miss)
          else (mkLruSpec v (sp_flight s), LpWait (Z.min (now' + mw) until))
      | None => (mkLruSpec v (<[k := now + mw]> (sp_flight s)), LpDone Miss)
      end in
    match spec_find k (sp_items s) with
    | Some e =>
        if en_expires_at e <=? now then reserve_or_wait (view_without k (sp_items s))
        else (mkLruSpec ((k, e) :: view_without k (sp_items s)) (sp_flight s),
              LpDone (mkLookupResult kHit e))
    | None => reserve_or_wait (sp_items s)
    end.

Definition spec_wake (s : LruSpec) (k : string) (t : Z) : bool :=
  match sp_flight s !! k with Some until => until <=? t | None => true end ||
  match spec_find k (sp_items s) with Some _ => true | None => false end.

Definition spec_resume (mw : Z) (s : LruSpec) (k : string) (t now2 now3 now4 : Z)
  : LruSpec * LookupResult :=
  let after v :=
    match sp_flight s !! k with
    | Some until =>
        if until <=? now3 then (mkLruSpec v (<[k := now4 + mw]> (sp_flight s)), Miss)
        else (mkLruSpec v (sp_flight s), Miss)
    | None => (mkLruSpec v (sp_flight s), Miss)
    end in
  match (if spec_wake s k t then spec_find k (sp_items s) else None) with
  | Some e =>
      if now2 <? en_expires_at e
      then (mkLruSpec ((k, e) :: view_without k (sp_items s)) (sp_flight s), mkLookupResult kHit e)
      else after (view_without k (sp_items s))
  | None => after (sp_items s)
  end.

Definition spec_store (cap : nat) (s : LruSpec) (k : string) (e : Entry) : LruSpec :=
  if string_empty k then s
  else mkLruSpec ((k, e) :: take (cap - 1) (view_without k (sp_items s))) (delete k (sp_flight s)).

Definition spec_cancel (s : LruSpec) (k : string) : LruSpec :=
  if string_empty k then s else mkLruSpec (sp_items s) (delete k (sp_flight s)).

Definition abstraction (c : IdempotencyCache) : LruSpec := mkLruSpec (lru_view c) (in_flight_ c).

Lemma spec_find_Some k v e : NoDup v.*1 -> (k, e) ∈ v -> spec_find k v = Some e.
Proof.
  intros Hnd Hin. unfold spec_find. destruct (list_find _ v) as [[i x]|] eqn:E.
  - apply list_find_Some in E as (Hl & Hk & _). cbn.
    assert (x = (k, e)) as ->; [|done]. apply (nodup_map_inj fst v); try done. by eapply list_elem_of_lookup_2.
  - apply list_find_None in E. rewrite Forall_forall in E. by destruct (E _ Hin).
Qed.

Lemma view_keys c : (lru_view c).*1 = nd_key <$> lru_list_ c.
Proof. unfold lru_view. by rewrite <- list_fmap_compose. Qed.

Lemma index_find c k :
  cache_wf c ->
  match index_ c !! k with
  | Some it => exists n, node_at c it = Some n /\ spec_find k (lru_view c) = Some (nd_entry n)
  | None => spec_find k (lru_view c) = None
  end.
Proof.
  intros Hwf. destruct (index_ c !! k) as [it|] eqn:E.
  - destruct (index_node _ _ _ Hwf E) as (n & Hat & Hin & _ & <-). exists n. split; [done|].
    apply spec_find_Some; [rewrite view_keys; apply Hwf|].
    by apply (list_elem_of_fmap_2 (fun n => (nd_key n, nd_entry n))).
  - unfold spec_find. destruct (list_find _ _) as [[i x]|] eqn:Ef; [|done].
    apply list_find_Some in Ef as (Hl & <- & _). apply list_elem_of_lookup_2, list_elem_of_fmap in Hl as (n & -> & Hn).
    assert (index_ c !! nd_key n = Some (nd_id n)); [|cbn in *; congruence]. apply Hwf. by exists n.
Qed.

Lemma with_in_flight_wf c m : cache_wf c -> cache_wf (with_in_flight c m).
Proof. done. Qed.

Lemma begin_refines c k now now' :
  cache_wf c ->
  let '(c', r) := LookupOrReserve_begin c k now now' in
  cache_wf c' /\ ic_capacity_ c' = ic_capacity_ c /\ in_flight_max_wait_ c' = in_flight_max_wait_ c /\
  spec_begin (in_flight_max_wait_ c) (abstraction c) k now now' = (abstraction c', r).
Proof.
  intros Hwf. unfold LookupOrReserve_begin, spec_begin. destruct (string_empty k); [done|].
  pose proof (index_find c k Hwf) as Hf. cbn [sp_items sp_flight abstraction].
  destruct (index_ c !! k) as [it|] eqn:E.
  - destruct Hf as (n & Hat & Hf). rewrite Hat, Hf. case_test.
    + destruct (Erase_key _ _ _ Hwf E) as (Hwf' & Hv & _ & Hfl & Hc & _ & Hm). rewrite Hfl, Hm.
      destruct (in_flight_ c !! k); [case_test|]; cbn; unfold abstraction; cbn;
        unfold lru_view in *; cbn; rewrite ?Hv, ?Hfl; done.
    + destruct (splice_key _ _ _ Hwf E) as (n' & Hat' & _ & _ & Hwf' & Hv & Hfl & _).
      rewrite Hat in Hat'. simplify_eq. unfold abstraction. rewrite Hv, Hfl. split_and!; try done;
      unfold splice_front; by rewrite Hat.
  - rewrite Hf. destruct (in_flight_ c !! k); [case_test|]; done.
Qed.

Lemma wake_pred_spec c k t : cache_wf c -> wake_pred c k t = spec_wake (abstraction c) k t.
Proof.
  intros Hwf. unfold wake_pred, spec_wake. cbn [sp_items sp_flight abstraction]. pose proof (index_find c k Hwf) as Hf. f_equal.
  - destruct (in_flight_ c !! k); [|done]. by rewrite Z.leb_antisym.
  - destruct (index_ c !! k); [destruct Hf as (nd & _ & ->)|rewrite Hf]; done.
Qed.

Lemma resume_refines c k t now2 now3 now4 :
  cache_wf c ->
  let '(c', r) := LookupOrReserve_resume c k t now2 now3 now4 in
  cache_wf c' /\ ic_capacity_ c' = ic_capacity_ c /\ in_flight_max_wait_ c' = in_flight_max_wait_ c /\
  spec_resume (in_flight_max_wait_ c) (abstraction c) k t now2 now3 now4 = (abstraction c', r).
Proof.
  intros Hwf. unfold LookupOrReserve_resume, spec_resume. rewrite <- wake_pred_spec by done.
  pose proof (index_find c k Hwf) as Hf. cbn [sp_items sp_flight abstraction].
  destruct (wake_pred c k t).
  2: { destruct (in_flight_ c !! k); [case_test|]; done. }
  destruct (index_ c !! k) as [it|] eqn:E.
  - destruct Hf as (n & Hat & Hf). rewrite Hat, Hf. case_test.
    + destruct (splice_key _ _ _ Hwf E) as (n' & Hat' & _ & _ & Hwf' & Hv & Hfl & _).
      rewrite Hat in Hat'. simplify_eq. unfold abstraction. rewrite Hv, Hfl. split_and!; try done;
      unfold splice_front; by rewrite Hat.
    + destruct (Erase_key _ _ _ Hwf E) as (Hwf' & Hv & _ & Hfl & Hc & _ & Hm). rewrite Hfl, Hm.
      destruct (in_flight_ c !! k); [case_test|]; cbn; unfold abstraction; cbn;
        unfold lru_view in *; cbn; rewrite ?Hv, ?Hfl; done.
  - rewrite Hf. destruct (in_flight_ c !! k); [case_test|]; done.
Qed.

(** ** Runs *)

Inductive CacheOp :=
| CoBegin (k : string) (now now' : Z)
| CoResume (k : string) (t now2 now3 now4 : Z)
| CoStore (k : string) (e : Entry)
| CoCancel (k : string).

(** [None]: undefined behaviour was reached. *)
Definition cache_exec (c : IdempotencyCache) (o : CacheOp) : option (IdempotencyCache * option LookupPhase) :=
  match o with
  | CoBegin k now now' => let '(c', r) := LookupOrReserve_begin c k now now' in Some (c', Some r)
  | CoResume k t n2 n3 n4 =>
      let '(c', r) := LookupOrReserve_resume c k t n2 n3 n4 in Some (c', Some (LpDone r))
  | CoStore k e => (fun c' => (c', None)) <$> IdempotencyCache_Store c k e
  | CoCancel k => Some (IdempotencyCache_Cancel c k, None)
  end.

Definition spec_exec (cap : nat) (mw : Z) (s : LruSpec) (o : CacheOp) : LruSpec * option LookupPhase :=
  match o with
  | CoBegin k now now' => let '(s', r) := spec_begin mw s k now now' in (s', Some r)
  | CoResume k t n2 n3 n4 => let '(s', r) := spec_resume mw s k t n2 n3 n4 in (s', Some (LpDone r))
  | CoStore k e => (spec_store cap s k e, None)
  | CoCancel k => (spec_cancel s k, None)
  end.

Fixpoint cache_run (c : IdempotencyCache) (os : list CacheOp)
  : option (IdempotencyCache * list (option LookupPhase)) :=
  match os with
  | [] => Some (c, [])
  | o :: os =>
      match cache_exec c o with
      | None => None
      | Some (c', r) => (fun x => (x.1, r :: x.2)) <$> cache_run c' os
      end
  end.

Fixpoint spec_run (cap : nat) (mw : Z) (s : LruSpec) (os : list CacheOp)
  : LruSpec * list (option LookupPhase) :=
  match os with
  | [] => (s, [])
  | o :: os =>
      let '(s', r) := spec_exec cap mw s o in
      let '(s'', rs) := spec_run cap mw s' os in (s'', r :: rs)
  end.

Lemma exec_refines c o :
  cache_wf c ->
  exists c' r, cache_exec c o = Some (c', r) /\ cache_wf c' /\ ic_capacity_ c' = ic_capacity_ c /\
    in_flight_max_wait_ c' = in_flight_max_wait_ c /\
    spec_exec (ic_capacity_ c) (in_flight_max_wait_ c) (abstraction c) o = (abstraction c', r).
Proof.
  intros Hwf. destruct o as [k n n'|k t n2 n3 n4|k e|k]; cbn [cache_exec spec_exec].
  - pose proof (begin_refines c k n n' Hwf) as H. destruct (LookupOrReserve_begin c k n n') as [c' r].
    destruct H as (? & ? & ? & ->). by exists c', (Some r).
  - pose proof (resume_refines c k t n2 n3 n4 Hwf) as H.
    destruct (LookupOrReserve_resume c k t n2 n3 n4) as [c' r].
    destruct H as (? & ? & ? & ->). by exists c', (Some (LpDone r)).
  - unfold spec_store. destruct (string_empty k) eqn:Ek.
    + exists c, None. unfold IdempotencyCache_Store. by rewrite Ek.
    + destruct (Store_view c k e Hwf) as (c' & -> & Hwf' & Hv & Hfl & Hc & Hm).
      { intros ->. done. }
      exists c', None. cbn. unfold abstraction. by rewrite Hv, Hfl.
  - exists (IdempotencyCache_Cancel c k), None. unfold IdempotencyCache_Cancel, spec_cancel.
    by destruct (string_empty k).
Qed.

Lemma run_refines os c :
  cache_wf c ->
  exists c' rs, cache_run c os = Some (c', rs) /\ cache_wf c' /\ ic_capacity_ c' = ic_capacity_ c /\
    spec_run (ic_capacity_ c) (in_flight_max_wait_ c) (abstraction c) os = (abstraction c', rs).
Proof.
  revert c. induction os as [|o os IH]; intros c Hwf; [by exists c, []|].
  destruct (exec_refines c o Hwf) as (c1 & r & E1 & Hwf1 & Hc1 & Hm1 & S1).
  destruct (IH c1 Hwf1) as (c2 & rs & E2 & Hwf2 & Hc2 & S2).
  exists c2, (r :: rs). cbn [cache_run spec_run]. rewrite E1, S1, E2. cbn.
  rewrite <- Hc1, <- Hm1, S2. split_and!; congruence || done.
Qed.

Lemma IdempotencyCache_new_wf cap ttl mw : (0 < cap)%nat -> cache_wf (IdempotencyCache_new cap ttl mw).
Proof.
  intros Hc. unfold cache_wf. cbn. split_and!; try done; try constructor; try lia.
  - intros H. by rewrite lookup_empty in H.
  - intros (n & Hn & _). by inv Hn.
Qed.

(** C14. The list of nodes with its index of iterators is an LRU cache.  For a
    positive capacity, any sequence of lookups, resumed waits, stores and
    cancels on a fresh cache is free of undefined behaviour and returns what the
    reference cache returns (one list, most recent first: a store puts the key
    in front and keeps the [capacity] most recent, a hit moves it to the front,
    an expired entry is removed); the cache never exceeds its capacity, and the
    index holds exactly the keys of the list, each once. *)
Theorem IdempotencyCache_refines (cap : nat) (ttl mw : Z) (os : list CacheOp) :
  (0 < cap)%nat ->
  exists c rs, cache_run (IdempotencyCache_new cap ttl mw) os = Some (c, rs) /\
    spec_run cap mw (mkLruSpec [] ∅) os = (abstraction c, rs) /\
    (length (lru_list_ c) <= cap)%nat /\ NoDup (nd_key <$> lru_list_ c) /\
    (forall k, k ∈ dom (index_ c) <-> k ∈ (lru_view c).*1).
Proof.
  intros Hc. pose proof (IdempotencyCache_new_wf cap ttl mw Hc) as Hwf.
  destruct (run_refines os _ Hwf) as (c & rs & E & Hwf' & Hcap & Hs). exists c, rs.
  destruct Hwf' as (_ & Hkey & _ & Hix & Hlen & _). split_and!; try done; [by rewrite Hcap in Hlen|].
  intros k. rewrite view_keys, elem_of_dom, list_elem_of_fmap. split.
  - intros [it Hit]. apply Hix in Hit as (n & Hn & _ & <-). by exists n.
  - intros (n & -> & Hn). exists (nd_id n). apply Hix. by exists n.
Qed.

Lemma IdempotencyCache_refines_witness :
  exists c rs,
    cache_run (IdempotencyCache_new 1 300 30)
      [CoBegin "a" 0 0; CoStore "a" (mkEntry Status_OK "ra" 100); CoStore "b" (mkEntry Status_OK "rb" 100);
       CoBegin "b" 5 5]%string = Some (c, rs) /\
    (length (lru_list_ c) <= 1)%nat.
Proof.
  destruct (IdempotencyCache_refines 1 300 30
    [CoBegin "a" 0 0; CoStore "a" (mkEntry Status_OK "ra" 100); CoStore "b" (mkEntry Status_OK "rb" 100);
     CoBegin "b" 5 5]%string ltac:(lia)) as (c & rs & H & _ & Hl & _).
  by exists c, rs.
Defined.

(** ** Keys do not interfere *)

Lemma spec_find_cons k k' e v : spec_find k ((k', e) :: v) = if decide (k' = k) then Some e else spec_find k v.
Proof.
  unfold spec_find. cbn [list_find fst]. case_decide; [done|]. by destruct (list_find _ v) as [[i x]|].
Qed.

Lemma spec_find_without k k' v :
  spec_find k (view_without k' v) = if decide (k' = k) then None else spec_find k v.
Proof.
  induction v as [|[kx e] v IH]; [by case_decide|]. unfold view_without in *.
  rewrite filter_cons. cbn [fst]. rewrite spec_find_cons. destruct (decide (kx <> k')) as [Hx|Hx].
  - rewrite spec_find_cons, IH. repeat case_decide; congruence.
  - rewrite IH. assert (kx = k') as -> by (by destruct (decide (kx = k'))). repeat case_decide; congruence.
Qed.

Lemma spec_find_take k n v : spec_find k v = None -> spec_find k (take n v) = None.
Proof.
  revert n. induction v as [|[kx e] v IH]; intros [|n]; try done. cbn [take]. rewrite !spec_find_cons.
  case_decide; [done|]. apply IH.
Qed.

Definition op_key (o : CacheOp) : string :=
  match o with CoBegin k _ _ => k | CoResume k _ _ _ _ => k | CoStore k _ => k | CoCancel k => k end.

Lemma spec_exec_other cap mw s o k :
  op_key o <> k ->
  sp_flight (spec_exec cap mw s o).1 !! k = sp_flight s !! k /\
  (spec_find k (sp_items s) = None -> spec_find k (sp_items (spec_exec cap mw s o).1) = None).
Proof.
  destruct o as [k' n n'|k' t n2 n3 n4|k' e|k']; cbn [op_key spec_exec]; intros Hne.
  - unfold spec_begin. repeat case_match; simplify_eq/=; rewrite ?lookup_insert_ne by done;
      rewrite ?spec_find_cons, ?spec_find_without; repeat case_decide; done.
  - unfold spec_resume. repeat case_match; simplify_eq/=; rewrite ?lookup_insert_ne by done;
      rewrite ?spec_find_cons, ?spec_find_without; repeat case_decide; done.
  - unfold spec_store. destruct (string_empty k'); [done|]. cbn [sp_items sp_flight fst]. split; [by rewrite lookup_delete_ne|].
    intros H. rewrite spec_find_cons, decide_False by done. apply spec_find_take.
    by rewrite spec_find_without, decide_False.
  - unfold spec_cancel. destruct (string_empty k'); [done|]. cbn. by rewrite lookup_delete_ne.
Qed.

(** ** Threads

    A lookup that has to wait parks its thread with its key and deadline; the
    thread can resume when the predicate holds or the deadline has passed. *)

Record CacheThreads := mkCacheThreads { ct_cache : IdempotencyCache; ct_waiting : gmap nat (string * Z) }.

Inductive CacheLabel :=
| ClLookup (th : nat) (k : string) (now now' : Z)
| ClResume (th : nat) (t now2 now3 now4 : Z)
| ClStore (k : string) (e : Entry)
| ClCancel (k : string).

Definition threads_step (st : CacheThreads) (lb : CacheLabel)
  : option (CacheThreads * list (nat * string * LookupResult)) :=
  let '(mkCacheThreads c w) := st in
  match lb with
  | ClLookup th k now now' =>
      match w !! th with
      | Some _ => None
      | None =>
          match LookupOrReserve_begin c k now now' with
          | (c', LpDone r) => Some (mkCacheThreads c' w, [(th, k, r)])
          | (c', LpWait dl) => Some (mkCacheThreads c' (<[th := (k, dl)]> w), [])
          end
      end
  | ClResume th t now2 now3 now4 =>
      match w !! th with
      | None => None
      | Some (k, dl) =>
          if wake_pred c k t || (dl <=? t) then
            let '(c', r) := LookupOrReserve_resume c k t now2 now3 now4 in
            Some (mkCacheThreads c' (delete th w), [(th, k, r)])
          else None
      end
  | ClStore k e => (fun c' => (mkCacheThreads c' w, [])) <$> IdempotencyCache_Store c k e
  | ClCancel k => Some (mkCacheThreads (IdempotencyCache_Cancel c k) w, [])
  end.

Fixpoint threads_run (st : CacheThreads) (ls : list CacheLabel)
  : option (CacheThreads * list (nat * string * LookupResult)) :=
  match ls with
  | [] => Some (st, [])
  | lb :: ls =>
      match threads_step st lb with
      | None => None
      | Some (st', o) => (fun x => (x.1, o ++ x.2)) <$> threads_run st' ls
      end
  end.

(** The readings of the clock lie in [lo, hi). *)
Definition label_clocks (lo hi : Z) (lb : CacheLabel) : Prop :=
  match lb with
  | ClLookup _ _ now now' => lo <= now < hi /\ lo <= now' < hi
  | ClResume _ t now2 now3 now4 => lo <= t < hi /\ lo <= now2 < hi /\ lo <= now3 < hi /\ lo <= now4 < hi
  | _ => True
  end.

Definition label_ends (k : string) (lb : CacheLabel) : Prop :=
  match lb with ClStore k' _ => k' = k | ClCancel k' => k' = k | _ => False end.

(** The reservation of [k] until [R] is in force, and whoever waits for it waits
    for that long, but for waiters of [W], left from an earlier reservation. *)
Definition reserved (W : gmap nat (string * Z)) (k : string) (R : Z) (st : CacheThreads) : Prop :=
  cache_wf (ct_cache st) /\ in_flight_ (ct_cache st) !! k = Some R /\
  spec_find k (lru_view (ct_cache st)) = None /\
  (forall th dl, ct_waiting st !! th = Some (k, dl) -> R <= dl \/ W !! th = Some (k, dl)).

(** A lookup of [k] that returns while [k] is reserved until [R]: a waiter of [W]
    whose own deadline comes first, and it gets a miss. *)
Definition left_over (W : gmap nat (string * Z)) (k : string) (R : Z) (x : nat * string * LookupResult) : Prop :=
  x.1.2 = k -> x.2 = Miss /\ exists dl, W !! x.1.1 = Some (k, dl) /\ dl < R.

Lemma reserved_exec k R c c' r o :
  op_key o <> k -> cache_exec c o = Some (c', r) -> cache_wf c ->
  in_flight_ c !! k = Some R -> spec_find k (lru_view c) = None ->
  cache_wf c' /\ in_flight_ c' !! k = Some R /\ spec_find k (lru_view c') = None.
Proof.
  intros Hne E Hwf Hfl Hf. destruct (exec_refines c o Hwf) as (c1 & r1 & E1 & Hwf1 & _ & _ & S1).
  simplify_eq. destruct (spec_exec_other (ic_capacity_ c) (in_flight_max_wait_ c) (abstraction c) o k Hne) as [H1 H2].
  rewrite S1 in H1, H2. cbn in H1, H2. split_and!; [done|by rewrite H1|by apply H2].
Qed.

Lemma exec_max_wait c o c' r :
  cache_wf c -> cache_exec c o = Some (c', r) -> in_flight_max_wait_ c' = in_flight_max_wait_ c.
Proof. intros Hwf E. destruct (exec_refines c o Hwf) as (? & ? & E' & _ & _ & ? & _). by simplify_eq. Qed.

Lemma begin_waits k R c now now' :
  k <> ""%string -> cache_wf c -> in_flight_ c !! k = Some R -> spec_find k (lru_view c) = None ->
  now < R ->
  LookupOrReserve_begin c k now now' = (c, LpWait (Z.min (now' + in_flight_max_wait_ c) R)).
Proof.
  intros Hk Hwf Hfl Hf Hlt. unfold LookupOrReserve_begin. pose proof (index_find c k Hwf) as Hix.
  destruct (string_empty k) eqn:Ek; [by apply string_empty_spec in Ek|].
  destruct (index_ c !! k); [by destruct Hix as (? & _ & Hix); rewrite Hix in Hf|].
  by rewrite Hfl, (proj2 (Z.leb_gt _ _)) by lia.
Qed.

Lemma not_woken k R c t :
  cache_wf c -> in_flight_ c !! k = Some R -> spec_find k (lru_view c) = None -> t < R ->
  wake_pred c k t = false.
Proof.
  intros Hwf Hfl Hf Hlt. rewrite wake_pred_spec by done. unfold spec_wake.
  cbn [abstraction sp_items sp_flight]. rewrite Hfl, Hf, orb_false_r. by apply Z.leb_gt.
Qed.

Lemma reserved_lookup W k R lo st th k' now now' st' o :
  k <> ""%string -> R <= lo + in_flight_max_wait_ (ct_cache st) ->
  reserved W k R st -> lo <= now < R -> lo <= now' ->
  threads_step st (ClLookup th k' now now') = Some (st', o) ->
  reserved W k R st' /\ Forall (left_over W k R) o.
Proof.
  destruct st as [c w]. intros Hk Hmw (Hwf & Hfl & Hf & Hw) Hn Hn' H. cbn [threads_step ct_cache ct_waiting] in *.
  destruct (w !! th) eqn:Ew; [done|]. destruct (decide (k' = k)) as [->|Hne].
  - rewrite (begin_waits k R) in H by (done || lia). simplify_eq. split; [|constructor].
    split_and!; try done. cbn. intros th' dl Hth'. destruct (decide (th = th')) as [->|Hnth].
    + rewrite lookup_insert_eq in Hth'. simplify_eq. left. lia.
    + rewrite lookup_insert_ne in Hth' by done. by eapply Hw.
  - destruct (LookupOrReserve_begin c k' now now') as [c' ph] eqn:Eb.
    destruct (reserved_exec k R c c' (Some ph) (CoBegin k' now now')) as (H1 & H2 & H3); try done.
    { cbn. by rewrite Eb. }
    destruct ph as [r|dl]; simplify_eq; split; try (by apply Forall_singleton; intros ?); try constructor; try done.
    split_and!; try done. cbn. intros th' dl' Hth'. destruct (decide (th = th')) as [->|Hnth].
    { rewrite lookup_insert_eq in Hth'. by simplify_eq. }
    rewrite lookup_insert_ne in Hth' by done. by eapply Hw.
Qed.

(** A waiter that times out while another's reservation lasts changes nothing. *)
Lemma resume_timed_out k R c t n2 n3 n4 :
  cache_wf c -> in_flight_ c !! k = Some R -> spec_find k (lru_view c) = None -> t < R -> n3 < R ->
  LookupOrReserve_resume c k t n2 n3 n4 = (c, Miss).
Proof.
  intros Hwf Hfl Hf Ht Hn. unfold LookupOrReserve_resume. rewrite (not_woken k R) by done.
  by rewrite Hfl, (proj2 (Z.leb_gt _ _)).
Qed.

Lemma reserved_resume W k R st th t n2 n3 n4 st' o :
  reserved W k R st -> t < R -> n3 < R -> threads_step st (ClResume th t n2 n3 n4) = Some (st', o) ->
  reserved W k R st' /\ Forall (left_over W k R) o.
Proof.
  destruct st as [c w]. intros (Hwf & Hfl & Hf & Hw) Ht Hn3 H. cbn [threads_step ct_cache ct_waiting] in *.
  destruct (w !! th) as [[k' dl]|] eqn:Ew; [|done].
  destruct (wake_pred c k' t || (dl <=? t)) eqn:Ep; [|done].
  assert (Hd : forall c', in_flight_ c' !! k = Some R -> cache_wf c' -> spec_find k (lru_view c') = None ->
    reserved W k R (mkCacheThreads c' (delete th w))).
  { intros c' ? ? ?. split_and!; try done. cbn. intros th' dl' Hth'. apply lookup_delete_Some in Hth' as [_ Hth']. by eapply Hw. }
  destruct (decide (k' = k)) as [->|Hne].
  - rewrite (not_woken k R) in Ep by done. cbn in Ep. b2p.
    rewrite (resume_timed_out k R) in H by done. simplify_eq. split; [by apply Hd|].
    apply Forall_singleton. intros _. split; [done|]. exists dl. destruct (Hw th dl Ew); [lia|split; [done|lia]].
  - destruct (LookupOrReserve_resume c k' t n2 n3 n4) as [c' r] eqn:Er. simplify_eq.
    destruct (reserved_exec k R c c' (Some (LpDone r)) (CoResume k' t n2 n3 n4)) as (H1 & H2 & H3); try done.
    { cbn. by rewrite Er. }
    split; [by apply Hd|by apply Forall_singleton; intros ?].
Qed.

Lemma threads_step_max_wait st lb st' o :
  cache_wf (ct_cache st) -> threads_step st lb = Some (st', o) ->
  in_flight_max_wait_ (ct_cache st') = in_flight_max_wait_ (ct_cache st).
Proof.
  destruct st as [c w]. intros Hwf H. pose proof (exec_max_wait c) as Hm. cbn [ct_cache] in *.
  destruct lb as [th k n n'|th t n2 n3 n4|k e|k]; cbn [threads_step] in H.
  - specialize (Hm (CoBegin k n n')). cbn in Hm. repeat case_match; simplify_eq/=; by eapply Hm.
  - repeat case_match; simplify_eq/=.
    match goal with E : LookupOrReserve_resume _ ?k _ _ _ _ = _ |- _ =>
      eapply (Hm (CoResume k t n2 n3 n4)); [done|]; cbn; by rewrite E end.
  - destruct (IdempotencyCache_Store c k e) as [c'|] eqn:Es; [|done]. simplify_eq/=.
    eapply (Hm (CoStore k e)); [done|]. cbn. by rewrite Es.
  - simplify_eq/=. by eapply (Hm (CoCancel k)).
Qed.

Lemma reserved_step W k R lo st lb st' o :
  k <> ""%string -> R <= lo + in_flight_max_wait_ (ct_cache st) ->
  reserved W k R st -> label_clocks lo R lb -> ~ label_ends k lb ->
  threads_step st lb = Some (st', o) ->
  reserved W k R st' /\ Forall (left_over W k R) o.
Proof.
  intros Hk Hmw Hres Hcl He H. destruct lb as [th k' n n'|th t n2 n3 n4|k' e|k']; cbn in Hcl, He.
  - eapply reserved_lookup; eauto; lia.
  - eapply reserved_resume; eauto; lia.
  - destruct st as [c w]. destruct Hres as (Hwf & Hfl & Hf & Hw). cbn in H, Hwf, Hfl, Hf.
    destruct (IdempotencyCache_Store c k' e) as [c'|] eqn:Es; [|done]. simplify_eq/=.
    destruct (reserved_exec k R c c' None (CoStore k' e)) as (H1 & H2 & H3); try done.
    cbn. by rewrite Es.
  - destruct st as [c w]. destruct Hres as (Hwf & Hfl & Hf & Hw). cbn [threads_step ct_cache] in *. simplify_eq.
    destruct (reserved_exec k R c (IdempotencyCache_Cancel c k') None (CoCancel k')) as (H1 & H2 & H3); try done.
Qed.

Lemma reserved_run W k R lo ls st st' outs :
  k <> ""%string -> R <= lo + in_flight_max_wait_ (ct_cache st) ->
  reserved W k R st -> Forall (label_clocks lo R) ls -> Forall (fun lb => ~ label_ends k lb) ls ->
  threads_run st ls = Some (st', outs) ->
  reserved W k R st' /\ Forall (left_over W k R) outs.
Proof.
  intros Hk Hmw Hres Hcl Hend. revert st outs Hmw Hres.
  induction ls as [|lb ls IH]; intros st outs Hmw Hres H; cbn in H; [by simplify_eq|].
  apply Forall_cons in Hcl as [Hcl1 Hcl]. apply Forall_cons in Hend as [He1 Hend].
  destruct (threads_step st lb) as [[st1 o1]|] eqn:E1; [|done].
  destruct (threads_run st1 ls) as [[st2 o2]|] eqn:E2; [|done]. cbn in H. simplify_eq.
  destruct (reserved_step _ _ _ _ _ _ _ _ Hk Hmw Hres Hcl1 He1 E1) as [Hres1 Ho1].
  destruct (IH Hcl Hend st1 o2) as [Hres2 Ho2]; try done.
  - by rewrite (threads_step_max_wait _ _ _ _ (proj1 Hres) E1).
  - split; [done|by apply Forall_app].
Qed.

Lemma begin_miss_reserves c k now now' c' :
  k <> ""%string -> cache_wf c -> LookupOrReserve_begin c k now now' = (c', LpDone Miss) ->
  cache_wf c' /\ in_flight_ c' !! k = Some (now + in_flight_max_wait_ c) /\ spec_find k (lru_view c') = None.
Proof.
  intros Hk Hwf E. pose proof (begin_refines c k now now' Hwf) as H. rewrite E in H.
  destruct H as (Hwf' & _ & _ & Hs). split; [done|]. unfold spec_begin in Hs.
  destruct (string_empty k) eqn:Ek; [by apply string_empty_spec in Ek|].
  unfold abstraction in Hs. cbn [sp_items sp_flight] in Hs.
  destruct (spec_find k (lru_view c)) as [e|] eqn:Ef;
    [destruct (en_expires_at e <=? now); [|by injection Hs]|];
    (destruct (in_flight_ c !! k) as [u|]; [destruct (u <=? now); [|by injection Hs]|]);
    injection Hs as Hv Hfl; rewrite <- Hv, <- Hfl;
    rewrite ?lookup_insert_eq, ?spec_find_without, ?decide_True by done; done.
Qed.

(** So does a waiter whose miss comes with a new reservation. *)
Lemma resume_miss_reserves c k t n2 n3 n4 c' R :
  cache_wf c -> LookupOrReserve_resume c k t n2 n3 n4 = (c', Miss) ->
  in_flight_ c' !! k = Some R -> in_flight_ c !! k <> Some R ->
  cache_wf c' /\ R = n4 + in_flight_max_wait_ c /\ spec_find k (lru_view c') = None.
Proof.
  intros Hwf E HR Hne. pose proof (resume_refines c k t n2 n3 n4 Hwf) as H. rewrite E in H.
  destruct H as (Hwf' & _ & _ & Hs). split; [done|]. unfold spec_resume, spec_wake, abstraction in Hs.
  cbn [sp_items sp_flight] in Hs. destruct (in_flight_ c !! k) as [u|] eqn:Eu.
  2: { assert (Hfl : in_flight_ c = in_flight_ c').
       { destruct (spec_find k (lru_view c)); [cbn in Hs; destruct (n2 <? en_expires_at _)|]; cbn in Hs; by simplify_eq. }
       rewrite Hfl in Eu. congruence. }
  destruct (spec_find k (lru_view c)) as [e|] eqn:Ef; rewrite ?orb_true_r in Hs.
  - destruct (n2 <? en_expires_at e); [done|]. destruct (u <=? n3); injection Hs as Hv Hfl; rewrite <- Hfl in HR; [|congruence].
    rewrite lookup_insert_eq in HR. injection HR as <-. split; [done|]. by rewrite <- Hv, spec_find_without, decide_True.
  - assert (E2 : (if (u <=? t) || false then @None Entry else None) = None) by (by destruct (_ || _)). rewrite E2 in Hs.
    destruct (u <=? n3); injection Hs as Hv Hfl; rewrite <- Hfl in HR; [|congruence].
    rewrite lookup_insert_eq in HR. injection HR as <-. split; [done|]. by rewrite <- Hv.
Qed.

(** Either way of reserving [k] starts a reservation in force. *)
Lemma step_reserves st0 lb st1 th0 k R :
  k <> ""%string -> cache_wf (ct_cache st0) ->
  threads_step st0 lb = Some (st1, [(th0, k, Miss)]) ->
  in_flight_ (ct_cache st1) !! k = Some R -> in_flight_ (ct_cache st0) !! k <> Some R ->
  reserved (ct_waiting st1) k R st1.
Proof.
  destruct st0 as [c w]. intros Hk Hwf H HR Hne. cbn [ct_cache ct_waiting] in *.
  assert (Hd : cache_wf (ct_cache st1) -> spec_find k (lru_view (ct_cache st1)) = None ->
    reserved (ct_waiting st1) k R st1) by (intros; unfold reserved; auto).
  destruct lb as [th k' n n'|th t n2 n3 n4|k' e|k']; cbn [threads_step] in H.
  - destruct (w !! th); [done|]. destruct (LookupOrReserve_begin c k' n n') as [c' [r|dl]] eqn:Eb; [|done].
    simplify_eq. cbn in *. destruct (begin_miss_reserves _ _ _ _ _ Hk Hwf Eb) as (? & _ & ?). by apply Hd.
  - destruct (w !! th) as [[k' dl]|]; [|done]. destruct (_ || _); [|done].
    destruct (LookupOrReserve_resume c k' t n2 n3 n4) as [c' r] eqn:Er. simplify_eq. cbn in *.
    destruct (resume_miss_reserves _ _ _ _ _ _ _ _ Hwf Er HR Hne) as (? & _ & ?). by apply Hd.
  - by destruct (IdempotencyCache_Store c k' e).
  - done.
Qed.

Lemma resume_after_store c k e c' t n2 n3 n4 :
  k <> ""%string -> cache_wf c -> IdempotencyCache_Store c k e = Some c' -> n2 < en_expires_at e ->
  wake_pred c' k t = true /\ (LookupOrReserve_resume c' k t n2 n3 n4).2 = mkLookupResult kHit e.
Proof.
  intros Hk Hwf Es Hn. destruct (Store_view c k e Hwf Hk) as (c1 & Es1 & Hwf1 & Hv & Hfl & _).
  simplify_eq. assert (spec_find k (lru_view c') = Some e) as Hf.
  { by rewrite Hv, spec_find_cons, decide_True. }
  assert (wake_pred c' k t = true) as Hwk.
  { rewrite wake_pred_spec by done. unfold spec_wake. cbn [abstraction sp_items]. by rewrite Hf, orb_true_r. }
  split; [done|]. unfold LookupOrReserve_resume. rewrite Hwk. pose proof (index_find c' k Hwf1) as Hix.
  destruct (index_ c' !! k) as [it|]; [|congruence]. destruct Hix as (n & -> & Hix).
  assert (nd_entry n = e) as -> by congruence. by rewrite (proj2 (Z.ltb_lt _ _)).
Qed.

(** C2. One execution per reservation.  Take any step by which a thread reserves key [k] until time [R]: a
    lookup, or a waiter that takes over a reservation that ran out.  As long as the executor neither stores nor
    cancels and [R] does not pass, whatever other threads do, no lookup of [k] that starts after that step
    returns: all of them wait.  The only lookups of [k] that return are those that were waiting already with an
    earlier deadline, and each of them gets a miss.  When the executor stores its entry, every waiter can
    resume and gets that entry (if it has not expired by then). *)
Theorem single_flight (st0 st1 st2 : CacheThreads) (lb : CacheLabel) (th0 : nat) (k : string) (R : Z)
    (ls : list CacheLabel) (outs : list (nat * string * LookupResult)) :
  k <> ""%string -> cache_wf (ct_cache st0) ->
  threads_step st0 lb = Some (st1, [(th0, k, Miss)]) ->
  in_flight_ (ct_cache st1) !! k = Some R -> in_flight_ (ct_cache st0) !! k <> Some R ->
  Forall (label_clocks (R - in_flight_max_wait_ (ct_cache st0)) R) ls ->
  Forall (fun lb => ~ label_ends k lb) ls ->
  threads_run st1 ls = Some (st2, outs) ->
  Forall (fun x => x.1.2 = k -> x.2 = Miss /\ exists dl, ct_waiting st1 !! x.1.1 = Some (k, dl) /\ dl < R) outs /\
  (forall e c3 th dl t n2 n3 n4, IdempotencyCache_Store (ct_cache st2) k e = Some c3 ->
     ct_waiting st2 !! th = Some (k, dl) -> n2 < en_expires_at e ->
     exists st4, threads_step (mkCacheThreads c3 (ct_waiting st2)) (ClResume th t n2 n3 n4)
                 = Some (st4, [(th, k, mkLookupResult kHit e)])).
Proof.
  intros Hk Hwf Hl HR Hne Hcl Hend Hrun.
  pose proof (step_reserves _ _ _ _ _ _ Hk Hwf Hl HR Hne) as Hres.
  destruct (reserved_run (ct_waiting st1) k R (R - in_flight_max_wait_ (ct_cache st0)) ls st1 st2 outs Hk
    ltac:(rewrite (threads_step_max_wait _ _ _ _ Hwf Hl); lia) Hres Hcl Hend Hrun) as [Hres2 Ho].
  split; [done|]. intros e c3 th dl t n2 n3 n4 Es Hw Hn.
  destruct (resume_after_store _ _ _ _ t n2 n3 n4 Hk (proj1 Hres2) Es Hn) as [Hwk Hr].
  cbn [threads_step]. rewrite Hw, Hwk. cbn [orb].
  destruct (LookupOrReserve_resume c3 k t n2 n3 n4) as [c4 r]. cbn in Hr. subst r. by eexists.
Qed.

Definition flight_demo : CacheThreads := mkCacheThreads (IdempotencyCache_new 4 300 30) ∅.
Definition flight_demo_labels : list CacheLabel :=
  [ClLookup 1 "k" 5 5; ClLookup 2 "other" 6 6; ClStore "other" (mkEntry Status_OK "x" 100); ClLookup 3 "k" 7 7]%string.
Definition flight_demo_1 : CacheThreads := from_option fst flight_demo (threads_step flight_demo (ClLookup 0 "k"%string 0 0)).
Definition flight_demo_2 := threads_run flight_demo_1 flight_demo_labels.

Lemma single_flight_witness :
  exists st2 outs, flight_demo_2 = Some (st2, outs) /\ Forall (fun x => x.1.2 <> "k"%string) outs.
Proof.
  destruct flight_demo_2 as [[st2 outs]|] eqn:E; [|by vm_compute in E].
  exists st2, outs. split; [done|].
  destruct (single_flight flight_demo flight_demo_1 st2 (ClLookup 0 "k"%string 0 0) 0 "k" 30 flight_demo_labels outs) as [H _].
  - done.
  - apply IdempotencyCache_new_wf. lia.
  - reflexivity.
  - reflexivity.
  - done.
  - repeat (apply Forall_cons; split; [cbn; lia|]); constructor.
  - repeat (apply Forall_cons; split; [cbn; naive_solver|]); constructor.
  - exact E.
  - eapply Forall_impl; [exact H|]. intros x Hx Ek. destruct (Hx Ek) as [_ (dl & Hd & _)]. vm_compute in Hd. discriminate.
Defined.

(** ** Keys *)

Fixpoint string_has (c : ascii) (s : string) : bool :=
  match s with EmptyString => false | String a s => Ascii.eqb a c || string_has c s end.

Lemma split_at_separator c (p q p' q' : string) :
  string_has c p = false -> string_has c p' = false ->
  p +:+ String c q = p' +:+ String c q' -> p = p' /\ q = q'.
Proof.
  revert p'. induction p as [|a p IH]; intros [|a' p'] Hp Hp' E;
    rewrite ?string_app_cons, ?string_app_nil_l in E; simpl in Hp, Hp'.
  - by simplify_eq.
  - injection E as <- _. by rewrite Ascii.eqb_refl in Hp'.
  - injection E as -> _. by rewrite Ascii.eqb_refl in Hp.
  - injection E as -> E. apply orb_false_elim in Hp as [_ Hp]. apply orb_false_elim in Hp' as [_ Hp'].
    by destruct (IH p' Hp Hp' E) as [-> ->].
Qed.

(** Keys of different requests differ: for methods and tenants without the
    separator byte, two non-empty cache keys are equal only for the same method,
    tenant and request id; an empty key is exactly an empty request id. *)
Theorem MakeIdempotencyKey_injective (m t r m' t' r' : string) :
  string_has key_separator m = false -> string_has key_separator m' = false ->
  string_has key_separator t = false -> string_has key_separator t' = false ->
  (MakeIdempotencyKey m t r = ""%string <-> r = ""%string) /\
  (r <> ""%string -> MakeIdempotencyKey m t r = MakeIdempotencyKey m' t' r' -> m = m' /\ t = t' /\ r = r').
Proof.
  intros Hm Hm' Ht Ht'. unfold MakeIdempotencyKey. split.
  - rewrite <- (string_empty_spec r). destruct (string_empty r); [done|].
    split; [|done]. by destruct m.
  - intros Hr E. destruct (string_empty r) eqn:Er; [by apply string_empty_spec in Er|].
    destruct (string_empty r') eqn:Er'; [by destruct m|].
    destruct (split_at_separator _ _ _ _ _ Hm Hm' E) as [-> E2].
    by destruct (split_at_separator _ _ _ _ _ Ht Ht' E2) as [-> ->].
Qed.

Lemma MakeIdempotencyKey_injective_witness :
  MakeIdempotencyKey "Hangup" "a" "b" <> ""%string /\
  "Hangup"%string = "Hangup"%string /\ "a"%string = "a"%string /\ "b"%string = "b"%string.
Proof.
  destruct (MakeIdempotencyKey_injective "Hangup" "a" "b" "Hangup" "a" "b"
              eq_refl eq_refl eq_refl eq_refl) as [H1 H2].
  split; [intros H; by apply H1 in H|by apply H2].
Defined.

(** ** Retention *)

Definition at_depth (k : string) (e : Entry) (v : list (string * Entry)) (d : nat) : Prop :=
  exists pre post, v = pre ++ (k, e) :: post /\ (length pre <= d)%nat /\ Forall (fun x => x.1 <> k) pre.

Lemma at_depth_find k e v d : at_depth k e v d -> spec_find k v = Some e.
Proof.
  intros (pre & post & -> & _ & Hpre). induction Hpre as [|[k' e'] pre Hk Hpre IH]; cbn [app].
  - by rewrite spec_find_cons, decide_True.
  - by rewrite spec_find_cons, decide_False.
Qed.

Lemma at_depth_without k k' e v d : k' <> k -> at_depth k e v d -> at_depth k e (view_without k' v) d.
Proof.
  intros Hne (pre & post & -> & Hd & Hpre). exists (view_without k' pre), (view_without k' post).
  unfold view_without. rewrite filter_app, filter_cons_True by (cbn; congruence). split_and!; [done| |].
  - etrans; [apply length_filter_le|done].
  - by apply Forall_filter_keep.
Qed.

Lemma at_depth_cons k k' e e' v d : k' <> k -> at_depth k e v d -> at_depth k e ((k', e') :: v) (S d).
Proof.
  intros Hne (pre & post & -> & Hd & Hpre). exists ((k', e') :: pre), post.
  split_and!; [done|simpl; lia|by constructor].
Qed.

Lemma at_depth_take k e v d n : (d < n)%nat -> at_depth k e v d -> at_depth k e (take n v) d.
Proof.
  intros Hlt (pre & post & -> & Hd & Hpre). exists pre, (take (n - S (length pre)) post).
  split_and!; [|done|done]. rewrite take_app_ge by lia. f_equal.
  replace (n - length pre)%nat with (S (n - S (length pre))) by lia. done.
Qed.

Lemma at_depth_mono k e v d d' : (d <= d')%nat -> at_depth k e v d -> at_depth k e v d'.
Proof. intros Hle (pre & post & -> & Hd & Hpre). exists pre, post. split_and!; [done|lia|done]. Qed.

Lemma spec_exec_depth cap mw s o k e d :
  op_key o <> k -> (S d < cap)%nat -> at_depth k e (sp_items s) d ->
  at_depth k e (sp_items (spec_exec cap mw s o).1) (S d).
Proof.
  intros Hne Hlt Hd.
  assert (at_depth k e (sp_items s) (S d)) as Hd1 by (eapply at_depth_mono; [|exact Hd]; lia).
  pose proof (at_depth_without k (op_key o) e _ _ Hne Hd) as Hw.
  assert (at_depth k e (view_without (op_key o) (sp_items s)) (S d)) as Hw1
    by (eapply at_depth_mono; [|exact Hw]; lia).
  assert (forall e', at_depth k e ((op_key o, e') :: view_without (op_key o) (sp_items s)) (S d)) as Hc
    by (intros; by apply at_depth_cons).
  destruct o as [k' n n'|k' t n2 n3 n4|k' e'|k']; cbn [op_key spec_exec] in *.
  - unfold spec_begin. repeat case_match; simplify_eq; cbn [sp_items fst]; auto.
  - unfold spec_resume. repeat case_match; simplify_eq; cbn [sp_items fst]; auto.
  - unfold spec_store. destruct (string_empty k'); [done|]. cbn [sp_items fst].
    apply at_depth_cons; [done|]. by apply at_depth_take; [lia|].
  - unfold spec_cancel. by destruct (string_empty k').
Qed.

Lemma spec_run_depth cap mw os s k e d :
  Forall (fun o => op_key o <> k) os -> (d + length os < cap)%nat -> at_depth k e (sp_items s) d ->
  at_depth k e (sp_items (spec_run cap mw s os).1) (d + length os).
Proof.
  intros Hos. revert s d. induction Hos as [|o os Ho Hos IH]; intros s d Hlt Hd; cbn [spec_run length].
  { by rewrite Nat.add_0_r. }
  pose proof (spec_exec_depth cap mw s o k e d Ho ltac:(simpl in Hlt; lia) Hd) as Hd'.
  destruct (spec_exec cap mw s o) as [s' r]. cbn [fst] in Hd'.
  specialize (IH s' (S d) ltac:(simpl in Hlt; lia) Hd'). destruct (spec_run cap mw s' os) as [s'' rs].
  cbn [fst] in *. by rewrite <- Nat.add_succ_comm.
Qed.

Lemma retained_hit (c c1 c2 : IdempotencyCache) (k : string) (e : Entry) (os : list CacheOp)
    (rs : list (option LookupPhase)) (now now' : Z) :
  k <> ""%string -> cache_wf c -> IdempotencyCache_Store c k e = Some c1 ->
  Forall (fun o => op_key o <> k) os -> (length os < ic_capacity_ c)%nat ->
  cache_run c1 os = Some (c2, rs) -> now < en_expires_at e ->
  exists c3, LookupOrReserve_begin c2 k now now' = (c3, LpDone (mkLookupResult kHit e)) /\
    in_flight_ c3 = in_flight_ c2.
Proof.
  intros Hk Hwf Es Hos Hlen Hrun Hnow.
  destruct (Store_view c k e Hwf Hk) as (c1' & Es' & Hwf1 & Hv & _ & Hcap & Hm). simplify_eq.
  destruct (run_refines os c1 Hwf1) as (c2' & rs' & Hrun' & Hwf2 & _ & Hs). simplify_eq.
  assert (at_depth k e (lru_view c2) (length os)) as Hd.
  { change (lru_view c2) with (sp_items (abstraction c2)).
    pose proof (spec_run_depth (ic_capacity_ c1) (in_flight_max_wait_ c1) os (abstraction c1) k e 0 Hos
      ltac:(rewrite Hcap; simpl; lia)) as Hd.
    rewrite Hs in Hd. apply Hd. cbn [sp_items abstraction]. rewrite Hv. by eexists [], _. }
  apply at_depth_find in Hd. unfold LookupOrReserve_begin. pose proof (index_find c2 k Hwf2) as Hix.
  destruct (string_empty k) eqn:Ek; [by apply string_empty_spec in Ek|].
  destruct (index_ c2 !! k) as [it|] eqn:Ei; [|congruence].
  destruct (splice_key _ _ _ Hwf2 Ei) as (n & Hat & _ & _ & _ & _ & Hfl & _).
  destruct Hix as (n' & Hat' & Hix). rewrite Hat in Hat' |- *. simplify_eq.
  rewrite (proj2 (Z.leb_gt _ _)) by done. by exists (splice_front c2 it).
Qed.

(** Retention.  After an entry is stored, fewer than [capacity] further
    operations on other keys (of any kind) cannot evict it: a lookup before its
    expiry is a hit that returns it, and leaves the cache's reservations alone. *)
Theorem stored_entry_retained (c c1 c2 : IdempotencyCache) (k : string) (e : Entry) (os : list CacheOp)
    (rs : list (option LookupPhase)) (now now' : Z) :
  k <> ""%string -> cache_wf c -> IdempotencyCache_Store c k e = Some c1 ->
  Forall (fun o => op_key o <> k) os -> (length os < ic_capacity_ c)%nat ->
  cache_run c1 os = Some (c2, rs) -> now < en_expires_at e ->
  exists c3, LookupOrReserve_begin c2 k now now' = (c3, LpDone (mkLookupResult kHit e)) /\
    in_flight_ c3 = in_flight_ c2.
Proof. intros. by eapply retained_hit. Qed.

Lemma stored_entry_retained_witness :
  exists c3, LookupOrReserve_begin
    (from_option id (IdempotencyCache_new 2 9 9)
       (fst <$> cache_run (from_option id (IdempotencyCache_new 2 9 9)
          (IdempotencyCache_Store (IdempotencyCache_new 2 9 9) "a" (mkEntry Status_OK "r" 50)))
          [CoStore "b" (mkEntry Status_OK "s" 60)]%string)) "a" 10 10
    = (c3, LpDone (mkLookupResult kHit (mkEntry Status_OK "r" 50))).
Proof.
  destruct (stored_entry_retained (IdempotencyCache_new 2 9 9)
    (from_option id (IdempotencyCache_new 2 9 9)
       (IdempotencyCache_Store (IdempotencyCache_new 2 9 9) "a" (mkEntry Status_OK "r" 50)))
    (from_option id (IdempotencyCache_new 2 9 9)
       (fst <$> cache_run (from_option id (IdempotencyCache_new 2 9 9)
          (IdempotencyCache_Store (IdempotencyCache_new 2 9 9) "a" (mkEntry Status_OK "r" 50)))
          [CoStore "b" (mkEntry Status_OK "s" 60)]%string))
    "a" (mkEntry Status_OK "r" 50) [CoStore "b" (mkEntry Status_OK "s" 60)]%string [None] 10 10)
    as (c3 & H & _).
  - done.
  - apply IdempotencyCache_new_wf. lia.
  - reflexivity.
  - by repeat constructor.
  - simpl. lia.
  - reflexivity.
  - simpl. lia.
  - by exists c3.
Defined.

(** The header's promise that a miss comes with a reservation does not hold
    for a waiter: woken by a cancel, two waiters of one key both get a miss and
    neither holds a reservation, so both execute. *)
Theorem cancelled_waiters_both_execute :
  exists st outs,
    threads_run flight_demo
      [ClLookup 0 "k" 0 0; ClLookup 1 "k" 1 1; ClLookup 2 "k" 2 2; ClCancel "k";
       ClResume 1 3 3 3 3; ClResume 2 3 3 3 3]%string = Some (st, outs) /\
    outs = [(0%nat, "k", Miss); (1%nat, "k", Miss); (2%nat, "k", Miss)]%string /\
    in_flight_ (ct_cache st) !! "k"%string = None.
Proof. eexists _, _. split; [reflexivity|]. by vm_compute. Qed.

(** A reservation that runs out is taken over by one waiter, and the others, whose
    deadline it was, time out next to it: both execute while the new reservation
    lasts. *)
Example timed_out_waiters_both_execute :
  exists st,
    threads_run flight_demo
      [ClLookup 0 "k" 0 0; ClLookup 1 "k" 1 1; ClLookup 2 "k" 2 2; ClResume 1 30 30 30 30; ClResume 2 31 31 31 31]%string
    = Some (st, [(0%nat, "k", Miss); (1%nat, "k", Miss); (2%nat, "k", Miss)]%string) /\
    in_flight_ (ct_cache st) !! "k"%string = Some 60.
Proof. eexists. split; [reflexivity|]. by vm_compute. Qed.

(** ** The handlers' wrapper *)

Section RunIdempotent.
Context {Response World : Type}.
Context (SerializeToString : Response -> option string) (ParseFromString : string -> option Response).

(** The call waits for another executor of the key, reaches undefined
    behaviour, or returns. *)
Inductive RunOutcome :=
| RunWaits
| RunUndefined
| RunReturns (cache : option IdempotencyCache) (st : Status) (r : Response) (w : World).

(** [execute] acts on the world and fills the response; [cache] is [None] for a
    null pointer, [resp] false for a null response; [now] and [now'] are the
    clock at the lookup, [later] at the store. *)
Definition RunIdempotent (cache : option IdempotencyCache) (method tenant_id request_id : string)
    (resp : bool) (execute : World -> Status * Response * World) (now now' later : Z) (w : World)
  : RunOutcome :=
  let key := MakeIdempotencyKey method tenant_id request_id in
  match cache with
  | Some c =>
      if string_empty key || negb resp then
        let '(st, r, w') := execute w in RunReturns (Some c) st r w'
      else
        match LookupOrReserve_begin c key now now' with
        | (c, LpWait _) => RunWaits
        | (c, LpDone res) =>
            let run :=
              let '(st, r, w') := execute w in
              match SerializeToString r with
              | None => RunReturns (Some (IdempotencyCache_Cancel c key)) st r w'
              | Some bytes =>
                  match IdempotencyCache_Store c key (mkEntry st bytes (later + ttl_ c)) with
                  | None => RunUndefined
                  | Some c => RunReturns (Some c) st r w'
                  end
              end in
            match lr_state res with
            | kHit =>
                match ParseFromString (en_serialized_response (lr_entry res)) with
                | Some r => RunReturns (Some c) (en_status (lr_entry res)) r w
                | None => run
                end
            | _ => run
            end
        end
  | None => let '(st, r, w') := execute w in RunReturns None st r w'
  end.

(** Protobuf parses what it serialised. *)
Definition proto_roundtrip : Prop :=
  forall r bytes, SerializeToString r = Some bytes -> ParseFromString bytes = Some r.

(** A retried request executes once.  On a consistent cache with a positive
    time to live, where the key is neither cached nor in flight, the first call
    runs [execute] and returns its status and response; after any fewer than
    [capacity] operations on other keys, a second call with the same method,
    tenant and request id before the entry expires returns the same status and
    response and leaves the world as it is. *)
Theorem RunIdempotent_once (c c1 c2 : IdempotencyCache) (m t r : string)
    (execute execute2 : World -> Status * Response * World) (now now' later now2 now2' later2 : Z)
    (w w1 w2 : World) (st : Status) (resp : Response) (bytes : string) (os : list CacheOp)
    (rs : list (option LookupPhase)) :
  proto_roundtrip -> cache_wf c -> r <> ""%string ->
  let key := MakeIdempotencyKey m t r in
  index_ c !! key = None -> in_flight_ c !! key = None ->
  execute w = (st, resp, w1) -> SerializeToString resp = Some bytes ->
  RunIdempotent (Some c) m t r true execute now now' later w = RunReturns (Some c1) st resp w1 ->
  Forall (fun o => op_key o <> key) os -> (length os < ic_capacity_ c)%nat ->
  cache_run c1 os = Some (c2, rs) -> now2 < later + ttl_ c ->
  exists c3, RunIdempotent (Some c2) m t r true execute2 now2 now2' later2 w2
             = RunReturns (Some c3) st resp w2.
Proof.
  intros Hrt Hwf Hr key Hix Hfl Hex Hser Hrun Hos Hlen Hcr Hnow.
  assert (key <> ""%string) as Hk.
  { unfold key, MakeIdempotencyKey. destruct (string_empty r) eqn:E; [by apply string_empty_spec in E|by destruct m]. }
  assert (string_empty key = false) as Hke by (destruct (string_empty key) eqn:E; [by apply string_empty_spec in E|done]).
  unfold RunIdempotent in *. fold key in Hrun |- *. rewrite Hke in *. cbn [orb negb] in *.
  pose proof (begin_refines c key now now' Hwf) as Hb.
  unfold LookupOrReserve_begin in Hrun, Hb. rewrite Hke, Hix, Hfl in Hrun, Hb. destruct Hb as (Hwf0 & Hcap0 & _ & _).
  cbn [lr_state Miss] in Hrun. rewrite Hex, Hser in Hrun.
  set (e := mkEntry _ _ _) in Hrun. destruct (IdempotencyCache_Store _ key e) as [c1'|] eqn:Es; [|done].
  injection Hrun as <-. rewrite <- Hcap0 in Hlen.
  pose proof (retained_hit _ _ _ _ _ _ _ now2 now2' Hk Hwf0 Es Hos Hlen Hcr ltac:(simpl; done)) as (c3 & Hb & _).
  rewrite Hb. cbn [lr_state lr_entry en_serialized_response en_status e]. rewrite (Hrt _ _ Hser). by exists c3.
Qed.
End RunIdempotent.

Definition once_demo_execute (w : nat) : Status * string * nat := (Status_OK, "done"%string, S w).

Definition once_demo_cache : IdempotencyCache :=
  match RunIdempotent Some Some (Some (IdempotencyCache_new 2 9 9)) "Hangup" "t" "r" true
          once_demo_execute 0 0 1 0%nat with
  | RunReturns (Some c) _ _ _ => c
  | _ => IdempotencyCache_new 2 9 9
  end.

Lemma RunIdempotent_once_witness :
  exists c3, RunIdempotent Some Some (Some once_demo_cache) "Hangup" "t" "r" true once_demo_execute 5 5 5 7%nat
             = RunReturns (Some c3) Status_OK "done"%string 7%nat.
Proof.
  apply (RunIdempotent_once Some Some (IdempotencyCache_new 2 9 9) once_demo_cache once_demo_cache
    "Hangup" "t" "r" once_demo_execute once_demo_execute 0 0 1 5 5 5 0%nat 1%nat 7%nat Status_OK "done"
    "done" [] []).
  - intros r bytes [= ->]. reflexivity.
  - apply IdempotencyCache_new_wf. lia.
  - done.
  - reflexivity.
  - reflexivity.
  - reflexivity.
  - reflexivity.
  - reflexivity.
  - constructor.
  - simpl. lia.
  - reflexivity.
  - simpl. lia.
Defined.
