(* ===== verification/AudioFrame.v ===== *)
(** * PCM samples and audio frames

    [src/media/audio_frame.cc], [include/osw/media/audio_frame.h] and the
    little-endian helpers of [src/media/stereo_pairer.cc] and
    [src/media/recording_relay.cc].  A sample is an [int16_t], a [Z] in
    [-2^15, 2^15); a byte is a [Z] in [0, 256).  The generated protobuf message
    is a record of its fields; an enumerator of an open proto3 enum is an
    [int32_t]. *)

From S2P Require Import Prelude.

Definition int16_range (s : Z) : Prop := - 2 ^ 15 <= s < 2 ^ 15.
Definition byte_range (b : Z) : Prop := 0 <= b < 2 ^ 8.

(** ** Little-endian samples *)

(** The two bytes [AppendInt16Le] appends. *)
Definition AppendInt16Le (out : list Z) (sample : Z) : list Z :=
  let value := u16 sample in
  out ++ [Z.land value 255] ++ [Z.land (Z.shiftr value 8) 255].

(** The 16-bit value of two adjacent bytes. *)
Definition int16_of_le (lo hi : Z) : Z :=
  i16_of_u16 (Z.lor lo (u16 (Z.shiftl hi 8))).

(** [bytes[offset]] and [bytes[offset + 1]]; [None] when out of bounds. *)
Definition ReadInt16Le (bytes : list Z) (sample_index : nat) : option Z :=
  let offset := (sample_index * 2)%nat in
  lo ← bytes !! offset; hi ← bytes !! (offset + 1)%nat; Some (int16_of_le lo hi).

(** The object representation of an [int16_t] array, read as bytes
    ([reinterpret_cast<const char*>]) and written by [memcpy]. *)
Definition bytes_of_samples (l : list Z) : list Z := foldl AppendInt16Le [] l.

Fixpoint samples_of_bytes (l : list Z) : list Z :=
  match l with
  | lo :: hi :: l' => int16_of_le lo hi :: samples_of_bytes l'
  | _ => []
  end.

(** ** The frame *)

Record AudioFrame := mkAudioFrame {
  samples_ : list Z;
  sample_rate_hz_ : Z;
  channels_ : Z;
  seq_ : Z;
  timestamp_samples_ : Z;
  channel_ : Z;
  channel_uuid_ : string }.

#[export] Instance AudioFrame_eq_dec : EqDecision AudioFrame.
Proof. solve_decision. Defined.

(** The fields of the generated message [open_switch.media.v1.AudioFrame]. *)
Record ProtoAudioFrame := mkProtoAudioFrame {
  p_seq : Z;
  p_timestamp_samples : Z;
  p_duration_samples : Z;
  p_payload : list Z;
  p_channel : Z;
  p_channel_uuid : string }.

Definition sample_count (f : AudioFrame) : Z := Z.of_nat (length (samples_ f)).

Definition duration_samples (f : AudioFrame) : Z :=
  if 0 <? channels_ f then u32 (sample_count f / channels_ f) else 0.

Definition duration_ms (f : AudioFrame) : Z :=
  if (sample_rate_hz_ f =? 0) || (channels_ f =? 0) then 0
  else u32 ((duration_samples f *u64 1000) / sample_rate_hz_ f).

(** [std::vector<std::int16_t>::max_size()]; a longer vector throws, and the
    function is [noexcept], so the process terminates. *)
Definition kVectorMax : Z := 2 ^ 62 - 1.

Inductive FromProtoResult := Nullopt | Terminates | Frame (f : AudioFrame).

Definition FromProto (proto : ProtoAudioFrame) (sample_rate_hz channels : Z) : FromProtoResult :=
  let expected_bytes := (p_duration_samples proto *u64 channels) *u64 2 in
  if negb (Z.of_nat (length (p_payload proto)) =? expected_bytes) then Nullopt
  else
    let total_samples := p_duration_samples proto *u64 channels in
    if kVectorMax <? total_samples then Terminates
    else Frame (mkAudioFrame (samples_of_bytes (p_payload proto)) sample_rate_hz channels
                  (p_seq proto) (p_timestamp_samples proto) (u32 (p_channel proto))
                  (p_channel_uuid proto)).

Definition ToProto (f : AudioFrame) : ProtoAudioFrame :=
  mkProtoAudioFrame (seq_ f) (timestamp_samples_ f) (duration_samples f)
    (bytes_of_samples (samples_ f)) (i32 (channel_ f)) (channel_uuid_ f).

(** ** Lemmas on samples *)

Lemma int16_of_le_bytes s :
  int16_range s -> int16_of_le (Z.land (u16 s) 255) (Z.land (Z.shiftr (u16 s) 8) 255) = s.
Proof.
  unfold int16_range. intros H. unfold int16_of_le, i16_of_u16, u16.
  change 255 with (Z.ones 8). rewrite !Z.land_ones, Z.shiftr_div_pow2 by lia.
  assert (0 <= s mod 2 ^ 16 < 2 ^ 16) as Hr by (apply Z.mod_pos_bound; lia).
  set (v := s mod 2 ^ 16) in *.
  rewrite (Z.mod_small (v / 2 ^ 8)) by (split; [apply Z.div_pos|apply Z.div_lt_upper_bound]; lia).
  rewrite (Z.shiftl_mul_pow2), (Z.mod_small (v / 2 ^ 8 * 2 ^ 8)) by
    (try pose proof (Z.div_mod v (2 ^ 8)); try pose proof (Z.mod_pos_bound v (2 ^ 8)); lia).
  rewrite <- Z.shiftl_mul_pow2, lor_shiftl_add by (try apply Z.mod_pos_bound; lia).
  assert (v mod 2 ^ 8 + v / 2 ^ 8 * 2 ^ 8 = v) as -> by
    (pose proof (Z.div_mod v (2 ^ 8)); lia).
  unfold v. destruct (Z.neg_nonneg_cases s) as [Hneg|Hpos].
  - assert (s mod 2 ^ 16 = s + 2 ^ 16) as Hm.
    { symmetry. apply Z.mod_unique_pos with (q := -1); lia. }
    rewrite Hm. case_test; lia.
  - rewrite Z.mod_small by lia. case_test; lia.
Qed.

Lemma AppendInt16Le_of_le lo hi out :
  byte_range lo -> byte_range hi -> AppendInt16Le out (int16_of_le lo hi) = out ++ [lo; hi].
Proof.
  unfold byte_range. intros Hl Hh. unfold AppendInt16Le, int16_of_le.
  rewrite (u16_small (Z.shiftl hi 8)) by (rewrite Z.shiftl_mul_pow2 by lia; lia).
  rewrite lor_shiftl_add by lia.
  assert (u16 (i16_of_u16 (lo + hi * 2 ^ 8)) = lo + hi * 2 ^ 8) as ->.
  { unfold i16_of_u16, u16. case_test; [by rewrite Z.mod_small by lia|].
    symmetry. apply Z.mod_unique_pos with (q := -1); lia. }
  change 255 with (Z.ones 8). rewrite !Z.land_ones, Z.shiftr_div_pow2 by lia.
  rewrite Z.mod_add, Z.div_add, (Z.div_small lo), (Z.mod_small lo) by lia.
  by rewrite Z.mod_small by lia.
Qed.

Lemma foldl_AppendInt16Le l out : foldl AppendInt16Le out l = out ++ bytes_of_samples l.
Proof.
  unfold bytes_of_samples. revert out. induction l as [|s l IH]; intros out; simpl.
  { by rewrite app_nil_r. }
  rewrite IH, (IH (AppendInt16Le [] s)). unfold AppendInt16Le. by rewrite <- !app_assoc.
Qed.

Lemma bytes_of_samples_cons s l :
  bytes_of_samples (s :: l) =
    Z.land (u16 s) 255 :: Z.land (Z.shiftr (u16 s) 8) 255 :: bytes_of_samples l.
Proof. unfold bytes_of_samples at 1. simpl. by rewrite foldl_AppendInt16Le. Qed.

Lemma bytes_of_samples_length l : length (bytes_of_samples l) = (2 * length l)%nat.
Proof. induction l as [|s l IH]; [done|]. rewrite bytes_of_samples_cons. simpl. lia. Qed.

Lemma samples_of_bytes_of_samples l :
  Forall int16_range l -> samples_of_bytes (bytes_of_samples l) = l.
Proof.
  induction 1 as [|s l Hs _ IH]; [done|].
  rewrite bytes_of_samples_cons. simpl. by rewrite int16_of_le_bytes, IH.
Qed.

(** Two elements at a time. *)
Lemma pairs_ind {A} (P : list A -> Prop) :
  P [] -> (forall a, P [a]) -> (forall a b l, P l -> P (a :: b :: l)) -> forall l, P l.
Proof.
  intros H0 H1 H2 l. assert (P l /\ forall a, P (a :: l)) as [? _]; [|done].
  induction l as [|b l [IH IH']]; auto.
Qed.

Lemma samples_of_bytes_length l : length (samples_of_bytes l) = (length l / 2)%nat.
Proof.
  induction l as [|a|a b l IH] using pairs_ind; [done..|]. cbn [samples_of_bytes length].
  rewrite IH. change (S (S (length l))) with (2 + length l)%nat.
  replace (2 + length l)%nat with (length l + 1 * 2)%nat by lia.
  rewrite Nat.div_add by lia. lia.
Qed.

Lemma bytes_of_samples_of_bytes l :
  Forall byte_range l -> Nat.Even (length l) -> bytes_of_samples (samples_of_bytes l) = l.
Proof.
  induction l as [|a|a b l IH] using pairs_ind; intros Hf He; [done| |].
  - destruct He as [k Hk]. simpl in Hk. lia.
  - inversion Hf as [|?? Ha Hf']; subst. inversion Hf' as [|?? Hb Hf'']; subst.
    cbn [samples_of_bytes]. unfold bytes_of_samples. cbn [foldl].
    rewrite AppendInt16Le_of_le by done. rewrite foldl_AppendInt16Le. cbn. do 2 f_equal.
    apply IH; [done|]. destruct He as [k Hk]. exists (k - 1)%nat. simpl in Hk. lia.
Qed.

(** The decoder of the recording relay reads back what was appended. *)
Lemma ReadInt16Le_bytes l i :
  Forall int16_range l -> ReadInt16Le (bytes_of_samples l) i = l !! i.
Proof.
  intros Hf. revert i. induction Hf as [|s l Hs Hf IH]; intros i; [done|].
  rewrite bytes_of_samples_cons. destruct i as [|i].
  - unfold ReadInt16Le. cbn -[int16_of_le u16 Z.land Z.shiftr]. by rewrite int16_of_le_bytes.
  - cbn [lookup list_lookup]. rewrite <- IH. unfold ReadInt16Le.
    replace (S i * 2)%nat with (S (S (i * 2))) by lia. done.
Qed.

(** ** The wire round trip *)

(** A frame whose buffer is a whole number of interleaved sample groups. *)
Definition AudioFrame_wf (f : AudioFrame) : Prop :=
  Forall int16_range (samples_ f) /\
  0 < channels_ f < 2 ^ 32 /\
  (exists d : Z, 0 <= d < 2 ^ 32 /\ sample_count f = d * channels_ f) /\
  sample_count f <= kVectorMax /\
  0 <= channel_ f < 2 ^ 32.

(** The ranges the wire format gives the fields. *)
Definition ProtoAudioFrame_wf (p : ProtoAudioFrame) : Prop :=
  Forall byte_range (p_payload p) /\ 0 <= p_duration_samples p < 2 ^ 32 /\
  - 2 ^ 31 <= p_channel p < 2 ^ 31.

Lemma u32_i32 z : 0 <= z < 2 ^ 32 -> u32 (i32 z) = z.
Proof.
  intros H. unfold i32, u32. rewrite (Z.mod_small z) by lia. case_test.
  - by rewrite Z.mod_small by lia.
  - symmetry. apply Z.mod_unique_pos with (q := -1); lia.
Qed.

Lemma i32_u32 z : - 2 ^ 31 <= z < 2 ^ 31 -> i32 (u32 z) = z.
Proof.
  intros H. unfold i32, u32. rewrite Z.mod_mod by lia.
  destruct (Z.neg_nonneg_cases z) as [Hn|Hp].
  - assert (z mod 2 ^ 32 = z + 2 ^ 32) as ->.
    { symmetry. apply Z.mod_unique_pos with (q := -1); lia. }
    case_test; lia.
  - rewrite Z.mod_small by lia. case_test; lia.
Qed.

Lemma duration_samples_exact f d :
  0 < channels_ f -> 0 <= d < 2 ^ 32 -> sample_count f = d * channels_ f -> duration_samples f = d.
Proof.
  intros Hc Hd Hs. unfold duration_samples. case_test; [|lia].
  rewrite Hs, Z.div_mul by lia. by apply u32_small.
Qed.

Lemma FromProto_ToProto f :
  AudioFrame_wf f -> FromProto (ToProto f) (sample_rate_hz_ f) (channels_ f) = Frame f.
Proof.
  intros (Hs & Hc & (d & Hd & Hn) & Hv & Hch). unfold FromProto, ToProto. cbn [p_duration_samples
    p_payload p_seq p_timestamp_samples p_channel p_channel_uuid].
  rewrite (duration_samples_exact f d), bytes_of_samples_length by (done || lia).
  unfold sample_count, kVectorMax in *. rewrite (u64_small (d * channels_ f)) by lia.
  rewrite u64_small by lia. case_test; [lia|]. case_test; [lia|].
  rewrite samples_of_bytes_of_samples, u32_i32 by done. by destruct f.
Qed.

(** What [FromProto] accepts for the stream formats in use (one or two
    channels): exactly the payloads of [duration_samples * channels] samples. *)
Lemma FromProto_accepts p rate ch :
  0 <= p_duration_samples p < 2 ^ 32 -> 0 < ch <= 2 ->
  FromProto p rate ch =
    if Z.of_nat (length (p_payload p)) =? p_duration_samples p * ch * 2
    then Frame (mkAudioFrame (samples_of_bytes (p_payload p)) rate ch
                  (p_seq p) (p_timestamp_samples p) (u32 (p_channel p)) (p_channel_uuid p))
    else Nullopt.
Proof.
  intros Hd Hc. unfold FromProto, kVectorMax.
  assert (0 <= p_duration_samples p * ch < 2 ^ 33) by nia.
  rewrite (u64_small (p_duration_samples p * ch)) by lia.
  rewrite u64_small by lia. repeat (case_test; try done; try lia).
Qed.

Lemma ToProto_FromProto p rate ch f :
  ProtoAudioFrame_wf p -> 0 < ch <= 2 -> FromProto p rate ch = Frame f -> ToProto f = p.
Proof.
  intros (Hb & Hd & Hch) Hc Hf. rewrite FromProto_accepts in Hf by done. case_test; [|done].
  simplify_eq. unfold ToProto.
  assert (length (p_payload p) = 2 * Z.to_nat (p_duration_samples p * ch))%nat as Hlen by lia.
  rewrite (duration_samples_exact _ (p_duration_samples p)); cbn [samples_ channels_ channel_ seq_
    timestamp_samples_ channel_uuid_]; [|lia..|].
  - rewrite bytes_of_samples_of_bytes, i32_u32 by (done || by eexists). by destruct p.
  - unfold sample_count. cbn [samples_]. rewrite samples_of_bytes_length, Hlen.
    rewrite (Nat.mul_comm 2), Nat.div_mul by lia. lia.
Qed.

(** The wire form of audio is lossless in both directions.  Every frame
    whose buffer holds whole groups of channels survives [ToProto] followed by
    [FromProto] with the rate and channel count of the stream, samples and all
    metadata included; for the mono and stereo formats, [FromProto] accepts
    exactly the messages whose payload has [duration_samples * channels * 2]
    bytes, refuses the others with [nullopt], never terminates the process, and
    what it accepts re-serialises to the same message. *)
Theorem AudioFrame_wire_roundtrip f p rate ch :
  AudioFrame_wf f -> ProtoAudioFrame_wf p -> 0 < ch <= 2 ->
  FromProto (ToProto f) (sample_rate_hz_ f) (channels_ f) = Frame f /\
  (if Z.of_nat (length (p_payload p)) =? p_duration_samples p * ch * 2
   then exists g, FromProto p rate ch = Frame g /\ ToProto g = p
   else FromProto p rate ch = Nullopt).
Proof.
  intros Hf Hp Hc. split; [by apply FromProto_ToProto|].
  pose proof (FromProto_accepts p rate ch (proj1 (proj2 Hp)) Hc) as Ha.
  case_test; [|done]. eexists. split; [done|]. by eapply ToProto_FromProto.
Qed.

Definition sample_frame : AudioFrame := mkAudioFrame [-1; 258; -32768; 0] 8000 2 7 640 3 "leg".

Lemma AudioFrame_wire_roundtrip_witness :
  FromProto (mkProtoAudioFrame 7 640 2 [255; 255; 2; 1; 0; 128; 0; 0] 3 "leg") 8000 2
    = Frame sample_frame /\
  FromProto (mkProtoAudioFrame 7 640 3 [255; 255] 3 "leg") 8000 1 = Nullopt.
Proof.
  assert (AudioFrame_wf sample_frame) as Hf.
  { unfold AudioFrame_wf, int16_range, sample_count, kVectorMax. cbn. split_and!; try lia.
    - repeat constructor; lia.
    - exists 2. lia. }
  assert (ProtoAudioFrame_wf (mkProtoAudioFrame 7 640 3 [255; 255] 3 "leg")) as Hp.
  { unfold ProtoAudioFrame_wf, byte_range. cbn. split_and!; try lia. repeat constructor; lia. }
  destruct (AudioFrame_wire_roundtrip sample_frame _ 8000 1 Hf Hp ltac:(lia)) as [H1 H2].
  split; [exact H1|exact H2].
Defined.
