(* ===== verification/StereoPairer.v ===== *)
(** * The stereo frame pairer

    [src/media/stereo_pairer.cc] and [include/osw/media/stereo_pairer.h]: caller
    frames (left) and written frames (right) wait in two circular arrays of 16
    slots and leave in pairs, or alone with silence on the other side.  Every
    public method runs under [mu_]; the readings of the steady clock (in
    nanoseconds) are arguments, in the order the code takes them.  Allocation
    failure, which the methods turn into [nullopt], is not modelled. *)

From S2P Require Import Prelude BoundedQueue AudioFrame.

(** ** Data *)

Record PairedFrame := mkPairedFrame {
  interleaved : list Z;
  samples_per_channel : Z;
  paired_rate_hz : Z;
  paired_seq : Z }.

Record PairerConfig := mkPairerConfig {
  cfg_sample_rate_hz : Z;
  desync_warn_ms : Z;
  desync_timeout_ms : Z }.

Record PendingFrame := mkPendingFrame {
  fs_timestamp_samples : Z;
  arrived_at : Z;
  pending_samples : list Z }.

(** [PendingFrame{}]. *)
Definition PendingFrame_empty : PendingFrame := mkPendingFrame 0 0 [].

Inductive Side := kLeft | kRight.

Definition kRingCapacity : nat := 16.

(** The ring, head, tail and count members of one side. *)
Record SideRing := mkSideRing {
  sr_ring : list PendingFrame;
  sr_head : nat;
  sr_tail : nat;
  sr_count : nat }.

Definition SideRing_new : SideRing :=
  mkSideRing (replicate kRingCapacity PendingFrame_empty) 0 0 0.

Record StereoFramePairer := mkStereoFramePairer {
  sfp_cfg : PairerConfig;
  sfp_left : SideRing;
  sfp_right : SideRing;
  sfp_seq : Z;
  paired_count_ : Z;
  desync_count_ : Z;
  warn_count_ : Z;
  dropped_count_ : Z }.

Definition StereoFramePairer_new (cfg : PairerConfig) : StereoFramePairer :=
  mkStereoFramePairer cfg SideRing_new SideRing_new 0 0 0 0 0.

Definition side_of (side : Side) (p : StereoFramePairer) : SideRing :=
  match side with kLeft => sfp_left p | kRight => sfp_right p end.

Definition with_side (side : Side) (r : SideRing) (p : StereoFramePairer) : StereoFramePairer :=
  match side with
  | kLeft => mkStereoFramePairer (sfp_cfg p) r (sfp_right p) (sfp_seq p)
               (paired_count_ p) (desync_count_ p) (warn_count_ p) (dropped_count_ p)
  | kRight => mkStereoFramePairer (sfp_cfg p) (sfp_left p) r (sfp_seq p)
               (paired_count_ p) (desync_count_ p) (warn_count_ p) (dropped_count_ p)
  end.

Definition with_counts (seq paired desync warn dropped : Z) (p : StereoFramePairer)
  : StereoFramePairer :=
  mkStereoFramePairer (sfp_cfg p) (sfp_left p) (sfp_right p) seq paired desync warn dropped.

(** ** One side: the array operations *)

(** The body of [EnqueueLocked] on the selected side; the flag says that the
    oldest frame was dropped. *)
Definition SideRing_enqueue (frame : PendingFrame) (r : SideRing) : SideRing * bool :=
  let full := (sr_count r =? kRingCapacity)%nat in
  let r1 := if full
            then mkSideRing (<[sr_tail r := PendingFrame_empty]> (sr_ring r)) (sr_head r)
                   ((sr_tail r + 1) mod kRingCapacity)%nat (sr_count r - 1)%nat
            else r in
  (mkSideRing (<[sr_head r1 := frame]> (sr_ring r1)) ((sr_head r1 + 1) mod kRingCapacity)%nat
     (sr_tail r1) (sr_count r1 + 1)%nat, full).

(** The body of [PopLocked] on the selected side. *)
Definition SideRing_pop (r : SideRing) : PendingFrame * SideRing :=
  let out := default PendingFrame_empty (sr_ring r !! sr_tail r) in
  (out, mkSideRing (<[sr_tail r := PendingFrame_empty]> (sr_ring r)) (sr_head r)
          ((sr_tail r + 1) mod kRingCapacity)%nat (sr_count r - 1)%nat).

(** ** The methods *)

Definition DiffSamples (lhs rhs : Z) : Z := if rhs <=? lhs then lhs - rhs else rhs - lhs.

Definition WarnThresholdSamplesLocked (c : PairerConfig) : Z :=
  (desync_warn_ms c *u64 cfg_sample_rate_hz c) / 1000.

Definition TimeoutThresholdSamplesLocked (c : PairerConfig) : Z :=
  (desync_timeout_ms c *u64 cfg_sample_rate_hz c) / 1000.

Definition EnqueueLocked (side : Side) (frame : PendingFrame) (p : StereoFramePairer)
  : StereoFramePairer :=
  let '(r, dropped) := SideRing_enqueue frame (side_of side p) in
  let p1 := with_side side r p in
  if dropped
  then with_counts (sfp_seq p1) (paired_count_ p1) (desync_count_ p1) (warn_count_ p1)
         (dropped_count_ p1 +u64 1) p1
  else p1.

Definition PopLocked (side : Side) (p : StereoFramePairer) : PendingFrame * StereoFramePairer :=
  let '(f, r) := SideRing_pop (side_of side p) in (f, with_side side r p).

Definition FrontLocked (side : Side) (p : StereoFramePairer) : PendingFrame :=
  default PendingFrame_empty (sr_ring (side_of side p) !! sr_tail (side_of side p)).

Definition RecordWarnLocked (p : StereoFramePairer) : StereoFramePairer :=
  with_counts (sfp_seq p) (paired_count_ p) (desync_count_ p) (warn_count_ p +u64 1)
    (dropped_count_ p) p.

Definition RecordTimeoutLocked (p : StereoFramePairer) : StereoFramePairer :=
  with_counts (sfp_seq p) (paired_count_ p) (desync_count_ p +u64 1) (warn_count_ p +u64 1)
    (dropped_count_ p) p.

(** [for (i = 0; i < samples; ++i)]: sample [i] of each side, or silence. *)
Fixpoint interleave_loop (left right : list Z) (i n : nat) (out : list Z) : list Z :=
  match n with
  | O => out
  | S n' =>
      let out1 := AppendInt16Le out (default 0 (left !! i)) in
      let out2 := AppendInt16Le out1 (default 0 (right !! i)) in
      interleave_loop left right (S i) n' out2
  end.

Definition MakePairedFrameLocked (left right : list Z) (p : StereoFramePairer)
  : PairedFrame * StereoFramePairer :=
  let samples := Nat.max (length left) (length right) in
  (mkPairedFrame (interleave_loop left right 0 samples []) (u32 (Z.of_nat samples))
     (cfg_sample_rate_hz (sfp_cfg p)) (sfp_seq p),
   with_counts (sfp_seq p +u64 1) (paired_count_ p +u64 1) (desync_count_ p) (warn_count_ p)
     (dropped_count_ p) p).

Definition EmitSilenceFillLocked (real_side : Side) (p : StereoFramePairer)
  : PairedFrame * StereoFramePairer :=
  let '(frame, p1) := PopLocked real_side p in
  let p2 := RecordTimeoutLocked p1 in
  match real_side with
  | kLeft => MakePairedFrameLocked (pending_samples frame) [] p2
  | kRight => MakePairedFrameLocked [] (pending_samples frame) p2
  end.

(** [duration_cast<milliseconds>(now - arrived_at) > timeout]; the cast
    truncates towards zero. *)
Definition waited_out (now : Z) (f : PendingFrame) (c : PairerConfig) : bool :=
  desync_timeout_ms c <? Z.quot (now - arrived_at f) 1000000.

Definition emit_some (x : PairedFrame * StereoFramePairer)
  : option PairedFrame * StereoFramePairer := (Some x.1, x.2).

Definition TryEmitExpiredLocked (now : Z) (p : StereoFramePairer)
  : option PairedFrame * StereoFramePairer :=
  if (0 <? sr_count (sfp_left p))%nat && waited_out now (FrontLocked kLeft p) (sfp_cfg p)
  then emit_some (EmitSilenceFillLocked kLeft p)
  else if (0 <? sr_count (sfp_right p))%nat && waited_out now (FrontLocked kRight p) (sfp_cfg p)
  then emit_some (EmitSilenceFillLocked kRight p)
  else (None, p).

Definition TryEmitLocked (now : Z) (p : StereoFramePairer)
  : option PairedFrame * StereoFramePairer :=
  if (0 <? sr_count (sfp_left p))%nat && (0 <? sr_count (sfp_right p))%nat
  then
    let left := FrontLocked kLeft p in
    let right := FrontLocked kRight p in
    let diff := DiffSamples (fs_timestamp_samples left) (fs_timestamp_samples right) in
    if TimeoutThresholdSamplesLocked (sfp_cfg p) <? diff
    then emit_some (EmitSilenceFillLocked
           (if fs_timestamp_samples left <? fs_timestamp_samples right then kLeft else kRight) p)
    else
      let '(left_frame, p1) := PopLocked kLeft p in
      let '(right_frame, p2) := PopLocked kRight p1 in
      let warn_threshold := WarnThresholdSamplesLocked (sfp_cfg p2) in
      let p3 := if (0 <? diff) && ((warn_threshold =? 0) || (warn_threshold <=? diff))
                then RecordWarnLocked p2 else p2 in
      emit_some (MakePairedFrameLocked (pending_samples left_frame) (pending_samples right_frame) p3)
  else TryEmitExpiredLocked now p.

Definition PushLeft (ts : Z) (samples : list Z) (arrived now : Z) (p : StereoFramePairer)
  : option PairedFrame * StereoFramePairer :=
  TryEmitLocked now (EnqueueLocked kLeft (mkPendingFrame ts arrived samples) p).

Definition PushRight (ts : Z) (samples : list Z) (arrived now : Z) (p : StereoFramePairer)
  : option PairedFrame * StereoFramePairer :=
  TryEmitLocked now (EnqueueLocked kRight (mkPendingFrame ts arrived samples) p).

Definition Tick (now : Z) (p : StereoFramePairer) : option PairedFrame * StereoFramePairer :=
  TryEmitLocked now p.

(** ** A side is a bounded drop-oldest queue *)

Definition SideRing_inv (r : SideRing) : Prop :=
  length (sr_ring r) = kRingCapacity /\
  circ_wf (sr_ring r) (sr_head r) (sr_tail r) (sr_count r).

Definition SideRing_contents (r : SideRing) : list PendingFrame :=
  circ_contents (sr_ring r) (sr_tail r) (sr_count r).

#[export] Instance SideRing_fifo : DropOldestFifo SideRing PendingFrame := {|
  fifo_inv := SideRing_inv;
  fifo_capacity := fun _ => kRingCapacity;
  fifo_contents := SideRing_contents;
  fifo_push := SideRing_enqueue;
  fifo_pop := fun r => if (sr_count r =? 0)%nat then None else Some (SideRing_pop r) |}.

Lemma SideRing_contents_length r :
  SideRing_inv r -> length (SideRing_contents r) = sr_count r.
Proof. intros [Hl _]. apply circ_contents_length. rewrite Hl. unfold kRingCapacity. lia. Qed.

Lemma SideRing_enqueue_room r f :
  SideRing_inv r -> (sr_count r < kRingCapacity)%nat ->
  SideRing_inv (SideRing_enqueue f r).1 /\
  SideRing_contents (SideRing_enqueue f r).1 = SideRing_contents r ++ [f] /\
  (SideRing_enqueue f r).2 = false.
Proof.
  intros [Hl Hw] Hlt. unfold SideRing_enqueue, SideRing_inv, SideRing_contents.
  rewrite (proj2 (Nat.eqb_neq _ _)) by lia. cbn [fst snd sr_ring sr_head sr_tail sr_count].
  destruct (circ_push _ _ _ _ f Hw ltac:(lia)) as [Hw' Hc].
  rewrite (Nat.add_1_r (sr_count r)), Hc, <- Hl, length_insert. done.
Qed.

Lemma SideRing_pop_spec r :
  SideRing_inv r -> (0 < sr_count r)%nat ->
  exists f, sr_ring r !! sr_tail r = Some f /\ (SideRing_pop r).1 = f /\
    SideRing_contents r = f :: SideRing_contents (SideRing_pop r).2 /\
    SideRing_inv (SideRing_pop r).2 /\ sr_count (SideRing_pop r).2 = (sr_count r - 1)%nat.
Proof.
  intros [Hl Hw] Hc. destruct (sr_count r) as [|n] eqn:En; [lia|].
  destruct (circ_pop _ _ _ _ Hw) as (x & Hx & Hq & Hw'). exists x.
  pose proof Hw as (Ht & Hn & _).
  destruct (circ_clear_left _ _ _ _ PendingFrame_empty Ht Hw' ltac:(lia)) as [Hw2 Hq2].
  unfold SideRing_contents, SideRing_inv, SideRing_pop.
  cbn [fst snd sr_ring sr_head sr_tail sr_count].
  rewrite En, Hx, Nat.sub_1_r, <- Hl, length_insert. cbn [default Nat.pred].
  rewrite Hq2. done.
Qed.

Lemma SideRing_enqueue_full r f :
  SideRing_inv r -> sr_count r = kRingCapacity ->
  SideRing_enqueue f r = ((SideRing_enqueue f (SideRing_pop r).2).1, true).
Proof.
  intros Hi Hc. unfold SideRing_enqueue, SideRing_pop.
  cbn [fst snd sr_ring sr_head sr_tail sr_count]. rewrite Hc. done.
Qed.

#[export] Instance SideRing_fifo_laws : DropOldestFifoLaws SideRing PendingFrame.
Proof.
  split; unfold fifo_inv, fifo_capacity, fifo_contents, fifo_push, fifo_pop, SideRing_fifo.
  - intros s Hi. rewrite SideRing_contents_length by done. destruct Hi as [Hl (_ & Hc & _)]. lia.
  - intros s e Hi Hlt. rewrite SideRing_contents_length in Hlt by done.
    by apply SideRing_enqueue_room.
  - intros s e x l Hi Hq Hlen. rewrite <- Hq, SideRing_contents_length in Hlen by done.
    destruct (SideRing_pop_spec s Hi ltac:(rewrite Hlen; unfold kRingCapacity; lia))
      as (f & Hf & Hpf & Hc & Hi' & Hn).
    rewrite SideRing_enqueue_full by done. cbn [fst snd].
    destruct (SideRing_enqueue_room (SideRing_pop s).2 e Hi' ltac:(unfold kRingCapacity in *; lia))
      as (_ & -> & _). rewrite Hq in Hc. by simplify_eq.
  - intros s Hi. unfold kRingCapacity. lia.
  - intros s e Hi. split; [|done]. pose proof Hi as [Hl (_ & Hc & _)]. rewrite Hl in Hc.
    destruct (decide (sr_count s = kRingCapacity)) as [He|Hne].
    + destruct (SideRing_pop_spec s Hi ltac:(rewrite He; unfold kRingCapacity; lia))
        as (f & Hf & Hpf & Hcc & Hi' & Hn).
      rewrite SideRing_enqueue_full by done. cbn [fst].
      apply SideRing_enqueue_room; [done|]. unfold kRingCapacity in *. lia.
    + apply SideRing_enqueue_room; [done|lia].
  - intros s Hi Hq. pose proof (SideRing_contents_length s Hi) as Hn. rewrite Hq in Hn.
    by rewrite <- Hn.
  - intros s x l Hi Hq. pose proof (SideRing_contents_length s Hi) as Hn. rewrite Hq in Hn.
    simpl in Hn. destruct (SideRing_pop_spec s Hi ltac:(lia)) as (f & Hf & Hpf & Hc & Hi' & Hn').
    rewrite (proj2 (Nat.eqb_neq _ _)) by lia. rewrite Hq in Hc.
    exists (SideRing_pop s).2. simplify_eq. by destruct (SideRing_pop s).
Qed.

(** ** What a run does, frame by frame *)

(** Why a frame left alone: the other side's head was too far ahead, or it had
    waited too long at the given time. *)
Inductive fill_reason := Ahead (g : PendingFrame) | Expired (now : Z).

Inductive pairer_event :=
  | EvDrop (side : Side) (f : PendingFrame)
  | EvPair (l r : PendingFrame)
  | EvFill (side : Side) (f : PendingFrame) (why : fill_reason).

(** The frames of a side an event takes out of its ring. *)
Definition ev_consumed (side : Side) (e : pairer_event) : list PendingFrame :=
  match e, side with
  | EvDrop kLeft f, kLeft | EvDrop kRight f, kRight => [f]
  | EvPair l _, kLeft => [l]
  | EvPair _ r, kRight => [r]
  | EvFill kLeft f _, kLeft | EvFill kRight f _, kRight => [f]
  | _, _ => []
  end.

(** The left and right samples of the stereo frame an event emits. *)
Definition ev_emission (e : pairer_event) : list (list Z * list Z) :=
  match e with
  | EvDrop _ _ => []
  | EvPair l r => [(pending_samples l, pending_samples r)]
  | EvFill kLeft f _ => [(pending_samples f, [])]
  | EvFill kRight f _ => [([], pending_samples f)]
  end.

Definition ev_is_drop (e : pairer_event) : Z := match e with EvDrop _ _ => 1 | _ => 0 end.
Definition ev_is_fill (e : pairer_event) : Z := match e with EvFill _ _ _ => 1 | _ => 0 end.

(** An event is justified by the configured desynchronisation bounds. *)
Definition ev_ok (c : PairerConfig) (e : pairer_event) : Prop :=
  match e with
  | EvDrop _ _ => True
  | EvPair l r =>
      DiffSamples (fs_timestamp_samples l) (fs_timestamp_samples r)
        <= TimeoutThresholdSamplesLocked c
  | EvFill _ f (Ahead g) =>
      fs_timestamp_samples f < fs_timestamp_samples g /\
      TimeoutThresholdSamplesLocked c < fs_timestamp_samples g - fs_timestamp_samples f
  | EvFill _ f (Expired now) => waited_out now f c = true
  end.

(** The warnings an event raises: every silence fill, and a pair whose heads
    differ by the warn threshold. *)
Definition ev_warns (c : PairerConfig) (e : pairer_event) : Z :=
  match e with
  | EvDrop _ _ => 0
  | EvPair l r =>
      let diff := Z.abs (fs_timestamp_samples l - fs_timestamp_samples r) in
      if (0 <? diff) && (WarnThresholdSamplesLocked c <=? diff) then 1 else 0
  | EvFill _ _ _ => 1
  end.

Definition ev_count (w : pairer_event -> Z) (evs : list pairer_event) : Z :=
  foldr (fun e n => w e + n) 0 evs.

(** The stereo frame of a pair of sample buffers. *)
Definition render (c : PairerConfig) (seq : Z) (lr : list Z * list Z) : PairedFrame :=
  let n := Nat.max (length lr.1) (length lr.2) in
  mkPairedFrame (interleave_loop lr.1 lr.2 0 n []) (u32 (Z.of_nat n)) (cfg_sample_rate_hz c) seq.

Fixpoint render_all (c : PairerConfig) (seq : Z) (l : list (list Z * list Z)) : list PairedFrame :=
  match l with
  | [] => []
  | lr :: l' => render c seq lr :: render_all c (seq +u64 1) l'
  end.

Definition emissions (evs : list pairer_event) : list (list Z * list Z) := evs ≫= ev_emission.
Definition consumed (side : Side) (evs : list pairer_event) : list PendingFrame :=
  evs ≫= ev_consumed side.

(** ** The reference: two bounded lists

    What a call must do, written on the frames waiting on each side, oldest
    first. *)

Definition pairer_queues : Type := list PendingFrame * list PendingFrame.

Definition queue_of (side : Side) (q : pairer_queues) : list PendingFrame :=
  match side with kLeft => q.1 | kRight => q.2 end.
Definition with_queue (side : Side) (l : list PendingFrame) (q : pairer_queues) : pairer_queues :=
  match side with kLeft => (l, q.2) | kRight => (q.1, l) end.

(** A frame arrives on a side; the seventeenth displaces the oldest. *)
Definition ref_push (side : Side) (f : PendingFrame) (q : pairer_queues)
  : list pairer_event * pairer_queues :=
  match queue_of side q with
  | x :: l => if decide (length (x :: l) < 16)%nat
              then ([], with_queue side ((x :: l) ++ [f]) q)
              else ([EvDrop side x], with_queue side (l ++ [f]) q)
  | [] => ([], with_queue side [f] q)
  end.

(** [g] is later than [f] by more than the timeout. *)
Definition too_far_ahead (c : PairerConfig) (f g : PendingFrame) : bool :=
  TimeoutThresholdSamplesLocked c <? fs_timestamp_samples g - fs_timestamp_samples f.

(** Two heads pair unless one is too far ahead of the other, which then leaves
    alone; a head with nobody opposite leaves alone once it has waited out. *)
Definition ref_emit (c : PairerConfig) (now : Z) (q : pairer_queues)
  : list pairer_event * pairer_queues :=
  match q with
  | (f :: l, g :: r) =>
      if too_far_ahead c f g then ([EvFill kLeft f (Ahead g)], (l, g :: r))
      else if too_far_ahead c g f then ([EvFill kRight g (Ahead f)], (f :: l, r))
      else ([EvPair f g], (l, r))
  | (f :: l, []) =>
      if waited_out now f c then ([EvFill kLeft f (Expired now)], (l, [])) else ([], q)
  | ([], g :: r) =>
      if waited_out now g c then ([EvFill kRight g (Expired now)], ([], r)) else ([], q)
  | ([], []) => ([], q)
  end.

Definition is_u64 (z : Z) : Prop := 0 <= z < 2 ^ 64.

Record pairer_inv (p : StereoFramePairer) : Prop := {
  pi_side side : SideRing_inv (side_of side p);
  pi_seq : is_u64 (sfp_seq p);
  pi_paired : is_u64 (paired_count_ p);
  pi_desync : is_u64 (desync_count_ p);
  pi_warn : is_u64 (warn_count_ p);
  pi_dropped : is_u64 (dropped_count_ p) }.

(** [p] becomes [p'] by the events [evs], with [pushed] enqueued on the way and
    [outs] returned. *)
Record accounts (p : StereoFramePairer) (pushed : Side -> list PendingFrame)
  (evs : list pairer_event) (outs : list PairedFrame) (p' : StereoFramePairer) : Prop := {
  ac_inv : pairer_inv p';
  ac_cfg : sfp_cfg p' = sfp_cfg p;
  ac_frames side : SideRing_contents (side_of side p) ++ pushed side =
                   consumed side evs ++ SideRing_contents (side_of side p');
  ac_outs : outs = render_all (sfp_cfg p) (sfp_seq p) (emissions evs);
  ac_seq : sfp_seq p' = u64 (sfp_seq p + Z.of_nat (length (emissions evs)));
  ac_paired : paired_count_ p' = u64 (paired_count_ p + Z.of_nat (length (emissions evs)));
  ac_desync : desync_count_ p' = u64 (desync_count_ p + ev_count ev_is_fill evs);
  ac_warn : warn_count_ p' = u64 (warn_count_ p + ev_count (ev_warns (sfp_cfg p)) evs);
  ac_dropped : dropped_count_ p' = u64 (dropped_count_ p + ev_count ev_is_drop evs);
  ac_ok : Forall (ev_ok (sfp_cfg p)) evs }.

Lemma is_u64_u64 z : is_u64 (u64 z).
Proof. apply u64_range. Qed.

Lemma u64_id z : is_u64 z -> u64 (z + 0) = z.
Proof. intros H. rewrite Z.add_0_r. by apply u64_small. Qed.

#[local] Hint Resolve is_u64_u64 : osw.

Lemma ev_count_app w l1 l2 : ev_count w (l1 ++ l2) = ev_count w l1 + ev_count w l2.
Proof. induction l1 as [|e l1 IH]; simpl; [done|]. rewrite IH. lia. Qed.

Lemma render_all_app c s l1 l2 :
  render_all c s (l1 ++ l2) =
    render_all c s l1 ++ render_all c (u64 (s + Z.of_nat (length l1))) l2 \/ l1 = [].
Proof.
  revert s. induction l1 as [|lr l1 IH]; intros s; [by right|left]. cbn [app render_all length].
  destruct (IH (s +u64 1)) as [->| ->].
  - rewrite u64_add_l. do 4 f_equal. lia.
  - cbn. done.
Qed.

Lemma accounts_refl p : pairer_inv p -> accounts p (fun _ => []) [] [] p.
Proof.
  intros Hi. split; cbn; try done; try (symmetry; apply u64_id, Hi). intros side. by rewrite app_nil_r.
Qed.

Lemma accounts_trans p q r push1 push2 ev1 ev2 out1 out2 :
  pairer_inv p -> accounts p push1 ev1 out1 q -> accounts q push2 ev2 out2 r ->
  accounts p (fun side => push1 side ++ push2 side) (ev1 ++ ev2) (out1 ++ out2) r.
Proof.
  intros Hp A B.
  destruct A as [_ Ac Af Ao As Ap Ad Aw Ar Ak], B as [Bi Bc Bf Bo Bs Bp Bd Bw Br Bk].
  split; try done.
  - congruence.
  - intros side. unfold consumed in *. by rewrite bind_app, app_assoc, Af, <- !app_assoc, Bf.
  - unfold emissions in *. rewrite bind_app, Bo, Ac, As, Ao.
    destruct (render_all_app (sfp_cfg p) (sfp_seq p) (ev1 ≫= ev_emission) (ev2 ≫= ev_emission))
      as [->| ->]; [done|]. cbn. by rewrite u64_id by apply Hp.
  - unfold emissions in *. rewrite Bs, As, u64_add_l, bind_app, length_app. f_equal. lia.
  - unfold emissions in *. rewrite Bp, Ap, u64_add_l, bind_app, length_app. f_equal. lia.
  - rewrite Bd, Ad, u64_add_l, ev_count_app. f_equal. lia.
  - rewrite Bw, Aw, Ac, u64_add_l, ev_count_app. f_equal. lia.
  - rewrite Br, Ar, u64_add_l, ev_count_app. f_equal. lia.
  - apply Forall_app. rewrite Ac in Bk. done.
Qed.

(** ** Each step accounts for its frames *)

Definition queues (p : StereoFramePairer) : pairer_queues :=
  (SideRing_contents (sfp_left p), SideRing_contents (sfp_right p)).

Lemma queue_of_queues side p : queue_of side (queues p) = SideRing_contents (side_of side p).
Proof. by destruct side. Qed.

Definition push_on (side : Side) (f : PendingFrame) (side' : Side) : list PendingFrame :=
  match side, side' with kLeft, kLeft | kRight, kRight => [f] | _, _ => [] end.

Lemma pairer_inv_with_side side r p :
  pairer_inv p -> SideRing_inv r -> pairer_inv (with_side side r p).
Proof.
  intros [Hs H1 H2 H3 H4 H5] Hr.
  destruct side; split; try done; intros [|]; cbn; try done; first [apply (Hs kLeft)|apply (Hs kRight)].
Qed.

Lemma pairer_inv_with_counts s a b w d p :
  pairer_inv p -> is_u64 s -> is_u64 a -> is_u64 b -> is_u64 w -> is_u64 d ->
  pairer_inv (with_counts s a b w d p).
Proof.
  intros [Hs _ _ _ _ _] ?????. by split.
Qed.

(** A counter the step leaves alone. *)
Ltac keep_count Hp :=
  match goal with |- context [with_side ?s _ _] => destruct s | |- _ => idtac end;
  cbn; symmetry; apply u64_id; apply Hp.

(** An enqueue appends, or takes the oldest out of a full ring and appends. *)
Lemma SideRing_enqueue_cases f r :
  SideRing_inv r ->
  exists r',
    (sr_count r < kRingCapacity)%nat /\ SideRing_enqueue f r = (r', false) /\ SideRing_inv r' /\
      SideRing_contents r' = SideRing_contents r ++ [f] \/
    exists x, sr_count r = kRingCapacity /\ SideRing_enqueue f r = (r', true) /\ SideRing_inv r' /\
      SideRing_contents r ++ [f] = x :: SideRing_contents r'.
Proof.
  intros Hi. pose proof Hi as [Hl (_ & Hc & _)]. rewrite Hl in Hc.
  destruct (decide (sr_count r = kRingCapacity)) as [He|Hne].
  - destruct (SideRing_pop_spec r Hi ltac:(rewrite He; unfold kRingCapacity; lia))
      as (x & _ & _ & Hq & Hi' & Hn).
    destruct (SideRing_enqueue_room (SideRing_pop r).2 f Hi' ltac:(unfold kRingCapacity in *; lia))
      as (Hr & Hq' & _).
    exists (SideRing_enqueue f (SideRing_pop r).2).1. right. exists x.
    rewrite SideRing_enqueue_full, Hq, Hq' by done. done.
  - destruct (SideRing_enqueue_room r f Hi ltac:(lia)) as (Hr & Hq & Hd).
    exists (SideRing_enqueue f r).1. left. split_and!; [lia| |done..].
    by rewrite (surjective_pairing (SideRing_enqueue f r)), Hd.
Qed.

Lemma EnqueueLocked_accounts side f p :
  pairer_inv p ->
  exists evs, accounts p (push_on side f) evs [] (EnqueueLocked side f p) /\
    ref_push side f (queues p) = (evs, queues (EnqueueLocked side f p)).
Proof.
  intros Hp. pose proof (pi_side p Hp side) as Hs. pose proof (SideRing_contents_length _ Hs) as Hn.
  destruct (SideRing_enqueue_cases f _ Hs) as (r & [(Hlt & E & Hr & Hq)|(x & Hge & E & Hr & Hq)]);
    unfold EnqueueLocked, ref_push; rewrite E, queue_of_queues.
  - exists []. split; [split; cbn [ev_count ev_is_drop ev_is_fill emissions foldr]|].
    all: try keep_count Hp; try by destruct side.
    + by apply pairer_inv_with_side.
    + intros [|]; destruct side; cbn; by rewrite ?app_nil_r.
    + destruct (SideRing_contents (side_of side p)) as [|y l] eqn:Ec.
      * destruct side; unfold queues; cbn in *; by rewrite Hq.
      * rewrite decide_True by (rewrite Hn; exact Hlt). destruct side; unfold queues; cbn in *; by rewrite Hq.
  - exists [EvDrop side x]. split; [split; cbn [ev_count ev_is_drop ev_is_fill emissions foldr]|].
    all: try keep_count Hp; try by destruct side.
    + apply pairer_inv_with_counts; [by apply pairer_inv_with_side|..|apply is_u64_u64];
        destruct side; apply Hp.
    + intros [|]; destruct side; cbn in *; by rewrite ?app_nil_r.
    + by repeat constructor.
    + destruct (SideRing_contents (side_of side p)) as [|y l] eqn:Ec; [simpl in Hn; unfold kRingCapacity in Hge; lia|].
      rewrite decide_False by (rewrite Hn, Hge; unfold kRingCapacity; lia). cbn in Hq. simplify_eq.
      destruct side; unfold queues; cbn in *; congruence.
Qed.

Lemma PopLocked_spec side p :
  SideRing_inv (side_of side p) -> (0 < sr_count (side_of side p))%nat ->
  exists r, PopLocked side p = (FrontLocked side p, with_side side r p) /\ SideRing_inv r /\
    SideRing_contents (side_of side p) = FrontLocked side p :: SideRing_contents r.
Proof.
  intros Hi Hc. destruct (SideRing_pop_spec _ Hi Hc) as (f & Hf & Hpf & Hq & Hi' & _).
  exists (SideRing_pop (side_of side p)).2. unfold PopLocked, FrontLocked. rewrite Hf.
  destruct (SideRing_pop (side_of side p)) as [g r]. simpl in *. by subst.
Qed.

Lemma FrontLocked_contents side p :
  SideRing_inv (side_of side p) ->
  match SideRing_contents (side_of side p) with
  | [] => sr_count (side_of side p) = 0%nat
  | f :: _ => (0 < sr_count (side_of side p))%nat /\ FrontLocked side p = f
  end.
Proof.
  intros Hi. pose proof (SideRing_contents_length _ Hi) as Hn.
  destruct (SideRing_contents (side_of side p)) as [|f l] eqn:E; simpl in Hn; [done|].
  destruct (PopLocked_spec side p Hi ltac:(lia)) as (r & _ & _ & Hq).
  rewrite E in Hq. simplify_eq. split; [lia|done].
Qed.

Definition no_push (side : Side) : list PendingFrame := [].

Lemma EmitSilenceFillLocked_accounts side p why :
  pairer_inv p -> (0 < sr_count (side_of side p))%nat ->
  ev_ok (sfp_cfg p) (EvFill side (FrontLocked side p) why) ->
  accounts p no_push [EvFill side (FrontLocked side p) why]
    [(EmitSilenceFillLocked side p).1] (EmitSilenceFillLocked side p).2.
Proof.
  intros Hp Hc Hok. destruct (PopLocked_spec side p (pi_side p Hp side) Hc) as (r & Hpop & Hr & Hq).
  unfold EmitSilenceFillLocked. rewrite Hpop.
  destruct side; split.
  all: try (unfold RecordTimeoutLocked, MakePairedFrameLocked; cbn [fst snd];
            repeat (apply pairer_inv_with_counts; try apply is_u64_u64); try apply Hp;
            by apply pairer_inv_with_side).
  all: try (intros [|]; cbn in *; rewrite ?app_nil_r; done).
  all: try done.
  all: try (by repeat constructor).
  all: cbn; try (symmetry; apply u64_id; apply Hp); try (f_equal; lia).
Qed.

(** The pairing branch of [TryEmitLocked]. *)
Definition EmitPairLocked (p : StereoFramePairer) : option PairedFrame * StereoFramePairer :=
  let diff := DiffSamples (fs_timestamp_samples (FrontLocked kLeft p))
                (fs_timestamp_samples (FrontLocked kRight p)) in
  let '(left_frame, p1) := PopLocked kLeft p in
  let '(right_frame, p2) := PopLocked kRight p1 in
  let warn_threshold := WarnThresholdSamplesLocked (sfp_cfg p2) in
  let p3 := if (0 <? diff) && ((warn_threshold =? 0) || (warn_threshold <=? diff))
            then RecordWarnLocked p2 else p2 in
  emit_some (MakePairedFrameLocked (pending_samples left_frame) (pending_samples right_frame) p3).

Lemma warn_rule l r w :
  0 <= w ->
  (0 <? DiffSamples l r) && ((w =? 0) || (w <=? DiffSamples l r)) =
    (0 <? Z.abs (l - r)) && (w <=? Z.abs (l - r)).
Proof.
  intros Hw. assert (DiffSamples l r = Z.abs (l - r)) as -> by (unfold DiffSamples; case_test; lia).
  destruct (0 <? Z.abs (l - r)) eqn:E; [|done]. cbn [andb].
  destruct (w =? 0) eqn:E0; [|done]. cbn [orb]. symmetry. b2p. apply Z.leb_le. lia.
Qed.

Lemma EmitPairLocked_accounts p :
  pairer_inv p -> (0 < sr_count (sfp_left p))%nat -> (0 < sr_count (sfp_right p))%nat ->
  ev_ok (sfp_cfg p) (EvPair (FrontLocked kLeft p) (FrontLocked kRight p)) ->
  exists o, (EmitPairLocked p).1 = Some o /\
    accounts p no_push [EvPair (FrontLocked kLeft p) (FrontLocked kRight p)] [o] (EmitPairLocked p).2.
Proof.
  intros Hp Hl Hr Hok.
  destruct (PopLocked_spec kLeft p (pi_side p Hp kLeft) Hl) as (r1 & Hp1 & Hr1 & Hq1).
  assert (pairer_inv (with_side kLeft r1 p)) as Hi1 by by apply pairer_inv_with_side.
  destruct (PopLocked_spec kRight (with_side kLeft r1 p) (pi_side _ Hi1 kRight) Hr)
    as (r2 & Hp2 & Hr2 & Hq2).
  change (FrontLocked kRight (with_side kLeft r1 p)) with (FrontLocked kRight p) in *.
  unfold EmitPairLocked. rewrite Hp1, Hp2. eexists. split; [done|].
  assert (pairer_inv (with_side kRight r2 (with_side kLeft r1 p))) as Hi2
    by by apply pairer_inv_with_side.
  cbn zeta. rewrite warn_rule by (apply Z.div_pos; [apply u64_range|lia]).
  case_match eqn:Ew; split.
  all: try (unfold RecordWarnLocked, MakePairedFrameLocked; cbn [fst snd emit_some];
            repeat (apply pairer_inv_with_counts; try apply is_u64_u64); try apply Hi2; done).
  all: try (intros [|]; cbn in *; rewrite ?app_nil_r; done).
  all: try done.
  all: try (by repeat constructor).
  all: cbn in Ew |- *; rewrite ?Ew; try (symmetry; apply u64_id; apply Hp); try (f_equal; lia).
Qed.

Lemma TimeoutThresholdSamplesLocked_nonneg c : 0 <= TimeoutThresholdSamplesLocked c.
Proof.
  unfold TimeoutThresholdSamplesLocked. apply Z.div_pos; [|lia]. apply u64_range.
Qed.

(** Emptiness and heads of the two sides, read off the reference's lists. *)
Lemma side_heads side p :
  pairer_inv p ->
  match queue_of side (queues p) with
  | [] => (0 <? sr_count (side_of side p))%nat = false
  | f :: _ => (0 <? sr_count (side_of side p))%nat = true /\ FrontLocked side p = f
  end.
Proof.
  intros Hp. pose proof (FrontLocked_contents side p (pi_side p Hp side)) as H.
  rewrite queue_of_queues. destruct (SideRing_contents (side_of side p)); [by rewrite H|].
  destruct H as [H <-]. split; [by apply Nat.ltb_lt|done].
Qed.

Lemma accounts_queues p evs outs p' :
  accounts p no_push evs outs p' ->
  queues p = (consumed kLeft evs ++ (queues p').1, consumed kRight evs ++ (queues p').2).
Proof.
  intros A. pose proof (ac_frames _ _ _ _ _ A kLeft) as Hl. pose proof (ac_frames _ _ _ _ _ A kRight) as Hr.
  unfold queues, no_push in *. cbn in *. rewrite app_nil_r in Hl, Hr. by rewrite Hl, Hr.
Qed.

Lemma silence_fill_refines side p why f l :
  pairer_inv p -> queue_of side (queues p) = f :: l -> ev_ok (sfp_cfg p) (EvFill side f why) ->
  let x := emit_some (EmitSilenceFillLocked side p) in
  accounts p no_push [EvFill side f why] (option_list x.1) x.2 /\
  queues x.2 = with_queue side l (queues p).
Proof.
  intros Hp Hq Hok. pose proof (side_heads side p Hp) as Hh. rewrite Hq in Hh.
  destruct Hh as [Hc Hf]. subst f. b2p.
  pose proof (EmitSilenceFillLocked_accounts side p why Hp Hc Hok) as A. split; [exact A|].
  apply accounts_queues in A. cbn [emit_some snd].
  pose proof (f_equal fst A) as E1. pose proof (f_equal snd A) as E2.
  rewrite A in Hq |- *. rewrite (surjective_pairing (queues _)).
  destruct side; cbn in *; congruence.
Qed.

(** The method does what the reference does: the same events, on the same
    frames, leaving the same queues. *)
Lemma TryEmitLocked_accounts now p :
  pairer_inv p ->
  exists evs,
    accounts p no_push evs (option_list (TryEmitLocked now p).1) (TryEmitLocked now p).2 /\
    ref_emit (sfp_cfg p) now (queues p) = (evs, queues (TryEmitLocked now p).2).
Proof.
  intros Hp. pose proof (side_heads kLeft p Hp) as Hl. pose proof (side_heads kRight p Hp) as Hr.
  pose proof (TimeoutThresholdSamplesLocked_nonneg (sfp_cfg p)) as Ht.
  unfold TryEmitLocked, TryEmitExpiredLocked, ref_emit, too_far_ahead.
  pose proof (queue_of_queues kLeft p) as Ql. pose proof (queue_of_queues kRight p) as Qr.
  destruct (queues p) as [[|f l] [|g r]] eqn:Q; cbn [queue_of fst snd side_of] in *.
  - rewrite Hl, Hr. cbn [andb]. exists []. split; [by apply accounts_refl|by cbn [snd]; rewrite Q].
  - destruct Hr as [Hr Hg]. rewrite Hl, Hr, Hg. cbn [andb]. case_test.
    + destruct (silence_fill_refines kRight p (Expired now) g r Hp ltac:(by rewrite Q) E) as [A ->].
      rewrite Q. by eexists.
    + exists []. split; [by apply accounts_refl|by cbn [snd]; rewrite Q].
  - destruct Hl as [Hl Hf]. rewrite Hl, Hr, Hf. cbn [andb]. case_test.
    + destruct (silence_fill_refines kLeft p (Expired now) f l Hp ltac:(by rewrite Q) E) as [A ->].
      rewrite Q. by eexists.
    + exists []. split; [by apply accounts_refl|by cbn [snd]; rewrite Q].
  - destruct Hl as [Hl Hf], Hr as [Hr Hg]. rewrite Hl, Hr. cbn [andb]. fold (EmitPairLocked p).
    rewrite Hf, Hg.
    unfold DiffSamples.
    destruct (decide (fs_timestamp_samples f < fs_timestamp_samples g)) as [Hd|Hd].
    all: repeat case_test; try lia.
    all: try (destruct (silence_fill_refines kLeft p (Ahead g) f l Hp ltac:(by rewrite Q)) as [A ->];
              [cbn [ev_ok]; lia|]; rewrite Q; by eexists).
    all: try (destruct (silence_fill_refines kRight p (Ahead f) g r Hp ltac:(by rewrite Q)) as [A ->];
              [cbn [ev_ok]; lia|]; rewrite Q; by eexists).
    all: b2p.
    all: destruct (EmitPairLocked_accounts p Hp Hl Hr) as (o & Ho & Ha);
      [rewrite Hf, Hg; cbn [ev_ok]; unfold DiffSamples; case_test; lia|].
    all: rewrite Ho; eexists; split; [exact Ha|].
    all: apply accounts_queues in Ha; rewrite Q, Hf, Hg in Ha.
    all: destruct (queues (EmitPairLocked p).2); unfold consumed in Ha; cbn in Ha; by simplify_eq.
Qed.

(** ** Runs *)

Inductive pairer_op :=
  | OpPushLeft (ts : Z) (samples : list Z) (arrived now : Z)
  | OpPushRight (ts : Z) (samples : list Z) (arrived now : Z)
  | OpTick (now : Z).

Definition pairer_step (p : StereoFramePairer) (o : pairer_op) : option PairedFrame * StereoFramePairer :=
  match o with
  | OpPushLeft ts s a n => PushLeft ts s a n p
  | OpPushRight ts s a n => PushRight ts s a n p
  | OpTick n => Tick n p
  end.

Fixpoint pairer_run (p : StereoFramePairer) (os : list pairer_op) : list PairedFrame * StereoFramePairer :=
  match os with
  | [] => ([], p)
  | o :: os' =>
      let '(out, p1) := pairer_step p o in
      let '(outs, p2) := pairer_run p1 os' in (option_list out ++ outs, p2)
  end.

Definition op_pushed (o : pairer_op) (side : Side) : list PendingFrame :=
  match o, side with
  | OpPushLeft ts s a _, kLeft => [mkPendingFrame ts a s]
  | OpPushRight ts s a _, kRight => [mkPendingFrame ts a s]
  | _, _ => []
  end.

(** The frames offered to a side, in order. *)
Definition ops_pushed (os : list pairer_op) (side : Side) : list PendingFrame :=
  os ≫= (fun o => op_pushed o side).

Lemma accounts_push_ext p push push' evs outs p' :
  (forall side, push side = push' side) -> accounts p push evs outs p' -> accounts p push' evs outs p'.
Proof. intros He [? ? Hf ? ? ? ? ? ? ?]. split; try done. intros side. by rewrite <- He. Qed.

(** The reference for a call, and for a sequence of calls. *)
Definition op_now (o : pairer_op) : Z :=
  match o with OpPushLeft _ _ _ n | OpPushRight _ _ _ n | OpTick n => n end.

Definition ref_op (c : PairerConfig) (o : pairer_op) (q : pairer_queues)
  : list pairer_event * pairer_queues :=
  let '(ev1, q1) := match o with
                    | OpPushLeft ts s a _ => ref_push kLeft (mkPendingFrame ts a s) q
                    | OpPushRight ts s a _ => ref_push kRight (mkPendingFrame ts a s) q
                    | OpTick _ => ([], q)
                    end in
  let '(ev2, q2) := ref_emit c (op_now o) q1 in (ev1 ++ ev2, q2).

Fixpoint ref_run (c : PairerConfig) (os : list pairer_op) (q : pairer_queues)
  : list pairer_event * pairer_queues :=
  match os with
  | [] => ([], q)
  | o :: os' =>
      let '(ev1, q1) := ref_op c o q in
      let '(ev2, q2) := ref_run c os' q1 in (ev1 ++ ev2, q2)
  end.

Lemma push_step_accounts side f now p :
  pairer_inv p ->
  exists ev1 ev2 q, accounts p (push_on side f) (ev1 ++ ev2)
    (option_list (TryEmitLocked now (EnqueueLocked side f p)).1)
    (TryEmitLocked now (EnqueueLocked side f p)).2 /\
    ref_push side f (queues p) = (ev1, q) /\
    ref_emit (sfp_cfg p) now q = (ev2, queues (TryEmitLocked now (EnqueueLocked side f p)).2).
Proof.
  intros Hp. destruct (EnqueueLocked_accounts side f p Hp) as (ev1 & A1 & R1).
  destruct (TryEmitLocked_accounts now _ (ac_inv _ _ _ _ _ A1)) as (ev2 & A2 & R2).
  exists ev1, ev2, (queues (EnqueueLocked side f p)). split_and!; [|done|].
  - pose proof (accounts_trans _ _ _ _ _ _ _ _ _ Hp A1 A2) as A.
    eapply accounts_push_ext; [|exact A]. intros s. apply app_nil_r.
  - by rewrite <- (ac_cfg _ _ _ _ _ A1).
Qed.

Lemma pairer_step_accounts p o out p' :
  pairer_inv p -> pairer_step p o = (out, p') ->
  exists evs, accounts p (op_pushed o) evs (option_list out) p' /\
    ref_op (sfp_cfg p) o (queues p) = (evs, queues p').
Proof.
  intros Hp Hs. unfold ref_op. destruct o as [ts s a n|ts s a n|n]; cbn [pairer_step op_now] in *.
  - destruct (push_step_accounts kLeft (mkPendingFrame ts a s) n p Hp) as (ev1 & ev2 & q & A & R1 & R2).
    unfold PushLeft in Hs. rewrite Hs in A, R2. rewrite R1, R2. exists (ev1 ++ ev2). split; [|done].
    eapply accounts_push_ext; [|exact A]. by intros [|].
  - destruct (push_step_accounts kRight (mkPendingFrame ts a s) n p Hp) as (ev1 & ev2 & q & A & R1 & R2).
    unfold PushRight in Hs. rewrite Hs in A, R2. rewrite R1, R2. exists (ev1 ++ ev2). split; [|done].
    eapply accounts_push_ext; [|exact A]. by intros [|].
  - destruct (TryEmitLocked_accounts n p Hp) as (evs & A & R). unfold Tick in Hs.
    rewrite Hs in A, R. rewrite R. by exists evs.
Qed.

Lemma pairer_run_accounts os p outs p' :
  pairer_inv p -> pairer_run p os = (outs, p') ->
  exists evs, accounts p (ops_pushed os) evs outs p' /\
    ref_run (sfp_cfg p) os (queues p) = (evs, queues p').
Proof.
  revert p outs. induction os as [|o os IH]; intros p outs Hp Hr; cbn [pairer_run ref_run] in *.
  { simplify_eq. exists []. split; [by apply accounts_refl|done]. }
  destruct (pairer_step p o) as [out p1] eqn:E1.
  destruct (pairer_run p1 os) as [outs2 p2] eqn:E2. simplify_eq.
  destruct (pairer_step_accounts _ _ _ _ Hp E1) as (ev1 & A1 & R1).
  destruct (IH _ _ (ac_inv _ _ _ _ _ A1) E2) as (ev2 & A2 & R2).
  exists (ev1 ++ ev2). split; [by apply (accounts_trans _ _ _ _ _ _ _ _ _ Hp A1 A2)|].
  rewrite (ac_cfg _ _ _ _ _ A1) in R2. by rewrite R1, R2.
Qed.

Lemma pairer_inv_new c : pairer_inv (StereoFramePairer_new c).
Proof.
  split; try (unfold is_u64; cbn; lia). intros side.
  assert (SideRing_inv SideRing_new) by (split; [done|by apply circ_wf_empty; vm_compute; lia]).
  by destruct side.
Qed.

(** ** The emitted bytes *)

Fixpoint interleave_samples (left right : list Z) (i n : nat) : list Z :=
  match n with
  | O => []
  | S n' => default 0 (left !! i) :: default 0 (right !! i) :: interleave_samples left right (S i) n'
  end.

Lemma interleave_loop_bytes left right n : forall i out,
  interleave_loop left right i n out = out ++ bytes_of_samples (interleave_samples left right i n).
Proof.
  induction n as [|n IH]; intros i out; cbn [interleave_loop interleave_samples].
  { by rewrite app_nil_r. }
  rewrite IH. rewrite <- !foldl_AppendInt16Le. done.
Qed.

Lemma interleave_samples_lookup left right n : forall i k, (k < n)%nat ->
  interleave_samples left right i n !! (2 * k)%nat = Some (default 0 (left !! (i + k)%nat)) /\
  interleave_samples left right i n !! (2 * k + 1)%nat = Some (default 0 (right !! (i + k)%nat)).
Proof.
  induction n as [|n IH]; intros i k Hk; [lia|]. destruct k as [|k].
  { by rewrite Nat.add_0_r. }
  replace (2 * S k)%nat with (S (S (2 * k))) by lia.
  destruct (IH (S i) k ltac:(lia)) as [H1 H2]. rewrite Nat.add_succ_r.
  cbn [interleave_samples lookup list_lookup Nat.add]. by split.
Qed.

Lemma interleave_samples_length left right n i :
  length (interleave_samples left right i n) = (2 * n)%nat.
Proof. revert i. induction n as [|n IH]; intros i; [done|]. cbn. rewrite IH. lia. Qed.

Lemma default_range l i : Forall int16_range l -> int16_range (default 0 (l !! i)).
Proof.
  intros H. destruct (l !! i) as [s|] eqn:E; [|unfold int16_range; cbn; lia].
  by apply (Forall_lookup_1 _ _ _ _ H E).
Qed.

Lemma interleave_samples_range left right n i :
  Forall int16_range left -> Forall int16_range right ->
  Forall int16_range (interleave_samples left right i n).
Proof.
  intros Hl Hr. revert i. induction n as [|n IH]; intros i; cbn; [done|].
  by repeat constructor; try apply default_range.
Qed.

(** A stereo frame carries a pair of buffers: reading its bytes back gives, at
    each position, the left and the right sample, the shorter side padded with
    silence. *)
Definition carries (c : PairerConfig) (seq : Z) (lr : list Z * list Z) (o : PairedFrame) : Prop :=
  let n := Nat.max (length lr.1) (length lr.2) in
  paired_seq o = seq /\ paired_rate_hz o = cfg_sample_rate_hz c /\
  samples_per_channel o = u32 (Z.of_nat n) /\ length (interleaved o) = (4 * n)%nat /\
  forall k, (k < n)%nat ->
    ReadInt16Le (interleaved o) (2 * k) = Some (default 0 (lr.1 !! k)) /\
    ReadInt16Le (interleaved o) (2 * k + 1) = Some (default 0 (lr.2 !! k)).

Lemma render_carries c seq lr :
  Forall int16_range lr.1 -> Forall int16_range lr.2 -> carries c seq lr (render c seq lr).
Proof.
  intros Hl Hr. unfold carries, render. cbn [interleaved samples_per_channel paired_rate_hz paired_seq].
  rewrite interleave_loop_bytes, app_nil_l, bytes_of_samples_length, interleave_samples_length.
  split_and!; try done; [lia|]. intros k Hk.
  rewrite !ReadInt16Le_bytes by by apply interleave_samples_range.
  by apply (interleave_samples_lookup _ _ _ 0).
Qed.

Lemma render_all_lookup c l : forall s k,
  is_u64 s -> render_all c s l !! k = render c (u64 (s + Z.of_nat k)) <$> l !! k.
Proof.
  induction l as [|lr l IH]; intros s k Hs; [done|]. destruct k as [|k]; cbn [render_all lookup list_lookup].
  - cbn. by rewrite u64_id.
  - rewrite IH by apply u64_range. rewrite u64_add_l. by replace (s + 1 + Z.of_nat k) with (s + Z.of_nat (S k)) by lia.
Qed.

Definition frame_ok (f : PendingFrame) : Prop := Forall int16_range (pending_samples f).

Lemma emissions_range evs :
  Forall frame_ok (consumed kLeft evs) -> Forall frame_ok (consumed kRight evs) ->
  Forall (fun lr => Forall int16_range lr.1 /\ Forall int16_range lr.2) (emissions evs).
Proof.
  unfold emissions, consumed. induction evs as [|e evs IH]; [done|]. cbn [mbind list_bind].
  rewrite !Forall_app. intros [Hl Hl'] [Hr Hr']. split; [|by apply IH].
  destruct e as [[|] f|l r|[|] f why]; cbn [ev_emission ev_consumed] in *;
    rewrite ?Forall_singleton in *; by repeat constructor.
Qed.

Lemma SideRing_contents_bound r : SideRing_inv r -> (length (SideRing_contents r) <= 16)%nat.
Proof.
  intros Hi. rewrite SideRing_contents_length by done. destruct Hi as [Hl (_ & Hc & _)].
  by rewrite Hl in Hc.
Qed.

(** ** Progress *)

(** Whether an emission is due at [now], from the two queues alone. *)
Definition emission_due (c : PairerConfig) (now : Z) (l r : list PendingFrame) : bool :=
  match l, r with
  | _ :: _, _ :: _ => true
  | f :: _, [] | [], f :: _ => waited_out now f c
  | [], [] => false
  end.

Lemma TryEmitLocked_progress now p :
  pairer_inv p ->
  is_Some (TryEmitLocked now p).1 <->
  emission_due (sfp_cfg p) now (SideRing_contents (sfp_left p)) (SideRing_contents (sfp_right p)) = true.
Proof.
  intros Hp. pose proof (FrontLocked_contents kLeft p (pi_side p Hp kLeft)) as Hl.
  pose proof (FrontLocked_contents kRight p (pi_side p Hp kRight)) as Hr. cbn [side_of] in *.
  unfold TryEmitLocked, TryEmitExpiredLocked.
  destruct (SideRing_contents (sfp_left p)) as [|f l], (SideRing_contents (sfp_right p)) as [|g r];
    cbn [emission_due].
  - rewrite Hl, Hr. cbn. split; [by intros [? ?]|done].
  - destruct Hr as [Hr <-]. rewrite Hl, (proj2 (Nat.ltb_lt _ _) Hr). cbn [andb Nat.ltb Nat.leb].
    destruct (waited_out now (FrontLocked kRight p) (sfp_cfg p)); cbn; [by split; eauto|].
    split; [by intros [? ?]|done].
  - destruct Hl as [Hl <-]. rewrite Hr, (proj2 (Nat.ltb_lt _ _) Hl). cbn [andb Nat.ltb Nat.leb].
    destruct (waited_out now (FrontLocked kLeft p) (sfp_cfg p)); cbn; [by split; eauto|].
    split; [by intros [? ?]|done].
  - destruct Hl as [Hl <-], Hr as [Hr <-].
    rewrite (proj2 (Nat.ltb_lt _ _) Hl), (proj2 (Nat.ltb_lt _ _) Hr). cbn [andb].
    split; [done|]. intros _. case_test; [by eexists|].
    unfold PopLocked. repeat case_match; simplify_eq; by eexists.
Qed.

(** C12. Stereo pairing is that of two 16-frame drop-oldest lists, and loses
    nothing silently.  For every sequence of pushes and ticks from a new pairer,
    [ref_run] gives the events and what is still queued: each push appends to
    its side, dropping the oldest of 16, and then, as on a tick, two heads leave
    as a pair unless one is later than the other by more than the timeout, when
    the earlier leaves with silence opposite; a head with nobody opposite leaves
    with silence when it has waited longer than the timeout at the time of that
    call.  On each side the frames pushed are, in order, the frames the events
    consumed followed by the frames queued; the frames returned are the
    emissions in order, numbered 0, 1, 2, ..., and each decodes to the buffers
    consumed, the shorter one padded with zeros; the four counters count the
    events; and a later tick returns a frame exactly when both sides have one or
    the only head has waited out. *)
Theorem StereoFramePairer_run c os outs p :
  pairer_run (StereoFramePairer_new c) os = (outs, p) ->
  (forall side, Forall frame_ok (ops_pushed os side)) ->
  exists evs,
    ref_run c os ([], []) = (evs, queues p) /\
    (forall side, ops_pushed os side = consumed side evs ++ queue_of side (queues p) /\
                  (length (queue_of side (queues p)) <= 16)%nat) /\
    Forall (ev_ok c) evs /\
    length outs = length (emissions evs) /\
    (forall k lr, emissions evs !! k = Some lr ->
       exists o, outs !! k = Some o /\ carries c (u64 (Z.of_nat k)) lr o) /\
    paired_count_ p = u64 (Z.of_nat (length (emissions evs))) /\
    desync_count_ p = u64 (ev_count ev_is_fill evs) /\
    warn_count_ p = u64 (ev_count (ev_warns c) evs) /\
    dropped_count_ p = u64 (ev_count ev_is_drop evs) /\
    forall now, is_Some (Tick now p).1 <->
      emission_due c now (queues p).1 (queues p).2 = true.
Proof.
  intros Hr Hok.
  destruct (pairer_run_accounts _ _ _ _ (pairer_inv_new c) Hr) as (evs & A & R).
  destruct A as [Ai Ac Af -> As Ap Ad Aw Ar Ak]. exists evs.
  assert (forall side, ops_pushed os side = consumed side evs ++ queue_of side (queues p)) as Hf.
  { intros side. rewrite queue_of_queues, <- Af. by destruct side. }
  assert (forall side, Forall frame_ok (consumed side evs)) as Hc.
  { intros side. specialize (Hok side). rewrite Hf, Forall_app in Hok. apply Hok. }
  pose proof (emissions_range evs (Hc kLeft) (Hc kRight)) as He.
  assert (forall k, render_all c 0 (emissions evs) !! k =
            render c (u64 (Z.of_nat k)) <$> emissions evs !! k) as Hlk
    by (intros k; by rewrite render_all_lookup by (unfold is_u64; lia)).
  split_and!; try done.
  - intros side. split; [done|]. rewrite queue_of_queues. apply SideRing_contents_bound, Ai.
  - cbn. clear. generalize 0. induction (emissions evs) as [|lr l IH]; intros s; [done|].
    cbn. by rewrite IH.
  - intros k lr Hk. cbn. rewrite Hlk, Hk. eexists. split; [done|].
    apply (Forall_lookup_1 _ _ _ _ He) in Hk as [Hk1 Hk2]. by apply render_carries.
  - intros now. replace c with (sfp_cfg p) by exact Ac. by apply TryEmitLocked_progress.
Qed.

Definition sample_config : PairerConfig := mkPairerConfig 8000 5 25.
Definition sample_ops : list pairer_op :=
  [OpPushLeft 0 [1; -2] 0 0; OpPushRight 80 [3] 1 1; OpPushLeft 500 [7] 2 2;
   OpTick 25000002; OpTick 26000002].
Definition sample_outcome : list PairedFrame * StereoFramePairer :=
  pairer_run (StereoFramePairer_new sample_config) sample_ops.

Lemma sample_ops_ok side : Forall frame_ok (ops_pushed sample_ops side).
Proof.
  destruct side; unfold sample_ops, ops_pushed, frame_ok, int16_range; cbn;
    repeat first [apply Forall_cons_2|apply Forall_nil_2]; cbn;
    repeat first [apply Forall_cons_2|apply Forall_nil_2]; lia.
Qed.

(** The pair, then the lone left frame a millisecond after it is due. *)
Lemma StereoFramePairer_run_witness :
  exists evs,
    ref_run sample_config sample_ops ([], []) = (evs, queues sample_outcome.2) /\
    evs = [EvPair (mkPendingFrame 0 0 [1; -2]) (mkPendingFrame 80 1 [3]);
           EvFill kLeft (mkPendingFrame 500 2 [7]) (Expired 26000002)] /\
    length sample_outcome.1 = length (emissions evs).
Proof.
  destruct (StereoFramePairer_run sample_config sample_ops sample_outcome.1 sample_outcome.2
              (surjective_pairing _) sample_ops_ok) as (evs & Hr & _ & _ & Hl & _).
  exists evs. split_and!; [exact Hr| |exact Hl].
  vm_compute in Hr. injection Hr as <-. reflexivity.
Defined.
