(* ===== verification/StreamClient.v ===== *)
(** * The media stream client

    [src/media/stream_client.cc] and [include/osw/media/stream_client.h]: one
    bidirectional gRPC stream per media session.  Callers put frames and control
    messages into a bounded circular send ring, a writer thread drains it, a
    reader thread dispatches what the peer sends.  The gRPC library is outside
    the repository: what its calls return ([Write], [Read], [Finish], and
    whether the handshake met its deadline) are arguments, and the calls made on
    it are recorded in the order they are made.  The payloads of the generated
    messages that the client only forwards are types of the section.  Log lines
    and the time stamps they print are not modelled. *)

From S2P Require Import Prelude BoundedQueue AudioFrame.

Section StreamClient.
Context {Control Transcript AmdVerdict : Type}.

(** ** Messages and configuration *)

(** [grpc::Status::ok()]. *)
Definition Status_ok (s : Status) : bool := match st_code s with OK => true | _ => false end.

Record StreamConfig := mkStreamConfig {
  sc_channel_uuid : string;
  sc_tenant_id : string;
  sc_purpose : Z;
  sc_sample_rate_hz : Z;
  sc_channels : Z;
  sc_codec : Z;
  sc_side : Z;
  sc_traceparent : string;
  sc_start_message : string;
  sc_variables : gmap string string;
  half_close_writes_after_start : bool;
  send_ring_capacity_frames : nat }.

(** [FromModule] carries one of these payloads, or none. *)
Inductive FromModule :=
  | FMNotSet
  | FMStart (start : StreamConfig)
  | FMAudio (audio : ProtoAudioFrame)
  | FMControl (control : Control).

Inductive FromService :=
  | FSNotSet
  | FSReady (sample_rate_hz channels : Z) (server_stream_id : string)
  | FSAudio (audio : ProtoAudioFrame)
  | FSTranscript (t : Transcript)
  | FSAmd (v : AmdVerdict)
  | FSControl (c : Control)
  | FSVariables.

Definition has_audio (m : FromModule) : bool :=
  match m with FMAudio _ => true | _ => false end.

(** ** State *)

Record SendRing := mkSendRing {
  ring_ : list FromModule;
  ring_head_ : nat;
  ring_tail_ : nat;
  ring_count_ : nat }.

Record StreamClient := mkStreamClient {
  config_ : StreamConfig;
  send_ring : SendRing;
  ring_closed_ : bool;
  open_ : bool;
  writes_done_ : bool;
  stream_ : bool;
  final_status_ : Status;
  frames_sent_ : Z;
  frames_dropped_ : Z;
  seq_counter_ : Z;
  ts_counter_ : Z;
  agreed_sample_rate_hz_ : Z;
  agreed_channels_ : Z;
  server_stream_id_ : string }.

(** The constructor: [ring_.resize(max(1, capacity))]. *)
Definition StreamClient_new (config : StreamConfig) : StreamClient :=
  mkStreamClient config
    (mkSendRing (replicate (Nat.max 1 (send_ring_capacity_frames config)) FMNotSet) 0 0 0)
    false false false false Status_OK 0 0 0 0 0 1 "".

Definition with_ring (r : SendRing) (dropped : Z) (c : StreamClient) : StreamClient :=
  mkStreamClient (config_ c) r (ring_closed_ c) (open_ c) (writes_done_ c) (stream_ c)
    (final_status_ c) (frames_sent_ c) dropped (seq_counter_ c) (ts_counter_ c)
    (agreed_sample_rate_hz_ c) (agreed_channels_ c) (server_stream_id_ c).

Definition with_flags (closed opened writes_done stream : bool) (c : StreamClient) : StreamClient :=
  mkStreamClient (config_ c) (send_ring c) closed opened writes_done stream
    (final_status_ c) (frames_sent_ c) (frames_dropped_ c) (seq_counter_ c) (ts_counter_ c)
    (agreed_sample_rate_hz_ c) (agreed_channels_ c) (server_stream_id_ c).

Definition with_sent (sent : Z) (c : StreamClient) : StreamClient :=
  mkStreamClient (config_ c) (send_ring c) (ring_closed_ c) (open_ c) (writes_done_ c) (stream_ c)
    (final_status_ c) sent (frames_dropped_ c) (seq_counter_ c) (ts_counter_ c)
    (agreed_sample_rate_hz_ c) (agreed_channels_ c) (server_stream_id_ c).

Definition with_final (s : Status) (c : StreamClient) : StreamClient :=
  mkStreamClient (config_ c) (send_ring c) (ring_closed_ c) (open_ c) (writes_done_ c) (stream_ c)
    s (frames_sent_ c) (frames_dropped_ c) (seq_counter_ c) (ts_counter_ c)
    (agreed_sample_rate_hz_ c) (agreed_channels_ c) (server_stream_id_ c).

Definition with_counters (seq ts : Z) (c : StreamClient) : StreamClient :=
  mkStreamClient (config_ c) (send_ring c) (ring_closed_ c) (open_ c) (writes_done_ c) (stream_ c)
    (final_status_ c) (frames_sent_ c) (frames_dropped_ c) seq ts
    (agreed_sample_rate_hz_ c) (agreed_channels_ c) (server_stream_id_ c).

Definition with_agreed (rate channels : Z) (sid : string) (c : StreamClient) : StreamClient :=
  mkStreamClient (config_ c) (send_ring c) (ring_closed_ c) (open_ c) (writes_done_ c) (stream_ c)
    (final_status_ c) (frames_sent_ c) (frames_dropped_ c) (seq_counter_ c) (ts_counter_ c)
    rate channels sid.

(** ** The send ring *)

(** The array part of [RingPushLocked]: the slot of a dropped entry is left as
    it is.  The flag says that the oldest entry was dropped. *)
Definition SendRing_push (entry : FromModule) (r : SendRing) : SendRing * bool :=
  let size := length (ring_ r) in
  let full := (ring_count_ r =? size)%nat in
  let r1 := if full
            then mkSendRing (ring_ r) (ring_head_ r) ((ring_tail_ r + 1) mod size)%nat
                   (ring_count_ r - 1)%nat
            else r in
  (mkSendRing (<[ring_head_ r1 := entry]> (ring_ r1)) ((ring_head_ r1 + 1) mod size)%nat
     (ring_tail_ r1) (ring_count_ r1 + 1)%nat, full).

Definition RingPushLocked (entry : FromModule) (c : StreamClient) : StreamClient * bool :=
  let '(r, dropped) := SendRing_push entry (send_ring c) in
  (with_ring r (if dropped then frames_dropped_ c +u64 1 else frames_dropped_ c) c, dropped).

Definition SendRing_pop (r : SendRing) : option (FromModule * SendRing) :=
  if (ring_count_ r =? 0)%nat then None
  else Some (default FMNotSet (ring_ r !! ring_tail_ r),
             mkSendRing (ring_ r) (ring_head_ r) ((ring_tail_ r + 1) mod length (ring_ r))%nat
               (ring_count_ r - 1)%nat).

Definition RingPopLocked (c : StreamClient) : option (FromModule * StreamClient) :=
  '(e, r) ← SendRing_pop (send_ring c); Some (e, with_ring r (frames_dropped_ c) c).

(** ** The calls of the producers *)

(** Result: the returned flag and the client. *)
Definition SendAudio (frame : AudioFrame) (c : StreamClient) : bool * StreamClient :=
  if sample_count frame =? 0 then (false, c)
  else
    let entry := FMAudio (ToProto frame) in
    if ring_closed_ c then (false, c)
    else let '(c', dropped) := RingPushLocked entry c in (negb dropped, c').

Definition SendControl (msg : Control) (c : StreamClient) : StreamClient :=
  let entry := FMControl msg in
  if ring_closed_ c then c else (RingPushLocked entry c).1.

Definition NextSeq (c : StreamClient) : Z * StreamClient :=
  (seq_counter_ c, with_counters (seq_counter_ c +u64 1) (ts_counter_ c) c).

Definition AdvanceTimestamp (samples : Z) (c : StreamClient) : Z * StreamClient :=
  (ts_counter_ c, with_counters (seq_counter_ c) (ts_counter_ c +u64 samples) c).

(** ** Calls on the gRPC stream *)

Inductive wire_call :=
  | CallWrite (m : FromModule) (ok : bool)
  | CallWritesDone
  | CallFinish
  | CallTryCancel.

(** ** Open *)

(** What the peer and the library did during the handshake: [start_ok] is the
    result of [Write(StreamStart)], [reply] of [Read], [finish] of [Finish],
    [late] whether [wait_for] timed out. *)
Record handshake := mkHandshake {
  hs_write_ok : bool;
  hs_reply : option FromService;
  hs_finish : Status;
  hs_late : bool }.

(** The body of the handshake thread: the status, the ready message, the client
    and the calls. *)
Definition handshake_thread (h : handshake) (c : StreamClient)
  : Status * option (Z * Z * string) * StreamClient * list wire_call :=
  let start := CallWrite (FMStart (config_ c)) (hs_write_ok h) in
  if negb (hs_write_ok h)
  then (if Status_ok (hs_finish h) then mkStatus UNAVAILABLE "Write(StreamStart) failed"
        else hs_finish h, None, c, [start; CallFinish])
  else
    match hs_reply h with
    | None => (if Status_ok (hs_finish h) then mkStatus UNAVAILABLE "no StreamReady received"
               else hs_finish h, None, c, [start; CallFinish])
    | Some (FSReady rate ch sid) =>
        if half_close_writes_after_start (config_ c)
        then (Status_OK, Some (rate, ch, sid),
              with_flags true (open_ c) true (stream_ c) c, [start; CallWritesDone])
        else (Status_OK, Some (rate, ch, sid), c, [start])
    | Some _ => (mkStatus INTERNAL "first server message was not StreamReady", None, c, [start])
    end.

(** [Open]; [stream_made] is whether [stub_->Stream] returned a stream.  The
    last component says whether the writer thread was started. *)
Definition Open (stream_made : bool) (h : handshake) (c : StreamClient)
  : Status * StreamClient * list wire_call * bool :=
  if open_ c then (Status_OK, c, [], false)
  else
    let c0 := with_agreed (agreed_sample_rate_hz_ c) (agreed_channels_ c) "" c in
    if negb stream_made
    then (mkStatus INTERNAL "stub->Stream returned null",
          with_flags (ring_closed_ c0) false (writes_done_ c0) false c0, [], false)
    else
      let c1 := with_flags (ring_closed_ c0) false (writes_done_ c0) true c0 in
      let '(st, ready, c2, calls) := handshake_thread h c1 in
      let st' := if hs_late h
                 then mkStatus DEADLINE_EXCEEDED "Open handshake exceeded open_deadline_ms"
                 else st in
      let calls' := if hs_late h then calls ++ [CallTryCancel] else calls in
      match Status_ok st', ready with
      | true, Some (rate, ch, sid) =>
          let c3 := with_agreed rate ch sid c2 in
          (Status_OK, with_flags (ring_closed_ c3) true (writes_done_ c3) true c3, calls',
           negb (half_close_writes_after_start (config_ c3)))
      | _, _ =>
          (st', with_flags (ring_closed_ c2) false (writes_done_ c2) false c2, calls', false)
      end.

(** ** The writer thread *)

(** Where the writer is: waiting on the ring, holding a popped entry, or gone. *)
Inductive writer_pc := WWaiting | WHolding (entry : FromModule) | WExited (write_failed : bool).

Definition WritesDoneOnce (c : StreamClient) : StreamClient * list wire_call :=
  if writes_done_ c || negb (stream_ c) then (c, [])
  else (with_flags (ring_closed_ c) (open_ c) true (stream_ c) c, [CallWritesDone]).

(** The predicate of the wait. *)
Definition writer_wakes (c : StreamClient) : bool :=
  (0 <? ring_count_ (send_ring c))%nat || ring_closed_ c.

(** The critical section: pop an entry, or leave the loop. *)
Definition WriterLoop_pop (c : StreamClient) : writer_pc * StreamClient * list wire_call :=
  match RingPopLocked c with
  | None => let '(c', calls) := WritesDoneOnce c in (WExited false, c', calls)
  | Some (e, c') => (WHolding e, c', [])
  end.

(** [stream_->Write(entry.msg)] and what follows. *)
Definition WriterLoop_write (e : FromModule) (ok : bool) (c : StreamClient)
  : writer_pc * StreamClient * list wire_call :=
  if negb ok then (WExited true, c, [CallWrite e false])
  else (WWaiting, if has_audio e then with_sent (frames_sent_ c +u64 1) c else c, [CallWrite e true]).

(** The writer alone, against the results of its writes (true once they run
    out). *)
Fixpoint WriterLoop (fuel : nat) (w : writer_pc) (writes : list bool) (c : StreamClient)
  : option (writer_pc * StreamClient * list wire_call) :=
  match w with
  | WExited _ => Some (w, c, [])
  | _ =>
    match fuel with
    | O => None
    | S fuel' =>
        match w with
        | WWaiting =>
            if negb (writer_wakes c) then None
            else
              let '(w', c', calls) := WriterLoop_pop c in
              '(w2, c2, calls2) ← WriterLoop fuel' w' writes c'; Some (w2, c2, calls ++ calls2)
        | WHolding e =>
            let '(w', c', calls) := WriterLoop_write e (default true (head writes)) c in
            '(w2, c2, calls2) ← WriterLoop fuel' w' (tail writes) c'; Some (w2, c2, calls ++ calls2)
        | WExited _ => Some (w, c, [])
        end
    end
  end.

(** ** The reader thread *)

Inductive callback_call :=
  | OnAudio (f : AudioFrame)
  | OnTranscript (t : Transcript)
  | OnAmd (v : AmdVerdict)
  | OnControl (c : Control)
  | OnDone (s : Status).

(** Which callbacks are set. *)
Record StreamCallbacks := mkStreamCallbacks {
  on_audio : bool; on_transcript : bool; on_amd : bool; on_control : bool; on_done : bool }.

(** One message: the callbacks made, or [None] when [FromProto] terminates the
    process. *)
Definition ReaderLoop_dispatch (cb : StreamCallbacks) (c : StreamClient) (m : FromService)
  : option (list callback_call) :=
  match m with
  | FSAudio audio =>
      if on_audio cb
      then match FromProto audio (agreed_sample_rate_hz_ c) (agreed_channels_ c) with
           | Frame f => Some [OnAudio f]
           | Nullopt => Some []
           | Terminates => None
           end
      else Some []
  | FSTranscript t => Some (if on_transcript cb then [OnTranscript t] else [])
  | FSAmd v => Some (if on_amd cb then [OnAmd v] else [])
  | FSControl x => Some (if on_control cb then [OnControl x] else [])
  | FSReady _ _ _ | FSVariables | FSNotSet => Some []
  end.

(** [msgs] are the messages [Read] returned before it returned false. *)
Fixpoint ReaderLoop (cb : StreamCallbacks) (c : StreamClient) (msgs : list FromService) (finish : Status)
  : option (list callback_call * StreamClient * list wire_call) :=
  match msgs with
  | [] => Some (if on_done cb then [OnDone finish] else [], with_final finish c, [CallFinish])
  | m :: msgs' =>
      calls ← ReaderLoop_dispatch cb c m;
      '(calls', c', w) ← ReaderLoop cb c msgs' finish;
      Some (calls ++ calls', c', w)
  end.

(** ** Close *)

(** The first critical sections of [Close]; [None] when the client is not open
    and the final status is returned at once. *)
Definition Close_begin (c : StreamClient) : option StreamClient :=
  if negb (open_ c) then None else Some (with_flags true false (writes_done_ c) (stream_ c) c).

(** After the joins: [stream_.reset()] and the returned status; [late] says that
    the reader was still running after the drain timeout. *)
Definition Close_end (late : bool) (c : StreamClient) : Status * StreamClient * list wire_call :=
  (final_status_ c, with_flags (ring_closed_ c) (open_ c) (writes_done_ c) false c,
   if late then [CallTryCancel] else []).
End StreamClient.

Arguments FromModule : clear implicits.
Arguments FromService : clear implicits.
Arguments SendRing : clear implicits.
Arguments StreamClient : clear implicits.
Arguments wire_call : clear implicits.
Arguments writer_pc : clear implicits.
Arguments callback_call : clear implicits.
Arguments handshake : clear implicits.

(** ** The send ring is a bounded drop-oldest queue *)

Section SendRingFifo.
Context {Control : Type}.
Implicit Types r : SendRing Control.

Definition SendRing_inv r : Prop := circ_wf (ring_ r) (ring_head_ r) (ring_tail_ r) (ring_count_ r).

Definition SendRing_contents r : list (FromModule Control) :=
  circ_contents (ring_ r) (ring_tail_ r) (ring_count_ r).

#[export] Instance SendRing_fifo : DropOldestFifo (SendRing Control) (FromModule Control) := {|
  fifo_inv := SendRing_inv;
  fifo_capacity := fun r => length (ring_ r);
  fifo_contents := SendRing_contents;
  fifo_push := SendRing_push;
  fifo_pop := SendRing_pop |}.

Lemma SendRing_contents_length r : SendRing_inv r -> length (SendRing_contents r) = ring_count_ r.
Proof. intros (Ht & _). apply circ_contents_length. lia. Qed.

Lemma SendRing_push_room r e :
  SendRing_inv r -> (ring_count_ r < length (ring_ r))%nat ->
  SendRing_inv (SendRing_push e r).1 /\
  SendRing_contents (SendRing_push e r).1 = SendRing_contents r ++ [e] /\
  (SendRing_push e r).2 = false /\
  length (ring_ (SendRing_push e r).1) = length (ring_ r).
Proof.
  intros Hw Hlt. unfold SendRing_push, SendRing_inv, SendRing_contents.
  rewrite (proj2 (Nat.eqb_neq _ _)) by lia. cbn [fst snd ring_ ring_head_ ring_tail_ ring_count_].
  destruct (circ_push _ _ _ _ e Hw Hlt) as [Hw' Hc].
  rewrite (Nat.add_1_r (ring_count_ r)), Hc, length_insert. done.
Qed.

Lemma SendRing_pop_some r :
  SendRing_inv r -> (0 < ring_count_ r)%nat ->
  exists e r', SendRing_pop r = Some (e, r') /\
    SendRing_contents r = e :: SendRing_contents r' /\ SendRing_inv r' /\
    length (ring_ r') = length (ring_ r) /\ ring_count_ r = S (ring_count_ r').
Proof.
  intros Hw Hc. destruct (ring_count_ r) as [|n] eqn:En; [lia|].
  unfold SendRing_inv in Hw. rewrite En in Hw.
  destruct (circ_pop _ _ _ _ Hw) as (e & He & Hq & Hw').
  eexists e, _. unfold SendRing_pop. rewrite En, He. split; [done|].
  unfold SendRing_contents, SendRing_inv. cbn [ring_ ring_head_ ring_tail_ ring_count_].
  rewrite En, Nat.sub_1_r. done.
Qed.

(** Pushing on a full ring is popping, then pushing. *)
Lemma SendRing_push_full r e x r' :
  SendRing_inv r -> ring_count_ r = length (ring_ r) -> SendRing_pop r = Some (x, r') ->
  SendRing_push e r = ((SendRing_push e r').1, true).
Proof.
  intros (Ht & _) Hc Hp. unfold SendRing_pop in Hp. unfold SendRing_push.
  rewrite (proj2 (Nat.eqb_neq (ring_count_ r) 0)) in Hp by lia. simplify_eq.
  cbn [ring_ ring_head_ ring_tail_ ring_count_]. rewrite Hc, Nat.eqb_refl.
  rewrite (proj2 (Nat.eqb_neq _ _)) by lia. done.
Qed.

#[export] Instance SendRing_fifo_laws : DropOldestFifoLaws (SendRing Control) (FromModule Control).
Proof.
  split; unfold fifo_inv, fifo_capacity, fifo_contents, fifo_push, fifo_pop, SendRing_fifo.
  - intros s Hi. rewrite SendRing_contents_length by done. apply Hi.
  - intros s e Hi Hlt. rewrite SendRing_contents_length in Hlt by done.
    destruct (SendRing_push_room s e Hi Hlt) as (_ & ? & ? & _). done.
  - intros s e x l Hi Hq Hlen. rewrite <- Hq, SendRing_contents_length in Hlen by done.
    destruct (SendRing_pop_some s Hi ltac:(destruct Hi; lia)) as (y & r' & Hp & Hc & Hi' & Hl & Hn).
    rewrite (SendRing_push_full s e y r') by done.
    destruct (SendRing_push_room r' e Hi' ltac:(lia)) as (_ & Hr & _). cbn [fst snd].
    rewrite Hr. rewrite Hq in Hc. by simplify_eq.
  - intros s (Ht & _). lia.
  - intros s e Hi. destruct (decide (ring_count_ s = length (ring_ s))) as [He|Hne].
    + destruct (SendRing_pop_some s Hi ltac:(destruct Hi; lia)) as (y & r' & Hp & Hc & Hi' & Hl & Hn).
      rewrite (SendRing_push_full s e y r') by done.
      destruct (SendRing_push_room r' e Hi' ltac:(lia)) as (? & _ & _ & ?). cbn [fst snd].
      split; [done|lia].
    + pose proof Hi as (_ & Hc & _).
      destruct (SendRing_push_room s e Hi ltac:(lia)) as (? & _ & _ & ?). done.
  - intros s Hi Hq. pose proof (SendRing_contents_length s Hi) as Hn. rewrite Hq in Hn.
    unfold SendRing_pop. by rewrite <- Hn.
  - intros s x l Hi Hq. pose proof (SendRing_contents_length s Hi) as Hn. rewrite Hq in Hn.
    simpl in Hn. destruct (SendRing_pop_some s Hi ltac:(lia)) as (y & r' & Hp & Hc & Hi' & Hl & _).
    rewrite Hq in Hc. simplify_eq. by exists r'.
Qed.
End SendRingFifo.

(** ** Producers, writer and close, interleaved *)

Section Interleaving.
Context {Control : Type}.

Record session := mkSession {
  s_client : StreamClient Control;
  s_writer : writer_pc Control;
  s_calls : list (wire_call Control) }.

(** One critical section or one gRPC call of one thread. *)
Inductive session_label :=
  | LSendAudio (f : AudioFrame)
  | LSendControl (m : Control)
  | LClose
  | LWriterPop
  | LWriterWrite (ok : bool).

(** The step and the messages it put in the ring; [None] when the thread cannot
    move. *)
Definition session_step (s : session) (l : session_label)
  : option (list (FromModule Control) * session) :=
  let c := s_client s in
  match l with
  | LSendAudio f =>
      let '(_, c') := SendAudio f c in
      Some (if (sample_count f =? 0) || ring_closed_ c then [] else [FMAudio (ToProto f)],
            mkSession c' (s_writer s) (s_calls s))
  | LSendControl m =>
      Some (if ring_closed_ c then [] else [FMControl m],
            mkSession (SendControl m c) (s_writer s) (s_calls s))
  | LClose => Some ([], mkSession (default c (Close_begin c)) (s_writer s) (s_calls s))
  | LWriterPop =>
      match s_writer s with
      | WWaiting =>
          if writer_wakes c
          then let '(w, c', calls) := WriterLoop_pop c in
               Some ([], mkSession c' w (s_calls s ++ calls))
          else None
      | _ => None
      end
  | LWriterWrite ok =>
      match s_writer s with
      | WHolding e =>
          let '(w, c', calls) := WriterLoop_write e ok c in
          Some ([], mkSession c' w (s_calls s ++ calls))
      | _ => None
      end
  end.

Fixpoint session_run (s : session) (ls : list session_label)
  : option (list (FromModule Control) * session) :=
  match ls with
  | [] => Some ([], s)
  | l :: ls' =>
      '(acc, s1) ← session_step s l;
      '(acc', s2) ← session_run s1 ls'; Some (acc ++ acc', s2)
  end.

(** ** Where every accepted message is *)

Definition audio_count (l : list (FromModule Control)) : Z :=
  foldr (fun m n => if has_audio m then 1 + n else n) 0 l.

(** [ws] were written; the rest of the calls and what is in flight depend on
    where the writer is. *)
Definition writer_tail (w : writer_pc Control) : list (wire_call Control) :=
  match w with
  | WWaiting | WHolding _ => []
  | WExited true => []
  | WExited false => [CallWritesDone]
  end.

Definition in_flight (w : writer_pc Control) : list (FromModule Control) :=
  match w with WHolding e => [e] | _ => [] end.

(** The message a failed write lost, if the writer left by a failed write. *)
Definition failed_call (w : writer_pc Control) (lost : list (FromModule Control))
  : list (wire_call Control) :=
  match w with WExited true => (fun m => CallWrite m false) <$> lost | _ => [] end.

Record session_inv (cap : nat) (acc : list (FromModule Control)) (s : session)
  (rem : list (removal * FromModule Control)) (ws lost : list (FromModule Control)) : Prop := {
  si_ring : SendRing_inv (send_ring (s_client s));
  si_cap : length (ring_ (send_ring (s_client s))) = cap;
  si_acc : acc = rem.*2 ++ SendRing_contents (send_ring (s_client s));
  si_popped : popped rem = ws ++ lost ++ in_flight (s_writer s);
  si_calls : s_calls s = ((fun m => CallWrite m true) <$> ws) ++ failed_call (s_writer s) lost
                           ++ writer_tail (s_writer s);
  si_lost : match s_writer s with WExited true => length lost = 1%nat | _ => lost = [] end;
  si_dropped : frames_dropped_ (s_client s) = u64 (evictions rem);
  si_sent : frames_sent_ (s_client s) = u64 (audio_count ws);
  si_stream : stream_ (s_client s) = true;
  si_done : writes_done_ (s_client s) = match s_writer s with WExited false => true | _ => false end;
  si_exit : s_writer s = WExited false ->
            ring_closed_ (s_client s) = true /\ ring_count_ (send_ring (s_client s)) = 0%nat }.

Lemma audio_count_app a b : audio_count (a ++ b) = audio_count a + audio_count b.
Proof. induction a as [|m a IH]; simpl; [done|]. rewrite IH. case_match; lia. Qed.

(** A push that is let in. *)
Lemma RingPushLocked_inv cap acc s rem ws lost e c' d :
  session_inv cap acc s rem ws lost -> ring_closed_ (s_client s) = false ->
  RingPushLocked e (s_client s) = (c', d) ->
  exists rem', session_inv cap (acc ++ [e]) (mkSession c' (s_writer s) (s_calls s)) rem' ws lost /\
    d = bool_decide (length (SendRing_contents (send_ring (s_client s))) = cap).
Proof.
  intros [Hr Hc Ha Hp Hw Hl Hd Hs Hst Hdn He] Hcl Hpush. unfold RingPushLocked in Hpush.
  destruct (SendRing_push e (send_ring (s_client s))) as [r d'] eqn:Er. simplify_eq.
  set (q := SendRing_contents (send_ring (s_client s))) in *.
  assert (exists ev, fifo_step (send_ring (s_client s)) (FPush e) = (r, (fun x => (Evicted, x)) <$> ev) /\
            d = bool_decide (length q = length (ring_ (send_ring (s_client s)))) /\
            length ev = if d then 1%nat else 0%nat) as (ev & Hf & Hdd & Hev).
  { cbn [fifo_step fifo_push SendRing_fifo fifo_contents]. rewrite Er. fold q.
    assert (d = (ring_count_ (send_ring (s_client s)) =? length (ring_ (send_ring (s_client s))))%nat) as ->
      by (unfold SendRing_push in Er; by simplify_eq).
    unfold q at 2 3. rewrite SendRing_contents_length by done.
    destruct (_ =? _)%nat eqn:E; b2p.
    - pose proof (SendRing_contents_length _ Hr) as Hn. fold q in Hn.
      destruct q as [|x q']; [destruct Hr; simpl in Hn; lia|].
      exists [x]. by rewrite bool_decide_true.
    - exists []. by rewrite bool_decide_false. }
  pose proof (fifo_step_conserves (send_ring (s_client s)) (FPush e) r
                ((fun x => (Evicted, x)) <$> ev)) as Hcs.
  destruct (Hcs Hr Hf) as (Hr' & Hc' & Hq & _). cbn in Hc', Hq.
  exists (rem ++ ((fun x => (Evicted, x)) <$> ev)). split; [|done].
  pose proof (popped_evicted ev) as Hpe.
  pose proof (evictions_evicted ev) as Hee.
  split; cbn [s_client s_writer s_calls send_ring with_ring frames_dropped_ frames_sent_ stream_
    writes_done_ ring_closed_]; try done.
  - rewrite fmap_app, <- !app_assoc. f_equal. exact Hq.
  - by rewrite popped_app, Hpe, app_nil_r.
  - rewrite evictions_app, Hee, Hev, Hd. destruct d; [by rewrite u64_add_l|].
    by rewrite Z.add_0_r.
  - intros Hx. apply He in Hx as [Hx _]. congruence.
Qed.

Lemma WriterLoop_pop_inv cap acc s rem ws lost w c' calls :
  session_inv cap acc s rem ws lost -> s_writer s = WWaiting -> writer_wakes (s_client s) = true ->
  WriterLoop_pop (s_client s) = (w, c', calls) ->
  exists rem', session_inv cap acc (mkSession c' w (s_calls s ++ calls)) rem' ws lost /\
    (SendRing_contents (send_ring c') = tail (SendRing_contents (send_ring (s_client s)))) /\
    ring_closed_ c' = ring_closed_ (s_client s) /\
    match SendRing_contents (send_ring (s_client s)) with
    | [] => w = WExited false | e :: _ => w = WHolding e end.
Proof.
  intros [Hr Hc Ha Hp Hw Hl Hd Hs Hst Hdn He] Hwt Hwk Hpop. rewrite Hwt in *. cbn in Hl, Hp, Hw.
  subst lost. rewrite ?app_nil_r in Hp, Hw. cbn in Hp. rewrite ?app_nil_r in Hp.
  unfold WriterLoop_pop, RingPopLocked in Hpop.
  destruct (decide (ring_count_ (send_ring (s_client s)) = 0%nat)) as [H0|Hn0].
  - assert (SendRing_pop (send_ring (s_client s)) = None) as Hnone
      by (unfold SendRing_pop; by rewrite H0).
    pose proof (SendRing_contents_length _ Hr) as Hlen. rewrite H0 in Hlen.
    apply nil_length_inv in Hlen.
    rewrite Hnone in Hpop. cbn in Hpop. unfold WritesDoneOnce in Hpop. rewrite Hdn, Hst in Hpop.
    cbn in Hpop. simplify_eq. exists rem. rewrite Hlen.
    unfold writer_wakes in Hwk. rewrite H0 in Hwk. cbn in Hwk.
    split; [|cbn; by rewrite Hlen].
    split; cbn; rewrite ?Hlen, ?app_nil_r; try done. by rewrite Hw.
  - destruct (SendRing_pop_some _ Hr ltac:(lia)) as (e & r' & Hsp & Hq & Hr' & Hlen & Hcnt).
    rewrite Hsp in Hpop. cbn in Hpop. simplify_eq. exists (rem ++ [(Popped, e)]). rewrite Hq.
    split; [|done]. split; cbn; rewrite ?app_nil_r; try done.
    + rewrite ?Hq, fmap_app, <- app_assoc. done.
    + rewrite popped_app. done.
    + rewrite evictions_app. cbn. by rewrite Z.add_0_r.
Qed.

Lemma WriterLoop_write_inv cap acc s rem ws lost e ok w c' calls :
  session_inv cap acc s rem ws lost -> s_writer s = WHolding e ->
  WriterLoop_write e ok (s_client s) = (w, c', calls) ->
  exists ws' lost', session_inv cap acc (mkSession c' w (s_calls s ++ calls)) rem ws' lost' /\
    send_ring c' = send_ring (s_client s) /\ ring_closed_ c' = ring_closed_ (s_client s) /\
    w = (if ok then WWaiting else WExited true).
Proof.
  intros [Hr Hc Ha Hp Hw Hl Hd Hs Hst Hdn He] Hwt Hwr. rewrite Hwt in *. cbn in Hl, Hp, Hw.
  subst lost. rewrite ?app_nil_r in Hw.
  unfold WriterLoop_write in Hwr. destruct ok; cbn [negb] in Hwr; simplify_eq.
  - exists (ws ++ [e]), [].
    set (c' := if has_audio e then _ else _).
    assert (send_ring c' = send_ring (s_client s) /\ frames_dropped_ c' = frames_dropped_ (s_client s) /\
            stream_ c' = stream_ (s_client s) /\ writes_done_ c' = writes_done_ (s_client s) /\
            ring_closed_ c' = ring_closed_ (s_client s) /\
            frames_sent_ c' = u64 (audio_count (ws ++ [e])))
      as (E1 & E2 & E3 & E4 & E5 & E6).
    { unfold c'. rewrite audio_count_app. cbn. destruct (has_audio e); cbn; split_and!; try done.
      - by rewrite Hs, u64_add_l.
      - by rewrite Hs, Z.add_0_r. }
    split; [|by rewrite E1, E5].
    split; cbn; rewrite ?E1, ?E2, ?E3, ?E4, ?E5, ?E6, ?app_nil_r; try done.
    by rewrite Hw, fmap_app.
  - exists ws, [e]. split; [|done].
    split; cbn; rewrite ?app_nil_r; try done. by rewrite Hw.
Qed.

Lemma session_step_inv cap acc s rem ws lost l new s' :
  session_inv cap acc s rem ws lost -> session_step s l = Some (new, s') ->
  exists rem' ws' lost', session_inv cap (acc ++ new) s' rem' ws' lost'.
Proof.
  intros Hi Hs. destruct l as [f|m| | |ok]; cbn [session_step] in Hs.
  - unfold SendAudio in Hs. destruct (sample_count f =? 0) eqn:E0; cbn [orb] in Hs.
    { simplify_eq. rewrite app_nil_r. exists rem, ws, lost. by destruct s. }
    destruct (ring_closed_ (s_client s)) eqn:Ec.
    { simplify_eq. rewrite app_nil_r. exists rem, ws, lost. by destruct s. }
    destruct (RingPushLocked _ _) as [c' d] eqn:Ep. simplify_eq.
    destruct (RingPushLocked_inv _ _ _ _ _ _ _ _ _ Hi Ec Ep) as (rem' & Hi' & _). eauto.
  - unfold SendControl in Hs. destruct (ring_closed_ (s_client s)) eqn:Ec.
    { simplify_eq. rewrite app_nil_r. exists rem, ws, lost. by destruct s. }
    destruct (RingPushLocked _ _) as [c' d] eqn:Ep. simplify_eq.
    destruct (RingPushLocked_inv _ _ _ _ _ _ _ _ _ Hi Ec Ep) as (rem' & Hi' & _). eauto.
  - simplify_eq. rewrite app_nil_r. exists rem, ws, lost. unfold Close_begin.
    destruct (open_ (s_client s)); cbn; [|by destruct s].
    destruct Hi as [Hr Hc Ha Hp Hw Hl Hd Hst Hsm Hdn He]. split; cbn; try done.
    intros Hx. split; [done|]. by apply He.
  - destruct (s_writer s) eqn:Ew; [|done..].
    destruct (writer_wakes (s_client s)) eqn:Ewk; [|done].
    destruct (WriterLoop_pop (s_client s)) as [[w c'] calls] eqn:Ep. simplify_eq. rewrite app_nil_r.
    destruct (WriterLoop_pop_inv _ _ _ _ _ _ _ _ _ Hi Ew Ewk Ep) as (rem' & Hi' & _). eauto.
  - destruct (s_writer s) eqn:Ew; [done| |done].
    destruct (WriterLoop_write entry ok (s_client s)) as [[w c'] calls] eqn:Ep.
    simplify_eq. rewrite app_nil_r.
    destruct (WriterLoop_write_inv _ _ _ _ _ _ _ _ _ _ _ Hi Ew Ep) as (ws' & lost' & Hi' & _). eauto.
Qed.

Lemma session_run_inv ls : forall cap acc s rem ws lost new s',
  session_inv cap acc s rem ws lost -> session_run s ls = Some (new, s') ->
  exists rem' ws' lost', session_inv cap (acc ++ new) s' rem' ws' lost'.
Proof.
  induction ls as [|l ls IH]; intros cap acc s rem ws lost new s' Hi Hr; cbn [session_run] in Hr.
  { simplify_eq. rewrite app_nil_r. eauto. }
  destruct (session_step s l) as [[a s1]|] eqn:E1; [|done]. cbn in Hr.
  destruct (session_run s1 ls) as [[a' s2]|] eqn:E2; [|done]. cbn in Hr. simplify_eq.
  destruct (session_step_inv _ _ _ _ _ _ _ _ _ Hi E1) as (? & ? & ? & Hi1).
  rewrite app_assoc. by eapply IH.
Qed.

(** ** The writer drains a closed ring *)

Definition ok_writes (l : list (FromModule Control)) : list (wire_call Control) :=
  (fun m => CallWrite m true) <$> l.

Lemma WriterLoop_drain_waiting : forall n cap acc s rem ws lost,
  session_inv cap acc s rem ws lost -> s_writer s = WWaiting -> ring_closed_ (s_client s) = true ->
  length (SendRing_contents (send_ring (s_client s))) = n ->
  exists c', WriterLoop (2 * n + 1) WWaiting [] (s_client s) =
    Some (WExited false, c', ok_writes (SendRing_contents (send_ring (s_client s))) ++ [CallWritesDone]).
Proof.
  induction n as [|n IH]; intros cap acc s rem ws lost Hi Hw Hc Hn.
  - destruct (WriterLoop_pop (s_client s)) as [[w c'] calls] eqn:Ep.
    assert (writer_wakes (s_client s) = true) as Hwk by (unfold writer_wakes; by rewrite Hc, orb_true_r).
    destruct (WriterLoop_pop_inv _ _ _ _ _ _ _ _ _ Hi Hw Hwk Ep) as (rem' & Hi' & _ & _ & Hcase).
    apply nil_length_inv in Hn. rewrite Hn in *. subst w. exists c'.
    cbn [Nat.mul Nat.add WriterLoop]. rewrite Hwk, Ep. cbn.
    pose proof (si_calls _ _ _ _ _ _ Hi') as E1. pose proof (si_calls _ _ _ _ _ _ Hi) as E2.
    rewrite Hw in E2. cbn in E1, E2. rewrite app_nil_r, E2 in *.
    apply app_inv_head in E1. by subst calls.
  - replace (2 * S n + 1)%nat with (S (S (2 * n + 1))) by lia.
    destruct (WriterLoop_pop (s_client s)) as [[w c'] calls] eqn:Ep.
    assert (writer_wakes (s_client s) = true) as Hwk by (unfold writer_wakes; by rewrite Hc, orb_true_r).
    destruct (WriterLoop_pop_inv _ _ _ _ _ _ _ _ _ Hi Hw Hwk Ep) as (rem' & Hi' & Ht & Hcl & Hcase).
    destruct (SendRing_contents (send_ring (s_client s))) as [|e q] eqn:Eq; [done|]. subst w.
    assert (calls = []) as ->.
    { pose proof (si_calls _ _ _ _ _ _ Hi') as E1. pose proof (si_calls _ _ _ _ _ _ Hi) as E2.
      rewrite Hw in E2. cbn in E1, E2. rewrite E2, <- app_assoc in E1.
      apply app_inv_head in E1. by destruct lost. }
    destruct (WriterLoop_write e true c') as [[w2 c2] calls2] eqn:Ew.
    destruct (WriterLoop_write_inv _ _ _ _ _ _ e true _ _ _ Hi' eq_refl Ew)
      as (ws' & lost' & Hi2 & Hr2 & Hc2 & Hw2). cbn in Hi2, Hr2, Hc2, Hw2, Ht.
    assert (calls2 = [CallWrite e true]) as -> by (unfold WriterLoop_write in Ew; cbn in Ew; by simplify_eq).
    subst w2. destruct (IH _ _ _ _ _ _ Hi2 eq_refl) as (c3 & Hd); [by cbn; rewrite Hc2, Hcl| |].
    { cbn. rewrite Hr2, Ht. simpl in Hn. lia. }
    exists c3. cbn [s_client tail] in Hd. rewrite Hr2, Ht in Hd. set (k := (2 * n + 1)%nat) in *.
    cbn [WriterLoop]. rewrite Hwk, Ep. cbn [head default tail]. rewrite Ew, Hd. done.
Qed.

Lemma WriterLoop_drain_holding cap acc s rem ws lost e :
  session_inv cap acc s rem ws lost -> s_writer s = WHolding e -> ring_closed_ (s_client s) = true ->
  exists c', WriterLoop (2 * length (SendRing_contents (send_ring (s_client s))) + 2)
               (WHolding e) [] (s_client s) =
    Some (WExited false, c',
          ok_writes (e :: SendRing_contents (send_ring (s_client s))) ++ [CallWritesDone]).
Proof.
  intros Hi Hw Hc. destruct (WriterLoop_write e true (s_client s)) as [[w2 c2] calls2] eqn:Ew.
  destruct (WriterLoop_write_inv _ _ _ _ _ _ e true _ _ _ Hi Hw Ew)
    as (ws' & lost' & Hi2 & Hr2 & Hc2 & Hw2).
  assert (calls2 = [CallWrite e true]) as -> by (unfold WriterLoop_write in Ew; cbn in Ew; by simplify_eq).
  subst w2.
  destruct (WriterLoop_drain_waiting (length (SendRing_contents (send_ring (s_client s))))
              _ _ _ _ _ _ Hi2 eq_refl) as (c3 & Hd).
  { cbn. by rewrite Hc2. } { cbn. by rewrite Hr2. }
  exists c3. cbn [s_client] in Hd. rewrite Hr2 in Hd.
  replace (2 * length (SendRing_contents (send_ring (s_client s))) + 2)%nat with
    (S (2 * length (SendRing_contents (send_ring (s_client s))) + 1)) by lia.
  set (k := (2 * length (SendRing_contents (send_ring (s_client s))) + 1)%nat) in *.
  cbn [WriterLoop head default tail]. rewrite Ew, Hd. done.
Qed.

(** ** The opened client *)

Lemma Open_inv {T A : Type} cfg (h : handshake Control T A) c0 calls :
  Open true h (StreamClient_new cfg) = (Status_OK, c0, calls, true) ->
  session_inv (Nat.max 1 (send_ring_capacity_frames cfg)) [] (mkSession c0 WWaiting []) [] [] [] /\
  ring_closed_ c0 = false.
Proof.
  unfold Open, handshake_thread. cbn [open_ StreamClient_new].
  intros H. assert (Hw : circ_wf (replicate (Nat.max 1 (send_ring_capacity_frames cfg))
                      (FMNotSet (Control:=Control))) 0 0 0)
    by (apply circ_wf_empty; rewrite length_replicate; lia).
  repeat (case_match; simplify_eq/=); try (b2p; congruence);
    (split; [split; cbn; try done; exact (length_replicate _ _)|done]).
Qed.

(** What the caller of [SendAudio] is told. *)
Lemma SendAudio_result cap acc s rem ws lost f :
  session_inv cap acc s rem ws lost ->
  (SendAudio f (s_client s)).1 =
    negb (sample_count f =? 0) && negb (ring_closed_ (s_client s)) &&
    negb (bool_decide (length (SendRing_contents (send_ring (s_client s))) = cap)).
Proof.
  intros Hi. unfold SendAudio. destruct (sample_count f =? 0); [done|].
  destruct (ring_closed_ (s_client s)) eqn:Ec; [done|].
  destruct (RingPushLocked _ _) as [c' d] eqn:Ep.
  destruct (RingPushLocked_inv _ _ _ _ _ _ _ _ _ Hi Ec Ep) as (_ & _ & ->). done.
Qed.

(** C6. Media written to a stream is neither reordered nor lost without being
    counted.  Take a client that a handshake opened for writing, and any
    interleaving of producers, the writer thread (pops and writes, each write
    succeeding or failing) and [Close].  The messages accepted are, in order,
    those that left the ring followed by those in it, never more than the
    capacity; those popped are, in order, the ones written successfully, the one
    a failed write lost, and the one the writer holds; [frames_dropped] and
    [frames_sent] count the evictions and the audio written; the calls on the
    stream are those writes in order, then at most one [WritesDone], made only
    when the ring is closed and empty; [SendAudio] returns true exactly when the
    frame is not empty, the ring is open and nothing had to be dropped; and once
    the ring is closed, the writer, if its writes succeed, writes everything that
    is left and half-closes within two steps per message. *)
Theorem StreamClient_delivers {T A : Type} cfg (h : handshake Control T A) c0 calls0 ls acc s :
  Open true h (StreamClient_new cfg) = (Status_OK, c0, calls0, true) ->
  session_run (mkSession c0 WWaiting []) ls = Some (acc, s) ->
  let cap := Nat.max 1 (send_ring_capacity_frames cfg) in
  let q := SendRing_contents (send_ring (s_client s)) in
  exists (rem : list (removal * FromModule Control)) ws lost,
    acc = rem.*2 ++ q /\ (length q <= cap)%nat /\
    popped rem = ws ++ lost ++ in_flight (s_writer s) /\
    s_calls s = ok_writes ws ++ failed_call (s_writer s) lost ++ writer_tail (s_writer s) /\
    length lost = (match s_writer s with WExited true => 1 | _ => 0 end)%nat /\
    frames_dropped_ (s_client s) = u64 (evictions rem) /\
    frames_sent_ (s_client s) = u64 (audio_count ws) /\
    (s_writer s = WExited false -> ring_closed_ (s_client s) = true /\ q = []) /\
    (forall f, (SendAudio f (s_client s)).1 =
       negb (sample_count f =? 0) && negb (ring_closed_ (s_client s)) &&
       negb (bool_decide (length q = cap))) /\
    (ring_closed_ (s_client s) = true -> (forall b, s_writer s <> WExited b) ->
     exists c', WriterLoop (2 * length q + 1 + length (in_flight (s_writer s)))
                  (s_writer s) [] (s_client s)
       = Some (WExited false, c', ok_writes (in_flight (s_writer s) ++ q) ++ [CallWritesDone])).
Proof.
  intros Ho Hr cap q. destruct (Open_inv _ _ _ _ Ho) as [Hi0 _].
  destruct (session_run_inv _ _ _ _ _ _ _ _ _ Hi0 Hr) as (rem & ws & lost & Hi).
  fold cap in Hi. exists rem, ws, lost. pose proof Hi as [H1 H2 H3 H4 H5 H6 H7 H8 H9 H10 H11].
  split_and!; try done.
  - unfold q. rewrite SendRing_contents_length by done. rewrite <- H2. apply H1.
  - destruct (s_writer s) as [| |[|]]; try done; by subst lost.
  - intros He. destruct (H11 He) as [Hcl H0]. split; [done|]. apply nil_length_inv. unfold q.
    by rewrite SendRing_contents_length.
  - intros f. by eapply SendAudio_result.
  - intros Hc Hne. destruct (s_writer s) as [|e|b] eqn:Ew; [| |by destruct (Hne b)]; cbn [in_flight length].
    + rewrite Nat.add_0_r. by eapply WriterLoop_drain_waiting.
    + replace (2 * length q + 1 + 1)%nat with (2 * length q + 2)%nat by lia.
      by eapply WriterLoop_drain_holding.
Qed.
End Interleaving.

Definition sample_stream_config (half_close : bool) : StreamConfig :=
  mkStreamConfig "leg" "tenant" 1 8000 1 1 0 "" "" ∅ half_close 2.
Definition sample_handshake : handshake unit unit unit :=
  mkHandshake true (Some (FSReady 8000 1 "srv")) Status_OK false.
Definition sample_client : StreamClient unit :=
  (Open true sample_handshake (StreamClient_new (sample_stream_config false))).1.1.2.
Definition sample_labels : list (session_label (Control:=unit)) :=
  [LSendAudio sample_frame; LSendAudio sample_frame; LSendControl tt; LWriterPop;
   LWriterWrite true; LClose; LSendAudio sample_frame].
Definition sample_session : session (Control:=unit) :=
  from_option snd (mkSession sample_client WWaiting [])
    (session_run (mkSession sample_client WWaiting []) sample_labels).

Lemma StreamClient_delivers_witness :
  (exists (rem : list (removal * FromModule unit)) (ws lost : list (FromModule unit)),
     [FMAudio (ToProto sample_frame); FMAudio (ToProto sample_frame); FMControl tt] =
       rem.*2 ++ SendRing_contents (send_ring (s_client sample_session)) /\
     frames_dropped_ (s_client sample_session) = u64 (evictions rem)) /\
  frames_dropped_ (s_client sample_session) = 1.
Proof.
  destruct (StreamClient_delivers (sample_stream_config false) sample_handshake sample_client
    (Open true sample_handshake (StreamClient_new (sample_stream_config false))).1.2
    sample_labels
    [FMAudio (ToProto sample_frame); FMAudio (ToProto sample_frame); FMControl tt] sample_session)
    as (rem & ws & lost & Ha & _ & _ & _ & _ & Hd & _).
  - vm_compute. reflexivity.
  - vm_compute. reflexivity.
  - split; [exists rem, ws, lost; split; [exact Ha|exact Hd]|vm_compute; reflexivity].
Defined.

(** ** Opening and reading *)

Section Opening.
Context {Control Transcript AmdVerdict : Type}.

(** The handshake went through: a stream, the start message written, a ready
    message read, within the deadline. *)
Definition handshake_good (made : bool) (h : handshake Control Transcript AmdVerdict)
  : option (Z * Z * string) :=
  if made && hs_write_ok h && negb (hs_late h)
  then match hs_reply h with
       | Some (FSReady rate ch sid) => Some (rate, ch, sid)
       | _ => None end
  else None.

(** What the reader hands over for one message when the agreed stream is mono or
    stereo: audio only when its payload has the announced length. *)
Definition reader_delivers (cb : StreamCallbacks) (rate ch : Z)
  (m : FromService Control Transcript AmdVerdict)
  : list (callback_call Control Transcript AmdVerdict) :=
  match m with
  | FSAudio p =>
      if on_audio cb && (Z.of_nat (length (p_payload p)) =? p_duration_samples p * ch * 2)
      then [OnAudio (mkAudioFrame (samples_of_bytes (p_payload p)) rate ch (p_seq p)
              (p_timestamp_samples p) (u32 (p_channel p)) (p_channel_uuid p))]
      else []
  | FSTranscript t => if on_transcript cb then [OnTranscript t] else []
  | FSAmd v => if on_amd cb then [OnAmd v] else []
  | FSControl x => if on_control cb then [OnControl x] else []
  | _ => []
  end.

Definition message_wf (m : FromService Control Transcript AmdVerdict) : Prop :=
  match m with FSAudio p => 0 <= p_duration_samples p < 2 ^ 32 | _ => True end.

Lemma ReaderLoop_spec cb (c : StreamClient Control) msgs fin :
  0 < agreed_channels_ c <= 2 -> Forall message_wf msgs ->
  ReaderLoop cb c msgs fin =
    Some ((msgs ≫= reader_delivers cb (agreed_sample_rate_hz_ c) (agreed_channels_ c))
            ++ (if on_done cb then [OnDone fin] else []),
          with_final fin c, [CallFinish]).
Proof.
  intros Hc. induction 1 as [|m msgs Hm _ IH]; [done|]. cbn [ReaderLoop mbind list_bind].
  assert (ReaderLoop_dispatch cb c m =
    Some (reader_delivers cb (agreed_sample_rate_hz_ c) (agreed_channels_ c) m)) as ->.
  { destruct m; try done. cbn [ReaderLoop_dispatch reader_delivers].
    destruct (on_audio cb); cbn [andb]; [|done]. rewrite FromProto_accepts by done. by case_test. }
  cbn. rewrite IH. cbn. by rewrite <- app_assoc.
Qed.

(** Opening and reading a stream.  On a client that is not open, [Open]
    returns OK exactly when the stream exists, the start message was written, the
    first message of the peer was a ready message and it came within the
    deadline; then the client is open at the format the peer agreed to, and the
    writer runs unless the stream is half-closed after the start, in which case
    the ring is closed, [WritesDone] was called, and no frame is accepted ever
    after.  On every other outcome the client stays closed, has no stream and no
    writer.  On a mono or stereo stream the reader then hands over, in order and
    exactly once each, every message that has a callback (audio exactly when its
    payload has the announced length), and finally the status of [Finish], once. *)
Theorem Open_then_read made (h : handshake Control Transcript AmdVerdict) (c : StreamClient Control)
  st c' calls w :
  open_ c = false -> Open made h c = (st, c', calls, w) ->
  (Status_ok st = true <-> is_Some (handshake_good made h)) /\
  match handshake_good made h with
  | None => open_ c' = false /\ stream_ c' = false /\ w = false
  | Some (rate, ch, sid) =>
      open_ c' = true /\ stream_ c' = true /\ agreed_sample_rate_hz_ c' = rate /\
      agreed_channels_ c' = ch /\ server_stream_id_ c' = sid /\
      w = negb (half_close_writes_after_start (config_ c)) /\
      (half_close_writes_after_start (config_ c) = true ->
         writes_done_ c' = true /\ CallWritesDone ∈ calls /\
         forall f, SendAudio f c' = (false, c')) /\
      (0 < ch <= 2 -> forall cb msgs fin, Forall message_wf msgs ->
         ReaderLoop cb c' msgs fin =
           Some ((msgs ≫= reader_delivers cb rate ch) ++ (if on_done cb then [OnDone fin] else []),
                 with_final fin c', [CallFinish]))
  end.
Proof.
  intros Hopen Ho. unfold Open in Ho. rewrite Hopen in Ho.
  destruct made; cbn [negb] in Ho; [|by simplify_eq/=; split; [split; [done|by intros [? ?]]|]].
  unfold handshake_good, handshake_thread in *. cbn [config_ with_flags with_agreed andb] in Ho.
  destruct (hs_write_ok h); cbn [negb andb] in *.
  2: { destruct (hs_late h), (Status_ok (hs_finish h)) eqn:Ef; cbn in Ho; rewrite ?Ef in Ho;
         simplify_eq; (split; [split; [by rewrite ?Ef|by intros [? ?]]|done]). }
  destruct (hs_reply h) as [m|].
  2: { destruct (hs_late h), (Status_ok (hs_finish h)) eqn:Ef; cbn in Ho; rewrite ?Ef in Ho;
         simplify_eq; (split; [split; [by rewrite ?Ef|by intros [? ?]]|done]). }
  destruct m; try (destruct (hs_late h); cbn [negb]; cbn in Ho; simplify_eq;
    (split; [split; [done|by intros [? ?]]|done])).
  destruct (half_close_writes_after_start (config_ c)) eqn:Eh, (hs_late h); cbn in Ho;
    cbn [negb]; rewrite ?Eh in Ho; cbn in Ho; simplify_eq;
    try (split; [split; [done|by intros [? ?]]|done]); cbn [negb].
  all: split; [split; [by eexists|done]|]; split_and!; try done.
  all: try (intros Hch cb msgs fin Hm; by rewrite ReaderLoop_spec).
  intros _. split_and!; [done|by do 2 constructor|]. intros f. unfold SendAudio. cbn. by case_test.
Qed.

End Opening.

Lemma Open_then_read_witness :
  let c' := (Open true sample_handshake (StreamClient_new (sample_stream_config true))).1.1.2 in
  open_ c' = true /\
  ReaderLoop (AmdVerdict:=unit) (mkStreamCallbacks true true true true true) c'
    [FSAudio (mkProtoAudioFrame 0 0 1 [1; 1] 0 ""); FSTranscript tt;
     FSAudio (mkProtoAudioFrame 0 0 2 [1; 1] 0 "")] Status_OK
  = Some ([OnAudio (mkAudioFrame [257] 8000 1 0 0 0 ""); OnTranscript tt; OnDone Status_OK],
          with_final Status_OK c', [CallFinish]).
Proof.
  intros c'.
  destruct (Open_then_read true sample_handshake (StreamClient_new (sample_stream_config true))
              Status_OK c' [CallWrite (FMStart (sample_stream_config true)) true; CallWritesDone] false
              eq_refl eq_refl) as [_ (Ho & _ & _ & _ & _ & _ & _ & Hread)].
  split; [exact Ho|]. apply Hread; [lia|]. repeat constructor; cbn; lia.
Defined.

(** ** A peer can end the process

    [agreed_channels_] is taken from the ready message as it is.  With a channel
    count near 2^31.5, an audio message of 12,942 bytes passes the size test,
    whose product wraps at 2^64, and the buffer it then asks for exceeds
    [max_size()]. *)
Lemma hostile_ready_terminates :
  ReaderLoop_dispatch (mkStreamCallbacks true true true true true)
    (with_agreed 8000 3037012561 "" (StreamClient_new (Control:=unit) (sample_stream_config false)))
    (FSAudio (Transcript:=unit) (AmdVerdict:=unit)
       (mkProtoAudioFrame 0 0 3036988439 (repeat 0 12942) 0 "")) = None.
Proof. vm_compute. reflexivity. Qed.
