(* ===== verification/SilenceDriver.v ===== *)
(** * The silence drivers

    [src/media/silence_driver.cc] and [include/osw/media/silence_driver.h]: at
    most one queued silence broadcast per channel, so that a channel whose only
    writer is a WRITE_REPLACE bug still produces write frames.  A driver in the
    registry is a running one ([AttachOpportunistic] keeps no other), so the
    registry is a set of channel uuids.  What FreeSWITCH answers about the
    session is an argument; audit records and the [CF_BREAK] requests are
    recorded. *)

From S2P Require Import Prelude.

Record SilenceDriverRegistry := mkSilenceDriverRegistry {
  silence_driver_enabled : bool;
  max_silence_drivers : nat;
  drivers_ : gset string }.

(** The answers of FreeSWITCH: whether the session has a channel, the channel
    flags, the variable [current_application], and whether [IvrBroadcast]
    succeeded. *)
Record channel_view := mkChannelView {
  cv_has_channel : bool;
  cv_broadcast : bool;
  cv_bridged : bool;
  cv_current_application : option string;
  cv_broadcast_ok : bool }.

Inductive silence_effect :=
  | AuditStarted (uuid : string)
  | AuditStopped (uuid : string)
  | AuditCapReached (uuid : string)
  | BroadcastQueued (uuid : string)
  | ChannelBreak (uuid : string).

Definition ChannelAlreadyHasWriteSource (v : channel_view) : bool :=
  match cv_current_application v with Some app => String.eqb app "playback" | None => false end.

(** [SilenceDriver::Stop] of a running driver, once. *)
Definition SilenceDriver_Stop (uuid : string) : list silence_effect :=
  [ChannelBreak uuid; AuditStopped uuid].

Definition AttachOpportunistic (uuid : string) (v : channel_view) (r : SilenceDriverRegistry)
  : SilenceDriverRegistry * list silence_effect :=
  if negb (silence_driver_enabled r) then (r, [])
  else if string_empty uuid then (r, [])
  else if negb (cv_has_channel v) then (r, [])
  else if cv_broadcast v then (r, [])
  else if cv_bridged v then (r, [])
  else if ChannelAlreadyHasWriteSource v then (r, [])
  else if bool_decide (uuid ∈ drivers_ r) then (r, [])
  else if (max_silence_drivers r <=? size (drivers_ r))%nat then (r, [AuditCapReached uuid])
  else if negb (cv_broadcast_ok v) then (r, [ChannelBreak uuid])
  else (mkSilenceDriverRegistry (silence_driver_enabled r) (max_silence_drivers r)
          ({[uuid]} ∪ drivers_ r), [BroadcastQueued uuid; AuditStarted uuid]).

Definition StopAndErase (uuid : string) (r : SilenceDriverRegistry)
  : SilenceDriverRegistry * list silence_effect :=
  if bool_decide (uuid ∈ drivers_ r)
  then (mkSilenceDriverRegistry (silence_driver_enabled r) (max_silence_drivers r)
          (drivers_ r ∖ {[uuid]}), SilenceDriver_Stop uuid)
  else (r, []).

Definition DetachIfOrphan := StopAndErase.
Definition RemoveForChannel := StopAndErase.

Definition DrainAll (r : SilenceDriverRegistry) : SilenceDriverRegistry * list silence_effect :=
  (mkSilenceDriverRegistry (silence_driver_enabled r) (max_silence_drivers r) ∅,
   elements (drivers_ r) ≫= SilenceDriver_Stop).

Definition ActiveCount (r : SilenceDriverRegistry) : nat := size (drivers_ r).

(** ** What the bug manager relies on *)

Lemma AttachOpportunistic_drivers uuid v r :
  drivers_ (AttachOpportunistic uuid v r).1 ⊆ {[uuid]} ∪ drivers_ r.
Proof. unfold AttachOpportunistic. repeat case_match; simpl; set_solver. Qed.

Lemma AttachOpportunistic_cap uuid v r :
  (size (drivers_ r) <= max_silence_drivers r)%nat ->
  (size (drivers_ (AttachOpportunistic uuid v r).1) <= max_silence_drivers r)%nat /\
  max_silence_drivers (AttachOpportunistic uuid v r).1 = max_silence_drivers r.
Proof.
  intros H. unfold AttachOpportunistic.
  destruct (decide (uuid ∈ drivers_ r)) as [Hin|Hout].
  - repeat case_match; simpl; try lia. rewrite bool_decide_true in * by done. done.
  - repeat case_match; simpl; b2p; try lia. rewrite size_union, size_singleton by set_solver. lia.
Qed.

Lemma StopAndErase_drivers uuid r : drivers_ (StopAndErase uuid r).1 = drivers_ r ∖ {[uuid]}.
Proof. unfold StopAndErase. case_bool_decide; simpl; [done|]. set_solver. Qed.

Lemma StopAndErase_cap uuid r :
  (size (drivers_ r) <= max_silence_drivers r)%nat ->
  (size (drivers_ (StopAndErase uuid r).1) <= max_silence_drivers r)%nat /\
  max_silence_drivers (StopAndErase uuid r).1 = max_silence_drivers r.
Proof.
  intros H. split; [|by unfold StopAndErase; case_match].
  rewrite StopAndErase_drivers. etrans; [apply subseteq_size|exact H]. set_solver.
Qed.
