(* ===== verification/BugManager.v ===== *)
(** * The media bug manager

    [src/media/bug_manager.cc], [include/osw/media/bug_manager.h] and
    [src/media/purpose.cc]: the registry of media bugs, its admission rules, and
    the life of the callback contexts FreeSWITCH holds as [user_data].

    An attach takes the channel's lifecycle lock, validates under [mu_], calls
    FreeSWITCH, then registers under [mu_].  It is three steps here, so that
    other channels, and FreeSWITCH itself, move in between.  The allocations,
    frees and FreeSWITCH calls that concern a context form a trace, and
    [trace_step] is the discipline the trace must obey: no context is freed
    twice or while FreeSWITCH still holds it.  Error texts are not modelled; a
    context is named by the id of its bug. *)

From S2P Require Import Prelude SilenceDriver.

(** ** Purposes *)

Inductive Purpose :=
  | kUnspecified | kTtsPlayback | kSttTranscribe | kVoicebotDuplexRead | kVoicebotDuplexWrite
  | kAmdDetect | kRecordingRelay | kVadBargeIn | kTest.

#[export] Instance Purpose_eq_dec : EqDecision Purpose.
Proof. solve_decision. Defined.

Definition StageRank (p : Purpose) : Z :=
  match p with
  | kVadBargeIn => 1
  | kSttTranscribe | kVoicebotDuplexRead | kAmdDetect => 2
  | kTtsPlayback | kVoicebotDuplexWrite => 3
  | kRecordingRelay | kTest | kUnspecified => 4
  end.

(** The name FreeSWITCH shows for a bug, and the errors of [Attach] use. *)
Definition PurposeName (p : Purpose) : string :=
  match p with
  | kUnspecified => "unspecified"
  | kTtsPlayback => "tts_playback"
  | kSttTranscribe => "stt_transcribe"
  | kVoicebotDuplexRead => "voicebot_duplex_read"
  | kVoicebotDuplexWrite => "voicebot_duplex_write"
  | kAmdDetect => "amd_detect"
  | kRecordingRelay => "recording_relay"
  | kVadBargeIn => "vad_barge_in"
  | kTest => "test"
  end.

Definition kSmbfFirst : Z := Z.shiftl 1 26.
Definition kSmbfWriteReplace : Z := Z.shiftl 1 2.
Definition has_flag (flags f : Z) : bool := negb (Z.land flags f =? 0).

(** ** The registry *)

Record BugConfig := mkBugConfig { cfg_purpose : Purpose; cfg_fs_flags : Z }.

(** [user_cb] is the callback [SetBugCallback] wired into the context. *)
Record BugRecord := mkBugRecord {
  rec_purpose : Purpose;
  rec_channel_uuid : string;
  rec_fs_flags : Z;
  rec_user_cb : option Z }.

Record MediaBugManager := mkMediaBugManager {
  next_id_ : Z;
  by_id_ : gmap Z BugRecord;
  by_channel_ : gmap string (list Z);
  silence_ : option SilenceDriverRegistry }.

Definition channel_ids (m : MediaBugManager) (uuid : string) : list Z :=
  default [] (by_channel_ m !! uuid).

(** [for (id : cit->second) if (by_id_.find(id) != end) ...]. *)
Definition channel_records (m : MediaBugManager) (uuid : string) : list BugRecord :=
  omap (fun id => by_id_ m !! id) (channel_ids m uuid).

Definition MaxRankForChannel (m : MediaBugManager) (uuid : string) : Z :=
  foldl (fun max_rank rec => let r := StageRank (rec_purpose rec) in
                             if max_rank <? r then r else max_rank) 0 (channel_records m uuid).

Definition HasPurpose (m : MediaBugManager) (uuid : string) (p : Purpose) : bool :=
  existsb (fun rec => bool_decide (rec_purpose rec = p)) (channel_records m uuid).

Definition HasInjectBugLocked (m : MediaBugManager) (uuid : string) : bool :=
  existsb (fun rec => bool_decide (rec_purpose rec = kTtsPlayback) ||
                      bool_decide (rec_purpose rec = kVoicebotDuplexWrite)) (channel_records m uuid).

Definition HasWriteReplaceBug (m : MediaBugManager) (uuid : string) : bool :=
  existsb (fun rec => has_flag (rec_fs_flags rec) kSmbfWriteReplace) (channel_records m uuid).

Definition ActiveBugCount (m : MediaBugManager) (uuid : string) : nat := length (channel_ids m uuid).
Definition TotalActiveBugCount (m : MediaBugManager) : nat := size (by_id_ m).

(** ** The trace of contexts *)

Inductive ctx_event :=
  | CtxNew (id : Z)
  | CtxDelete (id : Z)
  | FsAdd (id : Z)
  | FsRemove (id : Z)
  | FsClosed (id : Z).

(** Live contexts, and contexts FreeSWITCH holds. *)
Record ctx_heap := mkCtxHeap { live : gset Z; held : gset Z }.

Definition trace_step (h : ctx_heap) (e : ctx_event) : option ctx_heap :=
  match e with
  | CtxNew id => if decide (id ∈ live h) then None
                 else Some (mkCtxHeap ({[id]} ∪ live h) (held h))
  | CtxDelete id => if decide (id ∈ live h /\ id ∉ held h)
                    then Some (mkCtxHeap (live h ∖ {[id]}) (held h)) else None
  | FsAdd id => if decide (id ∈ live h /\ id ∉ held h)
                then Some (mkCtxHeap (live h) ({[id]} ∪ held h)) else None
  | FsRemove id | FsClosed id => Some (mkCtxHeap (live h) (held h ∖ {[id]}))
  end.

Fixpoint trace_run (h : ctx_heap) (es : list ctx_event) : option ctx_heap :=
  match es with [] => Some h | e :: es' => h' ← trace_step h e; trace_run h' es' end.

(** ** Attach *)

(** The critical section under [mu_]: the assigned id and effective flags, or
    the error. *)
Definition Attach_validate (uuid : string) (cfg : BugConfig) (m : MediaBugManager)
  : (Z * Z * MediaBugManager) + StatusCode :=
  let p := cfg_purpose cfg in
  if bool_decide (p = kRecordingRelay) && negb (HasInjectBugLocked m uuid)
  then inr FAILED_PRECONDITION
  else if negb (bool_decide (p = kRecordingRelay)) && HasPurpose m uuid p
  then inr ALREADY_EXISTS
  else
    let this_rank := StageRank p in
    let max_rank := MaxRankForChannel m uuid in
    let assign flags :=
      inl (next_id_ m, flags,
           mkMediaBugManager (next_id_ m +u64 1) (by_id_ m) (by_channel_ m) (silence_ m)) in
    if bool_decide (p = kVadBargeIn) then assign (Z.lor (cfg_fs_flags cfg) kSmbfFirst)
    else if (this_rank <? max_rank) && negb (has_flag (cfg_fs_flags cfg) kSmbfFirst)
    then inr FAILED_PRECONDITION
    else assign (cfg_fs_flags cfg).

(** Registration: both maps, then the silence driver. *)
Definition Attach_register (id : Z) (uuid : string) (cfg : BugConfig) (flags : Z) (v : channel_view)
  (m : MediaBugManager) : MediaBugManager :=
  let rec := mkBugRecord (cfg_purpose cfg) uuid flags None in
  mkMediaBugManager (next_id_ m) (<[id := rec]> (by_id_ m))
    (<[uuid := channel_ids m uuid ++ [id]]> (by_channel_ m))
    (if has_flag flags kSmbfWriteReplace
     then (fun s => (AttachOpportunistic uuid v s).1) <$> silence_ m
     else silence_ m).

(** ** Detach *)

(** [vec.erase(std::remove(...))], and the entry goes when it is empty. *)
Definition index_erase (uuid : string) (id : Z) (idx : gmap string (list Z)) : gmap string (list Z) :=
  match idx !! uuid with
  | None => idx
  | Some vec =>
      match filter (fun i => i <> id) vec with
      | [] => delete uuid idx
      | vec' => <[uuid := vec']> idx
      end
  end.

Definition DetachInternalLocked (id : Z) (call_remove_callback : bool) (m : MediaBugManager)
  : MediaBugManager * list ctx_event :=
  match by_id_ m !! id with
  | None => (m, [])
  | Some rec =>
      let uuid := rec_channel_uuid rec in
      let m1 := mkMediaBugManager (next_id_ m) (by_id_ m) (index_erase uuid id (by_channel_ m))
                  (silence_ m) in
      let stop := has_flag (rec_fs_flags rec) kSmbfWriteReplace && negb (HasWriteReplaceBug m1 uuid) in
      (mkMediaBugManager (next_id_ m1) (delete id (by_id_ m1)) (by_channel_ m1)
         (if stop then (fun s => (DetachIfOrphan uuid s).1) <$> silence_ m1 else silence_ m1),
       (if call_remove_callback then [FsRemove id] else []) ++ [CtxDelete id])
  end.

(** The loop of [DetachAll] over the copied id list. *)
Fixpoint DetachAll_loop (ids : list Z) (m : MediaBugManager) : MediaBugManager * list ctx_event :=
  match ids with
  | [] => (m, [])
  | id :: ids' =>
      let '(m1, es) := DetachInternalLocked id false m in
      let '(m2, es') := DetachAll_loop ids' m1 in (m2, es ++ es')
  end.

Definition DetachAll (uuid : string) (m : MediaBugManager) : MediaBugManager * list ctx_event :=
  match by_channel_ m !! uuid with
  | None => (m, [])
  | Some ids => DetachAll_loop ids m
  end.

Definition SetBugCallback (id cb : Z) (m : MediaBugManager) : bool * MediaBugManager :=
  match by_id_ m !! id with
  | None => (false, m)
  | Some rec =>
      (true, mkMediaBugManager (next_id_ m)
               (<[id := mkBugRecord (rec_purpose rec) (rec_channel_uuid rec) (rec_fs_flags rec) (Some cb)]>
                  (by_id_ m)) (by_channel_ m) (silence_ m))
  end.

Definition RemoveSilenceDriverForChannel (uuid : string) (m : MediaBugManager) : MediaBugManager :=
  mkMediaBugManager (next_id_ m) (by_id_ m) (by_channel_ m)
    ((fun s => (RemoveForChannel uuid s).1) <$> silence_ m).

(** ** Steps *)

(** An attach that holds its channel's lock: validated, or also added in
    FreeSWITCH. *)
Record Pending := mkPending {
  pd_id : Z; pd_cfg : BugConfig; pd_flags : Z; pd_added : bool }.

Record bm_world := mkWorld {
  w_mgr : MediaBugManager;
  w_locks : gmap string Pending;
  w_heap : ctx_heap }.

Definition bm_init (s : option SilenceDriverRegistry) : bm_world :=
  mkWorld (mkMediaBugManager 1 ∅ ∅ s) ∅ (mkCtxHeap ∅ ∅).

Inductive bm_label :=
  | LAttachBegin (uuid : string) (cfg : BugConfig)
  | LAttachAdd (uuid : string) (alloc_ok fs_ok : bool)
  | LAttachRegister (uuid : string) (alloc_ok : bool) (v : channel_view)
  | LDetach (id : Z)
  | LFsClose (id : Z)
  | LDestroy (uuid : string)
  | LSetBugCallback (id cb : Z).

Inductive bm_result :=
  | RNone
  | RStatus (s : StatusCode)
  | RHandle (id : Z)
  | RBool (b : bool).

Definition unlocked (w : bm_world) (uuid : string) : bool := bool_decide (w_locks w !! uuid = None).

(** [~MediaBugManager]: the records are deleted and the maps cleared; the contexts
    of the records are not, and FreeSWITCH is not told. *)
Definition MediaBugManager_dtor (w : bm_world) : bm_world :=
  mkWorld (mkMediaBugManager (next_id_ (w_mgr w)) ∅ ∅ (silence_ (w_mgr w))) (w_locks w) (w_heap w).

(** Apply the events of a step; [None] in the second component of the result is
    never returned by the module: it is the discipline being violated. *)
Definition with_events (w : bm_world) (m : MediaBugManager) (locks : gmap string Pending)
  (es : list ctx_event) (r : bm_result) : option (bm_result * option bm_world) :=
  Some (r, h ← trace_run (w_heap w) es; Some (mkWorld m locks h)).

(** The steps.  [None]: the step cannot happen now (a lock is held, or
    FreeSWITCH does not do that). *)

(** [Attach] up to the end of validation. *)
Definition Attach_begin (uuid : string) (cfg : BugConfig) (w : bm_world)
  : option (bm_result * option bm_world) :=
  if string_empty uuid then with_events w (w_mgr w) (w_locks w) [] (RStatus INVALID_ARGUMENT)
  else if negb (unlocked w uuid) then None
  else match Attach_validate uuid cfg (w_mgr w) with
       | inr e => with_events w (w_mgr w) (w_locks w) [] (RStatus e)
       | inl (id, flags, m') =>
           with_events w m' (<[uuid := mkPending id cfg flags false]> (w_locks w)) [] RNone
       end.

(** The context allocation and [FsMediaBugAdd]. *)
Definition Attach_add (uuid : string) (alloc_ok fs_ok : bool) (w : bm_world)
  : option (bm_result * option bm_world) :=
  match w_locks w !! uuid with
  | Some (mkPending id cfg flags false) =>
      if negb alloc_ok
      then with_events w (w_mgr w) (delete uuid (w_locks w)) [] (RStatus RESOURCE_EXHAUSTED)
      else if negb fs_ok
      then with_events w (w_mgr w) (delete uuid (w_locks w)) [CtxNew id; CtxDelete id] (RStatus INTERNAL)
      else with_events w (w_mgr w) (<[uuid := mkPending id cfg flags true]> (w_locks w))
             [CtxNew id; FsAdd id] RNone
  | _ => None
  end.

(** The record allocation, registration and release of the lock. *)
Definition Attach_finish (uuid : string) (alloc_ok : bool) (v : channel_view) (w : bm_world)
  : option (bm_result * option bm_world) :=
  match w_locks w !! uuid with
  | Some (mkPending id cfg flags true) =>
      if negb alloc_ok
      then with_events w (w_mgr w) (delete uuid (w_locks w)) [FsRemove id; CtxDelete id]
             (RStatus RESOURCE_EXHAUSTED)
      else with_events w (Attach_register id uuid cfg flags v (w_mgr w)) (delete uuid (w_locks w)) []
             (RHandle id)
  | _ => None
  end.

(** [DetachInternal]; [pre] are the events before the call. *)
Definition DetachInternal (id : Z) (call_remove_callback : bool) (pre : list ctx_event) (w : bm_world)
  : option (bm_result * option bm_world) :=
  match by_id_ (w_mgr w) !! id with
  | None => with_events w (w_mgr w) (w_locks w) pre RNone
  | Some rec =>
      if negb (unlocked w (rec_channel_uuid rec)) then None
      else let '(m', es) := DetachInternalLocked id call_remove_callback (w_mgr w) in
           with_events w m' (w_locks w) (pre ++ es) RNone
  end.

(** The CLOSE branch of [OswMediaBugTrampoline], for a bug FreeSWITCH holds. *)
Definition OswMediaBugTrampoline_close (id : Z) (w : bm_world) : option (bm_result * option bm_world) :=
  if negb (bool_decide (id ∈ held (w_heap w))) then None
  else DetachInternal id false [FsClosed id] w.

(** [OswMediaChannelDestroy] at CS_DESTROY, when FreeSWITCH has closed the
    channel's bugs. *)
Definition OswMediaChannelDestroy (uuid : string) (w : bm_world) : option (bm_result * option bm_world) :=
  if negb (unlocked w uuid) then None
  else if negb (forallb (fun id => negb (bool_decide (id ∈ held (w_heap w)))) (channel_ids (w_mgr w) uuid))
  then None
  else let '(m', es) := DetachAll uuid (w_mgr w) in
       with_events w (RemoveSilenceDriverForChannel uuid m') (w_locks w) es RNone.

Definition bm_step (w : bm_world) (l : bm_label) : option (bm_result * option bm_world) :=
  match l with
  | LAttachBegin uuid cfg => Attach_begin uuid cfg w
  | LAttachAdd uuid alloc_ok fs_ok => Attach_add uuid alloc_ok fs_ok w
  | LAttachRegister uuid alloc_ok v => Attach_finish uuid alloc_ok v w
  | LDetach id => DetachInternal id true [] w
  | LFsClose id => OswMediaBugTrampoline_close id w
  | LDestroy uuid => OswMediaChannelDestroy uuid w
  | LSetBugCallback id cb =>
      let '(b, m') := SetBugCallback id cb (w_mgr w) in with_events w m' (w_locks w) [] (RBool b)
  end.

(** A run stops at [None] in the outer option when a step is impossible, in the
    inner one when the discipline is violated. *)
Fixpoint bm_run (w : bm_world) (ls : list bm_label) : option (list bm_result * option bm_world) :=
  match ls with
  | [] => Some ([], Some w)
  | l :: ls' =>
      '(r, w1) ← bm_step w l;
      match w1 with
      | None => Some ([r], None)
      | Some w1 => '(rs, w2) ← bm_run w1 ls'; Some (r :: rs, w2)
      end
  end.

(** ** The invariant *)

Definition is_first (flags : Z) : Prop := has_flag flags kSmbfFirst = true.

(** [j] may follow [i] in a channel's chain. *)
Definition may_follow (m : MediaBugManager) (i j : Z) : Prop :=
  forall ri rj, by_id_ m !! i = Some ri -> by_id_ m !! j = Some rj ->
    is_first (rec_fs_flags rj) \/ StageRank (rec_purpose ri) <= StageRank (rec_purpose rj).

Definition on_channel (m : MediaBugManager) (uuid : string) (id : Z) (rec : BugRecord) : Prop :=
  by_id_ m !! id = Some rec /\ rec_channel_uuid rec = uuid.

(** What validation established for an attach that holds the lock. *)
Record pending_ok (m : MediaBugManager) (uuid : string) (pd : Pending) : Prop := {
  po_fresh : by_id_ m !! pd_id pd = None;
  po_range : 0 < pd_id pd < next_id_ m;
  po_unique id rec : on_channel m uuid id rec -> cfg_purpose (pd_cfg pd) <> kRecordingRelay ->
                     rec_purpose rec <> cfg_purpose (pd_cfg pd);
  po_rank id rec : on_channel m uuid id rec ->
                   is_first (pd_flags pd) \/ StageRank (rec_purpose rec) <= StageRank (cfg_purpose (pd_cfg pd)) }.

Record mgr_inv (m : MediaBugManager) : Prop := {
  mi_index uuid id : id ∈ channel_ids m uuid <-> exists rec, on_channel m uuid id rec;
  mi_nodup uuid : NoDup (channel_ids m uuid);
  mi_nonempty uuid : by_channel_ m !! uuid <> Some [];
  mi_range id rec : by_id_ m !! id = Some rec -> 0 < id < next_id_ m;
  mi_order uuid : StronglySorted (may_follow m) (channel_ids m uuid);
  mi_unique uuid i j ri rj : on_channel m uuid i ri -> on_channel m uuid j rj ->
    rec_purpose ri = rec_purpose rj -> rec_purpose ri <> kRecordingRelay -> i = j;
  mi_silence s uuid : silence_ m = Some s -> uuid ∈ drivers_ s -> HasWriteReplaceBug m uuid = true;
  mi_cap s : silence_ m = Some s -> (size (drivers_ s) <= max_silence_drivers s)%nat }.

Definition added_pending (locks : gmap string Pending) (id : Z) : Prop :=
  exists uuid pd, locks !! uuid = Some pd /\ pd_added pd = true /\ pd_id pd = id.

Record bm_inv (w : bm_world) : Prop := {
  bi_mgr : mgr_inv (w_mgr w);
  bi_pending uuid pd : w_locks w !! uuid = Some pd -> pending_ok (w_mgr w) uuid pd;
  bi_distinct u1 u2 p1 p2 : w_locks w !! u1 = Some p1 -> w_locks w !! u2 = Some p2 ->
                            pd_id p1 = pd_id p2 -> u1 = u2;
  bi_live id : id ∈ live (w_heap w) <->
               is_Some (by_id_ (w_mgr w) !! id) \/ added_pending (w_locks w) id;
  bi_held : held (w_heap w) ⊆ live (w_heap w) }.

Lemma bm_inv_init s :
  (forall r, s = Some r -> drivers_ r = ∅) -> bm_inv (bm_init s).
Proof.
  intros Hs. assert (forall id, by_id_ (w_mgr (bm_init s)) !! id = None) as He by (intros; apply lookup_empty).
  assert (forall uuid, w_locks (bm_init s) !! uuid = None) as Hl by (intros; apply lookup_empty).
  assert (forall uuid, channel_ids (w_mgr (bm_init s)) uuid = []) as Hc.
  { intros uuid. unfold channel_ids. cbn. by rewrite lookup_empty. }
  split.
  - split.
    + intros uuid id. rewrite Hc. split; [by intros ?%elem_of_nil|].
      intros (rec & Hr & _). by rewrite He in Hr.
    + intros uuid. rewrite Hc. constructor.
    + intros uuid. cbn. by rewrite lookup_empty.
    + intros id rec. by rewrite He.
    + intros uuid. rewrite Hc. constructor.
    + intros uuid i j ri rj [H _]. by rewrite He in H.
    + intros r uuid Hr. cbn in Hr. rewrite (Hs r Hr). set_solver.
    + intros r Hr. cbn in Hr. rewrite (Hs r Hr), size_empty. lia.
  - intros uuid pd. by rewrite Hl.
  - intros u1 u2 p1 p2. by rewrite Hl.
  - intros id. rewrite He. split; [cbn; set_solver|]. intros [[? ?]|(u & pd & Hu & _)]; [done|].
    by rewrite Hl in Hu.
  - cbn. set_solver.
Qed.

(** ** Queries *)

Definition index_ok (m : MediaBugManager) : Prop :=
  forall uuid id, id ∈ channel_ids m uuid <-> exists rec, on_channel m uuid id rec.

Lemma mgr_inv_index_ok m : mgr_inv m -> index_ok m.
Proof. intros Hm. exact (mi_index m Hm). Qed.

Lemma channel_records_elem m uuid rec :
  index_ok m -> rec ∈ channel_records m uuid <-> exists id, on_channel m uuid id rec.
Proof.
  intros Hm. unfold channel_records. rewrite list_elem_of_omap. split.
  - intros (id & Hin & Hl). apply Hm in Hin as (rec' & Hr & Hc).
    exists id. split; [done|]. congruence.
  - intros (id & Hr & Hc). exists id. split; [|done]. apply Hm. by exists rec.
Qed.

Lemma existsb_records m uuid (f : BugRecord -> bool) :
  index_ok m ->
  existsb f (channel_records m uuid) = true <-> exists id rec, on_channel m uuid id rec /\ f rec = true.
Proof.
  intros Hm. rewrite existsb_exists. split.
  - intros (rec & Hin & Hf). apply list_elem_of_In, channel_records_elem in Hin as [id Hid]; [|done].
    by exists id, rec.
  - intros (id & rec & Hid & Hf). exists rec. split; [|done].
    apply list_elem_of_In, channel_records_elem; [done|]. by exists id.
Qed.

Lemma HasPurpose_spec m uuid p :
  index_ok m -> HasPurpose m uuid p = true <-> exists id rec, on_channel m uuid id rec /\ rec_purpose rec = p.
Proof.
  intros Hm. unfold HasPurpose. rewrite existsb_records by done.
  split; intros (id & rec & Hid & Hf); exists id, rec; (split; [done|]); by apply bool_decide_eq_true in Hf || apply bool_decide_eq_true.
Qed.

Lemma MaxRank_foldl l : forall r0,
  let f max_rank rec := let r := StageRank (rec_purpose rec) in if max_rank <? r then r else max_rank in
  r0 <= foldl f r0 l /\
  (forall rec, rec ∈ l -> StageRank (rec_purpose rec) <= foldl f r0 l) /\
  (foldl f r0 l = r0 \/ exists rec, rec ∈ l /\ foldl f r0 l = StageRank (rec_purpose rec)).
Proof.
  induction l as [|x l IH]; intros r0 f; cbn [foldl].
  { split_and!; [lia|by intros rec ?%elem_of_nil|by left]. }
  destruct (IH (f r0 x)) as (H1 & H2 & H3). change (foldl _ (f r0 x) l) with (foldl f (f r0 x) l) in *.
  assert (r0 <= f r0 x /\ StageRank (rec_purpose x) <= f r0 x /\
          (f r0 x = r0 \/ f r0 x = StageRank (rec_purpose x))) as (Ha & Hb & Hc).
  { unfold f. cbn. case_test; lia. }
  split_and!; [lia| |].
  - intros rec [->|Hin]%elem_of_cons; [lia|by apply H2].
  - destruct H3 as [H3|(rec & Hin & H3)]; [|right; exists rec; split; [by right|done]].
    destruct Hc as [Hc|Hc]; [left; lia|]. right. exists x. split; [by left|lia].
Qed.

Lemma MaxRank_bound m uuid id rec :
  mgr_inv m -> on_channel m uuid id rec -> StageRank (rec_purpose rec) <= MaxRankForChannel m uuid.
Proof.
  intros Hm Hid. apply MaxRank_foldl, channel_records_elem; [by apply mgr_inv_index_ok|]. by exists id.
Qed.

(** Validation gives what a pending attach needs. *)
Lemma has_flag_lor f : has_flag (Z.lor f kSmbfFirst) kSmbfFirst = true.
Proof.
  unfold has_flag. apply negb_true_iff, Z.eqb_neq. intros H.
  assert (Z.testbit (Z.land (Z.lor f kSmbfFirst) kSmbfFirst) 26 = false) as Hb by (by rewrite H).
  rewrite Z.land_spec, Z.lor_spec in Hb. change (Z.testbit kSmbfFirst 26) with true in Hb.
  by rewrite orb_true_r in Hb.
Qed.

Lemma Attach_validate_ok uuid cfg m id flags m' :
  mgr_inv m -> 0 < next_id_ m < 2 ^ 64 - 1 ->
  Attach_validate uuid cfg m = inl (id, flags, m') ->
  id = next_id_ m /\
  m' = mkMediaBugManager (next_id_ m + 1) (by_id_ m) (by_channel_ m) (silence_ m) /\
  pending_ok m' uuid (mkPending id cfg flags false).
Proof.
  intros Hm Hn Hv. unfold Attach_validate in Hv.
  rewrite (u64_small (next_id_ m + 1)) in Hv by lia.
  destruct (bool_decide (cfg_purpose cfg = kRecordingRelay) && negb (HasInjectBugLocked m uuid)); [done|].
  destruct (negb (bool_decide (cfg_purpose cfg = kRecordingRelay)) && HasPurpose m uuid (cfg_purpose cfg))
    eqn:Eu; [done|].
  assert (forall i rec, on_channel m uuid i rec -> cfg_purpose cfg <> kRecordingRelay ->
            rec_purpose rec <> cfg_purpose cfg) as Huniq.
  { intros i rec Hi Hne Heq. rewrite bool_decide_false in Eu by done. cbn in Eu.
    assert (HasPurpose m uuid (cfg_purpose cfg) = true) by (apply HasPurpose_spec; eauto using mgr_inv_index_ok). congruence. }
  assert (by_id_ m !! next_id_ m = None) as Hfresh.
  { destruct (by_id_ m !! next_id_ m) eqn:E; [|done]. apply (mi_range _ Hm) in E. lia. }
  case_bool_decide as Ep; simplify_eq.
  - split_and!; try done. split; cbn; try done; [lia|]. intros. left. apply has_flag_lor.
  - destruct ((StageRank _ <? _) && _) eqn:Er; [done|]. simplify_eq. split_and!; try done. split; cbn; try done; [lia|].
    intros i rec Hi. unfold is_first. destruct (has_flag (cfg_fs_flags cfg) kSmbfFirst); [by left|right].
    rewrite andb_true_r in Er. b2p. pose proof (MaxRank_bound m uuid i rec Hm Hi). lia.
Qed.

(** ** Detach *)

Lemma index_erase_ids m uuid id u :
  default [] (index_erase uuid id (by_channel_ m) !! u) =
    if decide (u = uuid) then filter (fun i => i <> id) (channel_ids m u) else channel_ids m u.
Proof.
  unfold index_erase, channel_ids. destruct (by_channel_ m !! uuid) as [vec|] eqn:Ev.
  - destruct (filter (fun i => i <> id) vec) as [|x l] eqn:Ef; destruct (decide (u = uuid)) as [->|Hne].
    + rewrite lookup_delete_eq, Ev. cbn. by rewrite Ef.
    + by rewrite lookup_delete_ne.
    + rewrite lookup_insert_eq, Ev. cbn. by rewrite Ef.
    + by rewrite lookup_insert_ne.
  - destruct (decide (u = uuid)) as [->|Hne]; [by rewrite Ev|done].
Qed.

Lemma index_erase_nonempty m uuid id u :
  by_channel_ m !! u <> Some [] -> index_erase uuid id (by_channel_ m) !! u <> Some [].
Proof.
  unfold index_erase. intros H. destruct (by_channel_ m !! uuid) as [vec|] eqn:Ev; [|done].
  destruct (filter _ vec) as [|x l] eqn:Ef; destruct (decide (u = uuid)) as [->|Hne].
  - by rewrite lookup_delete_eq.
  - by rewrite lookup_delete_ne.
  - by rewrite lookup_insert_eq.
  - by rewrite lookup_insert_ne.
Qed.

Lemma filter_ne_id (l : list Z) (id : Z) : id ∉ l -> filter (fun i => i <> id) l = l.
Proof.
  induction l as [|x l IH]; [done|]. intros Hn. rewrite filter_cons_True by set_solver.
  by rewrite IH by set_solver.
Qed.

(** After a detach every channel's ids lose exactly [id]. *)
Lemma DetachInternalLocked_ids id b m rec u :
  mgr_inv m -> by_id_ m !! id = Some rec ->
  channel_ids (DetachInternalLocked id b m).1 u = filter (fun i => i <> id) (channel_ids m u).
Proof.
  intros Hm Hid. unfold DetachInternalLocked. rewrite Hid. unfold channel_ids at 1. cbn [fst by_channel_].
  rewrite index_erase_ids. destruct (decide (u = rec_channel_uuid rec)) as [->|Hne]; [done|].
  symmetry. apply filter_ne_id. rewrite (mi_index _ Hm). intros (rec' & Hr & Hc). congruence.
Qed.

Lemma DetachInternalLocked_on_channel id b m rec u i r :
  by_id_ m !! id = Some rec ->
  on_channel (DetachInternalLocked id b m).1 u i r <-> on_channel m u i r /\ i <> id.
Proof.
  intros Hid. unfold DetachInternalLocked, on_channel. rewrite Hid. cbn [fst by_id_].
  rewrite lookup_delete_Some. naive_solver.
Qed.

Lemma StronglySorted_filter_ne (R R' : Z -> Z -> Prop) l (id : Z) :
  (forall i j, R i j -> R' i j) ->
  StronglySorted R l -> StronglySorted R' (filter (fun i => i <> id) l).
Proof.
  intros HR. induction 1 as [|x l Hs IH Hf]; [constructor|]. rewrite filter_cons.
  destruct (decide (x <> id)); [|done]. constructor; [done|].
  apply Forall_forall. intros y Hy. apply list_elem_of_filter in Hy as [_ Hy].
  apply HR. rewrite Forall_forall in Hf. by apply Hf.
Qed.

Lemma DetachInternalLocked_index id b m rec :
  mgr_inv m -> by_id_ m !! id = Some rec -> index_ok (DetachInternalLocked id b m).1.
Proof.
  intros Hm Hid uuid i. rewrite (DetachInternalLocked_ids _ _ _ rec), list_elem_of_filter, (mi_index _ Hm) by done.
  setoid_rewrite (DetachInternalLocked_on_channel id b m rec); [|done]. naive_solver.
Qed.

(** What the stop test reads is the state after the detach. *)
Lemma DetachInternalLocked_stop id b m rec :
  mgr_inv m -> by_id_ m !! id = Some rec ->
  HasWriteReplaceBug (mkMediaBugManager (next_id_ m) (by_id_ m)
    (index_erase (rec_channel_uuid rec) id (by_channel_ m)) (silence_ m)) (rec_channel_uuid rec) =
  HasWriteReplaceBug (DetachInternalLocked id b m).1 (rec_channel_uuid rec).
Proof.
  intros Hm Hid. unfold HasWriteReplaceBug, channel_records. f_equal.
  rewrite (DetachInternalLocked_ids id b m rec) by done.
  unfold channel_ids at 1. cbn [by_channel_ by_id_]. rewrite index_erase_ids, decide_True by done.
  unfold DetachInternalLocked. rewrite Hid. cbn [fst by_id_].
  apply list_omap_ext, Forall_Forall2_diag, Forall_forall. intros i Hi.
  apply list_elem_of_filter in Hi as [Hne _]. by rewrite lookup_delete_ne.
Qed.

Lemma DetachInternalLocked_silence id b m rec s uuid :
  mgr_inv m -> by_id_ m !! id = Some rec ->
  silence_ (DetachInternalLocked id b m).1 = Some s -> uuid ∈ drivers_ s ->
  HasWriteReplaceBug (DetachInternalLocked id b m).1 uuid = true.
Proof.
  intros Hm Hid Hs Hin. pose proof (DetachInternalLocked_index id b m rec Hm Hid) as Hix.
  pose proof (DetachInternalLocked_stop id b m rec Hm Hid) as Hst.
  assert (exists s0, silence_ m = Some s0 /\ uuid ∈ drivers_ s0 /\
    (has_flag (rec_fs_flags rec) kSmbfWriteReplace = true -> uuid = rec_channel_uuid rec ->
     HasWriteReplaceBug (DetachInternalLocked id b m).1 (rec_channel_uuid rec) = true))
    as (s0 & Hs0 & Hin0 & Hstop).
  { rewrite <- Hst. unfold DetachInternalLocked in Hs. rewrite Hid in Hs. cbn [fst silence_] in Hs.
    destruct (has_flag (rec_fs_flags rec) kSmbfWriteReplace); cbn [andb] in Hs; [|by exists s].
    destruct (HasWriteReplaceBug _ (rec_channel_uuid rec)) eqn:Ew; cbn [negb] in Hs; [by exists s|].
    apply fmap_Some in Hs as (s0 & Hs0 & ->). exists s0.
    unfold DetachIfOrphan in Hin. rewrite StopAndErase_drivers in Hin. set_solver. }
  pose proof (mi_silence _ Hm _ _ Hs0 Hin0) as Hw.
  apply (existsb_records m) in Hw as (i & r & Hi & Hf); [|by apply mgr_inv_index_ok].
  destruct (decide (i = id)) as [->|Hne].
  - destruct Hi as [Hr Hc]. simplify_eq. by rewrite Hstop.
  - apply existsb_records; [done|]. exists i, r. split; [|done].
    by apply (DetachInternalLocked_on_channel _ _ _ rec).
Qed.

Lemma DetachInternalLocked_mgr_inv id b m rec :
  mgr_inv m -> by_id_ m !! id = Some rec -> mgr_inv (DetachInternalLocked id b m).1.
Proof.
  intros Hm Hid. pose proof (DetachInternalLocked_ids id b m rec) as Hids.
  pose proof (DetachInternalLocked_on_channel id b m rec) as Hon.
  assert (by_id_ (DetachInternalLocked id b m).1 = delete id (by_id_ m)) as Hby
    by (unfold DetachInternalLocked; by rewrite Hid).
  assert (next_id_ (DetachInternalLocked id b m).1 = next_id_ m) as Hnext
    by (unfold DetachInternalLocked; by rewrite Hid).
  split.
  - by apply (DetachInternalLocked_index id b m rec).
  - intros uuid. rewrite Hids by done. apply NoDup_filter, Hm.
  - intros uuid. unfold DetachInternalLocked. rewrite Hid. apply index_erase_nonempty, Hm.
  - intros i r. rewrite Hby, Hnext, lookup_delete_Some. intros [_ Hr]. by apply (mi_range _ Hm i r).
  - intros uuid. rewrite Hids by done. eapply StronglySorted_filter_ne, Hm.
    unfold may_follow. rewrite Hby. intros i j Hij ri rj. rewrite !lookup_delete_Some. naive_solver.
  - intros uuid i j ri rj Hi Hj. apply Hon in Hi as [Hi _], Hj as [Hj _]; try done.
    by apply (mi_unique _ Hm uuid).
  - intros s uuid. by apply (DetachInternalLocked_silence id b m rec).
  - intros s Hs. unfold DetachInternalLocked in Hs. rewrite Hid in Hs. cbn [fst silence_] in Hs.
    case_match; [|by apply (mi_cap _ Hm)]. apply fmap_Some in Hs as (s0 & Hs0 & ->).
    pose proof (StopAndErase_cap (rec_channel_uuid rec) s0 (mi_cap _ Hm _ Hs0)) as [Hc1 Hc2].
    unfold DetachIfOrphan. by rewrite Hc2.
Qed.

Lemma pending_ok_weaken m m' uuid pd :
  pending_ok m uuid pd -> by_id_ m' !! pd_id pd = None -> next_id_ m <= next_id_ m' ->
  (forall i r, on_channel m' uuid i r -> on_channel m uuid i r) -> pending_ok m' uuid pd.
Proof.
  intros [H1 H2 H3 H4] Hf Hn Ho. split; [done|lia|..].
  - intros i r Hi. by apply (H3 i), Ho.
  - intros i r Hi. by apply (H4 i), Ho.
Qed.

Lemma unlocked_spec w u : unlocked w u = true <-> w_locks w !! u = None.
Proof. apply bool_decide_eq_true. Qed.

Lemma DetachInternalLocked_bm_inv w id b rec m' es :
  bm_inv w -> by_id_ (w_mgr w) !! id = Some rec -> unlocked w (rec_channel_uuid rec) = true ->
  (b = true \/ id ∉ held (w_heap w)) -> DetachInternalLocked id b (w_mgr w) = (m', es) ->
  exists h, trace_run (w_heap w) es = Some h /\ held h = held (w_heap w) ∖ {[id]} /\
    bm_inv (mkWorld m' (w_locks w) h) /\ next_id_ m' = next_id_ (w_mgr w).
Proof.
  intros Hw Hid Hu Hb Hd. pose proof (bi_mgr _ Hw) as Hm.
  pose proof (DetachInternalLocked_mgr_inv id b _ rec Hm Hid) as Hm'.
  pose proof (DetachInternalLocked_on_channel id b (w_mgr w) rec) as Hon.
  rewrite Hd in Hm', Hon. cbn [fst] in *.
  assert (by_id_ m' = delete id (by_id_ (w_mgr w)) /\ next_id_ m' = next_id_ (w_mgr w) /\
          es = (if b then [FsRemove id] else []) ++ [CtxDelete id]) as (Hby & Hnext & ->)
    by (unfold DetachInternalLocked in Hd; rewrite Hid in Hd; by simplify_eq).
  assert (id ∈ live (w_heap w)) as Hlive by (apply (bi_live _ Hw); left; by exists rec).
  exists (mkCtxHeap (live (w_heap w) ∖ {[id]}) (held (w_heap w) ∖ {[id]})).
  split_and!; [|done| |done].
  - destruct b; cbn.
    + rewrite decide_True by set_solver. done.
    + destruct Hb as [|Hb]; [done|]. rewrite decide_True by done. cbn. do 2 f_equal. set_solver.
  - split; cbn [w_mgr w_locks w_heap live held].
    + done.
    + intros u pd Hpd. pose proof (bi_pending _ Hw _ _ Hpd) as Hp.
      eapply pending_ok_weaken; [exact Hp| |lia|].
      * rewrite Hby, lookup_delete_None. right. apply Hp.
      * intros i r Hi. apply Hon in Hi; [tauto|done].
    + apply (bi_distinct _ Hw).
    + intros i. rewrite elem_of_difference, not_elem_of_singleton, (bi_live _ Hw), Hby, lookup_delete_is_Some.
      split; [naive_solver|]. intros [[? ?]|Ha]; [by auto|]. split; [by right|]. intros ->.
      destruct Ha as (u & pd & Hpd & _ & Heq). pose proof (po_fresh _ _ _ (bi_pending _ Hw _ _ Hpd)).
      congruence.
    + pose proof (bi_held _ Hw). set_solver.
Qed.

Lemma bm_inv_held w h :
  bm_inv w -> live h = live (w_heap w) -> held h ⊆ held (w_heap w) ->
  bm_inv (mkWorld (w_mgr w) (w_locks w) h).
Proof.
  intros [H1 H2 H3 H4 H5] Hl Hh. split; cbn; rewrite ?Hl; try done. set_solver.
Qed.

Lemma trace_run_app h es es' h1 h2 :
  trace_run h es = Some h1 -> trace_run h1 es' = Some h2 -> trace_run h (es ++ es') = Some h2.
Proof.
  revert h. induction es as [|e es IH]; intros h H1 H2; cbn in *; [by simplify_eq|].
  destruct (trace_step h e) as [h'|]; [|done]. cbn in *. by apply IH.
Qed.

Lemma DetachAll_loop_bm_inv ids : forall w uuid m' es,
  bm_inv w -> unlocked w uuid = true ->
  (forall id, id ∈ ids -> (id ∉ held (w_heap w)) /\
     forall rec, by_id_ (w_mgr w) !! id = Some rec -> rec_channel_uuid rec = uuid) ->
  DetachAll_loop ids (w_mgr w) = (m', es) ->
  exists h, trace_run (w_heap w) es = Some h /\ held h ⊆ held (w_heap w) /\
    bm_inv (mkWorld m' (w_locks w) h) /\ next_id_ m' = next_id_ (w_mgr w) /\
    (forall i, i ∈ ids -> by_id_ m' !! i = None) /\
    (forall i, by_id_ (w_mgr w) !! i = None -> by_id_ m' !! i = None).
Proof.
  induction ids as [|id ids IH]; intros w uuid m' es Hw Hu Hids Hd; cbn [DetachAll_loop] in Hd.
  { simplify_eq. exists (w_heap w). split_and!; try done; [by destruct w|by intros i ?%elem_of_nil]. }
  destruct (DetachInternalLocked id false (w_mgr w)) as [m1 es1] eqn:E1.
  destruct (DetachAll_loop ids m1) as [m2 es2] eqn:E2. simplify_eq.
  assert (exists h1, trace_run (w_heap w) es1 = Some h1 /\ held h1 ⊆ held (w_heap w) /\
            bm_inv (mkWorld m1 (w_locks w) h1) /\ next_id_ m1 = next_id_ (w_mgr w) /\
            by_id_ m1 = delete id (by_id_ (w_mgr w))) as (h1 & Ht1 & Hh1 & Hi1 & Hn1 & Hby).
  { destruct (by_id_ (w_mgr w) !! id) as [rec|] eqn:Er.
    - destruct (Hids id ltac:(by left)) as [Hnh Hc].
      destruct (DetachInternalLocked_bm_inv w id false rec m1 es1 Hw Er) as (h1 & ? & Hh & ? & ?);
        [by rewrite (Hc rec Er)|by right|done|].
      exists h1. split_and!; try done; [set_solver|].
      unfold DetachInternalLocked in E1. rewrite Er in E1. by simplify_eq.
    - unfold DetachInternalLocked in E1. rewrite Er in E1. simplify_eq. exists (w_heap w).
      split_and!; try done; [by destruct w|]. by rewrite delete_id. }
  edestruct (IH (mkWorld m1 (w_locks w) h1) uuid m' es2 Hi1 Hu) as (h2 & Ht2 & Hh2 & Hi2 & Hn2 & Hg & Hk).
  { intros i Hi. cbn. destruct (Hids i ltac:(by right)) as [Hnh Hc]. split; [set_solver|].
    intros rec. rewrite Hby, lookup_delete_Some. intros [_ Hr]. by apply Hc. }
  { done. }
  exists h2. cbn in *. split_and!; try done; [by eapply trace_run_app|set_solver|congruence|..].
  - intros i [->|Hi]%elem_of_cons; [|by apply Hg]. apply Hk. by rewrite Hby, lookup_delete_eq.
  - intros i Hi. apply Hk. rewrite Hby, lookup_delete_None. by right.
Qed.

(** ** Attach *)

Lemma Attach_register_ids id u cfg flags v m u' :
  channel_ids (Attach_register id u cfg flags v m) u' =
    if decide (u' = u) then channel_ids m u ++ [id] else channel_ids m u'.
Proof.
  unfold channel_ids at 1. cbn [Attach_register by_channel_]. destruct (decide (u' = u)) as [->|Hne].
  - by rewrite lookup_insert_eq.
  - by rewrite lookup_insert_ne.
Qed.

Lemma Attach_register_on_channel id u cfg flags v m u' i r :
  by_id_ m !! id = None ->
  on_channel (Attach_register id u cfg flags v m) u' i r <->
  on_channel m u' i r \/ (u' = u /\ i = id /\ r = mkBugRecord (cfg_purpose cfg) u flags None).
Proof.
  intros Hf. unfold on_channel. cbn [Attach_register by_id_]. rewrite lookup_insert_Some. naive_solver.
Qed.

Lemma StronglySorted_snoc (R : Z -> Z -> Prop) l x :
  StronglySorted R l -> (forall y, y ∈ l -> R y x) -> StronglySorted R (l ++ [x]).
Proof.
  induction 1 as [|y l Hs IH Hf]; intros Hx; cbn; [by repeat constructor|].
  constructor; [apply IH; intros z Hz; apply Hx; by right|].
  apply Forall_app. split; [done|]. constructor; [apply Hx; by left|constructor].
Qed.

Lemma StronglySorted_weaken (R R' : Z -> Z -> Prop) l :
  StronglySorted R l -> (forall i j, i ∈ l -> j ∈ l -> R i j -> R' i j) -> StronglySorted R' l.
Proof.
  induction 1 as [|y l Hs IH Hf]; intros HR; constructor.
  - apply IH. intros i j Hi Hj. apply HR; by right.
  - rewrite Forall_forall in *. intros z Hz. apply HR; [by left|by right|by apply Hf].
Qed.

Lemma Attach_register_mgr_inv m u pd v :
  mgr_inv m -> pending_ok m u pd ->
  mgr_inv (Attach_register (pd_id pd) u (pd_cfg pd) (pd_flags pd) v m).
Proof.
  intros Hm Hp. destruct pd as [id cfg flags added]. cbn [pd_id pd_cfg pd_flags] in *.
  destruct Hp as [Hf Hr Hu Hk]. cbn [pd_id pd_cfg pd_flags] in *.
  pose proof (fun u' i r => Attach_register_on_channel id u cfg flags v m u' i r Hf) as Hon.
  pose proof (Attach_register_ids id u cfg flags v m) as Hids.
  set (m' := Attach_register id u cfg flags v m) in *.
  assert (Hix : index_ok m').
  { intros u' i. rewrite Hids. setoid_rewrite Hon. destruct (decide (u' = u)) as [->|Hne].
    - rewrite elem_of_app, list_elem_of_singleton, (mi_index _ Hm). naive_solver.
    - rewrite (mi_index _ Hm). naive_solver. }
  assert (Hnot : forall u', id ∉ channel_ids m u').
  { intros u'. rewrite (mi_index _ Hm). intros (r & Hr' & _). congruence. }
  assert (Hsub : forall u', HasWriteReplaceBug m u' = true -> HasWriteReplaceBug m' u' = true).
  { intros u' Hw. apply (existsb_records m) in Hw as (i & r & Hi & Hfl); [|by apply mgr_inv_index_ok].
    apply existsb_records; [done|]. exists i, r. split; [apply Hon; by left|done]. }
  split; try done.
  - intros u'. rewrite Hids. case_decide; [|apply Hm]. apply NoDup_app. split_and!; [apply Hm|..].
    + intros i Hi ->%list_elem_of_singleton. by destruct (Hnot u).
    + apply NoDup_singleton.
  - intros u'. unfold m', Attach_register. cbn [by_channel_]. destruct (decide (u' = u)) as [->|Hne].
    + rewrite lookup_insert_eq. by destruct (channel_ids m u).
    + rewrite lookup_insert_ne by done. apply Hm.
  - intros i r. unfold m', Attach_register. cbn [by_id_ next_id_]. rewrite lookup_insert_Some.
    intros [[<- _]|[_ Hi]]; [done|]. by apply (mi_range _ Hm i r).
  - intros u'. rewrite Hids.
    assert (forall u'', StronglySorted (may_follow m') (channel_ids m u'')) as Hold.
    { intros u''. eapply StronglySorted_weaken; [apply Hm|]. intros i j Hi Hj Hij ri rj.
      unfold m', Attach_register. cbn [by_id_]. rewrite !lookup_insert_ne; [by apply Hij|..];
        intros <-; by destruct (Hnot u''). }
    destruct (decide (u' = u)) as [->|Hne]; [|apply Hold].
    apply StronglySorted_snoc; [apply Hold|]. intros i Hi ri rj.
    apply (mi_index _ Hm) in Hi as (r & Hi). unfold m', Attach_register. cbn [by_id_].
    rewrite lookup_insert_eq. intros Hri Hrj. simplify_eq. cbn.
    assert (i <> id) as Hine by (intros ->; destruct Hi; congruence).
    rewrite lookup_insert_ne in Hri by done. destruct Hi as [Hi Hc]. simplify_eq. by apply (Hk i).
  - intros u' i j ri rj Hi Hj Heq Hne. apply Hon in Hi, Hj.
    destruct Hi as [Hi|(-> & -> & ->)], Hj as [Hj|(Hu' & -> & ->)]; [..|done].
    + by apply (mi_unique _ Hm u' i j ri rj).
    + subst u'. destruct (Hu i ri Hi); [|done]. cbn in Heq. congruence.
    + destruct (Hu j rj Hj); [done|]. done.
  - intros s u' Hs Hin. unfold m', Attach_register in Hs. cbn [silence_] in Hs.
    destruct (has_flag flags kSmbfWriteReplace) eqn:Ew.
    + apply fmap_Some in Hs as (s0 & Hs0 & ->). apply AttachOpportunistic_drivers in Hin.
      apply elem_of_union in Hin as [->%elem_of_singleton|Hin].
      * apply existsb_records; [done|]. eexists id, _. split; [apply Hon; by right|done].
      * apply Hsub. by apply (mi_silence _ Hm s0).
    + apply Hsub. by apply (mi_silence _ Hm s).
  - intros s Hs. unfold m', Attach_register in Hs. cbn [silence_] in Hs. case_match; [|by apply Hm].
    apply fmap_Some in Hs as (s0 & Hs0 & ->).
    destruct (AttachOpportunistic_cap u v s0 (mi_cap _ Hm _ Hs0)) as [H1 H2]. by rewrite H2.
Qed.

(** ** Every step *)

Lemma mgr_inv_next m n :
  mgr_inv m -> next_id_ m <= n -> mgr_inv (mkMediaBugManager n (by_id_ m) (by_channel_ m) (silence_ m)).
Proof.
  intros [H1 H2 H3 H4 H5 H6 H7 H8] Hn. split; try done.
  intros id rec Hr. cbn in *. pose proof (H4 id rec Hr). lia.
Qed.

Lemma added_pending_delete w u pd i :
  bm_inv w -> w_locks w !! u = Some pd ->
  added_pending (delete u (w_locks w)) i <-> added_pending (w_locks w) i /\ i <> pd_id pd.
Proof.
  intros Hw Hu. unfold added_pending. split.
  - intros (u' & p & Hp & Ha & <-). apply lookup_delete_Some in Hp as [Hne Hp].
    split; [eauto|]. intros Heq. destruct Hne. symmetry. by apply (bi_distinct _ Hw u' u p pd).
  - intros [(u' & p & Hp & Ha & <-) Hne]. exists u', p. split; [|done].
    apply lookup_delete_Some. split; [|done]. intros ->. congruence.
Qed.

Lemma added_pending_insert w u pd i :
  bm_inv w -> pd_added pd = true ->
  (forall p, w_locks w !! u = Some p -> pd_id p = pd_id pd) ->
  added_pending (<[u := pd]> (w_locks w)) i <-> added_pending (w_locks w) i \/ i = pd_id pd.
Proof.
  intros Hw Ha Hold. unfold added_pending. split.
  - intros (u' & p & Hp & Hap & <-). apply lookup_insert_Some in Hp as [[-> ->]|[Hne Hp]]; eauto 8.
  - intros [(u' & p & Hp & Hap & <-)| ->].
    + destruct (decide (u' = u)) as [->|Hne].
      * exists u, pd. rewrite lookup_insert_eq. by rewrite (Hold p Hp).
      * exists u', p. by rewrite lookup_insert_ne.
    + exists u, pd. by rewrite lookup_insert_eq.
Qed.

(** A lock that goes away without registration. *)
Lemma bm_inv_unlock w u pd h :
  bm_inv w -> w_locks w !! u = Some pd ->
  (forall i, i ∈ live h <-> i ∈ live (w_heap w) /\ i <> pd_id pd) -> held h ⊆ held (w_heap w) ->
  pd_id pd ∉ held h ->
  bm_inv (mkWorld (w_mgr w) (delete u (w_locks w)) h).
Proof.
  intros Hw Hu Hl Hh Hnh. pose proof (po_fresh _ _ _ (bi_pending _ Hw _ _ Hu)) as Hf.
  split; cbn.
  - apply Hw.
  - intros u' p [_ Hp]%lookup_delete_Some. by apply (bi_pending _ Hw).
  - intros u1 u2 p1 p2 [_ H1]%lookup_delete_Some [_ H2]%lookup_delete_Some. by apply (bi_distinct _ Hw).
  - intros i. rewrite Hl, (bi_live _ Hw), (added_pending_delete w u pd) by done.
    split; [naive_solver|]. intros [[r Hr]|Ha]; [|naive_solver]. split; [left; by exists r|congruence].
  - intros i Hi. apply Hl. split; [by apply (bi_held _ Hw), Hh|]. intros ->. done.
Qed.

Lemma pending_not_live w u pd :
  bm_inv w -> w_locks w !! u = Some pd -> pd_added pd = false ->
  (pd_id pd ∉ live (w_heap w)) /\ (pd_id pd ∉ held (w_heap w)).
Proof.
  intros Hw Hu Ha. assert (pd_id pd ∉ live (w_heap w)) as Hn.
  { rewrite (bi_live _ Hw). intros [[r Hr]|(u' & p & Hp & Hap & Heq)].
    - pose proof (po_fresh _ _ _ (bi_pending _ Hw _ _ Hu)). congruence.
    - pose proof (bi_distinct _ Hw _ _ _ _ Hp Hu Heq). subst. congruence. }
  split; [done|]. intros Hi. by apply Hn, (bi_held _ Hw).
Qed.

Lemma LAttachBegin_inv w u cfg r ow :
  bm_inv w -> 0 < next_id_ (w_mgr w) < 2 ^ 64 - 1 -> bm_step w (LAttachBegin u cfg) = Some (r, ow) ->
  exists w', ow = Some w' /\ bm_inv w' /\
    next_id_ (w_mgr w) <= next_id_ (w_mgr w') <= next_id_ (w_mgr w) + 1.
Proof.
  intros Hw Hn Hs. cbn [bm_step] in Hs. unfold Attach_begin, Attach_add, Attach_finish, OswMediaBugTrampoline_close, OswMediaChannelDestroy, DetachInternal in Hs. unfold with_events in Hs. cbn [trace_run] in Hs.
  assert (exists w', Some (mkWorld (w_mgr w) (w_locks w) (w_heap w)) = Some w' /\ bm_inv w' /\
    next_id_ (w_mgr w) <= next_id_ (w_mgr w') <= next_id_ (w_mgr w) + 1) as Hsame
    by (eexists; split; [done|]; split; [by destruct w|cbn; lia]).
  destruct (string_empty u); [by simplify_eq/=|].
  destruct (unlocked w u) eqn:Eu; cbn [negb] in Hs; [|done]. apply unlocked_spec in Eu.
  destruct (Attach_validate u cfg (w_mgr w)) as [[[id flags] m']|e] eqn:Ev; simplify_eq/=; [|done].
  destruct (Attach_validate_ok _ _ _ _ _ _ (bi_mgr _ Hw) Hn Ev) as (-> & -> & Hp). clear Hsame Ev.
  eexists. split; [done|]. split; [|cbn; lia]. split; cbn [w_mgr w_locks w_heap].
  - apply mgr_inv_next; [apply Hw|lia].
  - intros u' pd [[<- <-]|[Hne Hpd]]%lookup_insert_Some; [done|].
    pose proof (bi_pending _ Hw _ _ Hpd) as Hq.
    eapply pending_ok_weaken; [exact Hq|apply Hq|cbn; lia|done].
  - assert (forall u' p, w_locks w !! u' = Some p -> pd_id p <> next_id_ (w_mgr w)) as Hlt.
    { intros u' p Hp'. pose proof (po_range _ _ _ (bi_pending _ Hw _ _ Hp')). lia. }
    intros u1 u2 p1 p2 [[<- <-]|[Hn1 H1]]%lookup_insert_Some [[<- <-]|[Hn2 H2]]%lookup_insert_Some; cbn;
      intros Heq; try done.
    + by destruct (Hlt u2 p2 H2).
    + by destruct (Hlt u1 p1 H1).
    + by apply (bi_distinct _ Hw _ _ p1 p2).
  - intros i. cbn [by_id_]. rewrite (bi_live _ Hw). apply or_iff_compat_l. unfold added_pending.
    split; intros (u' & p & Hp' & Ha & <-).
    + exists u', p. rewrite lookup_insert_ne; [done|]. intros <-. congruence.
    + apply lookup_insert_Some in Hp' as [[<- <-]|[_ Hp']]; [done|]. eauto.
  - apply Hw.
Qed.

Lemma LAttachAdd_inv w u a f r ow :
  bm_inv w -> bm_step w (LAttachAdd u a f) = Some (r, ow) ->
  exists w', ow = Some w' /\ bm_inv w' /\ next_id_ (w_mgr w') = next_id_ (w_mgr w).
Proof.
  intros Hw Hs. cbn [bm_step] in Hs. unfold Attach_begin, Attach_add, Attach_finish, OswMediaBugTrampoline_close, OswMediaChannelDestroy, DetachInternal in Hs.
  destruct (w_locks w !! u) as [[id cfg flags added]|] eqn:Eu; [|done]. destruct added; [done|].
  destruct (pending_not_live w u _ Hw Eu eq_refl) as [Hnl Hnh]. cbn [pd_id] in Hnl, Hnh.
  unfold with_events in Hs. destruct a; cbn [negb] in Hs; [destruct f; cbn [negb] in Hs|].
  - cbn [trace_run trace_step] in Hs. rewrite decide_False in Hs by done. cbn [mbind option_bind] in Hs.
    rewrite decide_True in Hs by (cbn; set_solver). cbn in Hs. simplify_eq.
    eexists. split; [done|]. split; [|done]. split; cbn [w_mgr w_locks w_heap live held].
    + apply Hw.
    + intros u' pd [[<- <-]|[Hne Hpd]]%lookup_insert_Some; [|by apply (bi_pending _ Hw)].
      by destruct (bi_pending _ Hw _ _ Eu).
    + intros u1 u2 p1 p2 [[<- <-]|[Hn1 H1]]%lookup_insert_Some [[<- <-]|[Hn2 H2]]%lookup_insert_Some Heq;
        try done; try (by apply (bi_distinct _ Hw _ _ _ _ Eu H2)); try (by apply (bi_distinct _ Hw _ _ _ _ H1 Eu));
        by apply (bi_distinct _ Hw _ _ p1 p2).
    + intros i. rewrite elem_of_union, elem_of_singleton, (bi_live _ Hw).
      rewrite (added_pending_insert w u (mkPending id cfg flags true)); [cbn; tauto|done|done|].
      intros p Hp. rewrite Eu in Hp. by simplify_eq.
    + pose proof (bi_held _ Hw). set_solver.
  - cbn [trace_run trace_step] in Hs. rewrite decide_False in Hs by done. cbn [mbind option_bind] in Hs.
    rewrite decide_True in Hs by (cbn; set_solver). cbn in Hs. simplify_eq.
    eexists. split; [done|]. split; [|done].
    eapply (bm_inv_unlock w u _ _ Hw Eu); cbn; [|done|done]. intros i. set_solver.
  - cbn in Hs. simplify_eq. eexists. split; [done|]. split; [|done].
    eapply (bm_inv_unlock w u _ _ Hw Eu); cbn; [|done|done]. intros i. split; [|tauto].
    intros Hi. split; [done|]. intros ->. done.
Qed.

Lemma LAttachRegister_inv w u a v r ow :
  bm_inv w -> bm_step w (LAttachRegister u a v) = Some (r, ow) ->
  exists w', ow = Some w' /\ bm_inv w' /\ next_id_ (w_mgr w') = next_id_ (w_mgr w).
Proof.
  intros Hw Hs. cbn [bm_step] in Hs. unfold Attach_begin, Attach_add, Attach_finish, OswMediaBugTrampoline_close, OswMediaChannelDestroy, DetachInternal in Hs.
  destruct (w_locks w !! u) as [[id cfg flags added]|] eqn:Eu; [|done]. destruct added; [|done].
  assert (id ∈ live (w_heap w)) as Hlive
    by (apply (bi_live _ Hw); right; by exists u, (mkPending id cfg flags true)).
  unfold with_events in Hs. destruct a; cbn [negb] in Hs.
  - cbn in Hs. simplify_eq. eexists. split; [done|]. split; [|done].
    pose proof (bi_pending _ Hw _ _ Eu) as Hp.
    pose proof (po_fresh _ _ _ Hp) as Hf. cbn [pd_id] in Hf.
    split; cbn [w_mgr w_locks w_heap].
    + apply (Attach_register_mgr_inv _ u (mkPending id cfg flags true)); [apply Hw|done].
    + intros u' pd [Hne Hpd]%lookup_delete_Some. pose proof (bi_pending _ Hw _ _ Hpd) as Hq.
      eapply pending_ok_weaken; [exact Hq| |done|].
      * cbn [Attach_register by_id_]. rewrite lookup_insert_ne; [apply Hq|].
        intros Heq. destruct Hne. by apply (bi_distinct _ Hw _ _ _ _ Eu Hpd).
      * intros i rec Hi. apply Attach_register_on_channel in Hi as [Hi|(-> & _)]; done.
    + intros u1 u2 p1 p2 [_ H1]%lookup_delete_Some [_ H2]%lookup_delete_Some. by apply (bi_distinct _ Hw).
    + intros i. rewrite (bi_live _ Hw), (added_pending_delete w u _ i Hw Eu). cbn [Attach_register by_id_ pd_id].
      rewrite lookup_insert_is_Some. destruct (decide (i = id)) as [->|Hne].
      * split; [by left; left|]. intros _. right. by exists u, (mkPending id cfg flags true).
      * naive_solver.
    + apply Hw.
  - cbn [trace_run trace_step] in Hs. cbn [mbind option_bind] in Hs.
    rewrite decide_True in Hs by (cbn; set_solver). cbn in Hs. simplify_eq.
    eexists. split; [done|]. split; [|done].
    eapply (bm_inv_unlock w u _ _ Hw Eu); cbn; set_solver.
Qed.

Lemma LDetach_inv w id r ow :
  bm_inv w -> bm_step w (LDetach id) = Some (r, ow) ->
  exists w', ow = Some w' /\ bm_inv w' /\ next_id_ (w_mgr w') = next_id_ (w_mgr w).
Proof.
  intros Hw Hs. cbn [bm_step] in Hs. unfold Attach_begin, Attach_add, Attach_finish, OswMediaBugTrampoline_close, OswMediaChannelDestroy, DetachInternal in Hs. unfold with_events in Hs.
  destruct (by_id_ (w_mgr w) !! id) as [rec|] eqn:Er.
  2: { cbn in Hs. simplify_eq. eexists. split; [done|]. split; [by destruct w|done]. }
  destruct (unlocked w (rec_channel_uuid rec)) eqn:Eu; [|done]. cbn [negb] in Hs.
  destruct (DetachInternalLocked id true (w_mgr w)) as [m' es] eqn:Ed.
  destruct (DetachInternalLocked_bm_inv w id true rec m' es Hw Er Eu ltac:(by left) Ed)
    as (h & Ht & _ & Hi & Hn).
  cbn [app] in Hs. rewrite Ht in Hs. cbn in Hs. simplify_eq. eexists. by split.
Qed.

Lemma LFsClose_inv w id r ow :
  bm_inv w -> bm_step w (LFsClose id) = Some (r, ow) ->
  exists w', ow = Some w' /\ bm_inv w' /\ next_id_ (w_mgr w') = next_id_ (w_mgr w).
Proof.
  intros Hw Hs. cbn [bm_step] in Hs. unfold Attach_begin, Attach_add, Attach_finish, OswMediaBugTrampoline_close, OswMediaChannelDestroy, DetachInternal in Hs. unfold with_events in Hs.
  destruct (bool_decide (id ∈ held (w_heap w))) eqn:Eh; [|done]. cbn [negb] in Hs.
  assert (bm_inv (mkWorld (w_mgr w) (w_locks w) (mkCtxHeap (live (w_heap w)) (held (w_heap w) ∖ {[id]})))) as Hw'
    by (apply bm_inv_held; [done|done|cbn; set_solver]).
  destruct (by_id_ (w_mgr w) !! id) as [rec|] eqn:Er.
  2: { cbn in Hs. simplify_eq. eexists. split; [done|]. split; [exact Hw'|done]. }
  destruct (unlocked w (rec_channel_uuid rec)) eqn:Eu; [|done]. cbn [negb] in Hs.
  destruct (DetachInternalLocked id false (w_mgr w)) as [m' es] eqn:Ed.
  destruct (DetachInternalLocked_bm_inv _ id false rec m' es Hw' Er Eu) as (h & Ht & _ & Hi & Hn);
    [right; cbn; set_solver|done|].
  cbn [app trace_run trace_step mbind option_bind] in Hs. cbn [w_heap] in Ht. rewrite Ht in Hs. cbn in Hs.
  simplify_eq. eexists. by split.
Qed.

Lemma mgr_inv_remove_driver m u :
  mgr_inv m -> mgr_inv (RemoveSilenceDriverForChannel u m).
Proof.
  intros [H1 H2 H3 H4 H5 H6 H7 H8]. split; try done.
  - intros s u' Hs Hin. cbn in Hs. apply fmap_Some in Hs as (s0 & Hs0 & ->).
    unfold RemoveForChannel in Hin. rewrite StopAndErase_drivers in Hin. apply (H7 s0); [done|]. set_solver.
  - intros s Hs. cbn in Hs. apply fmap_Some in Hs as (s0 & Hs0 & ->).
    destruct (StopAndErase_cap u s0 (H8 _ Hs0)) as [Ha Hb]. unfold RemoveForChannel. by rewrite Hb.
Qed.

Lemma bm_inv_remove_driver w u :
  bm_inv w -> bm_inv (mkWorld (RemoveSilenceDriverForChannel u (w_mgr w)) (w_locks w) (w_heap w)).
Proof.
  intros [H1 H2 H3 H4 H5]. split; cbn; try done; [by apply mgr_inv_remove_driver|].
  intros u' pd Hpd. by destruct (H2 u' pd Hpd).
Qed.

Lemma DetachAll_loop_by_id ids : forall m m' es,
  DetachAll_loop ids m = (m', es) ->
  forall i rec, by_id_ m' !! i = Some rec -> by_id_ m !! i = Some rec.
Proof.
  induction ids as [|id ids IH]; intros m m' es Hl i rec Hi; cbn [DetachAll_loop] in Hl; [by simplify_eq|].
  destruct (DetachInternalLocked id false m) as [m1 e1] eqn:E1.
  destruct (DetachAll_loop ids m1) as [m2 e2] eqn:E2. simplify_eq.
  apply (IH _ _ _ E2) in Hi. unfold DetachInternalLocked in E1.
  destruct (by_id_ m !! id); simplify_eq; [|done]. cbn in Hi. by apply lookup_delete_Some in Hi as [_ ?].
Qed.

(** After CS_DESTROY nothing of the channel is left. *)
Lemma LDestroy_inv w u r ow :
  bm_inv w -> bm_step w (LDestroy u) = Some (r, ow) ->
  exists w', ow = Some w' /\ bm_inv w' /\ next_id_ (w_mgr w') = next_id_ (w_mgr w) /\
    (forall i rec, ~ on_channel (w_mgr w') u i rec) /\
    (forall s, silence_ (w_mgr w') = Some s -> u ∉ drivers_ s).
Proof.
  intros Hw Hs. cbn [bm_step] in Hs. unfold Attach_begin, Attach_add, Attach_finish, OswMediaBugTrampoline_close, OswMediaChannelDestroy, DetachInternal in Hs. unfold with_events in Hs.
  destruct (unlocked w u) eqn:Eu; [|done]. cbn [negb] in Hs.
  destruct (forallb _ _) eqn:Ef; [|done]. cbn [negb] in Hs. rewrite forallb_forall in Ef.
  assert (exists m' es h, DetachAll u (w_mgr w) = (m', es) /\ trace_run (w_heap w) es = Some h /\
            bm_inv (mkWorld m' (w_locks w) h) /\ next_id_ m' = next_id_ (w_mgr w) /\
            forall i rec, ~ on_channel m' u i rec) as (m' & es & h & Hd & Ht & Hi & Hn & Hg).
  { destruct (DetachAll u (w_mgr w)) as [m' es] eqn:Ed. unfold DetachAll in Ed.
    pose proof (mi_index _ (bi_mgr _ Hw) u) as Hix.
    destruct (by_channel_ (w_mgr w) !! u) as [ids|] eqn:Ei; unfold channel_ids in *; rewrite Ei in *; cbn in Ef, Hix.
    - destruct (DetachAll_loop_bm_inv ids w u m' es Hw Eu) as (h & Ht & _ & Hi & Hn & Hg & Hk); [|done|].
      + intros i Hin. split.
        * intros Hheld. specialize (Ef i (proj1 (list_elem_of_In _ _) Hin)).
          by rewrite bool_decide_true in Ef.
        * intros rec Hr. apply Hix in Hin as (rec' & Hr' & Hc). congruence.
      + exists m', es, h. split_and!; try done. intros i rec [Hr Hc].
        destruct (by_id_ (w_mgr w) !! i) as [rec0|] eqn:Er0; [|by rewrite Hk in Hr].
        destruct (decide (i ∈ ids)) as [Hin|Hout]; [by rewrite Hg in Hr|].
        assert (rec_channel_uuid rec0 <> u) as Hne.
        { intros Heq. apply Hout, Hix. by exists rec0. }
        apply Hne.
        apply (DetachAll_loop_by_id _ _ _ _ Ed) in Hr. congruence.
    - simplify_eq. exists (w_mgr w), [], (w_heap w). split_and!; try done; [by destruct w|].
      intros i rec Hon. assert (i ∈ @nil Z) as []%elem_of_nil. apply Hix. by exists rec. }
  rewrite Hd, Ht in Hs. cbn in Hs. simplify_eq. eexists. split; [done|].
  split; [exact (bm_inv_remove_driver _ u Hi)|]. split_and!; [done|exact Hg|].
  intros s Hsil. cbn in Hsil. apply fmap_Some in Hsil as (s0 & _ & ->).
  unfold RemoveForChannel. rewrite StopAndErase_drivers. set_solver.
Qed.

(** Wiring a callback changes nothing the invariant reads. *)
Definition same_bug (r r' : BugRecord) : Prop :=
  rec_purpose r = rec_purpose r' /\ rec_channel_uuid r = rec_channel_uuid r' /\
  rec_fs_flags r = rec_fs_flags r'.

Lemma SetBugCallback_on_channel id cb m u i r' :
  on_channel (SetBugCallback id cb m).2 u i r' ->
  exists r, on_channel m u i r /\ same_bug r r'.
Proof.
  unfold SetBugCallback, on_channel, same_bug. destruct (by_id_ m !! id) as [rec|] eqn:Er; cbn [snd].
  - cbn [by_id_]. intros [[[<- <-]|[Hne Hr]]%lookup_insert_Some Hc]; [by exists rec|by exists r'].
  - intros [Hr Hc]. by exists r'.
Qed.

Lemma SetBugCallback_on_channel_inv id cb m u i r :
  on_channel m u i r -> exists r', on_channel (SetBugCallback id cb m).2 u i r' /\ same_bug r r'.
Proof.
  unfold SetBugCallback, on_channel, same_bug. intros [Hr Hc].
  destruct (by_id_ m !! id) as [rec|] eqn:Er; cbn [snd by_id_]; [|by exists r].
  destruct (decide (i = id)) as [->|Hne].
  - rewrite lookup_insert_eq. simplify_eq. by eexists.
  - rewrite lookup_insert_ne by done. by exists r.
Qed.

Lemma SetBugCallback_mgr_inv id cb m : mgr_inv m -> mgr_inv (SetBugCallback id cb m).2.
Proof.
  intros Hm. pose proof (SetBugCallback_on_channel id cb m) as Ho.
  pose proof (SetBugCallback_on_channel_inv id cb m) as Hi.
  assert (channel_ids (SetBugCallback id cb m).2 = channel_ids m /\
          by_channel_ (SetBugCallback id cb m).2 = by_channel_ m /\
          next_id_ (SetBugCallback id cb m).2 = next_id_ m /\
          silence_ (SetBugCallback id cb m).2 = silence_ m) as (E1 & E2 & E3 & E4)
    by (unfold SetBugCallback; by destruct (by_id_ m !! id)).
  assert (index_ok (SetBugCallback id cb m).2) as Hix.
  { intros u i. rewrite E1, (mi_index _ Hm). split; intros [r Hr].
    - apply Hi in Hr as (r' & ? & _). by exists r'.
    - apply Ho in Hr as (r' & ? & _). by exists r'. }
  split; [exact Hix|..]; rewrite ?E1, ?E2, ?E3, ?E4; try (by apply Hm).
  - intros i rec Hr. destruct (Ho (rec_channel_uuid rec) i rec) as (r & [Hr' _] & _); [by split|].
    by apply (mi_range _ Hm i r).
  - intros u. eapply StronglySorted_weaken; [apply Hm|]. intros i j _ _ Hij ri rj Hri Hrj.
    destruct (Ho (rec_channel_uuid ri) i ri) as (ri0 & [Hri0 _] & Hp & _); [by split|].
    destruct (Ho (rec_channel_uuid rj) j rj) as (rj0 & [Hrj0 _] & Hp' & _ & Hfl); [by split|].
    destruct (Hij ri0 rj0 Hri0 Hrj0) as [Hf|Hk]; [left; by rewrite <- Hfl|right; by rewrite <- Hp, <- Hp'].
  - intros u i j ri rj H1 H2 Heq Hne.
    apply Ho in H1 as (ri0 & H1 & Hp & _), H2 as (rj0 & H2 & Hp' & _).
    apply (mi_unique _ Hm u i j ri0 rj0); try done; congruence.
  - intros s u Hs Hin. apply existsb_records; [done|].
    pose proof (mi_silence _ Hm s u Hs Hin) as Hw.
    apply (existsb_records m) in Hw as (i & r & Hr & Hf); [|by apply mgr_inv_index_ok].
    apply Hi in Hr as (r' & Hr' & _ & _ & Hfl). exists i, r'. split; [done|]. by rewrite <- Hfl.
Qed.

Lemma LSetBugCallback_inv w id cb r ow :
  bm_inv w -> bm_step w (LSetBugCallback id cb) = Some (r, ow) ->
  exists w', ow = Some w' /\ bm_inv w' /\ next_id_ (w_mgr w') = next_id_ (w_mgr w).
Proof.
  intros Hw Hs. cbn [bm_step] in Hs. unfold Attach_begin, Attach_add, Attach_finish, OswMediaBugTrampoline_close, OswMediaChannelDestroy, DetachInternal in Hs.
  pose proof (SetBugCallback_mgr_inv id cb _ (bi_mgr _ Hw)) as Hm'.
  pose proof (SetBugCallback_on_channel id cb (w_mgr w)) as Ho.
  assert (next_id_ (SetBugCallback id cb (w_mgr w)).2 = next_id_ (w_mgr w) /\
          forall i, is_Some (by_id_ (SetBugCallback id cb (w_mgr w)).2 !! i) <->
                    is_Some (by_id_ (w_mgr w) !! i)) as [E3 E5].
  { unfold SetBugCallback. destruct (by_id_ (w_mgr w) !! id) as [rec|] eqn:Er; [|done]. split; [done|].
    intros i. cbn [snd by_id_]. rewrite lookup_insert_is_Some. destruct (decide (i = id)) as [->|Hne].
    - rewrite Er. split; [by eexists|by left].
    - split; [intros [?|[_ ?]]|]; auto. congruence. }
  destruct (SetBugCallback id cb (w_mgr w)) as [b m']. cbn in Hs, Hm', Ho, E3, E5. unfold with_events in Hs.
  cbn in Hs. simplify_eq. eexists. split; [done|]. split; [|done]. split; cbn [w_mgr w_locks w_heap].
  - done.
  - intros u pd Hpd. destruct (bi_pending _ Hw _ _ Hpd) as [Hf Hr Hu Hk]. split.
    + destruct (by_id_ m' !! pd_id pd) eqn:E; [|done].
      assert (is_Some (by_id_ (w_mgr w) !! pd_id pd)) as [? ?] by (apply E5; by rewrite E). congruence.
    + by rewrite E3.
    + intros i rec Hi Hne. apply Ho in Hi as (r & Hi & Hp & _). rewrite <- Hp. by apply (Hu i).
    + intros i rec Hi. apply Ho in Hi as (r & Hi & Hp & _). rewrite <- Hp. by apply (Hk i).
  - apply Hw.
  - intros i. rewrite E5. apply Hw.
  - apply Hw.
Qed.

Lemma bm_step_inv w l r ow :
  bm_inv w -> 0 < next_id_ (w_mgr w) < 2 ^ 64 - 1 -> bm_step w l = Some (r, ow) ->
  exists w', ow = Some w' /\ bm_inv w' /\
    next_id_ (w_mgr w) <= next_id_ (w_mgr w') <= next_id_ (w_mgr w) + 1.
Proof.
  intros Hw Hn Hs.
  assert (forall w', ow = Some w' /\ bm_inv w' /\ next_id_ (w_mgr w') = next_id_ (w_mgr w) ->
            exists w', ow = Some w' /\ bm_inv w' /\
              next_id_ (w_mgr w) <= next_id_ (w_mgr w') <= next_id_ (w_mgr w) + 1) as Hsame.
  { intros w' (-> & Hi & Heq). exists w'. split_and!; [done|done|lia..]. }
  destruct l.
  - by eapply LAttachBegin_inv.
  - edestruct LAttachAdd_inv; eauto.
  - edestruct LAttachRegister_inv; eauto.
  - edestruct LDetach_inv; eauto.
  - edestruct LFsClose_inv; eauto.
  - edestruct LDestroy_inv as (w' & ? & ? & ? & _); eauto.
  - edestruct LSetBugCallback_inv; eauto.
Qed.

Lemma bm_run_inv ls : forall w rs ow,
  bm_inv w -> 0 < next_id_ (w_mgr w) -> next_id_ (w_mgr w) + Z.of_nat (length ls) < 2 ^ 64 ->
  bm_run w ls = Some (rs, ow) -> exists w', ow = Some w' /\ bm_inv w'.
Proof.
  induction ls as [|l ls IH]; intros w rs ow Hw Hp Hn Hr; cbn [bm_run length] in *.
  { simplify_eq. by exists w. }
  destruct (bm_step w l) as [[r o1]|] eqn:E1; [|done]. cbn [mbind option_bind] in Hr.
  destruct (bm_step_inv w l r o1 Hw ltac:(lia) E1) as (w1 & -> & Hi1 & Hn1).
  destruct (bm_run w1 ls) as [[rs' o2]|] eqn:E2; [|done]. cbn in Hr. simplify_eq.
  eapply IH; [exact Hi1|lia|lia|exact E2].
Qed.

(** ** What the manager promises *)

(** C3. The bug registry is safe under every interleaving.  For any sequence of
    attach phases, detaches, closes by FreeSWITCH, channel destructions and
    callback wirings from an empty manager, shorter than the id counter allows:
    the trace of context allocations, frees and FreeSWITCH calls never frees a
    context twice or while FreeSWITCH holds it; in the state reached every
    context FreeSWITCH holds is live, and the live contexts are those of the
    registered bugs and of the attaches in progress, so none leaks; the two maps
    agree, with no duplicates; no channel has two bugs of one purpose other than
    the recording relay; every bug without the FIRST flag ranks at least as high
    as all that precede it on its channel; and a channel has a silence driver
    only while it has a WRITE_REPLACE bug, with no more drivers than the cap. *)
Theorem MediaBugManager_safe s ls rs ow :
  (forall r, s = Some r -> drivers_ r = ∅) ->
  Z.of_nat (length ls) < 2 ^ 64 - 1 ->
  bm_run (bm_init s) ls = Some (rs, ow) ->
  exists w, ow = Some w /\
    let m := w_mgr w in
    held (w_heap w) ⊆ live (w_heap w) /\
    (forall id, id ∈ live (w_heap w) <-> is_Some (by_id_ m !! id) \/ added_pending (w_locks w) id) /\
    (forall uuid, NoDup (channel_ids m uuid) /\
       forall id, id ∈ channel_ids m uuid <->
         exists rec, by_id_ m !! id = Some rec /\ rec_channel_uuid rec = uuid) /\
    (forall i j ri rj, by_id_ m !! i = Some ri -> by_id_ m !! j = Some rj ->
       rec_channel_uuid ri = rec_channel_uuid rj -> rec_purpose ri = rec_purpose rj ->
       rec_purpose ri <> kRecordingRelay -> i = j) /\
    (forall uuid a b c i j ri rj, channel_ids m uuid = a ++ i :: b ++ j :: c ->
       by_id_ m !! i = Some ri -> by_id_ m !! j = Some rj ->
       has_flag (rec_fs_flags rj) kSmbfFirst = true \/
       StageRank (rec_purpose ri) <= StageRank (rec_purpose rj)) /\
    (forall r, silence_ m = Some r ->
       (size (drivers_ r) <= max_silence_drivers r)%nat /\
       forall uuid, uuid ∈ drivers_ r -> exists id rec, by_id_ m !! id = Some rec /\
         rec_channel_uuid rec = uuid /\ has_flag (rec_fs_flags rec) kSmbfWriteReplace = true).
Proof.
  intros Hs Hn Hr. destruct (bm_run_inv ls _ _ _ (bm_inv_init s Hs) eq_refl ltac:(cbn; lia) Hr)
    as (w & -> & [Hm _ _ Hl Hh]).
  exists w. split; [done|]. cbn zeta. split_and!; try done.
  - intros uuid. split; [apply Hm|]. apply (mi_index _ Hm).
  - intros i j ri rj Hi Hj Hc. by apply (mi_unique _ Hm (rec_channel_uuid ri)).
  - intros uuid a b c i j ri rj Hc Hi Hj. pose proof (mi_order _ Hm uuid) as Ho. rewrite Hc in Ho.
    revert Ho. clear - Hi Hj. induction a as [|x a IH]; intros Ho; inversion Ho as [|? ? Hs Hf]; subst; [|auto].
    rewrite Forall_forall in Hf. apply (Hf j); [|done|done]. apply elem_of_app. right. by left.
  - intros r Hr'. split; [by apply Hm|]. intros uuid Hin.
    pose proof (mi_silence _ Hm r uuid Hr' Hin) as Hw.
    apply existsb_records in Hw as (id & rec & [H1 H2] & H3); [|by apply mgr_inv_index_ok]. eauto.
Qed.

Definition sample_silence : SilenceDriverRegistry := mkSilenceDriverRegistry true 4 ∅.
Definition sample_view : channel_view := mkChannelView true false false None true.
Definition sample_bm_labels : list bm_label :=
  [LAttachBegin "a" (mkBugConfig kTtsPlayback kSmbfWriteReplace); LAttachAdd "a" true true;
   LAttachRegister "a" true sample_view;
   LAttachBegin "a" (mkBugConfig kSttTranscribe 0);
   LAttachBegin "a" (mkBugConfig kVadBargeIn 0); LAttachAdd "a" true true;
   LFsClose 2; LAttachRegister "a" true sample_view; LDetach 1].
Definition sample_bm_outcome : list bm_result * option bm_world :=
  default ([], None) (bm_run (bm_init (Some sample_silence)) sample_bm_labels).

Lemma MediaBugManager_safe_witness :
  sample_bm_outcome.1 = [RNone; RNone; RHandle 1; RStatus FAILED_PRECONDITION; RNone; RNone; RNone;
                         RHandle 2; RNone] /\
  exists w, sample_bm_outcome.2 = Some w /\ held (w_heap w) ⊆ live (w_heap w).
Proof.
  split; [vm_compute; reflexivity|].
  destruct (MediaBugManager_safe (Some sample_silence) sample_bm_labels
              sample_bm_outcome.1 sample_bm_outcome.2) as (w & Hw & Hh & _).
  - intros r Hr. injection Hr as <-. reflexivity.
  - cbn. lia.
  - vm_compute. reflexivity.
  - exists w. split; [exact Hw|exact Hh].
Defined.

(** Some bug registered on the channel satisfies [q]. *)
Definition some_bug (m : MediaBugManager) (uuid : string) (q : BugRecord -> Prop) : Prop :=
  exists id rec, by_id_ m !! id = Some rec /\ rec_channel_uuid rec = uuid /\ q rec.

Definition is_inject (rec : BugRecord) : Prop :=
  rec_purpose rec = kTtsPlayback \/ rec_purpose rec = kVoicebotDuplexWrite.

Lemma HasInjectBugLocked_some m uuid :
  index_ok m -> HasInjectBugLocked m uuid = true <-> some_bug m uuid is_inject.
Proof.
  intros Hix. unfold HasInjectBugLocked. rewrite existsb_records by done.
  unfold some_bug, is_inject, on_channel.
  setoid_rewrite orb_true_iff. setoid_rewrite bool_decide_eq_true. naive_solver.
Qed.

Lemma HasPurpose_some m uuid p :
  index_ok m -> HasPurpose m uuid p = true <-> some_bug m uuid (fun rec => rec_purpose rec = p).
Proof.
  intros Hix. rewrite HasPurpose_spec by done. unfold some_bug, on_channel. naive_solver.
Qed.

Lemma MaxRank_attained m uuid :
  MaxRankForChannel m uuid = 0 \/
  exists rec, rec ∈ channel_records m uuid /\ MaxRankForChannel m uuid = StageRank (rec_purpose rec).
Proof. apply (MaxRank_foldl (channel_records m uuid) 0). Qed.

Lemma MaxRank_some m uuid p :
  mgr_inv m -> StageRank p < MaxRankForChannel m uuid <->
  some_bug m uuid (fun rec => StageRank p < StageRank (rec_purpose rec)).
Proof.
  intros Hm. split.
  - intros Hlt. destruct (MaxRank_attained m uuid) as [H0|(rec & Hin & Heq)].
    + rewrite H0 in Hlt. by destruct p.
    + apply channel_records_elem in Hin as (id & H1 & H2); [|by apply mgr_inv_index_ok].
      exists id, rec. split_and!; [done..|lia].
  - intros (id & rec & H1 & H2 & Hlt). pose proof (MaxRank_bound m uuid id rec Hm ltac:(by split)). lia.
Qed.

(** Who is admitted.  In every reachable state, validation of an attach
    refuses a recording relay exactly when the channel has no TTS-playback or
    voicebot-write bug; refuses any other purpose as already existing exactly
    when a bug of that purpose is on the channel; refuses what remains as out of
    order exactly when a bug of a higher rank is on the channel, the purpose is
    not barge-in detection and the caller did not ask for FIRST; and otherwise
    assigns an id never used before, changing nothing else, with the FIRST flag
    added for barge-in detection. *)
Theorem Attach_admission s ls rs w uuid cfg :
  (forall r, s = Some r -> drivers_ r = ∅) ->
  Z.of_nat (length ls) < 2 ^ 64 - 2 ->
  bm_run (bm_init s) ls = Some (rs, Some w) ->
  let m := w_mgr w in
  let p := cfg_purpose cfg in
  let same := some_bug m uuid (fun rec => rec_purpose rec = p) in
  let higher := some_bug m uuid (fun rec => StageRank p < StageRank (rec_purpose rec)) in
  match Attach_validate uuid cfg m with
  | inr FAILED_PRECONDITION =>
      (p = kRecordingRelay /\ ~ some_bug m uuid is_inject) \/
      (p <> kRecordingRelay /\ ~ same /\ p <> kVadBargeIn /\
         has_flag (cfg_fs_flags cfg) kSmbfFirst = false /\ higher)
  | inr ALREADY_EXISTS => p <> kRecordingRelay /\ same
  | inr _ => False
  | inl (id, flags, m') =>
      (p = kRecordingRelay -> some_bug m uuid is_inject) /\
      (p <> kRecordingRelay -> ~ same) /\
      (p <> kVadBargeIn -> has_flag (cfg_fs_flags cfg) kSmbfFirst = false -> ~ higher) /\
      (forall i rec, by_id_ m !! i = Some rec -> i < id) /\
      flags = (if decide (p = kVadBargeIn) then Z.lor (cfg_fs_flags cfg) kSmbfFirst
               else cfg_fs_flags cfg) /\
      m' = mkMediaBugManager (id +u64 1) (by_id_ m) (by_channel_ m) (silence_ m)
  end.
Proof.
  intros Hs Hn Hr m p same higher.
  destruct (bm_run_inv ls _ _ _ (bm_inv_init s Hs) eq_refl ltac:(cbn; lia) Hr) as (w' & [= <-] & Hi).
  pose proof (bi_mgr _ Hi) as Hm. fold m in Hm. pose proof (mgr_inv_index_ok _ Hm) as Hix.
  assert (Hid : forall i rec, by_id_ m !! i = Some rec -> i < next_id_ m)
    by (intros i rec Hrec; apply (mi_range _ Hm i rec Hrec)).
  pose proof (HasInjectBugLocked_some m uuid Hix) as Hinj.
  pose proof (HasPurpose_some m uuid p Hix) as Hpur. fold same in Hpur.
  pose proof (MaxRank_some m uuid p Hm) as Hmax. fold higher in Hmax.
  unfold Attach_validate. fold p.
  destruct (decide (p = kRecordingRelay)) as [Hrec|Hrec];
    [rewrite (bool_decide_true _ Hrec)|rewrite (bool_decide_false _ Hrec)]; cbn [negb andb].
  - destruct (HasInjectBugLocked m uuid); cbn [negb]; [|left; split; [done|by intros ?%Hinj]].
    rewrite bool_decide_false by congruence.
    assert ((StageRank p <? MaxRankForChannel m uuid) = false) as Hle.
    { apply Z.ltb_ge. destruct (Z.lt_ge_cases (StageRank p) (MaxRankForChannel m uuid)) as [Hlt|]; [|done].
      apply Hmax in Hlt as (i & rec & _ & _ & Hlt). rewrite Hrec in Hlt. cbn in Hlt.
      by destruct (rec_purpose rec). }
    rewrite Hle. cbn [andb]. split_and!; try done; [tauto|..].
    + intros _ _ Hh. apply Hmax in Hh. b2p. lia.
    + by rewrite decide_False by congruence.
  - destruct (HasPurpose m uuid p); [split; [done|by apply Hpur]|].
    assert (~ same) as Hns by (by intros ?%Hpur).
    destruct (decide (p = kVadBargeIn)) as [Hv|Hv];
      [rewrite (bool_decide_true _ Hv)|rewrite (bool_decide_false _ Hv)].
    { split_and!; done. }
    destruct (StageRank p <? MaxRankForChannel m uuid) eqn:El; b2p; cbn [andb].
    + destruct (has_flag (cfg_fs_flags cfg) kSmbfFirst) eqn:Ef; cbn [negb].
      * split_and!; done.
      * right. split_and!; try done. by apply Hmax.
    + split_and!; try done. intros _ _ Hh. apply Hmax in Hh. lia.
Qed.

Definition sample_bm_world : bm_world := default (bm_init None) sample_bm_outcome.2.

Lemma Attach_admission_witness :
  Attach_validate "a" (mkBugConfig kVadBargeIn 0) (w_mgr sample_bm_world) = inr ALREADY_EXISTS /\
  kVadBargeIn <> kRecordingRelay /\
  some_bug (w_mgr sample_bm_world) "a" (fun rec => rec_purpose rec = kVadBargeIn).
Proof.
  assert (Attach_validate "a" (mkBugConfig kVadBargeIn 0) (w_mgr sample_bm_world) = inr ALREADY_EXISTS) as Hv
    by (vm_compute; reflexivity).
  split; [exact Hv|].
  pose proof (Attach_admission (Some sample_silence) sample_bm_labels sample_bm_outcome.1 sample_bm_world
    "a" (mkBugConfig kVadBargeIn 0)) as H.
  cbv zeta in H. rewrite Hv in H. apply H.
  - intros r Hr. injection Hr as <-. reflexivity.
  - cbn. lia.
  - vm_compute. reflexivity.
Defined.

(** C36. A destroyed channel leaves nothing behind.  In every reachable state,
    when CS_DESTROY runs for a channel, the step neither frees a context that
    FreeSWITCH holds nor frees one twice, and afterwards no bug of the channel is
    registered, every live context belongs to a bug of another channel or to an
    attach of another channel in progress, and no silence driver runs for it. *)
Theorem channel_destroy_clears s ls rs w uuid r ow :
  (forall r, s = Some r -> drivers_ r = ∅) ->
  Z.of_nat (length ls) < 2 ^ 64 - 2 ->
  bm_run (bm_init s) ls = Some (rs, Some w) ->
  bm_step w (LDestroy uuid) = Some (r, ow) ->
  exists w', ow = Some w' /\
    channel_ids (w_mgr w') uuid = [] /\
    (forall id rec, by_id_ (w_mgr w') !! id = Some rec -> rec_channel_uuid rec <> uuid) /\
    (forall id, id ∈ live (w_heap w') ->
       (exists rec, by_id_ (w_mgr w') !! id = Some rec /\ rec_channel_uuid rec <> uuid) \/
       (exists u pd, u <> uuid /\ w_locks w' !! u = Some pd /\ pd_id pd = id)) /\
    (forall reg, silence_ (w_mgr w') = Some reg -> uuid ∉ drivers_ reg).
Proof.
  intros Hs Hn Hr Hd.
  destruct (bm_run_inv ls _ _ _ (bm_inv_init s Hs) eq_refl ltac:(cbn; lia) Hr) as (w0 & [= <-] & Hi).
  destruct (LDestroy_inv w uuid r ow Hi Hd) as (w' & -> & Hi' & _ & Hg & Hsil).
  assert (forall id rec, by_id_ (w_mgr w') !! id = Some rec -> rec_channel_uuid rec <> uuid) as Hg'
    by (intros id rec H1 H2; by apply (Hg id rec)).
  assert (w_locks w' !! uuid = None) as Hu.
  { cbn [bm_step] in Hd. unfold OswMediaChannelDestroy in Hd. destruct (unlocked w uuid) eqn:Eu; [|done]. apply unlocked_spec in Eu.
    cbn [negb] in Hd. destruct (forallb _ _); [|done]. cbn [negb] in Hd.
    destruct (DetachAll uuid (w_mgr w)) as [m' es]. unfold with_events in Hd.
    destruct (trace_run (w_heap w) es) as [h|]; [|done]. cbn in Hd. by simplify_eq/=. }
  exists w'. split_and!; try done.
  - destruct (channel_ids (w_mgr w') uuid) as [|i l] eqn:E; [done|]. exfalso.
    assert (i ∈ channel_ids (w_mgr w') uuid) as Hin by (rewrite E; by left).
    apply (mi_index _ (bi_mgr _ Hi')) in Hin as (rec & Hrec). by apply (Hg i rec).
  - intros id Hl. apply (bi_live _ Hi') in Hl as [[rec Hrec]|(u & pd & Hpd & _ & Heq)].
    + left. exists rec. split; [done|]. by apply (Hg' id).
    + right. exists u, pd. split_and!; [|done..]. intros ->. congruence.
Qed.

Definition sample_close_labels : list bm_label :=
  [LAttachBegin "a" (mkBugConfig kTtsPlayback kSmbfWriteReplace); LAttachAdd "a" true true; LFsClose 1;
   LAttachRegister "a" true sample_view].
Definition sample_close_outcome : list bm_result * option bm_world :=
  default ([], None) (bm_run (bm_init (Some sample_silence)) sample_close_labels).

Lemma channel_destroy_clears_witness :
  let w := default (bm_init None) sample_close_outcome.2 in
  channel_ids (w_mgr w) "a" = [1] /\
  exists w', snd <$> bm_step w (LDestroy "a") = Some (Some w') /\ channel_ids (w_mgr w') "a" = [].
Proof.
  intros w. split; [vm_compute; reflexivity|].
  destruct (bm_step w (LDestroy "a")) as [[r ow]|] eqn:Es; [|vm_compute in Es; discriminate].
  destruct (channel_destroy_clears (Some sample_silence) sample_close_labels sample_close_outcome.1 w "a" r ow)
    as (w' & -> & Hc & _).
  - intros r' Hr. injection Hr as <-. reflexivity.
  - cbn. lia.
  - vm_compute. reflexivity.
  - exact Es.
  - exists w'. split; [reflexivity|exact Hc].
Defined.

#[export] Instance PurposeName_inj : Inj (=) (=) PurposeName.
Proof. by intros [] []. Qed.

(** The destructor with no attach under way: a context outlives its manager
    exactly for each bug that was still registered, so none does only when they
    were all detached before, and what FreeSWITCH held it still holds. *)
Lemma MediaBugManager_dtor_leaks w :
  bm_inv w -> w_locks w = ∅ ->
  let w' := MediaBugManager_dtor w in
  (forall id, id ∈ live (w_heap w') <-> is_Some (by_id_ (w_mgr w) !! id)) /\
  held (w_heap w') = held (w_heap w) /\ TotalActiveBugCount (w_mgr w') = 0%nat.
Proof.
  intros Hi Hl. split; [|split; [done|apply map_size_empty]]. intros id. cbn. rewrite (bi_live _ Hi).
  split; [|by left]. intros [H|(u & pd & Hu & _)]; [done|]. by rewrite Hl, lookup_empty in Hu.
Qed.

(** One bug attached and the manager destroyed: FreeSWITCH keeps the context, and
    with it the address of the manager that is gone. *)
Lemma dtor_leaves_callback_armed :
  let w := default (bm_init None) (default ([], None) (bm_run (bm_init None)
    [LAttachBegin "a" (mkBugConfig kSttTranscribe 0); LAttachAdd "a" true true; LAttachRegister "a" true sample_view])).2 in
  held (w_heap (MediaBugManager_dtor w)) = {[1]} /\ live (w_heap (MediaBugManager_dtor w)) = {[1]}.
Proof. by vm_compute. Qed.

(** ** The ids of the handles *)

Definition handles_of (rs : list bm_result) : list Z := omap (fun r => match r with RHandle id => Some id | _ => None end) rs.

(** An attach under way was so before the step, or has the next id; a handle is
    that of an attach that ends. *)
Lemma bm_step_ids w l r w' :
  bm_inv w -> 0 < next_id_ (w_mgr w) < 2 ^ 64 - 1 -> bm_step w l = Some (r, Some w') ->
  (forall u pd, w_locks w' !! u = Some pd ->
     (exists pd0, w_locks w !! u = Some pd0 /\ pd_id pd0 = pd_id pd) \/ pd_id pd = next_id_ (w_mgr w)) /\
  (forall id, r = RHandle id -> exists u pd, w_locks w !! u = Some pd /\ pd_id pd = id /\ w_locks w' = delete u (w_locks w)).
Proof.
  intros Hw Hn Hs.
  assert (Hsame : w_locks w' = w_locks w -> (forall id, r <> RHandle id) ->
    (forall u pd, w_locks w' !! u = Some pd ->
       (exists pd0, w_locks w !! u = Some pd0 /\ pd_id pd0 = pd_id pd) \/ pd_id pd = next_id_ (w_mgr w)) /\
    (forall id, r = RHandle id -> exists u pd, w_locks w !! u = Some pd /\ pd_id pd = id /\ w_locks w' = delete u (w_locks w))).
  { intros -> Hr. split; [intros u pd H; left; eauto|]. by intros id ->; destruct (Hr id). }
  assert (Hdel : forall u, w_locks w' = delete u (w_locks w) -> forall v pd, w_locks w' !! v = Some pd ->
    (exists pd0, w_locks w !! v = Some pd0 /\ pd_id pd0 = pd_id pd) \/ pd_id pd = next_id_ (w_mgr w)).
  { intros u -> v pd [_ H]%lookup_delete_Some. left; eauto. }
  assert (Hev : forall m lk es r0, with_events w m lk es r0 = Some (r, Some w') -> r = r0 /\ w_locks w' = lk).
  { unfold with_events. intros m lk es r0. destruct (trace_run (w_heap w) es); cbn; intros; by simplify_eq. }
  destruct l as [u cfg|u a f|u a v|id|id|u|id cb]; cbn [bm_step] in Hs.
  - unfold Attach_begin in Hs. destruct (string_empty u); [apply Hev in Hs as [-> Hlk]; by apply Hsame|].
    destruct (negb (unlocked w u)); [done|]. destruct (Attach_validate u cfg (w_mgr w)) as [[[id flags] m']|e] eqn:Ev;
      apply Hev in Hs as [-> Hlk]; [|by apply Hsame]. split; [|done]. rewrite Hlk.
    destruct (Attach_validate_ok _ _ _ _ _ _ (bi_mgr _ Hw) Hn Ev) as (-> & -> & _).
    intros u' pd [[<- <-]|[_ H]]%lookup_insert_Some; [by right|left; eauto].
  - unfold Attach_add in Hs. destruct (w_locks w !! u) as [[id cfg fl []]|] eqn:Eu; try done.
    destruct a, f; cbn [negb] in Hs; apply Hev in Hs as [-> Hlk]; (split; [|done]); eauto. rewrite Hlk.
    intros u' pd [[<- <-]|[_ H]]%lookup_insert_Some; left; eauto.
  - unfold Attach_finish in Hs. destruct (w_locks w !! u) as [[id cfg fl []]|] eqn:Eu; try done.
    destruct a; cbn [negb] in Hs; apply Hev in Hs as [-> Hlk]; (split; [by eauto|]); [|done].
    intros id' [= <-]. exists u. eauto.
  - unfold DetachInternal in Hs. repeat case_match; try done; apply Hev in Hs as [-> Hlk]; by apply Hsame.
  - unfold OswMediaBugTrampoline_close, DetachInternal in Hs. repeat case_match; try done; apply Hev in Hs as [-> Hlk]; by apply Hsame.
  - unfold OswMediaChannelDestroy in Hs. repeat case_match; try done; apply Hev in Hs as [-> Hlk]; by apply Hsame.
  - repeat case_match; try done; apply Hev in Hs as [-> Hlk]; by apply Hsame.
Qed.

(** The ids a run has given out are never given out again. *)
Lemma bm_run_handles ls : forall w rs ow (used : list Z),
  bm_inv w -> 0 < next_id_ (w_mgr w) -> next_id_ (w_mgr w) + Z.of_nat (length ls) < 2 ^ 64 ->
  (forall i, i ∈ used -> i < next_id_ (w_mgr w) /\ forall u pd, w_locks w !! u = Some pd -> pd_id pd <> i) ->
  bm_run w ls = Some (rs, ow) ->
  NoDup (handles_of rs) /\ forall i, i ∈ handles_of rs -> 0 < i /\ i ∉ used.
Proof.
  induction ls as [|l ls IH]; intros w rs ow used Hw Hp Hn Hused Hr; cbn [bm_run length] in *.
  { simplify_eq. split; [constructor|]. by intros i Hi%elem_of_nil. }
  destruct (bm_step w l) as [[r o1]|] eqn:E1; [|done]. cbn [mbind option_bind] in Hr.
  destruct (bm_step_inv w l r o1 Hw ltac:(lia) E1) as (w1 & -> & Hi1 & Hn1).
  destruct (bm_run w1 ls) as [[rs' o2]|] eqn:E2; [|done]. cbn in Hr. simplify_eq.
  destruct (bm_step_ids w l r w1 Hw ltac:(lia) E1) as [Hlk Hh].
  assert (Hused1 : forall i, i ∈ used -> i < next_id_ (w_mgr w1) /\ forall u pd, w_locks w1 !! u = Some pd -> pd_id pd <> i).
  { intros i Hi. destruct (Hused i Hi) as [Hlt Hpd]. split; [lia|]. intros u pd Hu.
    destruct (Hlk u pd Hu) as [(pd0 & H0 & <-)| ->]; [eauto|lia]. }
  assert ((exists id, r = RHandle id) \/ handles_of (r :: rs') = handles_of rs') as [[id ->]| ->]
    by (destruct r; [right; done|right; done|left; by eexists|right; done]).
  - destruct (Hh id eq_refl) as (u & pd & Hu & Hid & Hdel). pose proof (po_range _ _ _ (bi_pending _ Hw _ _ Hu)) as Hrng.
    assert (Hnu : id ∉ used) by (intros Hi; by destruct (Hused id Hi) as [_ H]; destruct (H u pd Hu)).
    destruct (IH w1 rs' ow (id :: used) Hi1 ltac:(lia) ltac:(lia)) as [Hnd Hout]; [|exact E2|].
    + intros i [->|Hi]%elem_of_cons; [|by apply Hused1]. split; [lia|]. intros v pd' Hv. rewrite Hdel in Hv.
      apply lookup_delete_Some in Hv as [Hne Hv]. intros Heq. destruct Hne. apply (bi_distinct _ Hw _ _ pd pd'); congruence.
    + cbn. split.
      * constructor; [|done]. intros Hi. destruct (Hout _ Hi) as [_ H]. destruct H. by left.
      * intros i [->|Hi]%elem_of_cons; [split; [lia|done]|]. destruct (Hout _ Hi) as [? H]. split; [done|].
        intros ?; destruct H; by right.
  - by apply (IH w1 rs' ow used Hi1 ltac:(lia) ltac:(lia) Hused1).
Qed.

Lemma bm_step_status w l e ow : bm_step w l = Some (RStatus e, ow) -> e <> OK.
Proof.
  assert (Hev : forall m lk es r0, with_events w m lk es r0 = Some (RStatus e, ow) -> r0 = RStatus e)
    by (unfold with_events; intros; by simplify_eq).
  destruct l; cbn [bm_step]; unfold Attach_begin, Attach_add, Attach_finish, OswMediaBugTrampoline_close,
    OswMediaChannelDestroy, DetachInternal; intros Hs; repeat case_match; try done;
    apply Hev in Hs; simplify_eq; try done.
  unfold Attach_validate in *. repeat case_match; by simplify_eq.
Qed.

Lemma bm_run_status ls : forall w rs ow e, bm_run w ls = Some (rs, ow) -> RStatus e ∈ rs -> e <> OK.
Proof.
  induction ls as [|l ls IH]; intros w rs ow e; cbn [bm_run]; [intros [= <- _] H; by apply elem_of_nil in H|].
  destruct (bm_step w l) as [[r [w1|]]|] eqn:E1; cbn [mbind option_bind]; [| |done].
  - destruct (bm_run w1 ls) as [[rs' o2]|] eqn:E2; [|done]. intros [= <- _] [<-|H]%elem_of_cons; [by eapply bm_step_status|eauto].
  - intros [= <- _] <-%list_elem_of_singleton. by eapply bm_step_status.
Qed.
