(* ===== verification/BugFanout.v ===== *)
(** * The bot fan-out

    [src/media/bug_fanout.cc] and [include/osw/media/bug_fanout.h]: one inbound
    frame stream copied into one bounded queue per target.  A [TargetQueue*] is
    the index of the queue in [queues_]; the pointers of [write_queues_] are
    never null, since only queues that were found are added.  [Push] has one
    caller and the queues have their own locks, so each method is a function on
    the state; the loop of [Push] goes queue by queue. *)

From S2P Require Import Prelude BoundedQueue AudioFrame.

Inductive FanoutMode := kBroadcast | kWhisper.

Record FanoutConfig := mkFanoutConfig {
  fo_mode : FanoutMode;
  target_uuids : list string;
  write_subset_uuids : list string;
  capacity_frames : nat }.

Record TargetQueue := mkTargetQueue { tq_channel_uuid : string; tq_queue : list AudioFrame }.

Record BugFanout := mkBugFanout {
  fo_capacity : nat;
  queues_ : list TargetQueue;
  write_queues_ : list nat;
  half_closed_ : bool;
  total_dropped_ : Z }.

(** The first queue with that uuid. *)
Fixpoint FindQueue_from (i : nat) (qs : list TargetQueue) (uuid : string) : option nat :=
  match qs with
  | [] => None
  | q :: qs' => if String.eqb (tq_channel_uuid q) uuid then Some i else FindQueue_from (S i) qs' uuid
  end.

Definition FindQueue (qs : list TargetQueue) (uuid : string) : option nat := FindQueue_from 0 qs uuid.

Definition BugFanout_new (cfg : FanoutConfig) : BugFanout :=
  let qs := (fun u => mkTargetQueue u []) <$> target_uuids cfg in
  mkBugFanout (capacity_frames cfg) qs
    (match fo_mode cfg with
     | kBroadcast => seq 0 (length qs)
     | kWhisper => omap (FindQueue qs) (write_subset_uuids cfg) end)
    false 0.

(** [while (queue.size() > capacity_frames) { pop_front(); ++dropped; }]. *)
Fixpoint trim_loop (cap : nat) (q : list AudioFrame) : list AudioFrame * Z :=
  match q with
  | [] => ([], 0)
  | _ :: q' => if (cap <? length q)%nat
               then let '(r, d) := trim_loop cap q' in (r, 1 + d) else (q, 0)
  end.

(** The loop of [Push] over the write queues. *)
Fixpoint push_loop (cap : nat) (frame : AudioFrame) (ws : list nat) (qs : list TargetQueue) (dropped : Z)
  : list TargetQueue * Z :=
  match ws with
  | [] => (qs, dropped)
  | i :: ws' =>
      match qs !! i with
      | None => push_loop cap frame ws' qs dropped
      | Some t =>
          let '(q, d) := trim_loop cap (tq_queue t ++ [frame]) in
          push_loop cap frame ws' (<[i := mkTargetQueue (tq_channel_uuid t) q]> qs) (dropped +u64 d)
      end
  end.

Definition Push (frame : AudioFrame) (f : BugFanout) : Z * BugFanout :=
  if half_closed_ f then (0, f)
  else match write_queues_ f with
       | [] => (0, f)
       | ws =>
           let '(qs, dropped) := push_loop (fo_capacity f) frame ws (queues_ f) 0 in
           (dropped, mkBugFanout (fo_capacity f) qs ws false
                       (if 0 <? dropped then total_dropped_ f +u64 dropped else total_dropped_ f))
       end.

Definition Pop (uuid : string) (f : BugFanout) : option AudioFrame * BugFanout :=
  match FindQueue (queues_ f) uuid with
  | None => (None, f)
  | Some i =>
      match queues_ f !! i with
      | Some (mkTargetQueue u (frame :: q)) =>
          (Some frame, mkBugFanout (fo_capacity f) (<[i := mkTargetQueue u q]> (queues_ f))
                         (write_queues_ f) (half_closed_ f) (total_dropped_ f))
      | _ => (None, f)
      end
  end.

Definition HalfClose (f : BugFanout) : BugFanout :=
  mkBugFanout (fo_capacity f) (queues_ f) (write_queues_ f) true (total_dropped_ f).

Definition TotalDropped (f : BugFanout) : Z := total_dropped_ f.

Definition QueueDepth (uuid : string) (f : BugFanout) : nat :=
  match FindQueue (queues_ f) uuid with
  | None => 0%nat
  | Some i => match queues_ f !! i with Some t => length (tq_queue t) | None => 0%nat end
  end.

(** ** Runs *)

Inductive fanout_op := OpPush (frame : AudioFrame) | OpPop (uuid : string) | OpHalfClose.

(** The frames a run of operations returned, with the target asked. *)
Definition fanout_step (o : fanout_op) (f : BugFanout) : list (string * AudioFrame) * BugFanout :=
  match o with
  | OpPush frame => ([], (Push frame f).2)
  | OpPop uuid => let '(r, f') := Pop uuid f in ((fun x => (uuid, x)) <$> option_list r, f')
  | OpHalfClose => ([], HalfClose f)
  end.

Fixpoint fanout_run (os : list fanout_op) (f : BugFanout) : list (string * AudioFrame) * BugFanout :=
  match os with
  | [] => ([], f)
  | o :: os' =>
      let '(r, f1) := fanout_step o f in
      let '(rs, f2) := fanout_run os' f1 in (r ++ rs, f2)
  end.

(** The frames pushed before the half-close. *)
Fixpoint accepted (os : list fanout_op) : list AudioFrame :=
  match os with
  | [] => []
  | OpPush frame :: os' => frame :: accepted os'
  | OpPop _ :: os' => accepted os'
  | OpHalfClose :: _ => []
  end.

(** Queue [i] gets each frame as often as it occurs among the write queues. *)
Definition copies (ws : list nat) (i : nat) (l : list AudioFrame) : list AudioFrame :=
  l ≫= (fun frame => replicate (count_occ Nat.eq_dec ws i) frame).

Definition zsum (n : nat) (g : nat -> Z) : Z := foldr (fun i s => g i + s) 0 (seq 0 n).

(** ** Sums over the queues *)

Lemma zsum_from n g : forall k, foldr (fun i s => g i + s) 0 (seq k n) = zsum n (fun i => g (k + i)%nat).
Proof.
  unfold zsum. induction n as [|n IH]; intros k; [done|]. cbn [seq foldr].
  rewrite Nat.add_0_r, (IH (S k)), <- fmap_S_seq. f_equal. generalize (seq 0 n).
  induction l as [|x l IHl]; [done|]. cbn [fmap list_fmap foldr]. rewrite <- IHl.
  by replace (k + S x)%nat with (S k + x)%nat by lia.
Qed.

Lemma zsum_S n g : zsum (S n) g = g 0%nat + zsum n (fun i => g (S i)).
Proof. unfold zsum at 1. cbn [seq foldr]. by rewrite (zsum_from n g 1). Qed.

Lemma zsum_ext n g h : (forall i, (i < n)%nat -> g i = h i) -> zsum n g = zsum n h.
Proof.
  revert g h. induction n as [|n IH]; intros g h H; [done|]. rewrite !zsum_S.
  rewrite H by lia. f_equal. apply IH. intros i Hi. apply H. lia.
Qed.

Lemma zsum_add n g h : zsum n (fun i => g i + h i) = zsum n g + zsum n h.
Proof.
  revert g h. induction n as [|n IH]; intros g h; [done|]. rewrite !zsum_S, IH. lia.
Qed.

Lemma zsum_0 n : zsum n (fun _ => 0) = 0.
Proof. induction n as [|n IH]; [done|]. by rewrite zsum_S, IH. Qed.

Lemma zsum_single n j z : (j < n)%nat -> zsum n (fun i => if decide (i = j) then z else 0) = z.
Proof.
  revert j. induction n as [|n IH]; intros j Hj; [lia|]. rewrite zsum_S. destruct j as [|j].
  - rewrite decide_True by done. rewrite (zsum_ext _ _ (fun _ => 0)), zsum_0; [lia|].
    intros i _. by rewrite decide_False.
  - rewrite decide_False by done. rewrite (zsum_ext _ _ (fun i => if decide (i = j) then z else 0)).
    + rewrite IH by lia. lia.
    + intros i _. destruct (decide (i = j)) as [->|Hne]; [by rewrite decide_True|]. rewrite decide_False; [done|lia].
Qed.

(** ** Push *)

Lemma trim_loop_spec cap q :
  trim_loop cap q = (drop (length q - cap) q, Z.of_nat (length q - cap)).
Proof.
  induction q as [|x q IH]; [done|]. cbn [trim_loop]. case_test.
  - rewrite IH. cbn [length] in *. replace (S (length q) - cap)%nat with (S (length q - cap)) by lia.
    cbn [drop]. f_equal. lia.
  - replace (length (x :: q) - cap)%nat with 0%nat by lia. done.
Qed.

(** Between two lists of queues: the same targets; [gone] says what left each
    queue from the front while [into] entered at the back. *)
Definition queues_step (cap : nat) (into gone : nat -> list AudioFrame) (qs qs' : list TargetQueue) : Prop :=
  tq_channel_uuid <$> qs' = tq_channel_uuid <$> qs /\
  forall i t, qs !! i = Some t -> exists t', qs' !! i = Some t' /\
    tq_queue t ++ into i = gone i ++ tq_queue t' /\ (length (tq_queue t') <= cap)%nat.

Definition bounded (cap : nat) (qs : list TargetQueue) : Prop :=
  forall i t, qs !! i = Some t -> (length (tq_queue t) <= cap)%nat.

Lemma queues_step_bounded cap into gone qs qs' :
  queues_step cap into gone qs qs' -> bounded cap qs'.
Proof.
  intros [Hu Hs] i t' Hi.
  destruct (qs !! i) as [t|] eqn:E.
  - destruct (Hs i t E) as (t2 & Ht2 & _ & Hl). by simplify_eq.
  - assert ((tq_channel_uuid <$> qs') !! i = Some (tq_channel_uuid t')) as H by (by rewrite list_lookup_fmap, Hi).
    rewrite Hu, list_lookup_fmap, E in H. done.
Qed.

Lemma push_loop_spec cap frame ws : forall qs dropped qs' d',
  0 <= dropped < 2 ^ 64 -> bounded cap qs ->
  push_loop cap frame ws qs dropped = (qs', d') ->
  exists gone, queues_step cap (fun i => replicate (count_occ Nat.eq_dec ws i) frame) gone qs qs' /\
    d' = u64 (dropped + zsum (length qs) (fun i => Z.of_nat (length (gone i)))).
Proof.
  induction ws as [|j ws IH]; intros qs dropped qs' d' Hd Hb Hp; cbn [push_loop] in Hp.
  { simplify_eq. exists (fun _ => []). split; [split; [done|]|].
    - intros i t Hi. exists t. rewrite app_nil_r. split_and!; [done..|by eapply Hb].
    - cbn [length]. rewrite zsum_0, Z.add_0_r. by rewrite u64_small. }
  destruct (qs !! j) as [t|] eqn:Ej.
  2: { destruct (IH _ _ _ _ Hd Hb Hp) as (gone & [Hu Hs] & Hd'). exists gone. split; [|done].
       split; [done|]. intros i t Hi. cbn [count_occ]. destruct (Nat.eq_dec j i) as [->|Hne]; [congruence|].
       by apply Hs. }
  rewrite trim_loop_spec in Hp.
  set (q := tq_queue t ++ [frame]) in *. set (n := (length q - cap)%nat) in *.
  assert (bounded cap (<[j := mkTargetQueue (tq_channel_uuid t) (drop n q)]> qs)) as Hb'.
  { intros i t' Hi. destruct (decide (i = j)) as [->|Hne].
    - rewrite list_lookup_insert_eq in Hi by by eapply lookup_lt_Some. simplify_eq. cbn [tq_queue].
      rewrite length_drop. unfold n. lia.
    - rewrite list_lookup_insert_ne in Hi by done. by eapply Hb. }
  destruct (IH _ _ _ _ (u64_range _) Hb' Hp) as (gone & [Hu Hs] & Hd').
  exists (fun i => if decide (i = j) then take n q ++ gone i else gone i). split; [split|].
  - rewrite Hu, list_fmap_insert. cbn [tq_channel_uuid]. apply list_insert_id. by rewrite list_lookup_fmap, Ej.
  - intros i t0 Hi. cbn [count_occ]. destruct (decide (i = j)) as [->|Hne].
    + rewrite Ej in Hi. injection Hi as <-. destruct (Nat.eq_dec j j) as [_|]; [|done].
      destruct (Hs j (mkTargetQueue (tq_channel_uuid t) (drop n q))) as (t' & Ht' & Hq & Hl).
      { apply list_lookup_insert_eq. by eapply lookup_lt_Some. }
      exists t'. split_and!; [done| |done]. cbn [tq_queue replicate] in *.
      rewrite <- app_assoc, <- Hq, app_assoc, take_drop. unfold q. by rewrite <- app_assoc.
    + destruct (Nat.eq_dec j i) as [->|_]; [done|].
      apply Hs. by rewrite list_lookup_insert_ne.
  - rewrite Hd', u64_add_l, length_insert.
    rewrite (zsum_ext _ (fun i => Z.of_nat (length (if decide (i = j) then take n q ++ gone i else gone i)))
      (fun i => (if decide (i = j) then Z.of_nat n else 0) + Z.of_nat (length (gone i)))).
    + rewrite zsum_add, zsum_single by by eapply lookup_lt_Some. f_equal. lia.
    + intros i _. case_decide; [|lia]. rewrite length_app, length_take. unfold n. lia.
Qed.

(** ** Pop *)

Lemma FindQueue_from_uuids qs : forall qs' i u,
  tq_channel_uuid <$> qs = tq_channel_uuid <$> qs' -> FindQueue_from i qs u = FindQueue_from i qs' u.
Proof.
  induction qs as [|q qs IH]; intros [|q' qs'] i u H; try done. simplify_eq/=.
  rewrite H. case_match; [done|]. by apply IH.
Qed.

Lemma FindQueue_uuids qs qs' u :
  tq_channel_uuid <$> qs = tq_channel_uuid <$> qs' -> FindQueue qs u = FindQueue qs' u.
Proof. apply FindQueue_from_uuids. Qed.

(** The frames handed out for queue [i]. *)
Definition delivered (qs : list TargetQueue) (i : nat) (rs : list (string * AudioFrame)) : list AudioFrame :=
  rs ≫= (fun x => if decide (FindQueue qs x.1 = Some i) then [x.2] else []).

Lemma delivered_uuids qs qs' i rs :
  tq_channel_uuid <$> qs = tq_channel_uuid <$> qs' -> delivered qs i rs = delivered qs' i rs.
Proof.
  intros H. unfold delivered. induction rs as [|x rs IH]; [done|]. cbn [mbind list_bind].
  by rewrite IH, (FindQueue_uuids qs qs').
Qed.

Record fanout_inv (f : BugFanout) : Prop := {
  fi_bounded : bounded (fo_capacity f) (queues_ f);
  fi_total : 0 <= total_dropped_ f < 2 ^ 64 }.

(** What happened to the queues from [f] to [f'] while [into] was accepted and
    [rs] returned. *)
Record fanout_effect (f f' : BugFanout) (into : list AudioFrame) (rs : list (string * AudioFrame))
  (rem : nat -> list (removal * AudioFrame)) : Prop := {
  fe_inv : fanout_inv f';
  fe_capacity : fo_capacity f' = fo_capacity f;
  fe_write : write_queues_ f' = write_queues_ f;
  fe_uuids : tq_channel_uuid <$> queues_ f' = tq_channel_uuid <$> queues_ f;
  fe_queues i t : queues_ f !! i = Some t -> exists t', queues_ f' !! i = Some t' /\
    tq_queue t ++ copies (write_queues_ f) i into = (rem i).*2 ++ tq_queue t' /\
    popped (rem i) = delivered (queues_ f) i rs;
  fe_total : total_dropped_ f' = u64 (total_dropped_ f + zsum (length (queues_ f)) (fun i => evictions (rem i))) }.

Lemma fanout_effect_refl f : fanout_inv f -> fanout_effect f f [] [] (fun _ => []).
Proof.
  intros Hi. split; try done.
  - intros i t Ht. exists t. cbn. by rewrite app_nil_r.
  - cbn. rewrite zsum_0, Z.add_0_r, u64_small; [done|apply Hi].
Qed.

Lemma fanout_effect_trans f g h into1 into2 rs1 rs2 rem1 rem2 :
  fanout_effect f g into1 rs1 rem1 -> fanout_effect g h into2 rs2 rem2 ->
  fanout_effect f h (into1 ++ into2) (rs1 ++ rs2) (fun i => rem1 i ++ rem2 i).
Proof.
  intros A B. destruct A as [Ai Ac Aw Au Aq At], B as [Bi Bc Bw Bu Bq Bt].
  split; try congruence; try done.
  - intros i t Ht. destruct (Aq i t Ht) as (t1 & Ht1 & Hq1 & Hp1).
    destruct (Bq i t1 Ht1) as (t2 & Ht2 & Hq2 & Hp2). exists t2. split_and!; [done|..].
    + unfold copies in *. rewrite bind_app, app_assoc, Hq1, fmap_app, <- !app_assoc. f_equal.
      rewrite Aw in Hq2. exact Hq2.
    + rewrite popped_app, Hp1, Hp2, (delivered_uuids (queues_ g) (queues_ f)) by done.
      unfold delivered. by rewrite bind_app.
  - rewrite Bt, At, u64_add_l. f_equal.
    assert (length (queues_ g) = length (queues_ f)) as ->
      by (rewrite <- (length_fmap tq_channel_uuid (queues_ g)), Au; apply length_fmap).
    rewrite <- Z.add_assoc, <- zsum_add. f_equal. apply zsum_ext. intros i _. by rewrite evictions_app.
Qed.

Lemma copies_single ws i frame : copies ws i [frame] = replicate (count_occ Nat.eq_dec ws i) frame.
Proof. unfold copies. cbn. apply app_nil_r. Qed.

Lemma Fanout_Push_effect frame f :
  fanout_inv f ->
  exists rem, fanout_effect f (Push frame f).2 (if half_closed_ f then [] else [frame]) [] rem /\
    half_closed_ (Push frame f).2 = half_closed_ f.
Proof.
  intros Hi. unfold Push. destruct (half_closed_ f) eqn:Eh.
  { exists (fun _ => []). split; [by apply fanout_effect_refl|done]. }
  destruct (write_queues_ f) as [|w ws] eqn:Ew.
  { exists (fun _ => []). split; [|done]. split; try done.
    - intros i t Ht. exists t. rewrite Ew, copies_single. cbn. by rewrite app_nil_r.
    - cbn. rewrite zsum_0, Z.add_0_r, u64_small; [done|apply Hi]. }
  destruct (push_loop _ _ _ _ _) as [qs' d] eqn:Ep.
  destruct (push_loop_spec _ _ _ _ 0 _ _ ltac:(lia) (fi_bounded _ Hi) Ep) as (gone & Hs & Hd).
  exists (fun i => (fun x => (Evicted, x)) <$> gone i). split; [|done].
  assert (zsum (length (queues_ f)) (fun i => evictions ((fun x => (Evicted, x)) <$> gone i)) =
          zsum (length (queues_ f)) (fun i => Z.of_nat (length (gone i)))) as Hz
    by (apply zsum_ext; intros; apply evictions_evicted).
  cbn [snd]. split; cbn [fo_capacity write_queues_ queues_ total_dropped_]; try done.
  - split; cbn [fo_capacity queues_ total_dropped_]; [by eapply queues_step_bounded|].
    case_test; [apply u64_range|apply Hi].
  - apply Hs.
  - intros i t Ht. destruct Hs as [_ Hs]. destruct (Hs i t Ht) as (t' & Ht' & Hq & _).
    exists t'. split_and!; [done| |by rewrite popped_evicted].
    rewrite Ew, copies_single, Hq. f_equal. rewrite <- list_fmap_compose.
    symmetry. apply list_fmap_id.
  - rewrite Hz. rewrite Z.add_0_l in Hd. case_test.
    + rewrite Hd. unfold u64. by rewrite Zplus_mod_idemp_r.
    + assert (d = 0) as Hd0 by (rewrite Hd; pose proof (u64_range (zsum (length (queues_ f))
        (fun i => Z.of_nat (length (gone i))))); lia).
      rewrite Hd0 in Hd. unfold u64 in *. rewrite <- Zplus_mod_idemp_r, <- Hd, Z.add_0_r.
      symmetry. apply Z.mod_small, Hi.
Qed.

Lemma Fanout_Pop_effect u f :
  fanout_inv f ->
  exists rem, fanout_effect f (Pop u f).2 [] ((fun x => (u, x)) <$> option_list (Pop u f).1) rem /\
    half_closed_ (Pop u f).2 = half_closed_ f.
Proof.
  intros Hi. unfold Pop.
  destruct (FindQueue (queues_ f) u) as [i|] eqn:Ef;
    [|exists (fun _ => []); split; [by apply fanout_effect_refl|done]].
  destruct (queues_ f !! i) as [[uu [|frame q]]|] eqn:Eq;
    try (exists (fun _ => []); split; [by apply fanout_effect_refl|done]).
  exists (fun j => if decide (j = i) then [(Popped, frame)] else []). split; [|done].
  assert (i < length (queues_ f))%nat as Hlt by by eapply lookup_lt_Some.
  split; cbn [fst snd fo_capacity write_queues_ queues_ total_dropped_]; try done.
  - split; cbn [fo_capacity queues_ total_dropped_]; [|apply Hi]. intros j t Hj.
    destruct (decide (j = i)) as [->|Hne].
    + rewrite list_lookup_insert_eq in Hj by done. simplify_eq. cbn.
      pose proof (fi_bounded _ Hi i _ Eq) as Hb. cbn in Hb. lia.
    + rewrite list_lookup_insert_ne in Hj by done. by apply (fi_bounded _ Hi j).
  - rewrite list_fmap_insert. apply list_insert_id. by rewrite list_lookup_fmap, Eq.
  - intros j t Hj. destruct (decide (j = i)) as [->|Hne].
    + eexists. rewrite list_lookup_insert_eq by done. split; [done|]. rewrite Eq in Hj. simplify_eq. cbn.
      by rewrite app_nil_r, decide_True.
    + exists t. rewrite list_lookup_insert_ne by done. split; [done|]. cbn.
      rewrite app_nil_r. by rewrite decide_False by congruence.
  - rewrite (zsum_ext _ _ (fun _ => 0)), zsum_0, Z.add_0_r; [symmetry; apply u64_small, Hi|].
    intros j _. by case_decide.
Qed.

Lemma fanout_run_effect os : forall f rs f',
  fanout_inv f -> fanout_run os f = (rs, f') ->
  exists rem, fanout_effect f f' (if half_closed_ f then [] else accepted os) rs rem.
Proof.
  induction os as [|o os IH]; intros f rs f' Hi Hr; cbn [fanout_run] in Hr.
  { simplify_eq. exists (fun _ => []). case_match; by apply fanout_effect_refl. }
  destruct (fanout_step o f) as [r f1] eqn:E1. destruct (fanout_run os f1) as [rs2 f2] eqn:E2. simplify_eq.
  assert (exists rem, fanout_effect f f1 (if half_closed_ f then [] else
              match o with OpPush frame => [frame] | _ => [] end) r rem /\
            half_closed_ f1 = match o with OpHalfClose => true | _ => half_closed_ f end)
    as (rem1 & A & Hh).
  { destruct o as [frame|u|]; cbn [fanout_step] in E1; simplify_eq.
    - destruct (Fanout_Push_effect frame f Hi) as (rem & A & Hh). by exists rem.
    - destruct (Fanout_Pop_effect u f Hi) as (rem & A & Hh). destruct (Pop u f) as [x fx]. simplify_eq/=.
      exists rem. split; [|done]. by case_match.
    - exists (fun _ => []). split; [|done]. pose proof (fanout_effect_refl f Hi) as A.
      destruct A as [[A1 A1'] A2 A3 A4 A5 A6]. case_match; by split. }
  destruct (IH _ _ _ (fe_inv _ _ _ _ _ A) E2) as (rem2 & B).
  exists (fun i => rem1 i ++ rem2 i).
  pose proof (fanout_effect_trans _ _ _ _ _ _ _ _ _ A B) as C. rewrite Hh in C.
  destruct o; cbn [accepted]; destruct (half_closed_ f); exact C.
Qed.

(** ** Routing *)

Lemma FindQueue_from_lt qs : forall k u i, FindQueue_from k qs u = Some i -> (k <= i < k + length qs)%nat.
Proof.
  induction qs as [|q qs IH]; intros k u i H; [done|]. cbn [FindQueue_from length] in *.
  case_match; simplify_eq; [lia|]. apply IH in H. lia.
Qed.

Lemma count_occ_omap {A} (g : A -> option nat) l i :
  count_occ Nat.eq_dec (omap g l) i = length (filter (fun x => g x = Some i) l).
Proof.
  induction l as [|x l IH]; [done|]. cbn [omap list_omap]. rewrite filter_cons.
  destruct (g x) as [j|]; cbn [count_occ].
  - destruct (Nat.eq_dec j i) as [->|Hne].
    + rewrite decide_True by done. cbn. by rewrite <- IH.
    + rewrite decide_False by congruence. exact IH.
  - rewrite decide_False by done. exact IH.
Qed.

Lemma count_occ_seq n : forall k i, (k <= i < k + n)%nat -> count_occ Nat.eq_dec (seq k n) i = 1%nat.
Proof.
  induction n as [|n IH]; intros k i Hi; [lia|]. cbn [seq count_occ].
  destruct (Nat.eq_dec k i) as [->|Hne].
  - f_equal. apply count_occ_not_In. rewrite in_seq. lia.
  - apply IH. lia.
Qed.

(** How often a frame is copied into queue [i]. *)
Definition routes (cfg : FanoutConfig) (i : nat) : nat :=
  match fo_mode cfg with
  | kBroadcast => 1
  | kWhisper => length (filter (fun u => FindQueue (queues_ (BugFanout_new cfg)) u = Some i)
                          (write_subset_uuids cfg))
  end.

Lemma BugFanout_new_routes cfg i u :
  target_uuids cfg !! i = Some u ->
  count_occ Nat.eq_dec (write_queues_ (BugFanout_new cfg)) i = routes cfg i.
Proof.
  intros Hu. unfold routes, BugFanout_new. cbn [write_queues_ queues_].
  destruct (fo_mode cfg); [|apply count_occ_omap].
  apply count_occ_seq. rewrite length_fmap. apply lookup_lt_Some in Hu. lia.
Qed.

Lemma fanout_inv_new cfg : fanout_inv (BugFanout_new cfg).
Proof.
  split; [|cbn; lia]. intros i t Hi. cbn in *. apply list_lookup_fmap_Some in Hi as (u & -> & _). cbn. lia.
Qed.

(** C29. Every bot target gets its own copy of the stream, bounded and fully
    accounted for.  For every sequence of pushes, pops and half-closes and every
    target: the frames pushed before the half-close, each taken once in broadcast
    mode, or in whisper mode once per entry of the write subset that resolves to
    this target, are in order the frames that left its queue followed by those
    still in it, of which there are at most [capacity_frames]; those that left
    were either popped, and are exactly the frames returned for it in order, or
    dropped; and [TotalDropped] is the number of drops over all the targets. *)
Theorem BugFanout_delivers cfg os :
  let '(rs, f) := fanout_run os (BugFanout_new cfg) in
  exists rem : nat -> list (removal * AudioFrame),
    (forall i u, target_uuids cfg !! i = Some u ->
       exists t, queues_ f !! i = Some t /\ tq_channel_uuid t = u /\
         (accepted os ≫= replicate (routes cfg i)) = (rem i).*2 ++ tq_queue t /\
         (length (tq_queue t) <= capacity_frames cfg)%nat /\
         popped (rem i) = rs ≫= (fun x => if decide (FindQueue (queues_ f) x.1 = Some i)
                                          then [x.2] else [])) /\
    TotalDropped f = u64 (zsum (length (target_uuids cfg)) (fun i => evictions (rem i))).
Proof.
  destruct (fanout_run os (BugFanout_new cfg)) as [rs f] eqn:Er.
  destruct (fanout_run_effect os _ _ _ (fanout_inv_new cfg) Er) as (rem & [Ei Ec Ew Eu Eq Et]).
  cbn [half_closed_ BugFanout_new] in *. exists rem. split.
  - intros i u Hu. destruct (Eq i (mkTargetQueue u [])) as (t & Ht & Hq & Hp).
    { cbn. by rewrite list_lookup_fmap, Hu. }
    exists t. split_and!; [done|..].
    + assert ((tq_channel_uuid <$> queues_ f) !! i = Some u) as H
        by (rewrite Eu, list_lookup_fmap; cbn; by rewrite list_lookup_fmap, Hu).
      rewrite list_lookup_fmap, Ht in H. by simplify_eq/=.
    + cbn [tq_queue app] in Hq. rewrite <- Hq. unfold copies.
      by rewrite <- (BugFanout_new_routes cfg i u).
    + rewrite <- (Ec : fo_capacity f = capacity_frames cfg). by apply (fi_bounded _ Ei i).
    + rewrite Hp. by apply delivered_uuids.
  - unfold TotalDropped. rewrite Et. cbn. by rewrite length_fmap.
Qed.

(** A whisper to one of two targets, capacity one. *)
Example BugFanout_whisper :
  let f0 := BugFanout_new (mkFanoutConfig kWhisper ["a"; "b"] ["b"; "x"] 1) in
  let fr n := mkAudioFrame [n] 8000 1 0 0 0 "" in
  fanout_run [OpPush (fr 1); OpPush (fr 2); OpPop "a"; OpPop "b"; OpHalfClose; OpPush (fr 3); OpPop "b"] f0
  = ([("b"%string, fr 2)],
     mkBugFanout 1 [mkTargetQueue "a" []; mkTargetQueue "b" []] [1%nat] true 1).
Proof. reflexivity. Qed.
