(* ===== verification/TtsPlayout.v ===== *)
(** * The TTS playout buffer

    [src/media/tts_playout_buffer.cc] and
    [include/osw/media/tts_playout_buffer.h]: the jitter buffer between the
    reader thread of a media stream and the WRITE_REPLACE callback.  Both sides
    work under [mu_], so each method is a function on the state; the reading of
    the steady clock (nanoseconds) that rate-limits the audit events is an
    argument.  The debug capture of samples to files is in [TtsDump]; the log lines
    are not modelled. *)

From S2P Require Import Prelude BoundedQueue AudioFrame.

Inductive UnderrunPolicy := kSilence | kRepeatLast.

#[export] Instance UnderrunPolicy_eq_dec : EqDecision UnderrunPolicy.
Proof. solve_decision. Defined.

(** The durations are counts of milliseconds. *)
Record TtsConfig := mkTtsConfig {
  preroll_ms : Z;
  high_water_ms : Z;
  underrun : UnderrunPolicy }.

Inductive tts_audit :=
  | AuditUnderrun (depth_ms samples_silenced suppressed : Z)
  | AuditOverrun (depth_ms frames_dropped suppressed : Z).

(** One rate limiter: the time of the last emission and what was suppressed. *)
Record RateLimit := mkRateLimit { last_emit : Z; suppressed : Z }.

Record TtsPlayoutBuffer := mkTts {
  tts_cfg : TtsConfig;
  tts_queue : list AudioFrame;
  front_offset_samples_ : nat;
  depth_ms_ : Z;
  last_frame_ : option AudioFrame;
  preroll_reached_ : bool;
  eos_ : bool;
  underrun_count_ : Z;
  overrun_count_ : Z;
  playback_started_ : bool;
  underrun_limit : RateLimit;
  overrun_limit : RateLimit }.

Definition TtsPlayoutBuffer_new (cfg : TtsConfig) : TtsPlayoutBuffer :=
  mkTts cfg [] 0 0 None false false 0 0 false (mkRateLimit 0 0) (mkRateLimit 0 0).

(** [static_cast<std::uint32_t>(f.sample_count())]. *)
Definition usamples (f : AudioFrame) : nat := Z.to_nat (u32 (sample_count f)).

Definition DurationMsForSamples (samples : nat) (sample_rate_hz channels : Z) : Z :=
  if (samples =? 0)%nat || (sample_rate_hz =? 0) || (channels =? 0) then 0
  else u32 ((Z.of_nat samples *u64 1000) / (sample_rate_hz *u64 channels)).

(** [RecomputeDepth]: the first frame counts from the offset on. *)
Definition RecomputeDepth (q : list AudioFrame) (offset : nat) : Z :=
  let duration f n := DurationMsForSamples n (sample_rate_hz_ f) (channels_ f) in
  let total := match q with
               | [] => 0
               | f :: q' => foldl (fun t g => t +u64 duration g (usamples g))
                              (0 +u64 duration f (usamples f - offset)%nat) q'
               end in
  Z.min total UINT32_MAX.

(** ** Push *)

Definition kAuditRateWindow : Z := 1000000000.

(** The body of [EmitUnderrunEvent] and [EmitOverrunEvent]. *)
Definition rate_limit (now : Z) (r : RateLimit) : bool * Z * RateLimit :=
  if now - last_emit r <? kAuditRateWindow
  then (false, 0, mkRateLimit (last_emit r) (suppressed r +u64 1))
  else (true, suppressed r, mkRateLimit now 0).

(** [while (depth_ms_ > high_water_ms && queue_.size() > 1)]: the queue, the
    offset, the depth and the number of frames dropped. *)
Fixpoint high_water_loop (hw : Z) (q : list AudioFrame) (offset : nat) (depth : Z)
  : list AudioFrame * nat * Z * Z :=
  match q with
  | _ :: ((_ :: _) as q') =>
      if hw <? depth
      then let '(q2, o2, d2, n) := high_water_loop hw q' 0 (RecomputeDepth q' 0) in (q2, o2, d2, 1 + n)
      else (q, offset, depth, 0)
  | _ => (q, offset, depth, 0)
  end.

Definition Push (frame : AudioFrame) (now : Z) (b : TtsPlayoutBuffer)
  : list tts_audit * TtsPlayoutBuffer :=
  if sample_count frame =? 0 then ([], b)
  else
    let q1 := tts_queue b ++ [frame] in
    let d1 := RecomputeDepth q1 (front_offset_samples_ b) in
    let '(q2, off, d2, dropped) :=
      high_water_loop (u32 (high_water_ms (tts_cfg b))) q1 (front_offset_samples_ b) d1 in
    let '(emitted, supp, lim) := rate_limit now (overrun_limit b) in
    let audits := if (0 <? dropped) && emitted then [AuditOverrun d2 dropped supp] else [] in
    (audits,
     mkTts (tts_cfg b) q2 off d2 (last_frame_ b)
       (preroll_reached_ b || (u32 (preroll_ms (tts_cfg b)) <=? d2)) (eos_ b) (underrun_count_ b)
       (if 0 <? dropped then overrun_count_ b +u64 dropped else overrun_count_ b)
       (playback_started_ b) (underrun_limit b)
       (if 0 <? dropped then lim else overrun_limit b)).

(** ** Pop *)

Definition zeros (n : nat) : list Z := repeat 0 n.

(** [while (written < out_cap_samples)]: copies of the last frame. *)
Fixpoint fill_loop (fuel need : nat) (last : list Z) : list Z :=
  match fuel with
  | O => []
  | S fuel' => if (need =? 0)%nat then []
               else let n := Nat.min need (length last) in
                    take n last ++ fill_loop fuel' (need - n) last
  end.

Definition FillRepeatLast (need : nat) (last : AudioFrame) : list Z :=
  if (need =? 0)%nat || (usamples last =? 0)%nat then []
  else fill_loop need need (take (usamples last) (samples_ last)).

(** [while (written < out_cap_samples && !queue_.empty())]: the samples copied,
    the queue, the offset and the last frame. *)
Fixpoint drain_loop (policy : UnderrunPolicy) (q : list AudioFrame) (offset need : nat)
  (last : option AudioFrame) : list Z * list AudioFrame * nat * option AudioFrame :=
  match q with
  | [] => ([], [], offset, last)
  | front :: q' =>
      if (need =? 0)%nat then ([], q, offset, last)
      else
        let total := usamples front in
        let avail := (total - offset)%nat in
        if (avail =? 0)%nat then drain_loop policy q' 0 need last
        else
          let n := Nat.min need avail in
          let chunk := take n (drop offset (samples_ front)) in
          let last' := match policy with kRepeatLast => Some front | kSilence => last end in
          if (total <=? offset + n)%nat
          then let '(w, q2, o2, l2) := drain_loop policy q' 0 (need - n) last' in (chunk ++ w, q2, o2, l2)
          else (chunk, q, (offset + n)%nat, last')
  end.

(** The padding of an underrun. *)
Definition underrun_pad (policy : UnderrunPolicy) (last : option AudioFrame) (n : nat) : list Z :=
  match policy, last with
  | kRepeatLast, Some f => FillRepeatLast n f
  | _, _ => zeros n
  end.

Definition with_underrun (now : Z) (silenced : nat) (b : TtsPlayoutBuffer)
  : list tts_audit * TtsPlayoutBuffer :=
  let '(emitted, supp, lim) := rate_limit now (underrun_limit b) in
  (if emitted then [AuditUnderrun (depth_ms_ b) (Z.of_nat silenced) supp] else [],
   mkTts (tts_cfg b) (tts_queue b) (front_offset_samples_ b) (depth_ms_ b) (last_frame_ b)
     (preroll_reached_ b) (eos_ b) (underrun_count_ b +u64 1) (overrun_count_ b)
     (playback_started_ b) lim (overrun_limit b)).

(** The samples written, the audit events and the buffer. *)
Definition Pop (out_cap : nat) (now : Z) (b : TtsPlayoutBuffer)
  : list Z * list tts_audit * TtsPlayoutBuffer :=
  let policy := underrun (tts_cfg b) in
  if (out_cap =? 0)%nat then ([], [], b)
  else match tts_queue b with
  | [] =>
      if eos_ b then ([], [], b)
      else if negb (preroll_reached_ b) then (zeros out_cap, [], b)
      else if negb (playback_started_ b) then (zeros out_cap, [], b)
      else
        let pad := underrun_pad policy (last_frame_ b) out_cap in
        let '(audits, b') := with_underrun now (length pad) b in (pad, audits, b')
  | _ :: _ =>
      if negb (preroll_reached_ b) && negb (eos_ b) then (zeros out_cap, [], b)
      else
        let '(w, q, off, last) :=
          drain_loop policy (tts_queue b) (front_offset_samples_ b) out_cap (last_frame_ b) in
        let b1 := mkTts (tts_cfg b) q off (RecomputeDepth q off) last (preroll_reached_ b) (eos_ b)
                    (underrun_count_ b) (overrun_count_ b) true (underrun_limit b) (overrun_limit b) in
        let remaining := (out_cap - length w)%nat in
        if (length w =? out_cap)%nat then (w, [], b1)
        else if eos_ b then (w ++ zeros remaining, [], b1)
        else
          let '(audits, b2) := with_underrun now remaining b1 in
          (w ++ underrun_pad policy last remaining, audits, b2)
  end.

Definition SignalEndOfStream (b : TtsPlayoutBuffer) : TtsPlayoutBuffer :=
  mkTts (tts_cfg b) (tts_queue b) (front_offset_samples_ b) (depth_ms_ b) (last_frame_ b)
    (preroll_reached_ b) true (underrun_count_ b) (overrun_count_ b) (playback_started_ b)
    (underrun_limit b) (overrun_limit b).

Definition CurrentDepth (b : TtsPlayoutBuffer) : Z := depth_ms_ b.
Definition UnderrunCount (b : TtsPlayoutBuffer) : Z := underrun_count_ b.
Definition OverrunCount (b : TtsPlayoutBuffer) : Z := overrun_count_ b.

(** ** Runs *)

Inductive tts_op := OpPush (frame : AudioFrame) (now : Z) | OpPop (out_cap : nat) (now : Z) | OpEos.

(** The capacity asked for and the samples written, for each [Pop]. *)
Definition tts_step (o : tts_op) (b : TtsPlayoutBuffer) : list (nat * list Z) * TtsPlayoutBuffer :=
  match o with
  | OpPush frame now => ([], (Push frame now b).2)
  | OpPop cap now => let '(out, _, b') := Pop cap now b in ([(cap, out)], b')
  | OpEos => ([], SignalEndOfStream b)
  end.

Fixpoint tts_run (os : list tts_op) (b : TtsPlayoutBuffer) : list (nat * list Z) * TtsPlayoutBuffer :=
  match os with
  | [] => ([], b)
  | o :: os' =>
      let '(r, b1) := tts_step o b in
      let '(rs, b2) := tts_run os' b1 in (r ++ rs, b2)
  end.

(** The sample stream offered to the buffer, and what it still holds. *)
Definition op_samples (o : tts_op) : list Z := match o with OpPush f _ => samples_ f | _ => [] end.
Definition pushed_samples (os : list tts_op) : list Z := os ≫= op_samples.
Definition queued_samples (q : list AudioFrame) (offset : nat) : list Z := drop offset (q ≫= samples_).
Definition remaining (b : TtsPlayoutBuffer) : list Z :=
  queued_samples (tts_queue b) (front_offset_samples_ b).

(** ** Well-formed buffers *)

(** A queued frame has samples, and fewer than 2^32 of them. *)
Definition tts_frame_ok (f : AudioFrame) : Prop := (0 < length (samples_ f))%nat /\ sample_count f < 2 ^ 32.

Definition offset_ok (q : list AudioFrame) (offset : nat) : Prop :=
  match q with [] => offset = 0%nat | f :: _ => (offset < length (samples_ f))%nat end.

Record tts_wf (b : TtsPlayoutBuffer) : Prop := {
  tw_frames : Forall tts_frame_ok (tts_queue b);
  tw_offset : offset_ok (tts_queue b) (front_offset_samples_ b);
  tw_depth : depth_ms_ b = RecomputeDepth (tts_queue b) (front_offset_samples_ b);
  tw_last : forall f, last_frame_ b = Some f -> tts_frame_ok f;
  tw_underrun : 0 <= underrun_count_ b < 2 ^ 64;
  tw_overrun : 0 <= overrun_count_ b < 2 ^ 64 }.

Lemma usamples_ok f : tts_frame_ok f -> usamples f = length (samples_ f).
Proof.
  intros [H1 H2]. unfold usamples, sample_count in *. rewrite u32_small by lia. lia.
Qed.

Lemma offset_ok_0 q : Forall tts_frame_ok q -> offset_ok q 0.
Proof. intros H. destruct q as [|f q]; [done|]. by apply Forall_cons in H as [[Hf _] _]. Qed.

Lemma offset_ok_snoc q offset f :
  tts_frame_ok f -> offset_ok q offset -> offset_ok (q ++ [f]) offset.
Proof. intros [Hf _] Ho. destruct q; [cbn in *; lia|done]. Qed.

(** ** The reference: a queue of pieces

    A piece is a frame and what is left of its samples.  What each operation
    must do is written on the pieces waiting, oldest first. *)

Definition piece : Type := AudioFrame * list Z.

Record playout := mkPlayout {
  po_queue : list piece;
  po_primed : bool;
  po_ended : bool;
  po_started : bool;
  po_last : option AudioFrame }.

Definition playout_init : playout := mkPlayout [] false false false None.

(** The milliseconds queued: each piece's, rounded down, in the widths of the code. *)
Definition piece_ms (p : piece) : Z :=
  u32 (u64 (zlen p.2 * 1000) / u64 (sample_rate_hz_ p.1 * channels_ p.1)).
Definition sum_ms (q : list piece) : Z := foldr (fun p n => piece_ms p + n) 0 q.
Definition queued_ms (q : list piece) : Z := Z.min (u64 (sum_ms q)) UINT32_MAX.

(** A piece dropped unplayed, or a packet of [cap] samples: real samples, then
    padding; whether it counts as an underrun, and whether the stream had ended. *)
Inductive playout_event :=
  | PlEvict (l : list Z)
  | PlPlay (cap : nat) (real pad : list Z) (short ended : bool).

(** The oldest pieces go while more than [hw] milliseconds are queued, but for
    the newest. *)
Fixpoint evict_over (hw : Z) (q : list piece) : list playout_event * list piece :=
  match q with
  | p :: ((_ :: _) as q') =>
      if hw <? queued_ms q
      then let '(evs, q2) := evict_over hw q' in (PlEvict p.2 :: evs, q2)
      else ([], q)
  | _ => ([], q)
  end.

Definition ref_push (cfg : TtsConfig) (f : AudioFrame) (st : playout) : list playout_event * playout :=
  match samples_ f with
  | [] => ([], st)
  | _ =>
      let '(evs, q) := evict_over (u32 (high_water_ms cfg)) (po_queue st ++ [(f, samples_ f)]) in
      (evs, mkPlayout q (po_primed st || (u32 (preroll_ms cfg) <=? queued_ms q)) (po_ended st) (po_started st)
              (po_last st))
  end.

(** The next [need] samples, what is left, and the last frame they come from. *)
Fixpoint take_pieces (need : nat) (q : list piece) : list Z * list piece * option AudioFrame :=
  match q, need with
  | [], _ => ([], [], None)
  | _, O => ([], q, None)
  | (f, l) :: q', _ =>
      if decide (length l <= need)%nat
      then let '(w, q2, p) := take_pieces (need - length l) q' in
           (l ++ w, q2, Some (default f p))
      else (take need l, (f, drop need l) :: q', Some f)
  end.

(** [n] samples of a frame played over and over, and [n] samples of padding. *)
Definition cycle (samples : list Z) (n : nat) : list Z :=
  (fun k => default 0 (samples !! (k mod length samples)%nat)) <$> seq 0 n.
Definition ref_pad (cfg : TtsConfig) (last : option AudioFrame) (n : nat) : list Z :=
  match underrun cfg, last with
  | kRepeatLast, Some f => cycle (samples_ f) n
  | _, _ => replicate n 0
  end.

(** Nothing once an ended stream is empty; silence before the pre-roll, and
    until the first sample; else what is queued, padded to the packet: by
    silence after the end, by the underrun policy before it. *)
Definition ref_pop (cfg : TtsConfig) (cap : nat) (st : playout) : list playout_event * playout :=
  match po_queue st with
  | [] =>
      (if po_ended st then [PlPlay cap [] [] false true]
       else if po_primed st && po_started st && (0 <? cap)%nat
       then [PlPlay cap [] (ref_pad cfg (po_last st) cap) true false]
       else [PlPlay cap [] (replicate cap 0) false false], st)
  | q =>
      if (po_primed st || po_ended st) && (0 <? cap)%nat then
        let '(real, q2, played) := take_pieces cap q in
        let last := match underrun cfg, played with kRepeatLast, Some f => Some f | _, _ => po_last st end in
        let rest := (cap - length real)%nat in
        ([PlPlay cap real (if po_ended st then replicate rest 0 else ref_pad cfg last rest)
            (negb (po_ended st) && (0 <? rest)%nat) (po_ended st)],
         mkPlayout q2 (po_primed st) (po_ended st) true last)
      else ([PlPlay cap [] (replicate cap 0) false (po_ended st)], st)
  end.

Definition ref_op (cfg : TtsConfig) (o : tts_op) (st : playout) : list playout_event * playout :=
  match o with
  | OpPush f _ => ref_push cfg f st
  | OpPop cap _ => ref_pop cfg cap st
  | OpEos => ([], mkPlayout (po_queue st) (po_primed st) true (po_started st) (po_last st))
  end.

Fixpoint ref_run (cfg : TtsConfig) (os : list tts_op) (st : playout) : list playout_event * playout :=
  match os with
  | [] => ([], st)
  | o :: os' =>
      let '(evs1, st1) := ref_op cfg o st in
      let '(evs2, st2) := ref_run cfg os' st1 in (evs1 ++ evs2, st2)
  end.

(** ** Reading the events *)

Definition ev_left (e : playout_event) : list Z :=
  match e with PlEvict l => l | PlPlay _ real _ _ _ => real end.
Definition ev_out (e : playout_event) : list (nat * list Z) :=
  match e with PlEvict _ => [] | PlPlay cap real pad _ _ => [(cap, real ++ pad)] end.
Definition ev_evicts (e : playout_event) : Z := match e with PlEvict _ => 1 | _ => 0 end.
Definition ev_shorts (e : playout_event) : Z :=
  match e with PlPlay _ _ _ true _ => 1 | _ => 0 end.
Definition ev_total (w : playout_event -> Z) (evs : list playout_event) : Z :=
  foldr (fun e n => w e + n) 0 evs.

(** A packet is full, or empty because the stream has ended. *)
Definition ev_full (e : playout_event) : Prop :=
  match e with
  | PlEvict _ => True
  | PlPlay cap real pad _ ended => length (real ++ pad) = cap \/ (real ++ pad = [] /\ ended = true)
  end.

Lemma ev_total_app w l1 l2 : ev_total w (l1 ++ l2) = ev_total w l1 + ev_total w l2.
Proof. induction l1 as [|e l1 IH]; simpl; [done|]. rewrite IH. lia. Qed.

(** ** The buffer as a queue of pieces *)

Definition pieces (q : list AudioFrame) (offset : nat) : list piece :=
  match q with
  | [] => []
  | f :: q' => (f, drop offset (samples_ f)) :: ((fun g => (g, samples_ g)) <$> q')
  end.

Definition abs (b : TtsPlayoutBuffer) : playout :=
  mkPlayout (pieces (tts_queue b) (front_offset_samples_ b)) (preroll_reached_ b) (eos_ b) (playback_started_ b)
    (last_frame_ b).

Lemma pieces_0 q : pieces q 0 = (fun g => (g, samples_ g)) <$> q.
Proof. by destruct q. Qed.

Lemma pieces_snoc q offset f :
  offset_ok q offset -> pieces (q ++ [f]) offset = pieces q offset ++ [(f, samples_ f)].
Proof.
  destruct q as [|g q]; cbn; [by intros ->|]. intros _. by rewrite fmap_app.
Qed.

Lemma pieces_left q offset : offset_ok q offset -> pieces q offset ≫= snd = queued_samples q offset.
Proof.
  unfold queued_samples. destruct q as [|f q]; cbn; [by intros ->|]. intros Ho.
  rewrite drop_app_le by lia. f_equal. induction q as [|g q IH]; cbn; [done|]. by rewrite IH.
Qed.

Lemma duration_piece_ms f n l :
  n = length l -> DurationMsForSamples n (sample_rate_hz_ f) (channels_ f) = piece_ms (f, l).
Proof.
  intros ->. unfold DurationMsForSamples, piece_ms, zlen. cbn [fst snd].
  destruct (length l =? 0)%nat eqn:E0; b2p; [by rewrite E0|].
  destruct (sample_rate_hz_ f =? 0) eqn:E1; b2p; [rewrite E1; cbn; by rewrite Z.div_0_r|].
  destruct (channels_ f =? 0) eqn:E2; b2p; [|done]. rewrite E2, Z.mul_0_r. cbn. by rewrite Z.div_0_r.
Qed.

Lemma foldl_ms q : forall t, Forall tts_frame_ok q ->
  foldl (fun t g => t +u64 DurationMsForSamples (usamples g) (sample_rate_hz_ g) (channels_ g)) (u64 t) q =
  u64 (t + sum_ms ((fun g => (g, samples_ g)) <$> q)).
Proof.
  induction q as [|g q IH]; intros t Hq; cbn; [by rewrite Z.add_0_r|].
  apply Forall_cons in Hq as [Hg Hq]. rewrite u64_add_l, IH by done.
  rewrite (duration_piece_ms g _ (samples_ g)) by by apply usamples_ok. f_equal. unfold sum_ms. lia.
Qed.

Lemma RecomputeDepth_ms q offset :
  Forall tts_frame_ok q -> offset_ok q offset -> RecomputeDepth q offset = queued_ms (pieces q offset).
Proof.
  unfold RecomputeDepth, queued_ms. destruct q as [|f q]; [done|]. intros [Hf Hq]%Forall_cons Ho.
  cbn [pieces]. rewrite foldl_ms by done. f_equal. f_equal. cbn [sum_ms foldr]. f_equal.
  apply duration_piece_ms. rewrite length_drop. by rewrite usamples_ok.
Qed.

(** ** Dropping over the high-water mark *)

Lemma high_water_loop_cons hw f g q offset depth :
  high_water_loop hw (f :: g :: q) offset depth =
    if hw <? depth
    then let '(q2, o2, d2, n) := high_water_loop hw (g :: q) 0 (RecomputeDepth (g :: q) 0) in
         (q2, o2, d2, 1 + n)
    else (f :: g :: q, offset, depth, 0).
Proof. done. Qed.

Lemma evict_over_pieces hw f g q offset :
  evict_over hw (pieces (f :: g :: q) offset) =
    if hw <? queued_ms (pieces (f :: g :: q) offset)
    then let '(evs, q2) := evict_over hw (pieces (g :: q) 0) in (PlEvict (drop offset (samples_ f)) :: evs, q2)
    else ([], pieces (f :: g :: q) offset).
Proof. done. Qed.

Lemma high_water_loop_spec hw q : forall offset depth q2 o2 d2 n,
  Forall tts_frame_ok q -> offset_ok q offset -> depth = RecomputeDepth q offset ->
  high_water_loop hw q offset depth = (q2, o2, d2, n) ->
  exists evs, evict_over hw (pieces q offset) = (evs, pieces q2 o2) /\ n = ev_total ev_evicts evs /\
    ev_total ev_shorts evs = 0 /\ Forall ev_full evs /\ evs ≫= ev_out = [] /\
    0 <= n /\ Forall tts_frame_ok q2 /\ offset_ok q2 o2 /\ d2 = RecomputeDepth q2 o2 /\
    (d2 <= hw \/ (length q2 <= 1)%nat).
Proof.
  induction q as [|f q IH]; intros offset depth q2 o2 d2 n Hq Ho Hd Hl.
  { cbn in Hl. simplify_eq. exists []. split_and!; try done. right. simpl. lia. }
  destruct q as [|g q].
  { cbn in Hl. simplify_eq. exists []. split_and!; try done. right. simpl. lia. }
  rewrite high_water_loop_cons in Hl. pose proof (RecomputeDepth_ms _ _ Hq Ho) as Hms.
  rewrite evict_over_pieces, <- Hms, <- Hd. apply Forall_cons in Hq as [Hf Hq]. case_test.
  - destruct (high_water_loop hw (g :: q) 0 _) as [[[q3 o3] d3] n3] eqn:E3. simplify_eq.
    destruct (IH _ _ _ _ _ _ Hq (offset_ok_0 _ Hq) eq_refl E3) as (evs & Hg & -> & Hs & Hfull & Hout & Hn & Hrest).
    rewrite Hg. eexists. split; [done|]. split; [done|]. split; [done|]. split; [by constructor|].
    split; [done|]. split; [|done]. cbn [ev_total foldr ev_evicts]. fold (ev_total ev_evicts evs). lia.
  - simplify_eq. exists []. split_and!; try done; [by apply Forall_cons|by left].
Qed.

(** ** Draining *)

Lemma drain_loop_spec policy q : forall offset need last w q2 o2 l2,
  Forall tts_frame_ok q -> offset_ok q offset -> (forall f, last = Some f -> tts_frame_ok f) ->
  drain_loop policy q offset need last = (w, q2, o2, l2) ->
  exists played, take_pieces need (pieces q offset) = (w, pieces q2 o2, played) /\
    l2 = match policy, played with kRepeatLast, Some f => Some f | _, _ => last end /\
    Forall tts_frame_ok q2 /\ offset_ok q2 o2 /\ (forall f, l2 = Some f -> tts_frame_ok f).
Proof.
  induction q as [|f q IH]; intros offset need last w q2 o2 l2 Hq Ho Hl Hd; cbn [drain_loop] in Hd.
  { simplify_eq. cbn in Ho. subst. exists None. by destruct policy. }
  apply Forall_cons in Hq as [Hf Hq]. cbn [offset_ok] in Ho. rewrite (usamples_ok f Hf) in Hd.
  destruct need as [|need]; cbn [Nat.eqb] in Hd.
  { simplify_eq. exists None. split; [done|]. split; [by destruct policy|]. split; [by constructor|done]. }
  rewrite (proj2 (Nat.eqb_neq (length (samples_ f) - offset) 0)) in Hd by lia.
  set (last' := match policy with kSilence => last | kRepeatLast => Some f end) in *.
  assert (forall g, last' = Some g -> tts_frame_ok g) as Hl'
    by (unfold last'; intros g Hg; destruct policy; [by apply Hl|by simplify_eq]).
  cbn [pieces take_pieces]. set (r := drop offset (samples_ f)) in *.
  assert (length r = length (samples_ f) - offset)%nat as Hr by (unfold r; apply length_drop).
  destruct (length (samples_ f) <=? _)%nat eqn:E; b2p.
  - rewrite decide_True by lia.
    destruct (drain_loop policy q 0 _ last') as [[[w3 q3] o3] l3] eqn:E3. simplify_eq.
    destruct (IH _ _ _ _ _ _ _ Hq (offset_ok_0 _ Hq) Hl' E3) as (played & Ht & -> & H3 & H4 & H5).
    rewrite pieces_0 in Ht.
    replace (S need - length r)%nat with (S need - Nat.min (S need) (length (samples_ f) - offset))%nat by lia.
    rewrite Ht. rewrite (take_ge r) by lia. eexists. split; [done|]. split; [|done].
    unfold last'. by destruct policy, played.
  - rewrite decide_False by lia. simplify_eq. rewrite Nat.min_l in * by lia. eexists. split.
    + cbn [pieces]. f_equal. f_equal. unfold r. by rewrite drop_drop.
    + split; [done|]. split; [by constructor|]. split; [cbn; lia|done].
Qed.

Lemma take_pieces_spec q : forall need,
  let '(w, q2, _) := take_pieces need q in
  w = take need (q ≫= snd) /\ q2 ≫= snd = drop need (q ≫= snd).
Proof.
  induction q as [|[f l] q IH]; intros need; cbn; [by destruct need|]. destruct need as [|need]; [done|].
  case_decide as Hd.
  - specialize (IH (S need - length l)%nat). destruct (take_pieces _ q) as [[w q2] p]. destruct IH as [-> ->].
    by rewrite take_app, drop_app, (take_ge l), (drop_ge l) by done.
  - cbn. by rewrite take_app_le, drop_app_le by lia.
Qed.

(** ** Padding *)

Lemma cycle_short l n : (n <= length l)%nat -> cycle l n = take n l.
Proof.
  intros Hn. apply list_eq. intros i. unfold cycle. rewrite list_lookup_fmap. destruct (decide (i < n)%nat) as [Hi|Hi].
  - rewrite lookup_seq_lt, lookup_take_lt by lia. cbn. rewrite Nat.mod_small by lia.
    destruct (lookup_lt_is_Some_2 l i) as [x ->]; [lia|done].
  - rewrite lookup_seq_ge, lookup_take_ge by lia. done.
Qed.

Lemma cycle_long l n : (0 < length l)%nat -> (length l <= n)%nat -> cycle l n = l ++ cycle l (n - length l).
Proof.
  intros Hl Hn. replace n with (length l + (n - length l))%nat at 1 by lia. unfold cycle.
  rewrite seq_app, fmap_app. f_equal.
  - pose proof (cycle_short l (length l) ltac:(lia)) as H. unfold cycle in H. by rewrite H, firstn_all.
  - rewrite Nat.add_0_l, <- (Nat.add_0_r (length l)) at 1. rewrite <- fmap_add_seq, <- list_fmap_compose.
    apply list_fmap_ext. intros i k _. unfold compose. do 2 f_equal.
    rewrite <- (Nat.Div0.add_mod_idemp_l (length l)), Nat.Div0.mod_same. done.
Qed.

Lemma fill_loop_cycle l : (0 < length l)%nat ->
  forall fuel need, (need <= fuel)%nat -> fill_loop fuel need l = cycle l need.
Proof.
  intros Hl. induction fuel as [|fuel IH]; intros need Hn; cbn [fill_loop].
  { assert (need = 0%nat) as -> by lia. done. }
  case_test; [by subst|]. rewrite IH by lia. destruct (decide (need <= length l)%nat) as [Hd|Hd].
  - rewrite Nat.min_l, Nat.sub_diag by lia. cbn. by rewrite app_nil_r, cycle_short.
  - rewrite Nat.min_r by lia. rewrite (cycle_long l need) by lia. by rewrite (take_ge l).
Qed.

Lemma zeros_replicate n : zeros n = replicate n 0.
Proof. induction n as [|n IH]; [done|]. cbn. by rewrite <- IH. Qed.

Lemma underrun_pad_ref cfg last n :
  (forall f, last = Some f -> tts_frame_ok f) -> underrun_pad (underrun cfg) last n = ref_pad cfg last n.
Proof.
  intros Hl. unfold underrun_pad, ref_pad. destruct (underrun cfg), last as [f|]; try apply zeros_replicate.
  specialize (Hl f eq_refl). unfold FillRepeatLast. rewrite (usamples_ok f Hl). destruct Hl as [Hl _].
  destruct (n =? 0)%nat eqn:En; b2p; [by subst|].
  rewrite (proj2 (Nat.eqb_neq _ 0)) by lia. cbn [orb]. rewrite take_ge by lia. by apply fill_loop_cycle.
Qed.

Lemma ref_pad_length cfg last n : length (ref_pad cfg last n) = n.
Proof.
  unfold ref_pad, cycle. destruct (underrun cfg), last; rewrite ?length_fmap, ?length_seq; try done; apply length_replicate.
Qed.

(** ** Each operation does what the reference does *)

(** From [b], the operations [os] had the events [evs], returned [outs] and left
    [b']. *)
Record playout_accounts (b : TtsPlayoutBuffer) (os : list tts_op) (evs : list playout_event)
  (outs : list (nat * list Z)) (b' : TtsPlayoutBuffer) : Prop := {
  pa_wf : tts_wf b';
  pa_cfg : tts_cfg b' = tts_cfg b;
  pa_ref : ref_run (tts_cfg b) os (abs b) = (evs, abs b');
  pa_outs : outs = evs ≫= ev_out;
  pa_full : Forall ev_full evs;
  pa_stream : remaining b ++ pushed_samples os = (evs ≫= ev_left) ++ remaining b';
  pa_overrun : overrun_count_ b' = u64 (overrun_count_ b + ev_total ev_evicts evs);
  pa_underrun : underrun_count_ b' = u64 (underrun_count_ b + ev_total ev_shorts evs) }.

Lemma u64_keep z : 0 <= z < 2 ^ 64 -> u64 (z + 0) = z.
Proof. intros H. by rewrite Z.add_0_r, u64_small. Qed.

Lemma playout_accounts_refl b : tts_wf b -> playout_accounts b [] [] [] b.
Proof.
  intros Hw. split; try done; [by rewrite app_nil_r|..]; cbn; by rewrite u64_keep by apply Hw.
Qed.

Lemma playout_accounts_trans b1 b2 b3 os1 os2 e1 e2 r1 r2 :
  playout_accounts b1 os1 e1 r1 b2 -> playout_accounts b2 os2 e2 r2 b3 ->
  playout_accounts b1 (os1 ++ os2) (e1 ++ e2) (r1 ++ r2) b3.
Proof.
  intros [A1 A2 A3 -> A5 A6 A7 A8] [B1 B2 B3 -> B5 B6 B7 B8]. split; try done; try congruence.
  - clear - A2 A3 B3. rewrite A2 in B3. revert A3. generalize (abs b1). revert e1.
    induction os1 as [|o os1 IH]; intros e1 st; cbn [ref_run app]; [by intros [= <- ->]|].
    destruct (ref_op _ o st) as [x st1]. destruct (ref_run _ os1 st1) as [y st2] eqn:E. intros [= <- ->].
    by rewrite (IH y st1 E), app_assoc.
  - by rewrite bind_app.
  - by apply Forall_app.
  - unfold pushed_samples in *. by rewrite !bind_app, app_assoc, A6, <- !app_assoc, B6.
  - rewrite B7, A7, u64_add_l, ev_total_app. f_equal. lia.
  - rewrite B8, A8, u64_add_l, ev_total_app. f_equal. lia.
Qed.

(** The frames of the reference's queue are the samples the buffer holds. *)
Lemma remaining_abs b : tts_wf b -> remaining b = po_queue (abs b) ≫= snd.
Proof. intros Hw. symmetry. apply pieces_left, Hw. Qed.

Lemma evict_over_cons hw (p p' : piece) (q : list piece) :
  evict_over hw (p :: p' :: q) =
    if hw <? queued_ms (p :: p' :: q)
    then let '(evs, q2) := evict_over hw (p' :: q) in (PlEvict p.2 :: evs, q2)
    else ([], p :: p' :: q).
Proof. done. Qed.

Lemma evict_over_left hw q evs q2 :
  evict_over hw q = (evs, q2) -> q ≫= snd = (evs ≫= ev_left) ++ (q2 ≫= snd).
Proof.
  revert evs q2. induction q as [|p [|p' q] IH]; intros evs q2; [by intros [= <- <-]..|].
  rewrite evict_over_cons. destruct (hw <? _); [|by intros [= <- <-]].
  destruct (evict_over hw (p' :: q)) as [e r] eqn:Er. intros [= <- <-]. specialize (IH e r eq_refl).
  cbn [mbind list_bind ev_left] in *. by rewrite IH, app_assoc.
Qed.

Lemma Push_refines frame now b :
  tts_wf b -> sample_count frame < 2 ^ 32 ->
  exists evs, playout_accounts b [OpPush frame now] evs [] (Push frame now b).2 /\
    (depth_ms_ (Push frame now b).2 <= u32 (high_water_ms (tts_cfg b)) \/
     (length (tts_queue (Push frame now b).2) <= 1)%nat \/ sample_count frame = 0).
Proof.
  intros Hw Hs. pose proof Hw as [Wf Wo Wd Wl Wu Wc]. unfold Push.
  destruct (sample_count frame =? 0) eqn:E0; b2p.
  { exists []. assert (samples_ frame = []) as E by (apply nil_length_inv; unfold sample_count in E0; lia).
    destruct (playout_accounts_refl b Hw) as [A1 A2 A3 A4 A5 A6 A7 A8]. split; [|by right; right].
    split; try done; cbn [ref_run ref_op]; [by unfold ref_push; rewrite E|].
    unfold pushed_samples. cbn. by rewrite E. }
  assert (tts_frame_ok frame) as Hf by (split; [unfold sample_count in E0; lia|done]).
  destruct (high_water_loop _ _ _ _) as [[[q2 off] d2] n] eqn:El.
  assert (Forall tts_frame_ok (tts_queue b ++ [frame])) as Hall
    by (apply Forall_app; split; [done|by constructor]).
  destruct (high_water_loop_spec _ _ _ _ _ _ _ _ Hall (offset_ok_snoc _ _ _ Hf Wo) eq_refl El)
    as (evs & Hev & -> & Hsh & Hfull & Hout & Hn & H3 & H4 & H5 & H6).
  rewrite pieces_snoc in Hev by done.
  destruct (rate_limit now (overrun_limit b)) as [[emitted supp] lim]. exists evs. split; [|cbn; tauto].
  split; cbn [snd tts_cfg overrun_count_ underrun_count_]; try done.
  - split; cbn; try done. case_test; [apply u64_range|done].
  - cbn [ref_run ref_op]. unfold ref_push, abs. cbn [po_queue po_primed po_ended po_started po_last].
    rewrite Hev. destruct (samples_ frame) eqn:Es; [by destruct Hf as [Hf _]; rewrite Es in Hf; simpl in Hf; lia|].
    rewrite app_nil_r. cbn. by rewrite H5, RecomputeDepth_ms.
  - unfold pushed_samples. cbn. rewrite app_nil_r, remaining_abs by done.
    pose proof (evict_over_left _ _ _ _ Hev) as Elf. rewrite bind_app in Elf. cbn in Elf. rewrite app_nil_r in Elf.
    cbn [po_queue abs]. rewrite Elf. f_equal. by rewrite pieces_left.
  - case_test; [done|]. assert (ev_total ev_evicts evs = 0) as -> by lia. by rewrite u64_keep.
  - by rewrite Hsh, u64_keep.
Qed.

Lemma with_underrun_spec now n b :
  let b' := (with_underrun now n b).2 in
  abs b' = abs b /\ remaining b' = remaining b /\ tts_cfg b' = tts_cfg b /\
  overrun_count_ b' = overrun_count_ b /\ underrun_count_ b' = underrun_count_ b +u64 1 /\
  (tts_wf b -> tts_wf b').
Proof.
  unfold with_underrun. destruct (rate_limit now (underrun_limit b)) as [[? ?] ?]. cbn.
  split_and!; try done. intros []. split; cbn; try done. apply u64_range.
Qed.

(** A pop that leaves the queue alone and is not an underrun. *)
Lemma quiet_pop_accounts cap now pad b :
  tts_wf b -> ref_pop (tts_cfg b) cap (abs b) = ([PlPlay cap [] pad false (eos_ b)], abs b) ->
  length pad = cap \/ (pad = [] /\ eos_ b = true) ->
  exists evs, playout_accounts b [OpPop cap now] evs [(cap, pad)] b.
Proof.
  intros Hw Hr Hfull. exists [PlPlay cap [] pad false (eos_ b)]. split; try done.
  - cbn [ref_run ref_op]. by rewrite Hr.
  - by apply Forall_singleton.
  - by rewrite app_nil_r.
  - cbn. by rewrite u64_keep by apply Hw.
  - cbn. by rewrite u64_keep by apply Hw.
Qed.

Lemma empty_pop_refines cap now b :
  tts_wf b -> tts_queue b = [] -> cap <> 0%nat ->
  let '(out, _, b') := Pop cap now b in
  exists evs, playout_accounts b [OpPop cap now] evs [(cap, out)] b'.
Proof.
  intros Hw Eq Ec. pose proof Hw as [Wf Wo Wd Wl Wu Wc].
  assert (Hcap : (0 <? cap)%nat = true) by (apply Nat.ltb_lt; lia).
  assert (Hz : forall n : nat, length (replicate n 0) = n) by (intros; apply length_replicate).
  unfold Pop. rewrite (proj2 (Nat.eqb_neq cap 0)) by done. rewrite Eq.
  assert (Hq : po_queue (abs b) = []) by (unfold abs; by rewrite Eq).
  destruct (eos_ b) eqn:Ee.
  { apply quiet_pop_accounts; [done| |by right]. unfold ref_pop. rewrite Hq. cbn. by rewrite Ee. }
  destruct (preroll_reached_ b) eqn:Ep; cbn [negb].
  2: { rewrite zeros_replicate. apply quiet_pop_accounts; [done| |by left]. unfold ref_pop. rewrite Hq. cbn. by rewrite Ee, Ep. }
  destruct (playback_started_ b) eqn:Es; cbn [negb].
  2: { rewrite zeros_replicate. apply quiet_pop_accounts; [done| |by left]. unfold ref_pop. rewrite Hq. cbn. by rewrite Ee, Ep, Es. }
  rewrite underrun_pad_ref by done. rewrite ref_pad_length.
  pose proof (with_underrun_spec now cap b) as Hu. destruct (with_underrun now cap b) as [audits b']. cbn [snd] in Hu.
  destruct Hu as (U1 & U2 & U3 & U4 & U5 & U6).
  exists [PlPlay cap [] (ref_pad (tts_cfg b) (last_frame_ b) cap) true false]. split; try done.
  - by apply U6.
  - cbn [ref_run ref_op]. unfold ref_pop. rewrite Hq, U1.
    cbn [abs po_primed po_ended po_started po_last]. by rewrite Ee, Ep, Es, Hcap.
  - constructor; [|done]. left. apply ref_pad_length.
  - by rewrite U2, app_nil_r.
  - rewrite U4. cbn. by rewrite u64_keep.
Qed.

(** Draining, from the reference's side. *)
Lemma drained_accounts cap now out pad b b' w q2 played :
  tts_wf b -> tts_wf b' -> tts_cfg b' = tts_cfg b -> tts_queue b <> [] -> cap <> 0%nat ->
  preroll_reached_ b || eos_ b = true ->
  take_pieces cap (po_queue (abs b)) = (w, q2, played) ->
  let last := match underrun (tts_cfg b), played with kRepeatLast, Some f => Some f | _, _ => last_frame_ b end in
  let rest := (cap - length w)%nat in
  let short := negb (eos_ b) && (0 <? rest)%nat in
  abs b' = mkPlayout q2 (preroll_reached_ b) (eos_ b) true last ->
  pad = (if eos_ b then replicate rest 0 else ref_pad (tts_cfg b) last rest) -> out = w ++ pad ->
  overrun_count_ b' = overrun_count_ b ->
  underrun_count_ b' = (if short then underrun_count_ b +u64 1 else underrun_count_ b) ->
  exists evs, playout_accounts b [OpPop cap now] evs [(cap, out)] b'.
Proof.
  intros Hw Hw' Hc Hq Hcap Hp Ht last rest short Ha Hpad -> Ho Hu.
  pose proof (take_pieces_spec (po_queue (abs b)) cap) as Hs. rewrite Ht in Hs. destruct Hs as [Hs1 Hs2].
  assert (length pad = rest) as Hl by (rewrite Hpad; destruct (eos_ b); [apply length_replicate|apply ref_pad_length]).
  exists [PlPlay cap w pad short (eos_ b)]. split; try done.
  - cbn [ref_run ref_op]. unfold ref_pop. rewrite Ha. destruct (po_queue (abs b)) as [|p l] eqn:Eq.
    { exfalso. unfold abs in Eq. cbn in Eq. by destruct (tts_queue b). }
    rewrite Ht. cbn [abs po_primed po_ended po_last]. rewrite Hp, (proj2 (Nat.ltb_lt 0 cap)) by lia. cbn [andb].
    fold last rest. by rewrite <- Hpad.
  - constructor; [|done]. left. rewrite length_app, Hl. unfold rest.
    assert (length w <= cap)%nat by (rewrite Hs1, length_take; lia). lia.
  - cbn. rewrite !app_nil_r, remaining_abs, (remaining_abs b') by done. rewrite Ha. cbn [po_queue].
    by rewrite Hs2, Hs1, take_drop.
  - rewrite Ho. cbn. by rewrite u64_keep by apply Hw.
  - rewrite Hu. cbn. destruct short; cbn; [done|]. by rewrite u64_keep by apply Hw.
Qed.

Lemma ref_pad_0 cfg last : ref_pad cfg last 0 = [].
Proof. apply nil_length_inv, ref_pad_length. Qed.

Lemma Pop_refines cap now b :
  tts_wf b ->
  let '(out, _, b') := Pop cap now b in
  exists evs, playout_accounts b [OpPop cap now] evs [(cap, out)] b'.
Proof.
  intros Hw. pose proof Hw as [Wf Wo Wd Wl Wu Wc]. destruct (decide (cap = 0%nat)) as [->|Ec].
  { cbn. apply quiet_pop_accounts; [done| |by left]. unfold ref_pop, abs. cbn.
    destruct (pieces _ _); rewrite ?andb_false_r; [by destruct (eos_ b)|done]. }
  destruct (tts_queue b) as [|f q] eqn:Eq; [by apply empty_pop_refines|].
  assert (Hqne : tts_queue b <> []) by (by rewrite Eq).
  assert (Hne : po_queue (abs b) <> []) by (unfold abs; by rewrite Eq).
  unfold Pop. rewrite (proj2 (Nat.eqb_neq cap 0)) by done. rewrite Eq.
  destruct (negb (preroll_reached_ b) && negb (eos_ b)) eqn:Ep.
  { rewrite zeros_replicate. apply quiet_pop_accounts; [done| |left; apply length_replicate].
    apply andb_prop in Ep as [Ep%negb_true_iff Ee%negb_true_iff]. unfold ref_pop.
    destruct (po_queue (abs b)); [done|]. cbn. by rewrite Ep, Ee. }
  assert (Hp : preroll_reached_ b || eos_ b = true) by (by destruct (preroll_reached_ b), (eos_ b)).
  rewrite <- Eq in *. destruct (drain_loop _ _ _ _ _) as [[[w q2] o2] l2] eqn:Ed.
  destruct (drain_loop_spec _ _ _ _ _ _ _ _ _ Wf Wo Wl Ed) as (played & Ht & Hl2 & H3 & H4 & H5).
  set (b1 := mkTts (tts_cfg b) q2 o2 (RecomputeDepth q2 o2) l2 _ _ _ _ true _ _).
  assert (tts_wf b1) as Hw1 by by split.
  pose proof (take_pieces_spec (po_queue (abs b)) cap) as Hs. cbn [abs po_queue] in Hs. rewrite Ht in Hs.
  destruct Hs as [Hs1 _]. assert (length w <= cap)%nat as Hlw by (rewrite Hs1, length_take; lia).
  assert (Hab : abs b1 = mkPlayout (pieces q2 o2) (preroll_reached_ b) (eos_ b) true l2) by done.
  rewrite Hl2 in Hab. destruct (length w =? cap)%nat eqn:El; b2p.
  { eapply (drained_accounts cap now w []); try done;
      rewrite ?El, ?Nat.sub_diag, ?ref_pad_0, ?app_nil_r, ?andb_false_r; by destruct (eos_ b). }
  destruct (eos_ b) eqn:Ee.
  { rewrite zeros_replicate. eapply drained_accounts; try done; by rewrite ?Hab, Ee. }
  pose proof (with_underrun_spec now (cap - length w) b1) as Hu.
  destruct (with_underrun _ _ _) as [audits b']. cbn [snd] in Hu. destruct Hu as (U1 & U2 & U3 & U4 & U5 & U6).
  rewrite underrun_pad_ref by done.
  eapply drained_accounts; try done; [by apply U6|by rewrite Ee|by rewrite U1, Hab, Ee|by rewrite Ee, Hl2|].
  rewrite Ee, (proj2 (Nat.ltb_lt _ _)) by lia. done.
Qed.

Lemma Push_flags f now b :
  let b' := (Push f now b).2 in
  tts_cfg b' = tts_cfg b /\ eos_ b' = eos_ b /\
  (preroll_reached_ b' = true -> preroll_reached_ b = true \/ u32 (preroll_ms (tts_cfg b)) <= CurrentDepth b').
Proof.
  unfold Push. case_test; [by auto|]. destruct (high_water_loop _ _ _ _) as [[[q2 off] d2] n].
  destruct (rate_limit _ _) as [[em su] lim]. cbn. split; [done|]. split; [done|].
  intros [H|H]%orb_prop; [by left|right]. by apply Z.leb_le.
Qed.

Lemma Pop_flags cap now b :
  let b' := (Pop cap now b).2 in
  tts_cfg b' = tts_cfg b /\ eos_ b' = eos_ b /\ preroll_reached_ b' = preroll_reached_ b.
Proof.
  assert (forall n b, let b' := (with_underrun now n b).2 in
    tts_cfg b' = tts_cfg b /\ eos_ b' = eos_ b /\ preroll_reached_ b' = preroll_reached_ b) as Hu.
  { intros n b0. unfold with_underrun. by destruct (rate_limit _ _) as [[? ?] ?]. }
  unfold Pop. repeat case_match; try done; simplify_eq; try done; cbn [snd];
    match goal with E : with_underrun _ ?n ?b0 = _ |- _ => specialize (Hu n b0); rewrite E in Hu; cbn in Hu;
      destruct Hu as (-> & -> & ->); by auto end.
Qed.

(** A pop is one event, which says whether the stream had ended. *)
Lemma ref_pop_one cfg cap st :
  exists real pad short st', ref_pop cfg cap st = ([PlPlay cap real pad short (po_ended st)], st').
Proof.
  unfold ref_pop. destruct (po_queue st).
  - destruct (po_ended st); [by eauto|]. destruct (_ && _ && _); eauto.
  - destruct (_ && _); [|by eauto]. destruct (take_pieces _ _) as [[? ?] ?]. eauto.
Qed.

Lemma Pop_event cap now b :
  tts_wf b ->
  let '(out, _, b') := Pop cap now b in
  exists real pad short, out = real ++ pad /\
    playout_accounts b [OpPop cap now] [PlPlay cap real pad short (eos_ b')] [(cap, out)] b'.
Proof.
  intros Hw. pose proof (Pop_refines cap now b Hw) as H. pose proof (Pop_flags cap now b) as Hf.
  destruct (Pop cap now b) as [[out au] b']. destruct H as (evs & A). cbn [snd] in Hf. destruct Hf as (_ & -> & _).
  destruct (ref_pop_one (tts_cfg b) cap (abs b)) as (real & pad & short & st' & E).
  pose proof (pa_ref _ _ _ _ _ A) as R. cbn [ref_run ref_op] in R. rewrite E in R. cbn in R. injection R as <- _.
  exists real, pad, short. split; [|exact A]. pose proof (pa_outs _ _ _ _ _ A) as Ho. cbn in Ho. by simplify_eq.
Qed.

Lemma tts_wf_new cfg : tts_wf (TtsPlayoutBuffer_new cfg).
Proof. by split; cbn. Qed.

(** ** Runs *)

Definition tts_op_ok (o : tts_op) : Prop :=
  match o with OpPush f _ => sample_count f < 2 ^ 32 | _ => True end.

Lemma tts_step_refines o b r b' :
  tts_wf b -> tts_op_ok o -> tts_step o b = (r, b') -> exists evs, playout_accounts b [o] evs r b'.
Proof.
  intros Hw Ho Hs. destruct o as [f now|cap now|]; cbn [tts_step] in *.
  - simplify_eq. destruct (Push_refines f now b Hw Ho) as (evs & A & _). by exists evs.
  - pose proof (Pop_refines cap now b Hw) as HP. destruct (Pop cap now b) as [[out au] b1]. by simplify_eq.
  - simplify_eq. exists []. pose proof Hw as [W1 W2 W3 W4 W5 W6].
    split; try done; [by rewrite app_nil_r|..]; cbn; by rewrite u64_keep.
Qed.

Lemma tts_run_refines os : forall b r b',
  tts_wf b -> Forall tts_op_ok os -> tts_run os b = (r, b') -> exists evs, playout_accounts b os evs r b'.
Proof.
  induction os as [|o os IH]; intros b r b' Hw Ho Hr; cbn [tts_run] in Hr.
  { simplify_eq. exists []. by apply playout_accounts_refl. }
  apply Forall_cons in Ho as [Ho Hos].
  destruct (tts_step o b) as [r1 b1] eqn:E1. destruct (tts_run os b1) as [r2 b2] eqn:E2. simplify_eq.
  destruct (tts_step_refines _ _ _ _ Hw Ho E1) as (e1 & A).
  destruct (IH _ _ _ (pa_wf _ _ _ _ _ A) Hos E2) as (e2 & B).
  exists (e1 ++ e2). exact (playout_accounts_trans _ _ _ [o] _ _ _ _ _ A B).
Qed.

Lemma tts_run_app os1 os2 b :
  tts_run (os1 ++ os2) b =
    let '(r1, b1) := tts_run os1 b in let '(r2, b2) := tts_run os2 b1 in (r1 ++ r2, b2).
Proof.
  revert b. induction os1 as [|o os1 IH]; intros b; cbn [tts_run app]; [by destruct (tts_run os2 b)|].
  destruct (tts_step o b) as [r b1]. rewrite IH. destruct (tts_run os1 b1) as [r1 b2].
  destruct (tts_run os2 b2) as [r2 b3]. by rewrite app_assoc.
Qed.

(** The depth after a run. *)
Definition depth_after (cfg : TtsConfig) (os : list tts_op) : Z :=
  CurrentDepth (tts_run os (TtsPlayoutBuffer_new cfg)).2.

(** A push of the run brought the depth to the pre-roll. *)
Definition reached_preroll (cfg : TtsConfig) (os : list tts_op) : Prop :=
  exists os1 f now os2, os = os1 ++ OpPush f now :: os2 /\
    u32 (preroll_ms cfg) <= depth_after cfg (os1 ++ [OpPush f now]).

(** The flags say what happened. *)
Lemma flags_history cfg os :
  let b := (tts_run os (TtsPlayoutBuffer_new cfg)).2 in
  tts_cfg b = cfg /\ (eos_ b = true -> OpEos ∈ os) /\ (preroll_reached_ b = true -> reached_preroll cfg os).
Proof.
  induction os as [|o os IH] using rev_ind; [done|]. destruct IH as (IHc & IHe & IHp).
  assert (Hold : reached_preroll cfg os -> reached_preroll cfg (os ++ [o])).
  { intros (os1 & f & now & os2 & -> & Hd). exists os1, f, now, (os2 ++ [o]). by rewrite <- app_assoc. }
  assert (Hrun : (tts_run (os ++ [o]) (TtsPlayoutBuffer_new cfg)).2 =
                 (tts_step o (tts_run os (TtsPlayoutBuffer_new cfg)).2).2).
  { rewrite tts_run_app. destruct (tts_run os _) as [r b]. cbn [tts_run snd]. by destruct (tts_step o b). }
  assert (Hin : OpEos ∈ os -> OpEos ∈ os ++ [o]) by set_solver.
  cbv zeta. rewrite Hrun. destruct o as [f now|cap now|]; cbn [tts_step].
  - destruct (Push_flags f now (tts_run os (TtsPlayoutBuffer_new cfg)).2) as (Hc & He & Hp).
    cbn [snd]. rewrite Hc, He. split; [done|]. split; [by auto|]. intros Hr. destruct (Hp Hr) as [H|H]; [by auto|].
    exists os, f, now, []. split; [done|]. unfold depth_after. by rewrite Hrun, <- IHc at 1.
  - pose proof (Pop_flags cap now (tts_run os (TtsPlayoutBuffer_new cfg)).2) as H.
    destruct (Pop cap now _) as [[out au] b']. cbn [snd] in *. destruct H as (-> & -> & ->). auto.
  - cbn. split; [done|]. split; [set_solver|by auto].
Qed.

Lemma unprimed_pop_silent cap now b :
  preroll_reached_ b = false -> eos_ b = false -> (Pop cap now b).1.1 = replicate cap 0.
Proof.
  intros Hp He. unfold Pop. rewrite Hp, He. destruct (cap =? 0)%nat eqn:E; b2p; [by subst|].
  destruct (tts_queue b); cbn; apply zeros_replicate.
Qed.

(** C28. Playout is that of a queue of pieces, and the audio pushed comes out in
    order, never reordered or duplicated.  For every sequence of pushes (of
    frames below 2^32 samples), pops and end-of-stream from an empty buffer,
    [ref_run] gives the events and the state: a push appends its frame and evicts
    the oldest while more than the high-water mark is queued, but for the newest;
    a pop, once the depth after a push was the pre-roll or the stream ended,
    takes the next samples queued and pads the packet, by the underrun policy
    (zeros, or the last frame over and over) before the end and by zeros after;
    until then it is silence.  The packets written are those events', each full
    or empty because the stream has ended; the samples pushed are, in order, those
    the events played or evicted followed by those the buffer holds; the counters
    count the evictions and the underruns.  A pop before any end-of-stream, with
    no push before it after which the depth was the pre-roll, writes only zeros;
    the depth is the milliseconds queued; and after any further push it is at
    most the high-water mark or a single frame is queued. *)
Theorem TtsPlayoutBuffer_stream cfg os outs b :
  Forall tts_op_ok os ->
  tts_run os (TtsPlayoutBuffer_new cfg) = (outs, b) ->
  (exists evs,
    ref_run cfg os playout_init = (evs, abs b) /\
    outs = evs ≫= ev_out /\ Forall ev_full evs /\
    pushed_samples os = (evs ≫= ev_left) ++ (po_queue (abs b) ≫= snd) /\
    OverrunCount b = u64 (ev_total ev_evicts evs) /\
    UnderrunCount b = u64 (ev_total ev_shorts evs)) /\
  (forall os1 cap now os2, os = os1 ++ OpPop cap now :: os2 ->
     OpEos ∉ os1 -> ~ reached_preroll cfg os1 ->
     outs !! length (tts_run os1 (TtsPlayoutBuffer_new cfg)).1 = Some (cap, replicate cap 0)) /\
  CurrentDepth b = queued_ms (po_queue (abs b)) /\
  forall frame now, 0 < sample_count frame < 2 ^ 32 ->
    let b' := (Push frame now b).2 in
    CurrentDepth b' <= u32 (high_water_ms cfg) \/ (length (tts_queue b') <= 1)%nat.
Proof.
  intros Ho Hr. destruct (tts_run_refines os _ _ _ (tts_wf_new cfg) Ho Hr) as (evs & [A1 A2 A3 A4 A5 A6 A7 A8]).
  cbn [tts_cfg TtsPlayoutBuffer_new] in A2. split_and!.
  - exists evs. split; [exact A3|]. split; [done|]. split; [done|]. split; [|done].
    rewrite <- remaining_abs by done. exact A6.
  - intros os1 cap now os2 -> Hne Hnp. rewrite tts_run_app in Hr.
    destruct (flags_history cfg os1) as (_ & He & Hp). destruct (tts_run os1 _) as [r1 b1]. cbn [snd fst] in *.
    cbn [tts_run tts_step] in Hr. pose proof (unprimed_pop_silent cap now b1) as Hs.
    destruct (Pop cap now b1) as [[out au] b2]. destruct (tts_run os2 b2) as [r2 b3]. injection Hr as Houts _.
    rewrite <- Houts, lookup_app_r, Nat.sub_diag by lia. cbn. do 2 f_equal. apply Hs.
    + destruct (preroll_reached_ b1); [by destruct Hnp; apply Hp|done].
    + destruct (eos_ b1); [by destruct Hne; apply He|done].
  - unfold CurrentDepth. rewrite (tw_depth _ A1). apply RecomputeDepth_ms; apply A1.
  - intros frame now Hs b'. destruct (Push_refines frame now b A1 ltac:(lia)) as (_ & _ & [H|[H|H]]).
    + left. by rewrite <- A2.
    + by right.
    + lia.
Qed.

(** One-millisecond frames of eight samples. *)
Definition tts_sample_frame (n : Z) : AudioFrame := mkAudioFrame (repeat n 8) 8000 1 0 0 0 "".
Definition tts_sample_ops : list tts_op :=
  [OpPush (tts_sample_frame 1) 0; OpPop 4 0; OpPush (tts_sample_frame 2) 0; OpPop 12 0; OpPop 8 0; OpEos; OpPop 8 0].
Definition tts_sample_config : TtsConfig := mkTtsConfig 2 10 kRepeatLast.

Lemma TtsPlayoutBuffer_stream_witness :
  exists evs,
    ref_run tts_sample_config tts_sample_ops playout_init =
      (evs, abs (tts_run tts_sample_ops (TtsPlayoutBuffer_new tts_sample_config)).2) /\
    evs = [PlPlay 4 [] (repeat 0 4) false false; PlPlay 12 (repeat 1 8 ++ repeat 2 4) [] false false;
           PlPlay 8 (repeat 2 4) (repeat 2 4) true false; PlPlay 8 [] [] false true] /\
    UnderrunCount (tts_run tts_sample_ops (TtsPlayoutBuffer_new tts_sample_config)).2 = 1.
Proof.
  destruct (TtsPlayoutBuffer_stream tts_sample_config tts_sample_ops
              (tts_run tts_sample_ops (TtsPlayoutBuffer_new tts_sample_config)).1
              (tts_run tts_sample_ops (TtsPlayoutBuffer_new tts_sample_config)).2)
    as [(evs & Hr & _ & _ & _ & _ & Hu) _].
  - repeat apply Forall_cons_2; try apply Forall_nil_2; exact I || (vm_compute; reflexivity).
  - exact (surjective_pairing _).
  - exists evs. split; [exact Hr|]. rewrite Hu. vm_compute in Hr. injection Hr as <-. split; reflexivity.
Defined.

(** ** Frames shorter than a millisecond

    Each frame's duration is rounded down on its own, so frames below one
    millisecond count for nothing: the high-water mark never applies, the
    pre-roll is never reached, and the queue grows without bound. *)
Definition tts_short_frame : AudioFrame := mkAudioFrame (repeat 1 7) 8000 1 0 0 0 "".

Lemma short_frames_depth n : RecomputeDepth (repeat tts_short_frame n) 0 = 0.
Proof.
  assert (forall k t, foldl (fun t g => t +u64 DurationMsForSamples (usamples g) (sample_rate_hz_ g) (channels_ g))
            (u64 t) (repeat tts_short_frame k) = u64 t) as Hf.
  { induction k as [|k IH]; intros t; [done|]. cbn [repeat foldl].
    change (DurationMsForSamples (usamples tts_short_frame) (sample_rate_hz_ tts_short_frame)
              (channels_ tts_short_frame)) with 0.
    rewrite u64_add_l, Z.add_0_r. apply IH. }
  unfold RecomputeDepth. destruct n as [|n]; [done|]. cbn [repeat].
  change (DurationMsForSamples (usamples tts_short_frame - 0) _ _) with 0. by rewrite Hf.
Qed.

Lemma high_water_loop_below hw q offset depth :
  depth <= hw -> high_water_loop hw q offset depth = (q, offset, depth, 0).
Proof. intros H. destruct q as [|f [|g q]]; [done..|]. rewrite high_water_loop_cons. case_test; [lia|done]. Qed.

Lemma short_frames_unbounded cfg now n :
  0 < u32 (preroll_ms cfg) ->
  forall b, tts_queue b = [] -> front_offset_samples_ b = 0%nat -> preroll_reached_ b = false ->
  tts_cfg b = cfg ->
  let b' := (tts_run (repeat (OpPush tts_short_frame now) n) b).2 in
  tts_queue b' = repeat tts_short_frame n /\ preroll_reached_ b' = false /\
  overrun_count_ b' = overrun_count_ b.
Proof.
  intros Hp b Hq Ho Hpr Hc.
  assert (forall k m b, tts_queue b = repeat tts_short_frame m -> front_offset_samples_ b = 0%nat ->
    preroll_reached_ b = false -> tts_cfg b = cfg ->
    let b' := (tts_run (repeat (OpPush tts_short_frame now) k) b).2 in
    tts_queue b' = repeat tts_short_frame (m + k) /\ preroll_reached_ b' = false /\
    overrun_count_ b' = overrun_count_ b) as Hgen; [|by apply (Hgen n 0%nat)].
  clear - Hp. induction k as [|k IH]; intros m b Hq Ho Hpr Hc b'.
  { unfold b'. cbn. by rewrite Nat.add_0_r. }
  assert (exists audits b1, Push tts_short_frame now b = (audits, b1) /\
    tts_queue b1 = repeat tts_short_frame (S m) /\ front_offset_samples_ b1 = 0%nat /\
    preroll_reached_ b1 = false /\ tts_cfg b1 = cfg /\ overrun_count_ b1 = overrun_count_ b)
    as (audits & b1 & E & H1 & H2 & H3 & H4 & H5).
  { unfold Push. change (sample_count tts_short_frame =? 0) with false. cbv iota.
    rewrite Hq, Ho, Hc, Hpr.
    change [tts_short_frame] with (repeat tts_short_frame 1). rewrite <- repeat_app, Nat.add_1_r.
    rewrite short_frames_depth, high_water_loop_below by apply u32_range.
    destruct (rate_limit now (overrun_limit b)) as [[? ?] ?]. eexists _, _. split; [done|].
    cbn [tts_queue front_offset_samples_ preroll_reached_ tts_cfg overrun_count_].
    split_and!; try done. by apply Z.leb_gt. }
  unfold b'. cbn [repeat tts_run tts_step]. rewrite E. cbn [snd].
  destruct (tts_run (repeat (OpPush tts_short_frame now) k) b1) as [rs b2] eqn:E2.
  specialize (IH (S m) b1 H1 H2 H3 H4). rewrite E2 in IH. cbn [snd] in *.
  rewrite Nat.add_succ_r, <- H5. exact IH.
Qed.
