(* ===== verification/MediaStreams.v ===== *)
(** * The registry of media streams

    [src/control/active_media_streams.cc] and
    [include/osw/control/active_media_streams.h], with the stream objects the
    start handlers of [src/control/handlers] build.  A stream owns a gRPC client,
    a playout buffer, the contexts of its callbacks and the handles of its media
    bugs; FreeSWITCH's media thread, the client's reader thread and the relay's
    tick thread use those objects through raw pointers.  [TearDown] is a program
    of effects, one step each, so that the threads move in between; an object is
    freed when its owning pointer is reset.  The iteration order of an
    [unordered_map] is an argument. *)

From S2P Require Import Prelude.

(** ** Stream objects *)

Inductive StreamPurpose :=
| PURPOSE_UNSPECIFIED | TTS_PLAYBACK | STT_TRANSCRIBE | VOICEBOT_DUPLEX | AMD_DETECT | RECORDING_RELAY.

#[export] Instance StreamPurpose_eq_dec : EqDecision StreamPurpose.
Proof. solve_decision. Defined.

Definition IsWriteReplacePurpose (p : StreamPurpose) : bool :=
  bool_decide (p = TTS_PLAYBACK) || bool_decide (p = VOICEBOT_DUPLEX).

(** A bug handle is the id of its bug; of an owning pointer only whether it is
    null matters when the stream is built. *)
Record ActiveMediaStream := mkActiveMediaStream {
  ams_channel_uuid : string;
  ams_stream_id : string;
  ams_purpose : StreamPurpose;
  ams_bugs : list Z;
  ams_client : bool;
  ams_tts_buffer : bool;
  ams_write_ctx : bool;
  ams_read_ctx : bool;
  ams_recording_ctx : bool }.

Inductive resource := RClient | RBuffer | RWriteCtx | RReadCtx | RRecording.

#[export] Instance resource_eq_dec : EqDecision resource.
Proof. solve_decision. Defined.

Definition resource_eqb (a b : resource) : bool := bool_decide (a = b).

Definition owned_resources (s : ActiveMediaStream) : list resource :=
  (if ams_client s then [RClient] else []) ++ (if ams_tts_buffer s then [RBuffer] else []) ++
  (if ams_write_ctx s then [RWriteCtx] else []) ++ (if ams_read_ctx s then [RReadCtx] else []) ++
  (if ams_recording_ctx s then [RRecording] else []).

(** The callbacks a bug is wired to, and the objects each dereferences:
    [OswStreamingReadTap], [OswStreamingWriteReplace], and the two recording
    taps. *)
Inductive cb_kind := CbReadTap | CbWriteReplace | CbRecording.

Definition kind_uses (k : cb_kind) : list resource :=
  match k with
  | CbReadTap => [RReadCtx; RClient]
  | CbWriteReplace => [RWriteCtx; RBuffer]
  | CbRecording => [RRecording; RClient]
  end.

(** The threads that run inside a stream: a callback of one of its bugs, the
    client's reader (whose [on_audio] pushes into the buffer it captured), and
    the relay's tick thread. *)
Inductive actor := ABug (b : Z) | AReader | ATick.

#[export] Instance actor_eq_dec : EqDecision actor.
Proof. solve_decision. Defined.

(** [so_live]: what is not freed; [so_attached]: the bugs FreeSWITCH may still
    call; [so_closed]: [client->Close()] returned; [so_stopped]:
    [relay->Stop()] returned. *)
Record StreamObj := mkStreamObj {
  so_stream : ActiveMediaStream;
  so_live : list resource;
  so_attached : list (Z * cb_kind);
  so_closed : bool;
  so_stopped : bool;
  so_running : list actor }.

Definition startable (o : StreamObj) (a : actor) : bool :=
  match a with
  | ABug b => bool_decide (b ∈ (so_attached o).*1)
  | AReader => ams_client (so_stream o) && negb (so_closed o)
  | ATick => ams_recording_ctx (so_stream o) && negb (so_stopped o)
  end.

Definition uses (o : StreamObj) (a : actor) : list resource :=
  match a with
  | ABug b => filter (fun x => x.1 = b) (so_attached o) ≫= (fun x => kind_uses x.2)
  | AReader => RClient :: (if ams_tts_buffer (so_stream o) then [RBuffer] else [])
  | ATick => [RRecording; RClient]
  end.

(** What the start handlers build: [HandleStartTts], [HandleStartStt],
    [HandleStartVoicebot] and [HandleStartRecordingRelay]. *)
Inductive start_kind := StartTts | StartStt | StartVoicebot | StartRecordingRelay (stereo : bool).

Definition start_stream (k : start_kind) (uuid id : string) (b1 b2 : Z) : ActiveMediaStream :=
  match k with
  | StartTts => mkActiveMediaStream uuid id TTS_PLAYBACK [b1] true true true false false
  | StartStt => mkActiveMediaStream uuid id STT_TRANSCRIBE [b1] true false false true false
  | StartVoicebot => mkActiveMediaStream uuid id VOICEBOT_DUPLEX [b1; b2] true true true true false
  | StartRecordingRelay stereo =>
      mkActiveMediaStream uuid id RECORDING_RELAY (if stereo then [b1; b2] else [b2])
        true false false false true
  end.

Definition start_wiring (k : start_kind) (b1 b2 : Z) : list (Z * cb_kind) :=
  match k with
  | StartTts => [(b1, CbWriteReplace)]
  | StartStt => [(b1, CbReadTap)]
  | StartVoicebot => [(b1, CbReadTap); (b2, CbWriteReplace)]
  | StartRecordingRelay stereo =>
      if stereo then [(b1, CbRecording); (b2, CbRecording)] else [(b2, CbRecording)]
  end.

Definition start_obj (k : start_kind) (uuid id : string) (b1 b2 : Z) : StreamObj :=
  let s := start_stream k uuid id b1 b2 in
  mkStreamObj s (owned_resources s) (start_wiring k b1 b2) false false [].

(** ** Teardown *)

Inductive td_effect :=
| TClientClose | TSignalEndOfStream | TRelayStop | TEmitStopped
| TDetach (b : Z)           (* a [BugHandle] destructor *)
| TReset (r : resource).    (* an owning pointer frees what it holds *)

(** The destructor of the [ActiveMediaStream] itself, at the end of [TearDown]:
    the members in reverse order. *)
Definition destroy_members : list td_effect :=
  [TReset RRecording; TReset RReadCtx; TReset RWriteCtx; TReset RBuffer; TReset RClient].

Definition TearDown (s : ActiveMediaStream) : list td_effect :=
  if ams_recording_ctx s then
    [TRelayStop] ++ (TDetach <$> ams_bugs s) ++ [TEmitStopped; TReset RRecording] ++
    (if ams_client s then [TClientClose; TReset RClient] else []) ++ destroy_members
  else
    (if ams_client s then [TClientClose] else []) ++
    (if ams_tts_buffer s then [TSignalEndOfStream] else []) ++
    (TDetach <$> ams_bugs s) ++
    [TReset RWriteCtx; TReset RReadCtx; TReset RRecording; TReset RBuffer; TReset RClient] ++
    destroy_members.

(** [Close] joins the reader, [Stop] joins the tick thread, and FreeSWITCH lets
    a bug's removal return only when no callback of it runs. *)
Definition blocked (e : td_effect) (o : StreamObj) : bool :=
  match e with
  | TClientClose => bool_decide (AReader ∈ so_running o)
  | TRelayStop => bool_decide (ATick ∈ so_running o)
  | TDetach b => bool_decide (ABug b ∈ so_running o)
  | _ => false
  end.

Definition apply_effect (e : td_effect) (o : StreamObj) : StreamObj :=
  let '(mkStreamObj s live att closed stopped running) := o in
  match e with
  | TClientClose => mkStreamObj s live att true stopped running
  | TRelayStop => mkStreamObj s live att closed true running
  | TDetach b => mkStreamObj s live (List.filter (fun x => negb (x.1 =? b)) att) closed stopped running
  | TReset r => mkStreamObj s (List.filter (fun x => negb (resource_eqb x r)) live) att closed stopped running
  | TSignalEndOfStream | TEmitStopped => o
  end.

(** ** The registry

    [by_id_] maps a stream id to the object the map's [unique_ptr] owns. *)

Abbreviation stream_loc := nat.
Abbreviation StreamMap := (gmap string nat).

Section Registry.
Context (stream_of : stream_loc -> option ActiveMediaStream).

(** Each operation: its result, the map, and the streams to tear down after
    [mu_] is released, in order. *)
Definition Streams_Insert (l : stream_loc) (m : StreamMap) : bool * StreamMap * list stream_loc :=
  match stream_of l with
  | None => (false, m, [])
  | Some s =>
      if string_empty (ams_stream_id s) then (false, m, [l])
      else match m !! ams_stream_id s with
           | Some _ => (false, m, [l])
           | None => (true, <[ams_stream_id s := l]> m, [])
           end
  end.

Definition Streams_Remove (id : string) (m : StreamMap) : bool * StreamMap * list stream_loc :=
  match m !! id with
  | None => (false, m, [])
  | Some l => (true, delete id m, [l])
  end.

Definition Streams_RemoveIfPurpose (id : string) (p : StreamPurpose) (m : StreamMap)
  : bool * StreamMap * list stream_loc :=
  match m !! id with
  | None => (false, m, [])
  | Some l =>
      match stream_of l with
      | None => (false, m, [])
      | Some s => if bool_decide (ams_purpose s = p) then (true, delete id m, [l]) else (false, m, [])
      end
  end.

(** The erasing loop of the [Remove...ForChannel] methods. *)
Fixpoint erase_matching (test : ActiveMediaStream -> bool) (order : list string) (m : StreamMap)
  : StreamMap * list stream_loc :=
  match order with
  | [] => (m, [])
  | id :: order' =>
      match m !! id ≫= (fun l => s ← stream_of l; Some (l, s)) with
      | Some (l, s) =>
          if test s then let '(m', vs) := erase_matching test order' (delete id m) in (m', l :: vs)
          else erase_matching test order' m
      | None => erase_matching test order' m
      end
  end.

Definition Streams_RemoveForChannel (uuid : string) (order : list string) (m : StreamMap) :=
  erase_matching (fun s => String.eqb (ams_channel_uuid s) uuid) order m.

Definition Streams_RemovePurposeForChannel (uuid : string) (p : StreamPurpose) (order : list string)
    (m : StreamMap) : nat * StreamMap * list stream_loc :=
  let '(m', vs) := erase_matching (fun s => String.eqb (ams_channel_uuid s) uuid &&
                                            bool_decide (ams_purpose s = p)) order m in
  (length vs, m', vs).

Definition Streams_RemoveWriteReplaceForChannel (uuid : string) (order : list string)
    (m : StreamMap) : nat * StreamMap * list stream_loc :=
  let '(m', vs) := erase_matching (fun s => String.eqb (ams_channel_uuid s) uuid &&
                                            IsWriteReplacePurpose (ams_purpose s)) order m in
  (length vs, m', vs).

(** The destructor takes every stream out of the map. *)
Definition Streams_destroy (order : list string) (m : StreamMap) : StreamMap * list stream_loc :=
  erase_matching (fun _ => true) order m.

Inductive streams_op :=
| OpInsert (l : stream_loc)
| OpRemove (id : string)
| OpRemoveIfPurpose (id : string) (p : StreamPurpose)
| OpRemoveForChannel (uuid : string)
| OpRemovePurposeForChannel (uuid : string) (p : StreamPurpose)
| OpRemoveWriteReplaceForChannel (uuid : string)
| OpDestroyAll.

(** What an operation returns, [bool] as 0 or 1. *)
Definition streams_exec (op : streams_op) (order : list string) (m : StreamMap)
  : nat * StreamMap * list stream_loc :=
  let of_bool x := let '(b, m', vs) := x in (if b : bool then 1 else 0, m', vs)%nat in
  match op with
  | OpInsert l => of_bool (Streams_Insert l m)
  | OpRemove id => of_bool (Streams_Remove id m)
  | OpRemoveIfPurpose id p => of_bool (Streams_RemoveIfPurpose id p m)
  | OpRemoveForChannel uuid =>
      let '(m', vs) := Streams_RemoveForChannel uuid order m in (0%nat, m', vs)
  | OpRemovePurposeForChannel uuid p => Streams_RemovePurposeForChannel uuid p order m
  | OpRemoveWriteReplaceForChannel uuid => Streams_RemoveWriteReplaceForChannel uuid order m
  | OpDestroyAll => let '(m', vs) := Streams_destroy order m in (0%nat, m', vs)
  end.
End Registry.

(** ** The world

    Streams live at locations.  A stream a handler has built belongs to the
    handler until it passes it to [Insert]; a thread that took streams out of
    the map has a teardown program for them. *)

Record ms_world := mkMsWorld {
  ms_objs : gmap nat StreamObj;
  ms_by_id : StreamMap;
  ms_owned : gset nat;
  ms_progs : gmap nat (list (stream_loc * list td_effect)) }.

Definition ms_init : ms_world := mkMsWorld ∅ ∅ ∅ ∅.

Definition ms_stream (w : ms_world) (l : stream_loc) : option ActiveMediaStream :=
  so_stream <$> ms_objs w !! l.

Definition ms_prog (w : ms_world) (th : nat) : list (stream_loc * list td_effect) :=
  default [] (ms_progs w !! th).

Definition teardown_program (w : ms_world) (vs : list stream_loc) : list (stream_loc * list td_effect) :=
  vs ≫= (fun l => match ms_stream w l with Some s => [(l, TearDown s)] | None => [] end).

Inductive ms_label :=
| MBuild (l : stream_loc) (k : start_kind) (uuid id : string) (b1 b2 : Z)
| MCall (th : nat) (op : streams_op) (order : list string)
| MTear (th : nat)
| MBegin (l : stream_loc) (a : actor)
| MEnd (l : stream_loc) (a : actor)
| MFsClose (l : stream_loc) (b : Z).

Definition set_running (o : StreamObj) (run : list actor) : StreamObj :=
  mkStreamObj (so_stream o) (so_live o) (so_attached o) (so_closed o) (so_stopped o) run.

(** An insertion passes the handler's ownership on.  [order] is an iteration
    order of the map. *)
Definition ms_step (w : ms_world) (lb : ms_label) : option ms_world :=
  match lb with
  | MBuild l k uuid id b1 b2 =>
      match ms_objs w !! l with
      | Some _ => None
      | None => Some (mkMsWorld (<[l := start_obj k uuid id b1 b2]> (ms_objs w)) (ms_by_id w) ({[l]} ∪ ms_owned w)
                  (ms_progs w))
      end
  | MCall th op order =>
      if negb (bool_decide (ms_prog w th = [])) then None
      else if negb (bool_decide (order ≡ₚ (map_to_list (ms_by_id w)).*1)) then None
      else if (match op with OpInsert l => negb (bool_decide (l ∈ ms_owned w)) | _ => false end) then None
      else
        let '(_, m', vs) := streams_exec (ms_stream w) op order (ms_by_id w) in
        Some (mkMsWorld (ms_objs w) m' (match op with OpInsert l => ms_owned w ∖ {[l]} | _ => ms_owned w end)
                (<[th := teardown_program w vs]> (ms_progs w)))
  | MTear th =>
      match ms_prog w th with
      | [] => None
      | (l, []) :: rest => 
          Some (mkMsWorld (ms_objs w) (ms_by_id w) (ms_owned w) (<[th := rest]> (ms_progs w)))
      | (l, e :: es) :: rest =>
          match ms_objs w !! l with
          | None => None
          | Some o =>
              if blocked e o then None
              else Some (mkMsWorld (<[l := apply_effect e o]> (ms_objs w)) (ms_by_id w) (ms_owned w)
                           (<[th := (l, es) :: rest]> (ms_progs w)))
          end
      end
  | MBegin l a =>
      match ms_objs w !! l with
      | None => None
      | Some o =>
          if startable o a && negb (bool_decide (a ∈ so_running o))
          then Some (mkMsWorld (<[l := set_running o (a :: so_running o)]> (ms_objs w)) (ms_by_id w)
                       (ms_owned w) (ms_progs w))
          else None
      end
  | MEnd l a =>
      match ms_objs w !! l with
      | None => None
      | Some o => Some (mkMsWorld (<[l := set_running o (filter (fun x => x <> a) (so_running o))]> (ms_objs w))
                          (ms_by_id w) (ms_owned w) (ms_progs w))
      end
  | MFsClose l b =>
      match ms_objs w !! l with
      | None => None
      | Some o => if blocked (TDetach b) o then None
                  else Some (mkMsWorld (<[l := apply_effect (TDetach b) o]> (ms_objs w)) (ms_by_id w)
                               (ms_owned w) (ms_progs w))
      end
  end.

Fixpoint ms_run (w : ms_world) (ls : list ms_label) : option ms_world :=
  match ls with
  | [] => Some w
  | lb :: ls => match ms_step w lb with Some w' => ms_run w' ls | None => None end
  end.

(** ** The teardown order *)

(** Whoever can still run finds the objects it uses alive. *)
Definition covered (o : StreamObj) : Prop :=
  forall a, startable o a = true -> forall r, r ∈ uses o a -> r ∈ so_live o.

Definition released (o : StreamObj) : Prop := so_live o = [] /\ so_attached o = [].

Fixpoint safe_teardown (es : list td_effect) (o : StreamObj) : Prop :=
  match es with
  | [] => released o
  | e :: es => covered (apply_effect e o) /\ safe_teardown es (apply_effect e o)
  end.

Lemma elem_of_detached b (att : list (Z * cb_kind)) x :
  x ∈ List.filter (fun x => negb (x.1 =? b)) att -> x ∈ att.
Proof. rewrite !list_elem_of_In. intros H. by apply filter_In in H as [? _]. Qed.

(** [o'] has lost bugs that [o] has, and may run other threads. *)
Definition sub_obj (o' o : StreamObj) : Prop :=
  so_stream o' = so_stream o /\ so_live o' = so_live o /\ so_closed o' = so_closed o /\
  so_stopped o' = so_stopped o /\ (forall x, x ∈ so_attached o' -> x ∈ so_attached o).

#[export] Instance sub_obj_preorder : PreOrder sub_obj.
Proof.
  split; [intros o; by repeat split|].
  intros x y z (? & ? & ? & ? & ?) (? & ? & ? & ? & ?). unfold sub_obj. repeat split; try congruence. auto.
Qed.

Lemma sub_obj_covered o' o : sub_obj o' o -> covered o -> covered o'.
Proof.
  intros (Hs & Hl & Hc & Hst & Ha) Hcov a Hstart r Hr. rewrite Hl. apply (Hcov a).
  - destruct a as [b| |]; simpl in *; rewrite ?Hs, ?Hc, ?Hst in *; try done.
    apply bool_decide_eq_true in Hstart. apply bool_decide_eq_true.
    apply list_elem_of_fmap in Hstart as (x & -> & Hx). apply list_elem_of_fmap_2. auto.
  - destruct a as [b| |]; simpl in *; rewrite ?Hs in *; try done.
    apply list_elem_of_bind in Hr as (x & Hr & Hx). apply list_elem_of_filter in Hx as [? Hx].
    apply list_elem_of_bind. exists x. split; [done|]. apply list_elem_of_filter. auto.
Qed.

Lemma sub_obj_apply e o' o : sub_obj o' o -> sub_obj (apply_effect e o') (apply_effect e o).
Proof.
  destruct o' as [s' live' att' cl' st' run'], o as [s live att cl st run].
  intros (Hs & Hl & Hc & Hst & Ha). simpl in *. subst.
  destruct e; unfold sub_obj; simpl; repeat split; auto.
  intros x. rewrite !list_elem_of_In, !filter_In, <- !list_elem_of_In. naive_solver.
Qed.

Lemma sub_obj_safe es o' o : sub_obj o' o -> safe_teardown es o -> safe_teardown es o'.
Proof.
  revert o' o. induction es as [|e es IH]; intros o' o Hsub; simpl.
  - destruct Hsub as (? & Hl & ? & ? & Ha). intros [E1 E2]. split; [congruence|].
    destruct (so_attached o') as [|x l]; [done|]. rewrite E2 in Ha. specialize (Ha x). set_solver.
  - intros [Hc Hs]. pose proof (sub_obj_apply e _ _ Hsub). split; [by eapply sub_obj_covered|].
    by eapply IH.
Qed.

Lemma sub_obj_detach b o : sub_obj (apply_effect (TDetach b) o) o.
Proof.
  destruct o as [s live att cl st run]. unfold sub_obj. simpl. repeat split.
  intros x. apply elem_of_detached.
Qed.

Lemma sub_obj_running o run : sub_obj (set_running o run) o /\ sub_obj o (set_running o run).
Proof. by repeat split. Qed.

Lemma elem_of_uses_bug o b r :
  r ∈ uses o (ABug b) <-> exists k, (b, k) ∈ so_attached o /\ r ∈ kind_uses k.
Proof.
  simpl. rewrite list_elem_of_bind. split.
  - intros ([b' k] & Hr & Hx). apply list_elem_of_filter in Hx as [E Hx]. simpl in *. subst. by exists k.
  - intros (k & Hx & Hr). exists (b, k). split; [done|]. by apply list_elem_of_filter.
Qed.

(** [covered], bug by bug. *)
Lemma covered_intro o :
  Forall (fun x => kind_uses x.2 ⊆ so_live o) (so_attached o) ->
  (startable o AReader = true -> uses o AReader ⊆ so_live o) ->
  (startable o ATick = true -> uses o ATick ⊆ so_live o) -> covered o.
Proof.
  intros Hb Hr Ht [b| |] Ha r Hin; [|by apply Hr|by apply Ht].
  apply elem_of_uses_bug in Hin as (k & Hx & Hin). rewrite Forall_forall in Hb. by apply (Hb (b, k)).
Qed.

Ltac cover :=
  apply covered_intro; simpl; try done;
  repeat first [apply Forall_nil_2 | apply Forall_cons_2]; simpl; try (intros _); set_solver.

(** A fresh stream of any handler is covered, and its teardown is safe. *)
Lemma start_obj_covered k uuid id b1 b2 : covered (start_obj k uuid id b1 b2).
Proof. destruct k as [| | |[|]]; cover. Qed.

Lemma start_obj_safe k uuid id b1 b2 :
  let o := start_obj k uuid id b1 b2 in safe_teardown (TearDown (so_stream o)) o.
Proof.
  destruct (Z.eqb_spec b1 b2) as [->|Hne]; [|apply Z.eqb_neq in Hne as Hne1; apply not_eq_sym, Z.eqb_neq in Hne as Hne2];
    destruct k as [| | |[|]]; simpl;
    repeat (rewrite ?Z.eqb_refl, ?Hne1, ?Hne2; simpl); repeat split; try done; cover.
Qed.

(** ** The invariant *)

Definition obj_ok (o : StreamObj) : Prop :=
  covered o /\ Forall (fun a => startable o a = true) (so_running o).

(** No teardown has begun. *)
Definition untouched (o : StreamObj) : Prop :=
  so_live o = owned_resources (so_stream o) /\ safe_teardown (TearDown (so_stream o)) o.

(** Who owns a stream: nobody any more, a handler, the map, or a thread that
    tears it down. *)
Inductive place := PNone | POwned | PReg (id : string) | PTear (th : nat).

Record ms_inv (w : ms_world) (pl : stream_loc -> place) : Prop := mkMsInv {
  inv_reg : forall id l, ms_by_id w !! id = Some l <-> pl l = PReg id;
  inv_own : forall l, l ∈ ms_owned w <-> pl l = POwned;
  inv_tear : forall th l, l ∈ (ms_prog w th).*1 <-> pl l = PTear th;
  inv_nodup : forall th, NoDup (ms_prog w th).*1;
  inv_obj : forall l o, ms_objs w !! l = Some o -> obj_ok o /\
    match pl l with
    | PNone => released o
    | POwned => untouched o
    | PReg id => untouched o /\ ams_stream_id (so_stream o) = id
    | PTear th => exists es, (l, es) ∈ ms_prog w th /\ safe_teardown es o
    end;
  inv_none : forall l, ms_objs w !! l = None -> pl l = PNone }.

Lemma obj_ok_effect e o :
  blocked e o = false -> obj_ok o -> covered (apply_effect e o) -> obj_ok (apply_effect e o).
Proof.
  destruct o as [s live att cl st run]. intros Hb [_ Hr] Hc. split; [done|].
  rewrite Forall_forall in *. intros a Ha.
  assert (a ∈ run) as Hin by (by destruct e). specialize (Hr a Hin).
  destruct e; simpl in *; b2p; destruct a as [b'| |]; simpl in *; try done; rewrite ?andb_false_r; try done.
  apply bool_decide_eq_true in Hr. apply bool_decide_eq_true.
  apply list_elem_of_fmap in Hr as (x & -> & Hx). apply list_elem_of_fmap_2.
  apply list_elem_of_In, filter_In. split; [by apply list_elem_of_In|].
  apply negb_true_iff, Z.eqb_neq. congruence.
Qed.

Lemma obj_ok_fs_close b o :
  blocked (TDetach b) o = false -> obj_ok o -> obj_ok (apply_effect (TDetach b) o).
Proof.
  intros Hb Ho. apply obj_ok_effect; [done..|]. eapply sub_obj_covered; [apply sub_obj_detach|apply Ho].
Qed.

Lemma obj_ok_running o run :
  obj_ok o -> Forall (fun a => startable o a = true) run -> obj_ok (set_running o run).
Proof.
  intros [Hc _] Hr. split; [by apply (sub_obj_covered _ o); [apply sub_obj_running|]|].
  rewrite Forall_forall in *. intros a Ha. specialize (Hr a Ha). by destruct a.
Qed.

Lemma sub_obj_untouched o' o : sub_obj o' o -> untouched o -> untouched o'.
Proof.
  intros Hsub [Hl Hs]. pose proof Hsub as (E1 & E2 & _). split; [congruence|].
  rewrite E1. by eapply sub_obj_safe.
Qed.

(** Replacing an object by one with fewer bugs, other things equal. *)
Lemma ms_inv_sub w pl l o o' :
  ms_inv w pl -> ms_objs w !! l = Some o -> sub_obj o' o -> obj_ok o' ->
  ms_inv (mkMsWorld (<[l := o']> (ms_objs w)) (ms_by_id w) (ms_owned w) (ms_progs w)) pl.
Proof.
  intros [Hr Ho Ht Hn Hj Hz] El Hsub Hok. split; simpl; try done.
  - intros l1 o1. rewrite lookup_insert_Some. intros [[<- <-]|[Hne E1]]; [|by apply Hj].
    split; [done|]. destruct (Hj l o El) as [_ H].
    assert (Hrel : released o -> released o') by (apply (sub_obj_safe []); done).
    destruct (pl l); try by auto.
    + by eapply sub_obj_untouched.
    + destruct H as [H <-]. split; [by eapply sub_obj_untouched|]. by destruct Hsub as [-> _].
    + destruct H as (es & Hin & Hs). exists es. split; [done|]. by eapply sub_obj_safe.
  - intros l1. rewrite lookup_insert_None. intros [E1 _]. by apply Hz.
Qed.

Lemma ms_prog_insert objs m owned progs th es th' :
  ms_prog (mkMsWorld objs m owned (<[th := es]> progs)) th' =
    if decide (th = th') then es else default [] (progs !! th').
Proof.
  unfold ms_prog. simpl. case_decide as E; [subst; by rewrite lookup_insert_eq|].
  by rewrite lookup_insert_ne.
Qed.

(** ** The operations on the map *)

(** An operation that takes [vs] out of the map [m]. *)
Definition extracts (m m' : StreamMap) (vs : list stream_loc) : Prop :=
  NoDup vs /\ (forall l, l ∈ vs -> exists id, m !! id = Some l) /\
  (forall id l, m' !! id = Some l <-> m !! id = Some l /\ l ∉ vs).

Lemma extracts_nil m : extracts m m [].
Proof. split; [constructor|]. split; [set_solver|]. set_solver. Qed.

Lemma extracts_one (m : StreamMap) id l :
  (forall i j, m !! i = Some l -> m !! j = Some l -> i = j) -> m !! id = Some l ->
  extracts m (delete id m) [l].
Proof.
  intros Hinj E. split; [apply NoDup_singleton|]. split; [set_solver|].
  intros i l1. rewrite lookup_delete_Some. split.
  - intros [Hne E1]. split; [done|]. intros ->%list_elem_of_singleton. apply Hne. by apply Hinj.
  - intros [E1 Hl]. split; [|done]. intros ->. rewrite E in E1. injection E1 as ->. set_solver.
Qed.

Lemma extracts_trans m m1 m2 vs ws :
  extracts m m1 vs -> extracts m1 m2 ws -> extracts m m2 (vs ++ ws).
Proof.
  intros (N1 & V1 & E1) (N2 & V2 & E2). split.
  - apply NoDup_app. split; [done|]. split; [|done]. intros l Hl Hw.
    destruct (V2 l Hw) as [id Hid]. apply E1 in Hid as [_ ?]. done.
  - split.
    + intros l [Hl|Hl]%elem_of_app; [by apply V1|]. destruct (V2 l Hl) as [id Hid].
      exists id. by apply E1 in Hid as [? _].
    + intros id l. rewrite E2, E1, not_elem_of_app. tauto.
Qed.

Definition map_inj (m : StreamMap) : Prop := forall i j l, m !! i = Some l -> m !! j = Some l -> i = j.

Lemma map_inj_delete m id : map_inj m -> map_inj (delete id m).
Proof. intros H i j l [_ Hi]%lookup_delete_Some [_ Hj]%lookup_delete_Some. by eapply H. Qed.

Lemma erase_matching_extracts st test order m m' vs :
  map_inj m -> erase_matching st test order m = (m', vs) -> extracts m m' vs.
Proof.
  revert m m' vs. induction order as [|id order IH]; intros m m' vs Hinj; simpl.
  { intros [= <- <-]. apply extracts_nil. }
  destruct (m !! id) as [l|] eqn:Em; simpl; [|by apply IH].
  destruct (st l) as [s|] eqn:Es; simpl; [|by apply IH].
  destruct (test s) eqn:Et; [|by apply IH].
  destruct (erase_matching st test order (delete id m)) as [m1 ws] eqn:Ee. intros [= <- <-].
  apply (extracts_trans m (delete id m) m1 [l] ws).
  - apply extracts_one; [|done]. intros i j. by apply Hinj.
  - eapply IH; [by apply map_inj_delete|done].
Qed.

(** Insertion apart, an operation only takes streams out. *)
Lemma streams_exec_extracts st op order m r m' vs :
  map_inj m -> (forall l, op <> OpInsert l) -> streams_exec st op order m = (r, m', vs) ->
  extracts m m' vs.
Proof.
  intros Hinj Hop. assert (Hone : forall id l, m !! id = Some l -> extracts m (delete id m) [l]).
  { intros id l E. apply extracts_one; [|done]. intros i j. by apply Hinj. }
  destruct op as [l|id|id p|uuid|uuid p|uuid|]; simpl; [by destruct (Hop l)|..].
  - unfold Streams_Remove. destruct (m !! id) eqn:E; intros [= <- <- <-]; auto using extracts_nil.
  - unfold Streams_RemoveIfPurpose. destruct (m !! id) as [l|] eqn:E; [|intros [= <- <- <-]; apply extracts_nil].
    destruct (st l); [|intros [= <- <- <-]; apply extracts_nil].
    case_bool_decide; intros [= <- <- <-]; auto using extracts_nil.
  - unfold Streams_RemoveForChannel. destruct erase_matching as [m1 v1] eqn:E. intros [= <- <- <-].
    by eapply erase_matching_extracts.
  - unfold Streams_RemovePurposeForChannel. destruct erase_matching as [m1 v1] eqn:E. intros [= <- <- <-].
    by eapply erase_matching_extracts.
  - unfold Streams_RemoveWriteReplaceForChannel. destruct erase_matching as [m1 v1] eqn:E.
    intros [= <- <- <-]. by eapply erase_matching_extracts.
  - unfold Streams_destroy. destruct erase_matching as [m1 v1] eqn:E. intros [= <- <- <-].
    by eapply erase_matching_extracts.
Qed.

(** ** The invariant is preserved *)

Lemma ms_inv_map_inj w pl : ms_inv w pl -> map_inj (ms_by_id w).
Proof. intros H i j l Hi Hj. apply (inv_reg _ _ H) in Hi, Hj. congruence. Qed.

Lemma ms_inv_obj_of w pl l : ms_inv w pl -> pl l <> PNone -> exists o, ms_objs w !! l = Some o.
Proof.
  intros H Hl. destruct (ms_objs w !! l) as [o|] eqn:E; [by exists o|].
  destruct Hl. by apply (inv_none _ _ H).
Qed.

Lemma teardown_program_spec w vs :
  (forall l, l ∈ vs -> is_Some (ms_objs w !! l)) ->
  (teardown_program w vs).*1 = vs /\
  forall l o, l ∈ vs -> ms_objs w !! l = Some o -> (l, TearDown (so_stream o)) ∈ teardown_program w vs.
Proof.
  unfold teardown_program, ms_stream. induction vs as [|l vs IH]; intros Hv; [by split; set_solver|].
  destruct IH as [IH1 IH2]; [set_solver|]. destruct (Hv l) as [o E]; [set_solver|]. rewrite bind_cons, E.
  cbn [fmap option_fmap option_map]. split; [by rewrite fmap_app, IH1|].
  intros l1 o1 [->|Hl]%elem_of_cons E1; [rewrite E in E1; injection E1 as ->; set_solver|].
  apply elem_of_cons. right. by apply IH2.
Qed.

(** An idle thread takes streams over for teardown. *)
Lemma ms_inv_take w pl pl' th vs m' owned' :
  ms_inv w pl -> ms_prog w th = [] -> NoDup vs ->
  (forall l, l ∈ vs -> pl' l = PTear th /\ (pl l = POwned \/ exists id, pl l = PReg id)) ->
  (forall l, l ∉ vs -> pl' l = pl l \/
     exists o, ms_objs w !! l = Some o /\ pl l = POwned /\ pl' l = PReg (ams_stream_id (so_stream o))) ->
  (forall id l, m' !! id = Some l <-> pl' l = PReg id) -> (forall l, l ∈ owned' <-> pl' l = POwned) ->
  ms_inv (mkMsWorld (ms_objs w) m' owned' (<[th := teardown_program w vs]> (ms_progs w))) pl'.
Proof.
  intros H Hidle Hnd Hin Hout Hm Hown.
  assert (Hvs : forall l, l ∈ vs -> is_Some (ms_objs w !! l)).
  { intros l Hl. destruct (Hin l Hl) as [_ Hp]. apply (ms_inv_obj_of w pl); [done|].
    destruct Hp as [E|[id E]]; congruence. }
  destruct (teardown_program_spec w vs Hvs) as [Hf Hp].
  assert (Hth : forall l, pl l <> PTear th).
  { intros l Hl. apply (inv_tear _ _ H) in Hl. rewrite Hidle in Hl. set_solver. }
  split; simpl; try done.
  - intros th' l. rewrite ms_prog_insert. case_decide as E; [subst th'; rewrite Hf|].
    + split; [by intros Hl; apply Hin|]. intros Hl. destruct (decide (l ∈ vs)) as [|Hn]; [done|].
      destruct (Hout l Hn) as [E|(o & _ & _ & E)]; [|congruence]. rewrite E in Hl. by destruct (Hth l).
    + change (default [] (ms_progs w !! th')) with (ms_prog w th'). rewrite (inv_tear _ _ H).
      destruct (decide (l ∈ vs)) as [Hl|Hn].
      * destruct (Hin l Hl) as [E1 E2]. split; [|congruence]. destruct E2 as [E2|[id E2]]; congruence.
      * destruct (Hout l Hn) as [->|(o & _ & E1 & E2)]; [done|]. split; congruence.
  - intros th'. rewrite ms_prog_insert. case_decide; [by rewrite Hf|apply (inv_nodup _ _ H)].
  - intros l o Hl. destruct (inv_obj _ _ H l o Hl) as [Hok Hpl]. split; [done|].
    destruct (decide (l ∈ vs)) as [Hv|Hn].
    + destruct (Hin l Hv) as [-> Hp']. exists (TearDown (so_stream o)).
      rewrite ms_prog_insert, decide_True by done. split; [by apply Hp|].
      destruct Hp' as [E|[id E]]; rewrite E in Hpl; apply Hpl.
    + destruct (Hout l Hn) as [->|(o1 & E1 & E2 & ->)].
      * destruct (pl l) as [| |id|th'] eqn:Epl; try done. destruct Hpl as (es & Hes & Hs).
        exists es. split; [|done]. rewrite ms_prog_insert, decide_False; [done|]. intros ->. by destruct (Hth l).
      * rewrite E2 in Hpl. simplify_eq. done.
  - intros l Hl. assert (Hn : l ∉ vs).
    { intros Hv. destruct (Hvs l Hv). congruence. }
    destruct (Hout l Hn) as [->|(o & E & _)]; [by apply (inv_none _ _ H)|congruence].
Qed.

Lemma ms_inv_call w pl th op order w' :
  ms_inv w pl -> ms_step w (MCall th op order) = Some w' -> exists pl', ms_inv w' pl'.
Proof.
  intros H Hs. cbn [ms_step] in Hs.
  case_test; [done|]. case_test; [done|]. case_test; [done|].
  destruct (streams_exec (ms_stream w) op order (ms_by_id w)) as [[r m'] vs] eqn:Ee. injection Hs as <-.
  remember (ms_by_id w) as m eqn:Em0. remember (ms_owned w) as owned eqn:Eo0.
  pose proof (eq_sym Em0) as Em. pose proof (eq_sym Eo0) as Eo. clear Em0 Eo0.
  assert (Hcase : (exists l, op = OpInsert l) \/ forall l, op <> OpInsert l).
  { destruct op; eauto. }
  destruct Hcase as [[l ->]|Hop].
  - cbn beta iota in E1. b2p. rewrite <- Eo in E1. apply (inv_own _ _ H) in E1 as Epl.
    destruct (ms_inv_obj_of w pl l H) as [o El]; [congruence|].
    cbn [streams_exec] in Ee. unfold Streams_Insert, ms_stream in Ee. rewrite El in Ee. simpl in Ee.
    assert (Htear : vs = [l] -> m' = m ->
      exists pl', ms_inv (mkMsWorld (ms_objs w) m' (owned ∖ {[l]}) (<[th := teardown_program w vs]> (ms_progs w))) pl').
    { intros -> ->. exists (fun x => if decide (x = l) then PTear th else pl x).
      apply (ms_inv_take w pl); [done|done|apply NoDup_singleton|..].
      - intros x ->%list_elem_of_singleton. rewrite decide_True by done. auto.
      - intros x Hx. rewrite decide_False by set_solver. by left.
      - intros id x. case_decide as Hx; [subst x|]; rewrite <- Em, (inv_reg _ _ H); [|done]. split; congruence.
      - intros x. case_decide as Hx; [subst x; split; [set_solver|done]|].
        rewrite <- (inv_own _ _ H), Eo. set_solver. }
    case_test; [injection Ee as <- <- <-; by apply Htear|].
    destruct (m !! ams_stream_id (so_stream o)) as [l'|] eqn:Em'; injection Ee as <- <- <-; [by apply Htear|].
    exists (fun x => if decide (x = l) then PReg (ams_stream_id (so_stream o)) else pl x).
    apply (ms_inv_take w pl); [done|done|constructor|..].
    + intros x Hx. set_solver.
    + intros x _. case_decide; [subst x; right; by exists o|by left].
    + intros id x. case_decide as Hx; [subst x|].
      * split; [|intros [= <-]; by rewrite lookup_insert_eq].
        rewrite lookup_insert_Some, <- Em, (inv_reg _ _ H). intros [[-> _]|[_ ?]]; congruence.
      * rewrite <- (inv_reg _ _ H), Em, lookup_insert_Some. split; [naive_solver|].
        intros Hid. right. split; [|done]. intros E3. congruence.
    + intros x. case_decide as Hx; [subst x; split; [set_solver|done]|].
      rewrite <- (inv_own _ _ H), Eo. set_solver.
  - pose proof (streams_exec_extracts (ms_stream w) op order m r m' vs) as (Hnd & Hv & Hm'); [|done|done|].
    { rewrite <- Em. by eapply ms_inv_map_inj. }
    exists (fun x => if decide (x ∈ vs) then PTear th else pl x).
    apply (ms_inv_take w pl); [done|done|done|..].
    + intros x Hx. rewrite decide_True by done. split; [done|]. right. destruct (Hv x Hx) as [id Hid].
      exists id. by rewrite <- Em, (inv_reg _ _ H) in Hid.
    + intros x Hx. rewrite decide_False by done. by left.
    + intros id x. rewrite Hm', <- Em, (inv_reg _ _ H). case_decide; [|tauto]. split; [tauto|done].
    + intros x. assert (Hx : x ∈ owned <-> pl x = POwned) by (rewrite <- Eo; apply (inv_own _ _ H)).
      assert ((match op with OpInsert l => owned ∖ {[l]} | _ => owned end) = owned) as ->.
      { destruct op; try done. by destruct (Hop l). }
      case_decide as Hd; [|done]. split; [|done]. rewrite Hx. destruct (Hv x Hd) as [id Hid].
      rewrite <- Em, (inv_reg _ _ H) in Hid. congruence.
Qed.

Lemma ms_inv_init : ms_inv ms_init (fun _ => PNone).
Proof.
  split; simpl; try done; [set_solver..|]. intros th. constructor.
Qed.

Lemma ms_inv_build w pl l k uuid id b1 b2 w' :
  ms_inv w pl -> ms_step w (MBuild l k uuid id b1 b2) = Some w' -> exists pl', ms_inv w' pl'.
Proof.
  intros H Hs. simpl in Hs. destruct (ms_objs w !! l) eqn:El; [done|]. injection Hs as <-.
  pose proof (inv_none _ _ H l El) as Epl.
  exists (fun x => if decide (x = l) then POwned else pl x). split; simpl.
  - intros i x. rewrite (inv_reg _ _ H). case_decide as E; [subst x|done]. split; congruence.
  - intros x. case_decide as E; [subst x; set_solver|]. rewrite <- (inv_own _ _ H). set_solver.
  - intros th x. change (ms_prog _ th) with (ms_prog w th). rewrite (inv_tear _ _ H).
    case_decide as E; [subst x|done]. split; congruence.
  - apply (inv_nodup _ _ H).
  - intros x o. rewrite lookup_insert_Some. intros [[<- <-]|[Hne E]].
    + rewrite decide_True by done. split; [split; [apply start_obj_covered|constructor]|].
      split; [done|apply start_obj_safe].
    + rewrite decide_False by done. by apply (inv_obj _ _ H).
  - intros x. rewrite lookup_insert_None. intros [E Hne]. rewrite decide_False by done.
    by apply (inv_none _ _ H).
Qed.

(** One step of a teardown, its first effect done. *)
Lemma ms_inv_tear w pl th w' :
  ms_inv w pl -> ms_step w (MTear th) = Some w' -> exists pl', ms_inv w' pl'.
Proof.
  intros H Hs. simpl in Hs. pose proof (inv_nodup _ _ H th) as Hnd.
  destruct (ms_prog w th) as [|[l [|e es]] rest] eqn:Ep; [done|..].
  - injection Hs as <-. rewrite fmap_cons, NoDup_cons in Hnd. destruct Hnd as [Hl Hnd]. simpl in Hl.
    assert (Epl : pl l = PTear th) by (apply (inv_tear _ _ H); rewrite Ep; set_solver).
    exists (fun x => if decide (x = l) then PNone else pl x). split; simpl.
    + intros i x. rewrite (inv_reg _ _ H). case_decide as E; [subst x|done]. split; congruence.
    + intros x. rewrite (inv_own _ _ H). case_decide as E; [subst x|done]. split; congruence.
    + intros th' x. rewrite ms_prog_insert. destruct (decide (th = th')) as [<-|Hne].
      * case_decide as E; [subst x; split; [done|discriminate]|].
        rewrite <- (inv_tear _ _ H), Ep. set_solver.
      * change (default [] (ms_progs w !! th')) with (ms_prog w th'). rewrite (inv_tear _ _ H).
        case_decide as E; [subst x|done]. split; congruence.
    + intros th'. rewrite ms_prog_insert. case_decide; [done|apply (inv_nodup _ _ H)].
    + intros x o Hx. destruct (inv_obj _ _ H x o Hx) as [Hok Hpl]. split; [done|].
      case_decide as E; [subst x; rewrite Epl in Hpl|].
      * destruct Hpl as (es & Hin & Hs). rewrite Ep in Hin. apply elem_of_cons in Hin as [[= ->]|Hin]; [done|].
        destruct Hl. by apply (list_elem_of_fmap_2 fst) in Hin.
      * destruct (pl x) as [| |id|th'] eqn:Ex; try done. destruct Hpl as (es & Hin & Hs). exists es.
        split; [|done]. rewrite ms_prog_insert. case_decide as E'; [subst th'|done].
        rewrite Ep in Hin. apply elem_of_cons in Hin as [[= -> ->]|Hin]; done.
    + intros x Hx. case_decide; [done|by apply (inv_none _ _ H)].
  - destruct (ms_objs w !! l) as [o|] eqn:El; [|done]. destruct (blocked e o) eqn:Eb; [done|].
    injection Hs as <-. exists pl. rewrite fmap_cons, NoDup_cons in Hnd. destruct Hnd as [Hl Hnd]. simpl in Hl.
    assert (Epl : pl l = PTear th) by (apply (inv_tear _ _ H); rewrite Ep; set_solver).
    destruct (inv_obj _ _ H l o El) as [Hok Hpl]. rewrite Epl in Hpl. destruct Hpl as (es0 & Hin & Hsafe).
    assert (es0 = e :: es) as ->.
    { rewrite Ep in Hin. apply elem_of_cons in Hin as [[= ->]|Hin]; [done|].
      destruct Hl. by apply (list_elem_of_fmap_2 fst) in Hin. }
    destruct Hsafe as [Hcov Hsafe]. split; simpl; try apply H.
    + intros th' x. rewrite ms_prog_insert. destruct (decide (th = th')) as [<-|Hne]; [|apply (inv_tear _ _ H)].
      rewrite <- (inv_tear _ _ H), Ep. done.
    + intros th'. rewrite ms_prog_insert. case_decide; [|apply (inv_nodup _ _ H)].
      rewrite fmap_cons, NoDup_cons. done.
    + intros x o1. rewrite lookup_insert_Some. intros [[<- <-]|[Hne E1]].
      * split; [by apply obj_ok_effect|]. rewrite Epl. exists es. split; [|done].
        rewrite ms_prog_insert, decide_True by done. set_solver.
      * destruct (inv_obj _ _ H x o1 E1) as [Hok1 Hpl1]. split; [done|].
        destruct (pl x) as [| |id|th'] eqn:Ex; try done. destruct Hpl1 as (es1 & Hin1 & Hs1). exists es1.
        split; [|done]. rewrite ms_prog_insert. case_decide as E'; [subst th'|done].
        rewrite Ep in Hin1. apply elem_of_cons in Hin1 as [[= -> ->]|Hin1]; [done|]. set_solver.
    + intros x. rewrite lookup_insert_None. intros [E1 _]. by apply (inv_none _ _ H).
Qed.

Lemma ms_inv_step w pl lb w' :
  ms_inv w pl -> ms_step w lb = Some w' -> exists pl', ms_inv w' pl'.
Proof.
  intros H. destruct lb as [l k uuid id b1 b2|th op order|th|l a|l a|l b].
  - by eapply ms_inv_build.
  - by eapply ms_inv_call.
  - by eapply ms_inv_tear.
  - simpl. destruct (ms_objs w !! l) as [o|] eqn:El; [|done]. case_test; [|done]. intros [= <-]. b2p.
    exists pl. apply (ms_inv_sub w pl l o); [done|done|apply sub_obj_running|].
    destruct (inv_obj _ _ H l o El) as [Hok _]. apply obj_ok_running; [done|].
    constructor; [done|apply Hok].
  - simpl. destruct (ms_objs w !! l) as [o|] eqn:El; [|done]. intros [= <-].
    exists pl. apply (ms_inv_sub w pl l o); [done|done|apply sub_obj_running|].
    destruct (inv_obj _ _ H l o El) as [Hok _]. apply obj_ok_running; [done|].
    apply Forall_filter_keep, Hok.
  - simpl. destruct (ms_objs w !! l) as [o|] eqn:El; [|done]. case_match eqn:Eb; [done|]. intros [= <-].
    exists pl. apply (ms_inv_sub w pl l o); [done|done|apply sub_obj_detach|].
    destruct (inv_obj _ _ H l o El) as [Hok _]. by apply obj_ok_fs_close.
Qed.

Lemma ms_inv_run ls w pl w' :
  ms_inv w pl -> ms_run w ls = Some w' -> exists pl', ms_inv w' pl'.
Proof.
  revert w pl. induction ls as [|lb ls IH]; intros w pl H; simpl; [intros [= <-]; by exists pl|].
  destruct (ms_step w lb) as [w1|] eqn:Es; [|done].
  destruct (ms_inv_step _ _ _ _ H Es) as [pl1 H1]. by apply (IH w1 pl1).
Qed.

Lemma ms_reachable ls w : ms_run ms_init ls = Some w -> exists pl, ms_inv w pl.
Proof. apply (ms_inv_run ls ms_init (fun _ => PNone)), ms_inv_init. Qed.

(** ** What an operation takes out *)

Definition op_selects (op : streams_op) (id : string) (s : ActiveMediaStream) : bool :=
  match op with
  | OpInsert _ => false
  | OpRemove i => String.eqb id i
  | OpRemoveIfPurpose i p => String.eqb id i && bool_decide (ams_purpose s = p)
  | OpRemoveForChannel uuid => String.eqb (ams_channel_uuid s) uuid
  | OpRemovePurposeForChannel uuid p =>
      String.eqb (ams_channel_uuid s) uuid && bool_decide (ams_purpose s = p)
  | OpRemoveWriteReplaceForChannel uuid =>
      String.eqb (ams_channel_uuid s) uuid &&
      (bool_decide (ams_purpose s = TTS_PLAYBACK) || bool_decide (ams_purpose s = VOICEBOT_DUPLEX))
  | OpDestroyAll => true
  end.

(** The result an operation announces for [n] streams taken out. *)
Definition op_result (op : streams_op) (n : nat) : nat :=
  match op with OpRemoveForChannel _ | OpDestroyAll => 0%nat | _ => n end.

Definition named (st : stream_loc -> option ActiveMediaStream) (m : StreamMap)
    (sel : string -> ActiveMediaStream -> bool) (l : stream_loc) : Prop :=
  exists id s, m !! id = Some l /\ st l = Some s /\ sel id s = true.

Lemma erase_matching_named st test order m m' vs :
  map_inj m -> NoDup order -> erase_matching st test order m = (m', vs) ->
  forall l, l ∈ vs <-> exists id s, id ∈ order /\ m !! id = Some l /\ st l = Some s /\ test s = true.
Proof.
  revert m m' vs. induction order as [|id order IH]; intros m m' vs Hinj Hnd; simpl.
  { intros [= <- <-] l. split; [set_solver|]. intros (i & s & Hi & _). set_solver. }
  apply NoDup_cons in Hnd as [Hid Hnd].
  assert (Hskip : (forall l s, m !! id = Some l -> st l = Some s -> test s = false) ->
    erase_matching st test order m = (m', vs) -> forall l, l ∈ vs <->
      exists i s, i ∈ id :: order /\ m !! i = Some l /\ st l = Some s /\ test s = true).
  { intros Hno E l. rewrite (IH _ _ _ Hinj Hnd E). split; intros (i & s & Hi & H1 & H2 & H3); exists i, s.
    - set_solver.
    - apply elem_of_cons in Hi as [->|Hi]; [|done]. rewrite (Hno l s) in H3; done. }
  destruct (m !! id) as [l0|] eqn:Em; simpl; [|apply Hskip; by intros].
  destruct (st l0) as [s0|] eqn:Es; simpl; [|apply Hskip; intros l s [= <-]; congruence].
  destruct (test s0) eqn:Et; [|apply Hskip; intros l s [= <-]; congruence]. clear Hskip.
  destruct (erase_matching st test order (delete id m)) as [m1 ws] eqn:Ee. intros [= <- <-] l.
  rewrite elem_of_cons, (IH _ _ _ (map_inj_delete m id Hinj) Hnd Ee). split.
  - intros [->|(i & s & Hi & H1 & H2 & H3)]; [exists id, s0; set_solver|].
    apply lookup_delete_Some in H1 as [_ H1]. exists i, s. set_solver.
  - intros (i & s & Hi & H1 & H2 & H3). apply elem_of_cons in Hi as [->|Hi]; [left; congruence|].
    right. exists i, s. split; [done|]. split; [|done]. apply lookup_delete_Some. split; [|done].
    intros ->. done.
Qed.

Lemma streams_exec_named st op order m r m' vs :
  map_inj m -> (forall id l, m !! id = Some l -> is_Some (st l)) -> order ≡ₚ (map_to_list m).*1 ->
  (forall l, op <> OpInsert l) -> streams_exec st op order m = (r, m', vs) ->
  r = op_result op (length vs) /\ forall l, l ∈ vs <-> named st m (op_selects op) l.
Proof.
  intros Hinj Hst Hord Hop. assert (Hnd : NoDup order) by (rewrite Hord; apply NoDup_fst_map_to_list).
  assert (Hmem : forall id l, m !! id = Some l -> id ∈ order).
  { intros id l E. rewrite Hord. apply (list_elem_of_fmap_2 fst _ (id, l)). by apply elem_of_map_to_list. }
  assert (Herase : forall test m1 vs1, erase_matching st test order m = (m1, vs1) ->
    forall l, l ∈ vs1 <-> named st m (fun _ => test) l).
  { intros test m1 vs1 E l. rewrite (erase_matching_named _ _ _ _ _ _ Hinj Hnd E). unfold named. naive_solver. }
  destruct op as [l|id|id p|uuid|uuid p|uuid|]; simpl; [by destruct (Hop l)|..].
  - unfold Streams_Remove. destruct (m !! id) as [l0|] eqn:E; intros [= <- <- <-]; split; try done; intros l; split.
    + intros ->%list_elem_of_singleton. destruct (Hst id l0 E) as [s Hs]. exists id, s. simpl.
      by rewrite String.eqb_refl.
    + intros (i & s & H1 & H2 & H3). simpl in H3. apply String.eqb_eq in H3 as ->. set_solver.
    + set_solver.
    + intros (i & s & H1 & H2 & H3). simpl in H3. apply String.eqb_eq in H3 as ->. congruence.
  - unfold Streams_RemoveIfPurpose.
    assert (Hnone : (forall l s, m !! id = Some l -> st l = Some s -> ams_purpose s <> p) ->
      forall l, l ∈ [] <-> named st m (op_selects (OpRemoveIfPurpose id p)) l).
    { intros Hno l. split; [set_solver|]. intros (i & s & H1 & H2 & H3). simpl in H3.
      apply andb_prop in H3 as [H3 H4]. apply String.eqb_eq in H3 as ->. b2p. by destruct (Hno l s). }
    destruct (m !! id) as [l0|] eqn:E; [|intros [= <- <- <-]; split; [done|]; apply Hnone; congruence].
    destruct (Hst id l0 E) as [s0 Hs]. rewrite Hs. case_bool_decide as Ep; intros [= <- <- <-]; (split; [done|]).
    + intros l. split.
      * intros ->%list_elem_of_singleton. exists id, s0. simpl. by rewrite String.eqb_refl, bool_decide_true.
      * intros (i & s & H1 & H2 & H3). simpl in H3. apply andb_prop in H3 as [H3 _].
        apply String.eqb_eq in H3 as ->. set_solver.
    + apply Hnone. intros l s E1 E2. congruence.
  - unfold Streams_RemoveForChannel. destruct erase_matching as [m1 v1] eqn:E. intros [= <- <- <-].
    split; [done|]. exact (Herase _ _ _ E).
  - unfold Streams_RemovePurposeForChannel. destruct erase_matching as [m1 v1] eqn:E. intros [= <- <- <-].
    split; [done|]. exact (Herase _ _ _ E).
  - unfold Streams_RemoveWriteReplaceForChannel. destruct erase_matching as [m1 v1] eqn:E.
    intros [= <- <- <-]. split; [done|]. exact (Herase _ _ _ E).
  - unfold Streams_destroy. destruct erase_matching as [m1 v1] eqn:E. intros [= <- <- <-].
    split; [done|]. exact (Herase _ _ _ E).
Qed.

(** ** Properties *)

(** C5. No stream object is used after it is freed, freed twice or leaked.  For
    every interleaving of handlers that build streams, registry calls from any
    number of threads, teardown effects, FreeSWITCH callbacks, client readers,
    relay tick threads and closes by FreeSWITCH: whatever runs inside a stream
    finds each object it dereferences alive; a stream in the map is registered
    under its own id and has lost nothing; a stream is torn down by at most one
    thread; a stream that no handler, map or teardown owns has been freed
    completely, with no bug attached; and a teardown can always take its next
    step unless a callback it must wait for is running. *)
Theorem ActiveMediaStreams_no_use_after_free ls w :
  ms_run ms_init ls = Some w ->
  (forall l o a r, ms_objs w !! l = Some o -> a ∈ so_running o -> r ∈ uses o a -> r ∈ so_live o) /\
  (forall id l, ms_by_id w !! id = Some l -> exists o, ms_objs w !! l = Some o /\
     ams_stream_id (so_stream o) = id /\ so_live o = owned_resources (so_stream o) /\
     forall th, l ∉ (ms_prog w th).*1) /\
  (forall th th' l, l ∈ (ms_prog w th).*1 -> l ∈ (ms_prog w th').*1 -> th = th') /\
  (forall l o, ms_objs w !! l = Some o -> l ∉ ms_owned w -> (forall id, ms_by_id w !! id <> Some l) ->
     (forall th, l ∉ (ms_prog w th).*1) -> so_live o = [] /\ so_attached o = []) /\
  (forall th l es rest o, ms_prog w th = (l, es) :: rest -> ms_objs w !! l = Some o ->
     (forall e, head es = Some e -> blocked e o = false) -> is_Some (ms_step w (MTear th))).
Proof.
  intros [pl H]%ms_reachable. split; [|split; [|split; [|split]]].
  - intros l o a r El Ha Hr. destruct (inv_obj _ _ H l o El) as [[Hc Hrun] _].
    rewrite Forall_forall in Hrun. by apply (Hc a); [apply Hrun|].
  - intros id l E. apply (inv_reg _ _ H) in E. destruct (ms_inv_obj_of w pl l H) as [o El]; [congruence|].
    exists o. destruct (inv_obj _ _ H l o El) as [_ Hpl]. rewrite E in Hpl. destruct Hpl as [[Hl _] Hid].
    split; [done|]. split; [done|]. split; [done|]. intros th Hin. apply (inv_tear _ _ H) in Hin. congruence.
  - intros th th' l H1 H2. apply (inv_tear _ _ H) in H1, H2. congruence.
  - intros l o El Ho Hm Ht. destruct (inv_obj _ _ H l o El) as [_ Hpl].
    destruct (pl l) as [| |id|th] eqn:E; [done|..].
    + by apply (inv_own _ _ H) in E.
    + apply (inv_reg _ _ H) in E. by destruct (Hm id).
    + apply (inv_tear _ _ H) in E. by destruct (Ht th).
  - intros th l es rest o Ep El Hb. simpl. rewrite Ep. destruct es as [|e es]; [done|].
    by rewrite El, (Hb e).
Qed.

(** A removal takes out exactly what it names, whatever order the map is
    iterated in, and announces how many.  In every reachable state, when an
    idle thread calls an operation other than [Insert], the streams it goes on
    to tear down are, once each, the registered ones the operation names (by
    id, by id and purpose, by channel, by channel and purpose, by channel and a
    write-replace purpose, or all); they alone leave the map; and the result is
    their number, or whether there was one.  An [Insert] registers the stream
    when its id is new and not empty, and otherwise tears it down. *)
Theorem ActiveMediaStreams_removes ls w th op order w' r m' vs :
  ms_run ms_init ls = Some w -> ms_step w (MCall th op order) = Some w' ->
  streams_exec (ms_stream w) op order (ms_by_id w) = (r, m', vs) ->
  ms_by_id w' = m' /\ (ms_prog w' th).*1 = vs /\ NoDup vs /\
  match op with
  | OpInsert l => exists s, ms_stream w l = Some s /\
      (if decide (ams_stream_id s = ""%string \/ is_Some (ms_by_id w !! ams_stream_id s))
       then r = 0%nat /\ vs = [l] /\ m' = ms_by_id w
       else r = 1%nat /\ vs = [] /\ m' = <[ams_stream_id s := l]> (ms_by_id w))
  | _ => r = op_result op (length vs) /\
      (forall l, l ∈ vs <-> named (ms_stream w) (ms_by_id w) (op_selects op) l) /\
      (forall id l, m' !! id = Some l <-> ms_by_id w !! id = Some l /\ l ∉ vs)
  end.
Proof.
  intros [pl H]%ms_reachable Hs Ee. cbn [ms_step] in Hs. case_test; [done|]. case_test; [done|].
  destruct (match op with OpInsert l => negb (bool_decide (l ∈ ms_owned w)) | _ => false end) eqn:Eo; [done|].
  rewrite Ee in Hs. injection Hs as <-.
  assert (Hst : forall id l, ms_by_id w !! id = Some l -> is_Some (ms_stream w l)).
  { intros id l Hid. apply (inv_reg _ _ H) in Hid. destruct (ms_inv_obj_of w pl l H) as [o El]; [congruence|].
    unfold ms_stream. by rewrite El. }
  split; [done|]. rewrite ms_prog_insert, decide_True by done.
  assert (Hprog : (forall l, l ∈ vs -> is_Some (ms_stream w l)) -> (teardown_program w vs).*1 = vs).
  { intros Hv. apply teardown_program_spec. intros l Hl. destruct (Hv l Hl) as [s Hl'].
    unfold ms_stream in Hl'. by destruct (ms_objs w !! l). }
  assert (Hother : (forall l, op <> OpInsert l) ->
    (teardown_program w vs).*1 = vs /\ NoDup vs /\ r = op_result op (length vs) /\
    (forall l, l ∈ vs <-> named (ms_stream w) (ms_by_id w) (op_selects op) l) /\
    (forall id l, m' !! id = Some l <-> ms_by_id w !! id = Some l /\ l ∉ vs)).
  { intros Hop. pose proof (ms_inv_map_inj w pl H) as Hinj.
    destruct (streams_exec_extracts _ _ _ _ _ _ _ Hinj Hop Ee) as (Hnd & Hv & Hm').
    destruct (streams_exec_named _ _ _ _ _ _ _ Hinj Hst E0 Hop Ee) as [Hr Hn].
    split; [|done]. apply Hprog. intros l Hl. destruct (Hv l Hl) as [id Hid]. by apply (Hst id). }
  destruct op as [l|id|id p|uuid|uuid p|uuid|]; try (by apply Hother). clear Hother.
  b2p. apply (inv_own _ _ H) in Eo. destruct (ms_inv_obj_of w pl l H) as [o El]; [congruence|].
  assert (Es : ms_stream w l = Some (so_stream o)) by (unfold ms_stream; by rewrite El).
  cbn [streams_exec] in Ee. unfold Streams_Insert in Ee. rewrite Es in Ee.
  assert (Hl : (teardown_program w [l]).*1 = [l]).
  { apply teardown_program_spec. intros x ->%list_elem_of_singleton. by exists o. }
  pose proof (string_empty_spec (ams_stream_id (so_stream o))) as Hemp.
  destruct (string_empty (ams_stream_id (so_stream o))).
  - injection Ee as <- <- <-. split; [done|]. split; [apply NoDup_singleton|]. exists (so_stream o).
    split; [done|]. by rewrite decide_True by (left; by apply Hemp).
  - destruct (ms_by_id w !! ams_stream_id (so_stream o)) as [l'|] eqn:Em; injection Ee as <- <- <-.
    + split; [done|]. split; [apply NoDup_singleton|]. exists (so_stream o).
      split; [done|]. by rewrite decide_True by (right; by eexists).
    + split; [done|]. split; [constructor|]. exists (so_stream o). split; [done|].
      rewrite decide_False; [done|]. intros [Hx|[? Hx]]; [by apply Hemp in Hx|congruence].
Qed.

(** A TTS stream in use while another thread takes it out of the map. *)
Definition ms_demo : list ms_label :=
  [MBuild 0 StartTts "chan" "s1" 7 8; MCall 0 (OpInsert 0) []; MBegin 0 AReader; MBegin 0 (ABug 7);
   MEnd 0 AReader; MCall 1 (OpRemoveWriteReplaceForChannel "chan") ["s1"%string]; MTear 1; MTear 1].

Definition ms_demo_world : ms_world := default ms_init (ms_run ms_init ms_demo).

Lemma ActiveMediaStreams_no_use_after_free_witness :
  ms_run ms_init ms_demo = Some ms_demo_world /\
  exists o, ms_objs ms_demo_world !! 0%nat = Some o /\ so_running o = [ABug 7] /\
    RBuffer ∈ so_live o /\ RWriteCtx ∈ so_live o /\ ms_step ms_demo_world (MTear 1) = None /\
    exists w, ms_step ms_demo_world (MEnd 0 (ABug 7)) = Some w /\ is_Some (ms_step w (MTear 1)).
Proof.
  assert (Hr : ms_run ms_init ms_demo = Some ms_demo_world) by (vm_compute; reflexivity).
  destruct (ActiveMediaStreams_no_use_after_free ms_demo ms_demo_world Hr) as (Hu & _).
  split; [exact Hr|]. eexists. split; [vm_compute; reflexivity|]. split; [reflexivity|].
  assert (Hx : forall r, r ∈ [RWriteCtx; RBuffer] -> exists o, ms_objs ms_demo_world !! 0%nat = Some o /\ r ∈ so_live o).
  { intros r Hin. eexists. split; [vm_compute; reflexivity|].
    eapply (Hu 0%nat _ (ABug 7)); [vm_compute; reflexivity|apply list_elem_of_here|exact Hin]. }
  split; [destruct (Hx RBuffer) as (o & Ho & Hin); [apply list_elem_of_further, list_elem_of_here|]; vm_compute in Ho; injection Ho as <-; exact Hin|].
  split; [destruct (Hx RWriteCtx) as (o & Ho & Hin); [apply list_elem_of_here|]; vm_compute in Ho; injection Ho as <-; exact Hin|].
  split; [vm_compute; reflexivity|]. eexists. split; [vm_compute; reflexivity|].
  vm_compute. eexists. reflexivity.
Defined.

Definition ms_demo_reg : ms_world := default ms_init (ms_run ms_init (take 2 ms_demo)).

Lemma ActiveMediaStreams_removes_witness :
  exists w' m' vs, ms_step ms_demo_reg (MCall 1 (OpRemoveWriteReplaceForChannel "chan") ["s1"%string]) = Some w' /\
    (ms_prog w' 1).*1 = vs /\ vs = [0%nat] /\ ms_by_id w' = m' /\ m' = ∅.
Proof.
  do 3 eexists. split; [vm_compute; reflexivity|].
  eassert (H : _) by exact (ActiveMediaStreams_removes (take 2 ms_demo) ms_demo_reg 1
    (OpRemoveWriteReplaceForChannel "chan") ["s1"%string] _ 1%nat ∅ [0%nat]
    ltac:(vm_compute; reflexivity) ltac:(vm_compute; reflexivity) ltac:(vm_compute; reflexivity)).
  destruct H as (H1 & H2 & _). split; [exact H2|]. split; [reflexivity|]. split; [exact H1|reflexivity].
Defined.

(** ** The order matters

    [HandleStartVoicebot], when the second attach fails, returns with the read
    bug attached and its context wired.  The locals die in reverse order of
    declaration: the context, declared after the attach result, goes first. *)
Definition voicebot_attach_failed (uuid id : string) (b1 : Z) : StreamObj :=
  mkStreamObj (mkActiveMediaStream uuid id VOICEBOT_DUPLEX [b1] true true false true false)
    [RClient; RBuffer; RReadCtx] [(b1, CbReadTap)] false false [].

Definition voicebot_unwind (b1 : Z) : list td_effect :=
  [TClientClose; TReset RReadCtx; TDetach b1; TReset RClient; TReset RBuffer].

(** In between, FreeSWITCH may call the bug, whose context is gone. *)
Lemma voicebot_unwind_use_after_free uuid id b1 :
  let o := fold_left (fun o e => apply_effect e o) (take 2 (voicebot_unwind b1)) (voicebot_attach_failed uuid id b1) in
  startable o (ABug b1) = true /\ RReadCtx ∈ uses o (ABug b1) /\ RReadCtx ∉ so_live o.
Proof.
  cbv zeta. split; [by apply bool_decide_eq_true, list_elem_of_here|].
  split; [|simpl; set_solver]. apply elem_of_uses_bug. exists CbReadTap. simpl. set_solver.
Qed.
