(* ===== verification/Eavesdrop.v ===== *)
(** * The eavesdrop policy

    [src/security/]: the policy a tenant gets ([eavesdrop_policy.cc]), the
    channel variables a bot leaves on the calls it joins ([eavesdrop_marker.cc]),
    the [osw_eavesdrop] application supervisors use ([eavesdrop_app.cc]) and the
    detector of eavesdroppers that went around it ([eavesdrop_detector.cc]).
    FreeSWITCH's channel variables are a parameter with their documented
    behaviour; character classes are those of the C locale. *)

From S2P Require Import Prelude.

(** ** Policies *)

Inductive EavesdropPolicy := kDeny | kAudit | kAllow.

#[export] Instance EavesdropPolicy_eq_dec : EqDecision EavesdropPolicy.
Proof. solve_decision. Defined.

(** [std::isspace] and [std::tolower]. *)
Definition isspace (c : ascii) : bool :=
  let b := byte_of c in (b =? 32) || ((9 <=? b) && (b <=? 13)).

Definition tolower (c : ascii) : ascii :=
  let b := byte_of c in if (65 <=? b) && (b <=? 90) then char_of (b + 32) else c.

(** The two trimming loops. *)
Fixpoint trim_front (s : string) : string :=
  match s with
  | EmptyString => EmptyString
  | String a s' => if isspace a then trim_front s' else s
  end.

Fixpoint trim_back (s : string) : string :=
  match s with
  | EmptyString => EmptyString
  | String a s' =>
      match trim_back s' with
      | EmptyString => if isspace a then EmptyString else String a EmptyString
      | t => String a t
      end
  end.

Definition TrimView (raw : string) : string := trim_back (trim_front raw).

Fixpoint string_map (f : ascii -> ascii) (s : string) : string :=
  match s with EmptyString => EmptyString | String a s' => String (f a) (string_map f s') end.

Definition LowerTrim (raw : string) : string := string_map tolower (TrimView raw).

Definition ParseEavesdropPolicy (raw : string) : EavesdropPolicy :=
  let s := LowerTrim raw in
  if String.eqb s "audit" then kAudit else if String.eqb s "allow" then kAllow else kDeny.

Definition EavesdropPolicyName (p : EavesdropPolicy) : string :=
  match p with kAudit => "audit" | kAllow => "allow" | kDeny => "deny" end.

Definition IsKnownEavesdropPolicy (raw : string) : bool :=
  let s := LowerTrim raw in String.eqb s "deny" || String.eqb s "audit" || String.eqb s "allow".

(** ** Tenant overrides *)

Definition SplitTenantEntry (entry : string) : option (string * string * string) :=
  match find_char ":" entry with
  | None | Some O => None
  | Some first =>
      let tenant := TrimView (string_take first entry) in
      if string_empty tenant then None
      else
        let rest := string_skip (S first) entry in
        let '(policy, gate) :=
          match find_char ":" rest with
          | None => (TrimView rest, ""%string)
          | Some second => (TrimView (string_take second rest), TrimView (string_skip (S second) rest))
          end in
        if string_empty policy then None else Some (tenant, policy, gate)
  end.

Definition GateForcesDeny (raw_gate : string) : bool :=
  let gate := LowerTrim raw_gate in
  String.eqb gate "deny" || String.eqb gate "false" || String.eqb gate "0" || String.eqb gate "off".

(** One step of the loops over [remaining]: the trimmed entry and the rest. *)
Definition next_entry (remaining : string) : string * string :=
  match find_char ";" remaining with
  | Some sep => (TrimView (string_take sep remaining), string_skip (S sep) remaining)
  | None => (TrimView remaining, ""%string)
  end.

(** [None]: no entry names the tenant. *)
Fixpoint resolve_loop (fuel : nat) (remaining tenant_id : string) : option EavesdropPolicy :=
  match fuel with
  | O => None
  | S fuel =>
      if string_empty remaining then None
      else
        let '(entry, remaining) := next_entry remaining in
        if string_empty entry then resolve_loop fuel remaining tenant_id
        else match SplitTenantEntry entry with
             | None => resolve_loop fuel remaining tenant_id
             | Some (tenant, policy_raw, gate) =>
                 if negb (String.eqb tenant tenant_id) then resolve_loop fuel remaining tenant_id
                 else if negb (string_empty gate) && GateForcesDeny gate then Some kDeny
                 else Some (ParseEavesdropPolicy policy_raw)
             end
  end.

(** [ResolveEffectivePolicy], of the two strings of the configuration. *)
Definition ResolveEffectivePolicy (eavesdrop_policy tenant_eavesdrop_policies tenant_id : string)
  : EavesdropPolicy :=
  match resolve_loop (S (String.length tenant_eavesdrop_policies)) tenant_eavesdrop_policies tenant_id with
  | Some p => p
  | None => ParseEavesdropPolicy eavesdrop_policy
  end.

Definition gate_known (gate : string) : bool :=
  let g := LowerTrim gate in
  String.eqb g "allow" || String.eqb g "true" || String.eqb g "1" || String.eqb g "on" ||
  GateForcesDeny g.

(** [None] when valid, else the error. *)
Fixpoint validate_loop (fuel : nat) (remaining : string) : option string :=
  match fuel with
  | O => None
  | S fuel =>
      if string_empty remaining then None
      else
        let '(entry, remaining) := next_entry remaining in
        if string_empty entry then validate_loop fuel remaining
        else match SplitTenantEntry entry with
             | None => Some "tenant_eavesdrop_policies entry must be tenant:policy[:allow|deny]"%string
             | Some (_, policy, gate) =>
                 if negb (IsKnownEavesdropPolicy policy)
                 then Some "tenant_eavesdrop_policies contains unknown policy"%string
                 else if negb (string_empty gate) && negb (gate_known gate)
                 then Some "tenant_eavesdrop_policies gate must be allow/deny or true/false"%string
                 else validate_loop fuel remaining
             end
  end.

Definition ValidateTenantEavesdropPolicies (raw : string) : option string :=
  validate_loop (S (String.length raw)) raw.

(** ** Channel variables *)

Definition kBotSessionVar : string := "osw_bot_session".
Definition kBotPurposeVar : string := "osw_bot_purpose".
Definition kEavesdropPolicyVar : string := "osw_eavesdrop_policy".
Definition kTenantVar : string := "osw_tenant".

(** A name as FreeSWITCH compares it. *)
Definition fold_case : string -> string := string_map tolower.

Section Channels.
Context {vars : Type}.
Context (ChannelSetVariable : string -> string -> vars -> vars).
Context (ChannelGetVariable : vars -> string -> option string).

(** FreeSWITCH keeps what was set under a name; names are looked up without
    regard to case (var_denylist.h), so only a name that differs by more than
    case is left alone. *)
Context (get_set_same : forall v name value, value <> ""%string ->
  ChannelGetVariable (ChannelSetVariable name value v) name = Some value).
Context (get_set_other : forall v name name' value,
  fold_case name <> fold_case name' ->
  ChannelGetVariable (ChannelSetVariable name value v) name' = ChannelGetVariable v name').

(** The four writes of [MarkBotSession], in order; other threads may read the
    channel between two of them. *)
Definition mark_writes (purpose : string) (policy : EavesdropPolicy) (tenant_id : string)
  : list (string * string) :=
  [(kBotSessionVar, "true"%string); (kBotPurposeVar, purpose);
   (kEavesdropPolicyVar, EavesdropPolicyName policy); (kTenantVar, tenant_id)].

Definition set_vars (ws : list (string * string)) (v : vars) : vars :=
  fold_left (fun v w => ChannelSetVariable w.1 w.2 v) ws v.

Definition MarkBotSession (purpose : string) (policy : EavesdropPolicy) (tenant_id : string)
    (channel : option vars) : option vars :=
  set_vars (mark_writes purpose policy tenant_id) <$> channel.

Definition IsTrue (value : option string) : bool := bool_decide (value = Some "true"%string).

(** ** The application and the detector *)

Inductive eavesdrop_effect :=
| EmitEavesdropAudit (policy : EavesdropPolicy) (layer decision : string)
| HangupSupervisor
| HangupTarget
| IvrEavesdropSession (target : string).

Definition marked_policy (target_channel : vars) : EavesdropPolicy :=
  match ChannelGetVariable target_channel kEavesdropPolicyVar with
  | Some policy_raw => ParseEavesdropPolicy policy_raw
  | None => kDeny
  end.

(** [target] is [None] when the session is not found, [Some None] when it has
    no channel. *)
Definition HandleOswEavesdropApp (session : bool) (data : option string)
    (target : option (option vars)) : list eavesdrop_effect :=
  if negb session then []
  else match data with
  | None | Some EmptyString => []
  | Some uuid =>
      match target with
      | None => []
      | Some None => [IvrEavesdropSession uuid]
      | Some (Some channel) =>
          if negb (IsTrue (ChannelGetVariable channel kBotSessionVar)) then [IvrEavesdropSession uuid]
          else
            let policy := marked_policy channel in
            let denied := bool_decide (policy = kDeny) in
            EmitEavesdropAudit policy "1_pre_attach" (if denied then "hangup" else "permitted") ::
            (if denied then [HangupSupervisor] else [IvrEavesdropSession uuid])
      end
  end.

(** [event] gives the event's headers, [locate] the session of a uuid. *)
Definition OnMediaBugStart (event : option (string -> option string))
    (locate : string -> option (option vars)) : list eavesdrop_effect :=
  match event with
  | None => []
  | Some header =>
      if negb (bool_decide (header "Media-Bug-Function"%string = Some "eavesdrop"%string)) then []
      else match header "Unique-ID"%string with
      | None | Some EmptyString => []
      | Some uuid =>
          match locate uuid with
          | None | Some None => []
          | Some (Some channel) =>
              if negb (IsTrue (ChannelGetVariable channel kBotSessionVar)) then []
              else
                let policy := marked_policy channel in
                let fail_closed := bool_decide (policy = kDeny) in
                EmitEavesdropAudit policy "2_post_attach_detection"
                  (if fail_closed then "detected_hangup_target" else "detected_only") ::
                (if fail_closed then [HangupTarget] else [])
          end
      end
  end.

(** ** Documented configuration strings *)

(** An override as the configuration header writes it: [tenant:policy], with an
    optional [:allow] or [:deny]. *)
Record TenantOverride := mkTenantOverride {
  to_tenant : string;
  to_policy : EavesdropPolicy;
  to_gate : option bool }.

Definition plain_char (c : ascii) : bool := is_not ":" c && is_not ";" c && negb (isspace c).

Definition tenant_ok (t : string) : Prop := t <> ""%string /\ string_all plain_char t = true.

Definition render_override (o : TenantOverride) : string :=
  to_tenant o +:+ String ":" (EavesdropPolicyName (to_policy o) +:+
    match to_gate o with
    | None => "" | Some true => ":allow" | Some false => ":deny"
    end).

Definition render_overrides (os : list TenantOverride) : string := string_join ";" (render_override <$> os).

(** The policy the documentation promises: the first override of the tenant,
    denied by its gate, else the module's default. *)
Fixpoint effective_policy (default : EavesdropPolicy) (os : list TenantOverride) (tenant : string)
  : EavesdropPolicy :=
  match os with
  | [] => default
  | o :: os =>
      if decide (to_tenant o = tenant)
      then match to_gate o with Some false => kDeny | _ => to_policy o end
      else effective_policy default os tenant
  end.

(** ** The loops are walks over the chunks *)

Lemma trim_front_id s : string_all (fun c => negb (isspace c)) s = true -> trim_front s = s.
Proof. destruct s as [|a s]; [done|]. simpl. by intros [->%negb_true_iff _]%andb_prop. Qed.

Lemma trim_back_id s : string_all (fun c => negb (isspace c)) s = true -> trim_back s = s.
Proof.
  induction s as [|a s IH]; [done|]. simpl. intros [Ha%negb_true_iff Hs]%andb_prop.
  rewrite (IH Hs), Ha. by destruct s.
Qed.

Lemma TrimView_id s : string_all (fun c => negb (isspace c)) s = true -> TrimView s = s.
Proof. intros H. unfold TrimView. by rewrite trim_front_id, trim_back_id. Qed.

Lemma ParseEavesdropPolicy_name p : ParseEavesdropPolicy (EavesdropPolicyName p) = p.
Proof. by destruct p. Qed.

(** The chunks the loops have still to see. *)
Definition entries_of (remaining : string) : list string :=
  if string_empty remaining then [] else TrimView <$> split_on ";" remaining.

Lemma next_entry_chunks remaining entry rest :
  string_empty remaining = false -> next_entry remaining = (entry, rest) ->
  (String.length rest < String.length remaining)%nat /\
  (entries_of remaining = entry :: entries_of rest \/
   entries_of remaining = entry :: entries_of rest ++ [""%string]).
Proof.
  intros Hne. unfold next_entry, entries_of. rewrite Hne.
  destruct (find_char ";" remaining) as [sep|] eqn:E; intros [= <- <-].
  - destruct (find_char_split _ _ _ E) as (_ & -> & Hlt). rewrite string_skip_length. split; [lia|].
    destruct (string_empty (string_skip (S sep) remaining)) eqn:Er; [|by left].
    right. apply string_empty_spec in Er. by rewrite Er.
  - rewrite (find_char_none_split _ _ E). split; [|by left].
    destruct remaining; [done|]. simpl. lia.
Qed.

Fixpoint resolve_list (entries : list string) (tenant_id : string) : option EavesdropPolicy :=
  match entries with
  | [] => None
  | entry :: entries =>
      if string_empty entry then resolve_list entries tenant_id
      else match SplitTenantEntry entry with
           | None => resolve_list entries tenant_id
           | Some (tenant, policy_raw, gate) =>
               if negb (String.eqb tenant tenant_id) then resolve_list entries tenant_id
               else if negb (string_empty gate) && GateForcesDeny gate then Some kDeny
               else Some (ParseEavesdropPolicy policy_raw)
           end
  end.

Lemma resolve_list_blank es t : resolve_list (es ++ [""%string]) t = resolve_list es t.
Proof.
  induction es as [|e es IH]; [done|]. simpl. rewrite IH. done.
Qed.

Lemma resolve_loop_list fuel remaining t :
  (String.length remaining < fuel)%nat -> resolve_loop fuel remaining t = resolve_list (entries_of remaining) t.
Proof.
  revert remaining. induction fuel as [|fuel IH]; intros remaining Hf; [lia|]. cbn [resolve_loop].
  destruct (string_empty remaining) eqn:Er; [unfold entries_of; by rewrite Er|].
  destruct (next_entry remaining) as [entry rest] eqn:En.
  destruct (next_entry_chunks _ _ _ Er En) as [Hlt Hc]. pose proof (IH rest ltac:(lia)) as IHr.
  destruct Hc as [->| ->]; simpl; rewrite ?resolve_list_blank, <- IHr; done.
Qed.

Fixpoint validate_list (entries : list string) : bool :=
  match entries with
  | [] => true
  | entry :: entries =>
      if string_empty entry then validate_list entries
      else match SplitTenantEntry entry with
           | None => false
           | Some (_, policy, gate) =>
               IsKnownEavesdropPolicy policy && (string_empty gate || gate_known gate) && validate_list entries
           end
  end.

Lemma validate_list_blank es : validate_list (es ++ [""%string]) = validate_list es.
Proof. induction es as [|e es IH]; [done|]. simpl. by rewrite IH. Qed.

Lemma validate_loop_list fuel remaining :
  (String.length remaining < fuel)%nat ->
  (validate_loop fuel remaining = None <-> validate_list (entries_of remaining) = true).
Proof.
  revert remaining. induction fuel as [|fuel IH]; intros remaining Hf; [lia|]. cbn [validate_loop].
  destruct (string_empty remaining) eqn:Er; [unfold entries_of; by rewrite Er|].
  destruct (next_entry remaining) as [entry rest] eqn:En.
  destruct (next_entry_chunks _ _ _ Er En) as [Hlt Hc]. pose proof (IH rest ltac:(lia)) as IHr.
  assert (validate_list (entries_of remaining) = validate_list (entry :: entries_of rest)) as ->.
  { destruct Hc as [->| ->]; [done|]. simpl. by rewrite validate_list_blank. }
  simpl. destruct (string_empty entry); [done|].
  destruct (SplitTenantEntry entry) as [[[tenant policy] gate]|]; [|done].
  destruct (IsKnownEavesdropPolicy policy); simpl; [|done].
  destruct (string_empty gate); simpl; [done|]. by destruct (gate_known gate).
Qed.

(** ** The documented strings parse to what they say *)

Definition gate_text (g : option bool) : string :=
  match g with None => "" | Some true => "allow" | Some false => "deny" end.

Lemma plain_char_parts t c :
  string_all plain_char t = true -> c = ":"%char \/ c = ";"%char -> string_all (is_not c) t = true.
Proof.
  intros H Hc. eapply string_all_impl; [|exact H]. unfold plain_char.
  intros a [[? ?]%andb_prop _]%andb_prop. by destruct Hc as [->| ->].
Qed.

Lemma plain_char_nonspace t : string_all plain_char t = true -> string_all (fun c => negb (isspace c)) t = true.
Proof. apply string_all_impl. unfold plain_char. by intros a [_ ?]%andb_prop. Qed.

Lemma SplitTenantEntry_render o :
  tenant_ok (to_tenant o) ->
  SplitTenantEntry (render_override o) =
    Some (to_tenant o, EavesdropPolicyName (to_policy o), gate_text (to_gate o)).
Proof.
  destruct o as [t p g]. intros [Hne Hp]. simpl in *. unfold SplitTenantEntry, render_override. simpl.
  rewrite find_char_app by (apply plain_char_parts; auto).
  destruct (String.length t) as [|n] eqn:En; [by destruct t|]. rewrite <- En.
  rewrite string_take_app. rewrite TrimView_id by (by apply plain_char_nonspace).
  destruct (string_empty t) eqn:Et; [by apply string_empty_spec in Et|].
  assert (string_skip (S (String.length t)) (t +:+ String ":"
    (EavesdropPolicyName p +:+ match g with None => "" | Some true => ":allow" | Some false => ":deny" end)) =
    EavesdropPolicyName p +:+ match g with None => "" | Some true => ":allow" | Some false => ":deny" end) as ->.
  { clear. induction t as [|a t IH]; [done|]. exact IH. }
  by destruct p, g as [[|]|].
Qed.

Lemma render_override_chars o P :
  string_all P (to_tenant o) = true -> P ":"%char = true ->
  (forall p, string_all P (EavesdropPolicyName p) = true) ->
  string_all P ":allow" = true -> string_all P ":deny" = true -> string_all P (render_override o) = true.
Proof.
  intros Ht Hc Hn Ha Hd. unfold render_override. rewrite string_all_app, Ht. cbn [string_all].
  rewrite Hc, string_all_app, Hn. by destruct (to_gate o) as [[|]|].
Qed.

Lemma entries_of_render os :
  Forall (fun o => tenant_ok (to_tenant o)) os -> entries_of (render_overrides os) = render_override <$> os.
Proof.
  intros Hos. destruct os as [|o os]; [done|]. unfold entries_of.
  destruct (string_empty (render_overrides (o :: os))) eqn:E.
  { apply string_empty_spec in E. apply Forall_cons in Hos as [[Hne _] _].
    destruct o as [[|a t] p g]; [done|]. by destruct os. }
  unfold render_overrides. rewrite split_on_join; [|clear E|done].
  - clear E. induction Hos as [|x l [_ Hx] _ IH]; [done|]. rewrite !fmap_cons, IH. f_equal.
    apply TrimView_id. apply render_override_chars; try done; [by apply plain_char_nonspace|]. by intros [].
  - apply Forall_fmap. eapply Forall_impl; [exact Hos|]. intros x [_ Hx]. simpl.
    apply render_override_chars; try done; [apply plain_char_parts; auto|]. by intros [].
Qed.

Lemma render_override_nonempty o : tenant_ok (to_tenant o) -> string_empty (render_override o) = false.
Proof. intros [Hne _]. by destruct o as [[|a t] p g]. Qed.

Lemma resolve_list_render os t :
  Forall (fun o => tenant_ok (to_tenant o)) os ->
  forall d, default d (resolve_list (render_override <$> os) t) = effective_policy d os t.
Proof.
  intros Hos d. induction Hos as [|o os Ho _ IH]; [done|]. cbn [fmap list_fmap resolve_list effective_policy].
  rewrite render_override_nonempty, SplitTenantEntry_render by done.
  destruct (String.eqb_spec (to_tenant o) t) as [->|Hne]; [rewrite decide_True by done|by rewrite decide_False].
  simpl. destruct (to_gate o) as [[|]|]; simpl; by rewrite ?ParseEavesdropPolicy_name.
Qed.

Lemma ResolveEffectivePolicy_render d os t :
  Forall (fun o => tenant_ok (to_tenant o)) os ->
  ResolveEffectivePolicy (EavesdropPolicyName d) (render_overrides os) t = effective_policy d os t.
Proof.
  intros Hos. unfold ResolveEffectivePolicy. rewrite resolve_loop_list by lia.
  rewrite entries_of_render by done. rewrite <- resolve_list_render by done.
  rewrite ParseEavesdropPolicy_name. by destruct (resolve_list _ t).
Qed.

Lemma ValidateTenantEavesdropPolicies_render os :
  Forall (fun o => tenant_ok (to_tenant o)) os ->
  ValidateTenantEavesdropPolicies (render_overrides os) = None.
Proof.
  intros Hos. apply validate_loop_list; [lia|]. rewrite entries_of_render by done.
  induction Hos as [|o os Ho _ IH]; [done|]. cbn [fmap list_fmap validate_list].
  rewrite render_override_nonempty, SplitTenantEntry_render by done. rewrite IH.
  by destruct (to_policy o), (to_gate o) as [[|]|].
Qed.

(** ** Enforcement *)

Lemma set_vars_bot k purpose p tenant v :
  (1 <= k)%nat -> ChannelGetVariable (set_vars (take k (mark_writes purpose p tenant)) v) kBotSessionVar = Some "true"%string.
Proof.
  intros Hk. destruct k as [|[|[|[|k]]]]; [lia|..]; simpl; rewrite ?take_nil; simpl;
    repeat (rewrite get_set_other; [|discriminate]); by apply get_set_same.
Qed.

Lemma set_vars_policy k purpose p tenant v :
  (3 <= k)%nat -> ChannelGetVariable (set_vars (take k (mark_writes purpose p tenant)) v) kEavesdropPolicyVar =
    Some (EavesdropPolicyName p).
Proof.
  intros Hk. destruct k as [|[|[|[|k]]]]; [lia..| |]; simpl; rewrite ?take_nil; simpl;
    repeat (rewrite get_set_other; [|discriminate]); apply get_set_same; by destruct p.
Qed.

Lemma set_vars_no_policy k purpose p tenant v :
  (k < 3)%nat -> ChannelGetVariable (set_vars (take k (mark_writes purpose p tenant)) v) kEavesdropPolicyVar =
    ChannelGetVariable v kEavesdropPolicyVar.
Proof.
  intros Hk. destruct k as [|[|[|k]]]; [..|lia]; simpl;
    repeat (rewrite get_set_other; [|discriminate]); done.
Qed.

(** C16. The configured eavesdrop policy is what supervisors get.  A
    configuration written as documented (a default policy and any overrides for
    tenants with plain names) is accepted, and a tenant's policy is its first
    override, denied by its gate, else the default.  Once a bot has marked a
    channel with that policy, and already from the write of the policy on, the
    [osw_eavesdrop] application lets a supervisor in exactly when the policy is
    not deny, and otherwise hangs the supervisor up; the detector hangs the
    target up exactly when the policy is deny; both leave the policy in the
    audit.  A channel marked for the first time is closed to supervisors, and
    the detector hangs up, from the first of the writes on, before the policy
    is written. *)
Theorem eavesdrop_enforced (d : EavesdropPolicy) (os : list TenantOverride)
    (tenant purpose uuid : string) (v : vars) :
  Forall (fun o => tenant_ok (to_tenant o)) os -> uuid <> ""%string ->
  let p := ResolveEffectivePolicy (EavesdropPolicyName d) (render_overrides os) tenant in
  let app channel := HandleOswEavesdropApp true (Some uuid) (Some (Some channel)) in
  let detect channel := OnMediaBugStart (Some (fun h =>
        if decide (h = "Unique-ID"%string) then Some uuid
        else if decide (h = "Media-Bug-Function"%string) then Some "eavesdrop"%string else None))
        (fun _ => Some (Some channel)) in
  IsKnownEavesdropPolicy (EavesdropPolicyName d) = true /\
  ValidateTenantEavesdropPolicies (render_overrides os) = None /\
  p = effective_policy d os tenant /\
  MarkBotSession purpose p tenant (Some v) = Some (set_vars (mark_writes purpose p tenant) v) /\
  (forall k, (3 <= k)%nat ->
     let channel := set_vars (take k (mark_writes purpose p tenant)) v in
     app channel = (if decide (p = kDeny)
                    then [EmitEavesdropAudit kDeny "1_pre_attach" "hangup"; HangupSupervisor]
                    else [EmitEavesdropAudit p "1_pre_attach" "permitted"; IvrEavesdropSession uuid]) /\
     detect channel = (if decide (p = kDeny)
                       then [EmitEavesdropAudit kDeny "2_post_attach_detection" "detected_hangup_target"; HangupTarget]
                       else [EmitEavesdropAudit p "2_post_attach_detection" "detected_only"])) /\
  (forall k, (1 <= k < 3)%nat -> ChannelGetVariable v kEavesdropPolicyVar = None ->
     let channel := set_vars (take k (mark_writes purpose p tenant)) v in
     HangupSupervisor ∈ app channel /\ (IvrEavesdropSession uuid ∉ app channel) /\
     HangupTarget ∈ detect channel).
Proof.
  intros Hos Huuid p app detect.
  assert (Happ : forall ch, IsTrue (ChannelGetVariable ch kBotSessionVar) = true ->
    app ch = (let q := marked_policy ch in
      EmitEavesdropAudit q "1_pre_attach" (if bool_decide (q = kDeny) then "hangup" else "permitted") ::
      if bool_decide (q = kDeny) then [HangupSupervisor] else [IvrEavesdropSession uuid])).
  { intros ch Hm. unfold app, HandleOswEavesdropApp. destruct uuid; [done|]. by rewrite Hm. }
  assert (Hdet : forall ch, IsTrue (ChannelGetVariable ch kBotSessionVar) = true ->
    detect ch = (let q := marked_policy ch in
      EmitEavesdropAudit q "2_post_attach_detection"
        (if bool_decide (q = kDeny) then "detected_hangup_target" else "detected_only") ::
      if bool_decide (q = kDeny) then [HangupTarget] else [])).
  { intros ch Hm. unfold detect, OnMediaBugStart. simpl. destruct uuid; [done|]. by rewrite Hm. }
  assert (Hbot : forall k, (1 <= k)%nat -> IsTrue (ChannelGetVariable
    (set_vars (take k (mark_writes purpose p tenant)) v) kBotSessionVar) = true).
  { intros k Hk. unfold IsTrue. rewrite set_vars_bot by done. done. }
  split; [by destruct d|]. split; [by apply ValidateTenantEavesdropPolicies_render|].
  split; [by apply ResolveEffectivePolicy_render|]. split; [done|]. split.
  - intros k Hk ch. rewrite (Happ ch), (Hdet ch) by (apply Hbot; lia).
    assert (marked_policy ch = p) as ->.
    { unfold marked_policy, ch. by rewrite set_vars_policy, ParseEavesdropPolicy_name. }
    cbv zeta. case_decide as E; [by rewrite E|]. by rewrite !bool_decide_false.
  - intros k Hk Hv ch. rewrite (Happ ch), (Hdet ch) by (apply Hbot; lia).
    assert (marked_policy ch = kDeny) as ->.
    { unfold marked_policy, ch. by rewrite set_vars_no_policy, Hv by lia. }
    simpl. set_solver.
Qed.
End Channels.

(** Channel variables as a map whose names ignore case; an empty value unsets. *)
Definition map_set (name value : string) (v : gmap string string) : gmap string string :=
  if string_empty value then delete (fold_case name) v else <[fold_case name := value]> v.
Definition map_get (v : gmap string string) (name : string) : option string := v !! fold_case name.

Definition demo_overrides : list TenantOverride :=
  [mkTenantOverride "acme" kAllow (Some false); mkTenantOverride "globex" kAudit None].

Lemma eavesdrop_enforced_witness :
  render_overrides demo_overrides = "acme:allow:deny;globex:audit"%string /\
  exists ch,
    MarkBotSession map_set "tts" (ResolveEffectivePolicy "allow" "acme:allow:deny;globex:audit" "acme")
      "acme" (Some ∅) = Some ch /\
    HandleOswEavesdropApp map_get true (Some "u1"%string) (Some (Some ch)) =
      [EmitEavesdropAudit kDeny "1_pre_attach" "hangup"; HangupSupervisor].
Proof.
  destruct (eavesdrop_enforced map_set map_get
    ltac:(intros v n value Hv; unfold map_set, map_get; destruct value; [done|]; apply lookup_insert_eq)
    ltac:(intros v n n' value Hn; unfold map_set, map_get; destruct value; simpl; [by apply lookup_delete_ne|by apply lookup_insert_ne])
    kAllow demo_overrides "acme" "tts" "u1" ∅
    ltac:(repeat first [apply Forall_nil_2 | apply Forall_cons_2]; split; done) ltac:(done))
    as (_ & _ & Hp & Hm & Hk & _).
  split; [reflexivity|]. eexists. split; [exact Hm|].
  destruct (Hk 4%nat ltac:(lia)) as [Happ _]. rewrite decide_True in Happ by exact Hp. exact Happ.
Defined.
