(* ===== verification/Config.v ===== *)
(** * Configuration

    [src/core/config.cc], [include/osw/core/config.h] and
    [src/core/config_fs.cc]: the record of settings with its defaults, the rules
    [Validate] checks in order, and the loader.  FreeSWITCH's XML reader is
    outside the repository: what it delivers for each row of the loader's table
    is an argument, as is what [std::regex] says of a pattern. *)

From S2P Require Import Prelude Eavesdrop.
From stdpp Require Import pretty.

#[local] Open Scope string_scope.
#[local] Open Scope Z_scope.

Record Config := mkConfig {
  grpc_listen_address : string;
  grpc_max_concurrent_streams : Z;
  grpc_drain_deadline_seconds : Z;
  grpc_tls_cert_path : string;
  grpc_tls_key_path : string;
  grpc_tls_ca_path : string;
  grpc_tls_require_client_cert : bool;
  event_ring_capacity_tier1 : Z;
  event_ring_capacity_tier2 : Z;
  event_ring_capacity_tier3 : Z;
  subscriber_send_queue_capacity : Z;
  max_subscribers : Z;
  idempotency_ttl_seconds : Z;
  idempotency_cache_capacity : Z;
  idempotency_in_flight_max_wait_seconds : Z;
  drain_timeout_seconds : Z;
  event_drain_timeout_seconds : Z;
  osw_panic_on_unhandled : bool;
  osw_install_signal_handlers : bool;
  pii_redaction_patterns : list string;
  tenant_allowed_contexts : string;
  eavesdrop_policy : string;
  tenant_eavesdrop_policies : string;
  log_level : string;
  metrics_enabled : bool;
  metrics_bind_address : string;
  metrics_port : Z;
  tts_jitter_buffer_ms : Z;
  tts_preroll_ms : Z;
  tts_high_water_ms : Z;
  tts_max_jitter_buffer_ms : Z;
  tts_underrun_policy : string;
  recording_send_ring_ms : Z;
  stereo_desync_warn_ms : Z;
  stereo_desync_timeout_ms : Z;
  recording_default_rate_hz : Z;
  warn_record_before_inject : bool;
  cfg_silence_driver_enabled : bool;
  cfg_max_silence_drivers : Z;
  bot_max_targets : Z;
  bot_target_queue_ms : Z;
  bot_drain_timeout_ms : Z;
  max_bots_per_channel : Z }.

(** [Config{}]. *)
Definition Config_default : Config := {|
  grpc_listen_address := "0.0.0.0:50061";
  grpc_max_concurrent_streams := 256;
  grpc_drain_deadline_seconds := 2;
  grpc_tls_cert_path := "";
  grpc_tls_key_path := "";
  grpc_tls_ca_path := "";
  grpc_tls_require_client_cert := false;
  event_ring_capacity_tier1 := 16384;
  event_ring_capacity_tier2 := 8192;
  event_ring_capacity_tier3 := 4096;
  subscriber_send_queue_capacity := 4096;
  max_subscribers := 16;
  idempotency_ttl_seconds := 300;
  idempotency_cache_capacity := 1500;
  idempotency_in_flight_max_wait_seconds := 30;
  drain_timeout_seconds := 30;
  event_drain_timeout_seconds := 5;
  osw_panic_on_unhandled := false;
  osw_install_signal_handlers := false;
  pii_redaction_patterns := [];
  tenant_allowed_contexts := "";
  eavesdrop_policy := "deny";
  tenant_eavesdrop_policies := "";
  log_level := "info";
  metrics_enabled := true;
  metrics_bind_address := "127.0.0.1";
  metrics_port := 9090;
  tts_jitter_buffer_ms := 1000;
  tts_preroll_ms := 200;
  tts_high_water_ms := 3000;
  tts_max_jitter_buffer_ms := 5000;
  tts_underrun_policy := "silence";
  recording_send_ring_ms := 500;
  stereo_desync_warn_ms := 5;
  stereo_desync_timeout_ms := 25;
  recording_default_rate_hz := 8000;
  warn_record_before_inject := true;
  cfg_silence_driver_enabled := true;
  cfg_max_silence_drivers := 200;
  bot_max_targets := 2;
  bot_target_queue_ms := 500;
  bot_drain_timeout_ms := 2000;
  max_bots_per_channel := 1 |}.

(** ** Validation *)

Section Validate.
(** [e.what()] for a pattern [std::regex] rejects. *)
Context (regex_error : string -> option string).

(** A check fails when its condition holds. *)
Abbreviation check := (bool * string)%type.

Definition listen_checks (cfg : Config) : list check :=
  [(string_empty (grpc_listen_address cfg), "grpc_listen_address must be set");
   (bool_decide (find_char ":" (grpc_listen_address cfg) = None),
    "grpc_listen_address must contain a ':' (e.g. 0.0.0.0:50061)")].

Definition tls_checks (cfg : Config) : list check :=
  [(negb (string_empty (grpc_tls_cert_path cfg)) && string_empty (grpc_tls_key_path cfg),
    "grpc_tls_cert_path set but grpc_tls_key_path is empty — both required for TLS");
   (string_empty (grpc_tls_key_path cfg) && negb (string_empty (grpc_tls_ca_path cfg)),
    "grpc_tls_ca_path set without grpc_tls_cert_path — mTLS requires server cert + key");
   (grpc_tls_require_client_cert cfg && string_empty (grpc_tls_cert_path cfg),
    "grpc_tls_require_client_cert=true but grpc_tls_cert_path is empty — mTLS requires server cert + key")].

Definition eavesdrop_checks (cfg : Config) : list check :=
  [(negb (IsKnownEavesdropPolicy (eavesdrop_policy cfg)), "eavesdrop_policy must be deny, audit, or allow");
   match ValidateTenantEavesdropPolicies (tenant_eavesdrop_policies cfg) with
   | Some error => (true, error)
   | None => (false, "")
   end].

Definition capacity_checks (cfg : Config) : list check :=
  [(event_ring_capacity_tier1 cfg <? 256, "event_ring_capacity_tier1 must be >= 256");
   (event_ring_capacity_tier2 cfg <? 256, "event_ring_capacity_tier2 must be >= 256");
   (event_ring_capacity_tier3 cfg <? 256, "event_ring_capacity_tier3 must be >= 256");
   (subscriber_send_queue_capacity cfg <? 64, "subscriber_send_queue_capacity must be >= 64");
   (max_subscribers cfg <? 1, "max_subscribers must be >= 1");
   (idempotency_ttl_seconds cfg =? 0, "idempotency_ttl_seconds must be > 0");
   (idempotency_cache_capacity cfg <? 16, "idempotency_cache_capacity must be >= 16");
   (idempotency_in_flight_max_wait_seconds cfg =? 0, "idempotency_in_flight_max_wait_seconds must be > 0");
   (drain_timeout_seconds cfg =? 0, "drain_timeout_seconds must be > 0");
   (grpc_drain_deadline_seconds cfg =? 0, "grpc_drain_deadline_seconds must be > 0")].

Definition kValidLevels : list string := ["trace"; "debug"; "info"; "warn"; "error"; "crit"].

Definition log_level_checks (cfg : Config) : list check :=
  [(negb (bool_decide (log_level cfg ∈ kValidLevels)),
    "log_level must be one of trace/debug/info/warn/error/crit; got: " +:+ log_level cfg)].

Definition regex_check (i : nat) (pattern : string) : check :=
  match regex_error pattern with
  | Some what => (true, "pii_redaction_patterns[" +:+ pretty i +:+ "] is not a valid regex: " +:+ what)%string
  | None => (false, ""%string)
  end.

Definition media_checks (cfg : Config) : list check :=
  let jitter := tts_jitter_buffer_ms cfg in
  let max_jitter := tts_max_jitter_buffer_ms cfg in
  let rate := recording_default_rate_hz cfg in
  [(max_jitter <? 200, "tts_max_jitter_buffer_ms must be >= 200");
   ((jitter <? 200) || (max_jitter <? jitter),
    "tts_jitter_buffer_ms must be in [200, tts_max_jitter_buffer_ms]");
   ((tts_preroll_ms cfg <? 50) || (jitter <? tts_preroll_ms cfg),
    "tts_preroll_ms must be in [50, tts_jitter_buffer_ms]");
   ((tts_high_water_ms cfg <? jitter) || (max_jitter <? tts_high_water_ms cfg),
    "tts_high_water_ms must be in [tts_jitter_buffer_ms, tts_max_jitter_buffer_ms]");
   ((recording_send_ring_ms cfg <? 50) || (5000 <? recording_send_ring_ms cfg),
    "recording_send_ring_ms must be in [50, 5000]");
   ((stereo_desync_timeout_ms cfg =? 0) || (100 <? stereo_desync_timeout_ms cfg),
    "stereo_desync_timeout_ms must be in [1, 100]");
   (stereo_desync_timeout_ms cfg <? stereo_desync_warn_ms cfg,
    "stereo_desync_warn_ms must be <= stereo_desync_timeout_ms");
   (negb (rate =? 8000) && negb (rate =? 16000) && negb (rate =? 24000) && negb (rate =? 48000),
    "recording_default_rate_hz must be one of 8000, 16000, 24000, 48000");
   ((cfg_max_silence_drivers cfg <? 1) || (5000 <? cfg_max_silence_drivers cfg),
    "max_silence_drivers must be in [1, 5000]");
   ((bot_max_targets cfg <? 1) || (8 <? bot_max_targets cfg), "bot_max_targets must be in [1, 8]");
   ((bot_target_queue_ms cfg <? 50) || (5000 <? bot_target_queue_ms cfg),
    "bot_target_queue_ms must be in [50, 5000]");
   ((bot_drain_timeout_ms cfg <? 100) || (10000 <? bot_drain_timeout_ms cfg),
    "bot_drain_timeout_ms must be in [100, 10000]");
   ((max_bots_per_channel cfg <? 1) || (4 <? max_bots_per_channel cfg),
    "max_bots_per_channel must be in [1, 4]")].

(** The checks in the order of the function body. *)
Definition all_checks (cfg : Config) : list check :=
  listen_checks cfg ++ tls_checks cfg ++ eavesdrop_checks cfg ++ capacity_checks cfg ++
  log_level_checks cfg ++ imap regex_check (pii_redaction_patterns cfg) ++ media_checks cfg.

Fixpoint first_failure (cs : list check) : option string :=
  match cs with
  | [] => None
  | (failed, msg) :: cs => if failed : bool then Some msg else first_failure cs
  end.

(** [None] is [ConfigValidation::Ok()], else the message of [Fail]. *)
Definition Validate (cfg : Config) : option string := first_failure (all_checks cfg).
End Validate.

(** ** Loading *)

(** [SplitPipeList]: the loop from position [start]. *)
Fixpoint split_pipe_loop (fuel : nat) (rest : string) : list string :=
  match fuel with
  | O => []
  | S fuel =>
      match find_char "|" rest with
      | None => if string_empty rest then [] else [rest]
      | Some i =>
          let chunk := string_take i rest in
          (if string_empty chunk then [] else [chunk]) ++ split_pipe_loop fuel (string_skip (S i) rest)
      end
  end.

Definition SplitPipeList (src : string) : list string :=
  if string_empty src then [] else split_pipe_loop (S (String.length src)) src.

(** A row of the table of [switch_xml_config_item_t]: an integer with its
    default and enforced minimum, a boolean with its default, or a string, set
    by [StringCallback], with its default. *)
Inductive ConfigItem :=
| IntItem (key : string) (dflt min : Z)
| BoolItem (key : string) (dflt : bool)
| StringItem (key dflt : string).

Definition item_key (item : ConfigItem) : string :=
  match item with IntItem key _ _ | BoolItem key _ | StringItem key _ => key end.

Definition server_items : list ConfigItem :=
  [StringItem "grpc_listen_address" "0.0.0.0:50061";
   IntItem "grpc_max_concurrent_streams" 256 1;
   IntItem "grpc_drain_deadline_seconds" 2 1;
   StringItem "grpc_tls_cert_path" "";
   StringItem "grpc_tls_key_path" "";
   StringItem "grpc_tls_ca_path" "";
   BoolItem "grpc_tls_require_client_cert" false].

Definition plane_items : list ConfigItem :=
  [IntItem "event_ring_capacity_tier1" 16384 256;
   IntItem "event_ring_capacity_tier2" 8192 256;
   IntItem "event_ring_capacity_tier3" 4096 256;
   IntItem "subscriber_send_queue_capacity" 4096 64;
   IntItem "max_subscribers" 16 1;
   IntItem "idempotency_ttl_seconds" 300 1;
   IntItem "idempotency_cache_capacity" 1500 16;
   IntItem "idempotency_in_flight_max_wait_seconds" 30 1;
   IntItem "drain_timeout_seconds" 30 1;
   IntItem "event_drain_timeout_seconds" 5 1].

Definition policy_items : list ConfigItem :=
  [BoolItem "osw_panic_on_unhandled" false;
   BoolItem "osw_install_signal_handlers" false;
   StringItem "log_level" "info";
   StringItem "pii_redaction_patterns" "";
   StringItem "tenant_allowed_contexts" "";
   StringItem "eavesdrop_policy" "deny";
   StringItem "tenant_eavesdrop_policies" ""].

Definition media_items : list ConfigItem :=
  [IntItem "tts_jitter_buffer_ms" 1000 200;
   IntItem "tts_preroll_ms" 200 50;
   IntItem "tts_high_water_ms" 3000 200;
   IntItem "tts_max_jitter_buffer_ms" 5000 200;
   StringItem "tts_underrun_policy" "silence";
   IntItem "recording_send_ring_ms" 500 50;
   IntItem "stereo_desync_warn_ms" 5 1;
   IntItem "stereo_desync_timeout_ms" 25 1;
   IntItem "recording_default_rate_hz" 8000 1;
   BoolItem "warn_record_before_inject" true;
   BoolItem "silence_driver_enabled" true;
   IntItem "max_silence_drivers" 200 1;
   IntItem "bot_max_targets" 2 1;
   IntItem "bot_target_queue_ms" 500 50;
   IntItem "bot_drain_timeout_ms" 2000 1;
   IntItem "max_bots_per_channel" 1 1].

Definition instructions : list ConfigItem := server_items ++ plane_items ++ policy_items ++ media_items.

Definition find_item (key : string) : option ConfigItem :=
  List.find (fun item => String.eqb (item_key item) key) instructions.

(** What [switch_xml_config_parse_module_settings] delivers: for an integer row
    with its default and its enforced minimum, for a boolean row with its
    default, and for a callback row the value, if the file has one. *)
Record XmlSettings := mkXmlSettings {
  xml_int : string -> Z -> Z -> Z;
  xml_bool : string -> bool -> bool;
  xml_string : string -> option string }.

(** The destinations of the rows after the parse. *)
Definition parsed_int (x : XmlSettings) (item : option ConfigItem) : Z :=
  match item with Some (IntItem key dflt min) => xml_int x key dflt min | _ => 0 end.

Definition parsed_bool (x : XmlSettings) (item : option ConfigItem) : bool :=
  match item with Some (BoolItem key dflt) => xml_bool x key dflt | _ => false end.

(** [StringCallback]. *)
Definition StringCallback (x : XmlSettings) (item : option ConfigItem) : string :=
  match item with
  | Some (StringItem key dflt) =>
      match xml_string x key with Some newvalue => newvalue | None => dflt end
  | _ => ""
  end.

(** [None]: the file could not be parsed. *)
Definition LoadConfigFromFile (xml : option XmlSettings) : bool * Config :=
  match xml with
  | None => (false, Config_default)
  | Some x =>
      let int key := u32 (parsed_int x (find_item key)) in
      let flag key := parsed_bool x (find_item key) in
      let str key := StringCallback x (find_item key) in
      (true, {|
        grpc_listen_address := str "grpc_listen_address";
        grpc_max_concurrent_streams := int "grpc_max_concurrent_streams";
        grpc_drain_deadline_seconds := int "grpc_drain_deadline_seconds";
        grpc_tls_cert_path := str "grpc_tls_cert_path";
        grpc_tls_key_path := str "grpc_tls_key_path";
        grpc_tls_ca_path := str "grpc_tls_ca_path";
        grpc_tls_require_client_cert := flag "grpc_tls_require_client_cert";
        event_ring_capacity_tier1 := int "event_ring_capacity_tier1";
        event_ring_capacity_tier2 := int "event_ring_capacity_tier2";
        event_ring_capacity_tier3 := int "event_ring_capacity_tier3";
        subscriber_send_queue_capacity := int "subscriber_send_queue_capacity";
        max_subscribers := int "max_subscribers";
        idempotency_ttl_seconds := int "idempotency_ttl_seconds";
        idempotency_cache_capacity := int "idempotency_cache_capacity";
        idempotency_in_flight_max_wait_seconds := int "idempotency_in_flight_max_wait_seconds";
        drain_timeout_seconds := int "drain_timeout_seconds";
        event_drain_timeout_seconds := int "event_drain_timeout_seconds";
        osw_panic_on_unhandled := flag "osw_panic_on_unhandled";
        osw_install_signal_handlers := flag "osw_install_signal_handlers";
        pii_redaction_patterns := SplitPipeList (str "pii_redaction_patterns");
        tenant_allowed_contexts := str "tenant_allowed_contexts";
        eavesdrop_policy := str "eavesdrop_policy";
        tenant_eavesdrop_policies := str "tenant_eavesdrop_policies";
        log_level := str "log_level";
        metrics_enabled := metrics_enabled Config_default;
        metrics_bind_address := metrics_bind_address Config_default;
        metrics_port := metrics_port Config_default;
        tts_jitter_buffer_ms := int "tts_jitter_buffer_ms";
        tts_preroll_ms := int "tts_preroll_ms";
        tts_high_water_ms := int "tts_high_water_ms";
        tts_max_jitter_buffer_ms := int "tts_max_jitter_buffer_ms";
        tts_underrun_policy := str "tts_underrun_policy";
        recording_send_ring_ms := int "recording_send_ring_ms";
        stereo_desync_warn_ms := int "stereo_desync_warn_ms";
        stereo_desync_timeout_ms := int "stereo_desync_timeout_ms";
        recording_default_rate_hz := int "recording_default_rate_hz";
        warn_record_before_inject := flag "warn_record_before_inject";
        cfg_silence_driver_enabled := flag "silence_driver_enabled";
        cfg_max_silence_drivers := int "max_silence_drivers";
        bot_max_targets := int "bot_max_targets";
        bot_target_queue_ms := int "bot_target_queue_ms";
        bot_drain_timeout_ms := int "bot_drain_timeout_ms";
        max_bots_per_channel := int "max_bots_per_channel" |})
  end.

(** ** Lemmas *)

Lemma first_failure_none cs : first_failure cs = None <-> Forall (fun c => c.1 = false) cs.
Proof.
  induction cs as [|[b msg] cs IH]; simpl; [done|]. rewrite Forall_cons. simpl.
  destruct b; [naive_solver|]. rewrite IH. naive_solver.
Qed.

(** What a validated configuration guarantees of its numbers, which are unsigned:
    not 0 is at least 1. *)
Record ConfigBounds (cfg : Config) : Prop := mkConfigBounds {
  cb_rings : 256 <= event_ring_capacity_tier1 cfg /\ 256 <= event_ring_capacity_tier2 cfg /\
    256 <= event_ring_capacity_tier3 cfg;
  cb_subscribers : 64 <= subscriber_send_queue_capacity cfg /\ 1 <= max_subscribers cfg;
  cb_idempotency : 16 <= idempotency_cache_capacity cfg /\ idempotency_ttl_seconds cfg <> 0 /\
    idempotency_in_flight_max_wait_seconds cfg <> 0;
  cb_drain : drain_timeout_seconds cfg <> 0 /\ grpc_drain_deadline_seconds cfg <> 0;
  cb_jitter : 200 <= tts_jitter_buffer_ms cfg <= tts_max_jitter_buffer_ms cfg;
  cb_preroll : 50 <= tts_preroll_ms cfg <= tts_jitter_buffer_ms cfg;
  cb_high_water : tts_jitter_buffer_ms cfg <= tts_high_water_ms cfg <= tts_max_jitter_buffer_ms cfg;
  cb_recording : 50 <= recording_send_ring_ms cfg <= 5000;
  cb_stereo : stereo_desync_timeout_ms cfg <> 0 /\
    stereo_desync_warn_ms cfg <= stereo_desync_timeout_ms cfg <= 100;
  cb_rate : recording_default_rate_hz cfg ∈ [8000; 16000; 24000; 48000];
  cb_drivers : 1 <= cfg_max_silence_drivers cfg <= 5000;
  cb_bots : 1 <= bot_max_targets cfg <= 8 /\ 50 <= bot_target_queue_ms cfg <= 5000 /\
    100 <= bot_drain_timeout_ms cfg <= 10000 /\ 1 <= max_bots_per_channel cfg <= 4 }.

(** ... and of the rest. *)
Record ConfigCoherent (regex_error : string -> option string) (cfg : Config) : Prop := mkConfigCoherent {
  cc_address : grpc_listen_address cfg <> "" /\ find_char ":" (grpc_listen_address cfg) <> None;
  cc_key : grpc_tls_cert_path cfg <> "" -> grpc_tls_key_path cfg <> "";
  cc_ca : grpc_tls_ca_path cfg <> "" -> grpc_tls_key_path cfg <> "";
  cc_client_cert : grpc_tls_require_client_cert cfg = true -> grpc_tls_cert_path cfg <> "";
  cc_eavesdrop : IsKnownEavesdropPolicy (eavesdrop_policy cfg) = true /\
    ValidateTenantEavesdropPolicies (tenant_eavesdrop_policies cfg) = None;
  cc_log_level : log_level cfg ∈ ["trace"; "debug"; "info"; "warn"; "error"; "crit"];
  cc_patterns : Forall (fun p => regex_error p = None) (pii_redaction_patterns cfg) }.

Lemma capacity_checks_pass cfg :
  Forall (fun c => c.1 = false) (capacity_checks cfg) <->
  (256 <= event_ring_capacity_tier1 cfg /\ 256 <= event_ring_capacity_tier2 cfg /\
    256 <= event_ring_capacity_tier3 cfg) /\
  (64 <= subscriber_send_queue_capacity cfg /\ 1 <= max_subscribers cfg) /\
  (16 <= idempotency_cache_capacity cfg /\ idempotency_ttl_seconds cfg <> 0 /\
    idempotency_in_flight_max_wait_seconds cfg <> 0) /\
  (drain_timeout_seconds cfg <> 0 /\ grpc_drain_deadline_seconds cfg <> 0).
Proof.
  unfold capacity_checks. repeat rewrite Forall_cons. rewrite Forall_nil. cbn [fst].
  rewrite !Z.ltb_ge, !Z.eqb_neq. tauto.
Qed.

Lemma rate_check rate :
  negb (rate =? 8000) && negb (rate =? 16000) && negb (rate =? 24000) && negb (rate =? 48000) = false <->
  rate ∈ [8000; 16000; 24000; 48000].
Proof.
  rewrite !elem_of_cons, elem_of_nil.
  destruct (Z.eqb_spec rate 8000), (Z.eqb_spec rate 16000), (Z.eqb_spec rate 24000), (Z.eqb_spec rate 48000);
    cbn [negb andb]; intuition congruence.
Qed.

Lemma media_checks_pass cfg :
  Forall (fun c => c.1 = false) (media_checks cfg) <->
  200 <= tts_jitter_buffer_ms cfg <= tts_max_jitter_buffer_ms cfg /\
  50 <= tts_preroll_ms cfg <= tts_jitter_buffer_ms cfg /\
  tts_jitter_buffer_ms cfg <= tts_high_water_ms cfg <= tts_max_jitter_buffer_ms cfg /\
  50 <= recording_send_ring_ms cfg <= 5000 /\
  (stereo_desync_timeout_ms cfg <> 0 /\ stereo_desync_warn_ms cfg <= stereo_desync_timeout_ms cfg <= 100) /\
  recording_default_rate_hz cfg ∈ [8000; 16000; 24000; 48000] /\ 1 <= cfg_max_silence_drivers cfg <= 5000 /\
  (1 <= bot_max_targets cfg <= 8 /\ 50 <= bot_target_queue_ms cfg <= 5000 /\
    100 <= bot_drain_timeout_ms cfg <= 10000 /\ 1 <= max_bots_per_channel cfg <= 4).
Proof.
  unfold media_checks. repeat rewrite Forall_cons. rewrite Forall_nil. cbn [fst].
  rewrite rate_check, !orb_false_iff, !Z.ltb_ge, !Z.eqb_neq. split; intros; destruct_and?; split_and?; try done; lia.
Qed.

Lemma listen_checks_pass cfg :
  Forall (fun c => c.1 = false) (listen_checks cfg) <->
  grpc_listen_address cfg <> "" /\ find_char ":" (grpc_listen_address cfg) <> None.
Proof.
  unfold listen_checks. repeat rewrite Forall_cons. rewrite Forall_nil. cbn [fst]. rewrite bool_decide_eq_false.
  destruct (grpc_listen_address cfg); cbn [string_empty]; intuition congruence.
Qed.

Lemma tls_checks_pass cfg :
  Forall (fun c => c.1 = false) (tls_checks cfg) <->
  (grpc_tls_cert_path cfg <> "" -> grpc_tls_key_path cfg <> "") /\
  (grpc_tls_ca_path cfg <> "" -> grpc_tls_key_path cfg <> "") /\
  (grpc_tls_require_client_cert cfg = true -> grpc_tls_cert_path cfg <> "").
Proof.
  unfold tls_checks. repeat rewrite Forall_cons. rewrite Forall_nil. cbn [fst].
  destruct (grpc_tls_cert_path cfg), (grpc_tls_key_path cfg), (grpc_tls_ca_path cfg), (grpc_tls_require_client_cert cfg);
    cbn; intuition congruence.
Qed.

Lemma eavesdrop_checks_pass cfg :
  Forall (fun c => c.1 = false) (eavesdrop_checks cfg) <->
  IsKnownEavesdropPolicy (eavesdrop_policy cfg) = true /\
  ValidateTenantEavesdropPolicies (tenant_eavesdrop_policies cfg) = None.
Proof.
  unfold eavesdrop_checks. repeat rewrite Forall_cons. rewrite Forall_nil. cbn [fst]. rewrite negb_false_iff.
  destruct (ValidateTenantEavesdropPolicies _); cbn; intuition congruence.
Qed.

Lemma log_level_checks_pass cfg :
  Forall (fun c => c.1 = false) (log_level_checks cfg) <-> log_level cfg ∈ kValidLevels.
Proof.
  unfold log_level_checks. rewrite Forall_cons, Forall_nil. cbn [fst].
  rewrite negb_false_iff, bool_decide_eq_true. tauto.
Qed.

Lemma regex_checks_pass regex_error ps :
  Forall (fun c : bool * string => c.1 = false) (imap (regex_check regex_error) ps) <->
  Forall (fun p => regex_error p = None) ps.
Proof.
  rewrite !Forall_lookup. setoid_rewrite list_lookup_imap. unfold regex_check. split.
  - intros H i p Hp. specialize (H i _ ltac:(by rewrite Hp)). cbn in H. by destruct (regex_error p).
  - intros H i c Hc. destruct (ps !! i) as [p|] eqn:Hp; [|done]. cbn in Hc. rewrite (H i p Hp) in Hc. by simplify_eq.
Qed.

(** [Validate] checks these rules, and no other. *)
Lemma Validate_valid regex_error cfg :
  Validate regex_error cfg = None <-> ConfigBounds cfg /\ ConfigCoherent regex_error cfg.
Proof.
  unfold Validate, all_checks. rewrite first_failure_none, !Forall_app, listen_checks_pass, tls_checks_pass,
    eavesdrop_checks_pass, capacity_checks_pass, log_level_checks_pass, regex_checks_pass, media_checks_pass.
  split.
  - intros; destruct_and?; by split.
  - intros [[] []]. by destruct_and!; split_and!.
Qed.

Lemma Validate_bounds regex_error cfg : Validate regex_error cfg = None -> ConfigBounds cfg.
Proof. intros H. by apply Validate_valid in H as [H _]. Qed.

Lemma split_pipe_loop_chunks fuel s :
  (String.length s < fuel)%nat ->
  split_pipe_loop fuel s = filter (fun c => string_empty c = false) (split_on "|" s).
Proof.
  revert s. induction fuel as [|fuel IH]; intros s Hf; [lia|]. cbn [split_pipe_loop].
  destruct (find_char "|" s) as [i|] eqn:E.
  - destruct (find_char_split _ _ _ E) as (_ & -> & Hlt).
    rewrite IH by (rewrite string_skip_length; lia). rewrite filter_cons.
    destruct (string_empty (string_take i s)); [rewrite decide_False by done|rewrite decide_True by done]; done.
  - rewrite (find_char_none_split _ _ E), filter_cons, filter_nil.
    destruct (string_empty s); [rewrite decide_False by done|rewrite decide_True by done]; done.
Qed.

Lemma SplitPipeList_chunks s :
  SplitPipeList s = filter (fun c => string_empty c = false) (split_on "|" s).
Proof.
  unfold SplitPipeList. destruct (string_empty s) eqn:E; [apply string_empty_spec in E as ->; done|].
  apply split_pipe_loop_chunks. lia.
Qed.

Lemma SplitPipeList_join ps :
  ps <> [] -> Forall (fun p => p <> "" /\ string_all (is_not "|") p = true) ps ->
  SplitPipeList (string_join "|" ps) = ps.
Proof.
  intros Hne Hps. rewrite SplitPipeList_chunks, split_on_join; [|by eapply Forall_impl; [exact Hps|naive_solver]|done].
  apply filter_all_true. eapply Forall_impl; [exact Hps|]. intros p [Hp _]. simpl.
  destruct (string_empty p) eqn:E; [|done]. by apply string_empty_spec in E.
Qed.

(** ** Properties *)


(** A file that sets two patterns and a ring capacity below the minimum, for
    which FreeSWITCH takes the default. *)
Definition demo_xml : XmlSettings := mkXmlSettings (fun _ d _ => d) (fun _ d => d)
  (fun key => if decide (key = "pii_redaction_patterns") then Some "ab|cd" else None).

