(* ===== verification/TtsStart.v ===== *)
(** * From the configuration to a playing stream

    The helpers of [src/control/handlers/start_tts_handler.cc] (copied in
    [start_voicebot_handler.cc]) that turn a validated configuration and a
    request's overrides into the configuration of a playout buffer, and what
    that buffer then does: whether playback starts at all depends on the pre-roll
    and the high-water mark together. *)

From S2P Require Import Prelude BoundedQueue AudioFrame TtsPlayout Config.

(** [std::clamp]: undefined when the bounds are crossed. *)
Definition clamp (v lo hi : Z) : option Z :=
  if hi <? lo then None else Some (if v <? lo then lo else if hi <? v then hi else v).

(** [TtsBufferOverride]; 0 is an unset field. *)
Record TtsBufferOverride := mkTtsBufferOverride { ov_jitter_buffer_ms : Z; ov_preroll_ms : Z }.

Definition ResolveBufferMs (ov : TtsBufferOverride) (cfg : Config) : option Z :=
  if ov_jitter_buffer_ms ov =? 0 then Some (tts_jitter_buffer_ms cfg)
  else clamp (ov_jitter_buffer_ms ov) 200 (tts_max_jitter_buffer_ms cfg).

Definition ResolvePrerollMs (ov : TtsBufferOverride) (cfg : Config) (jitter_ms : Z) : option Z :=
  if ov_preroll_ms ov =? 0 then Some (Z.min (tts_preroll_ms cfg) jitter_ms)
  else clamp (ov_preroll_ms ov) 50 jitter_ms.

Definition ParseUnderrunPolicy (s : string) : UnderrunPolicy :=
  if String.eqb s "repeat_last" then kRepeatLast else kSilence.

(** The buffer configuration of [HandleStartTts] and [HandleStartVoicebot]. *)
Definition playout_config (ov : TtsBufferOverride) (cfg : Config) : option TtsConfig :=
  jitter_ms ← ResolveBufferMs ov cfg;
  preroll_ms ← ResolvePrerollMs ov cfg jitter_ms;
  Some (mkTtsConfig preroll_ms (Z.max (tts_high_water_ms cfg) jitter_ms)
          (ParseUnderrunPolicy (tts_underrun_policy cfg))).

Lemma playout_config_bounds ov cfg :
  ConfigBounds cfg -> exists bc, playout_config ov cfg = Some bc /\
    50 <= preroll_ms bc <= high_water_ms bc /\ high_water_ms bc <= tts_max_jitter_buffer_ms cfg.
Proof.
  intros Hb. pose proof (cb_jitter _ Hb). pose proof (cb_preroll _ Hb). pose proof (cb_high_water _ Hb).
  unfold playout_config, ResolveBufferMs, ResolvePrerollMs, clamp.
  repeat (case_test || simpl || lia); eexists; (split; [done|]); simpl; lia.
Qed.

(** ** Buffers of frames of one duration *)

Definition frame_ms (f : AudioFrame) : Z :=
  DurationMsForSamples (usamples f) (sample_rate_hz_ f) (channels_ f).

(** Pushes, each with its time. *)
Definition pushes (fs : list (AudioFrame * Z)) : list tts_op := (fun f => OpPush f.1 f.2) <$> fs.

Section Uniform.
Context (d hw : Z).
Context (Hd : 0 < d < 2 ^ 31) (Hhw : 0 <= hw < 2 ^ 31).

(** The most frames that stay queued. *)
Definition queue_limit : nat := Nat.max 1 (Z.to_nat (hw / d)).

Definition uniform (q : list AudioFrame) : Prop :=
  Forall (fun f => frame_ms f = d /\ sample_count f <> 0) q /\ (length q <= queue_limit)%nat.

Lemma queue_limit_bound n : (n <= S queue_limit)%nat -> Z.of_nat n * d < 2 ^ 33.
Proof.
  unfold queue_limit. intros Hn. pose proof (Z.mul_div_le hw d ltac:(lia)).
  pose proof (Z.div_pos hw d ltac:(lia) ltac:(lia)). nia.
Qed.

Lemma RecomputeDepth_uniform q :
  Forall (fun f => frame_ms f = d /\ sample_count f <> 0) q -> (length q <= S queue_limit)%nat ->
  RecomputeDepth q 0 = Z.min (zlen q * d) UINT32_MAX.
Proof.
  intros Hq Hlen. pose proof (queue_limit_bound _ Hlen).
  unfold RecomputeDepth. f_equal. destruct q as [|f q]; [done|].
  apply Forall_cons in Hq as [[Hf _] Hq]. unfold frame_ms in Hf. rewrite Nat.sub_0_r, Hf.
  cbn [length] in *. rewrite Z.add_0_l, u64_small by lia.
  assert (forall t, 0 <= t -> t + zlen q * d < 2 ^ 64 ->
    foldl (fun t g => t +u64 DurationMsForSamples (usamples g) (sample_rate_hz_ g) (channels_ g)) t q = t + zlen q * d) as Hfold.
  { clear - Hq Hd. induction Hq as [|g q [Hg _] _ IH]; intros t Ht Hb; cbn [foldl length] in *; [lia|].
    unfold frame_ms in Hg. rewrite Hg, u64_small by lia. rewrite IH by lia. lia. }
  rewrite Hfold by lia. lia.
Qed.

(** What is dropped is dropped from the front. *)
Lemma high_water_loop_suffix limit q : forall offset depth q2 o2 d2 n,
  high_water_loop limit q offset depth = (q2, o2, d2, n) -> exists k, q2 = drop k q.
Proof.
  induction q as [|f [|g q] IH]; intros offset depth q2 o2 d2 n; [intros [= <- _ _ _]; by exists 0%nat..|].
  rewrite high_water_loop_cons. destruct (limit <? depth); [|intros [= <- _ _ _]; by exists 0%nat].
  destruct (high_water_loop limit (g :: q) 0 _) as [[[q3 o3] d3] m] eqn:E. intros [= <- _ _ _].
  destruct (IH _ _ _ _ _ _ E) as [k ->]. by exists (S k).
Qed.

(** Dropping stops at the limit. *)
Lemma high_water_loop_uniform q :
  Forall (fun f => frame_ms f = d /\ sample_count f <> 0) q -> (length q <= S queue_limit)%nat ->
  exists q2 n, high_water_loop hw q 0 (RecomputeDepth q 0) = (q2, 0%nat, RecomputeDepth q2 0, n) /\
    Forall (fun f => frame_ms f = d /\ sample_count f <> 0) q2 /\ length q2 = Nat.min (length q) queue_limit.
Proof.
  intros Hq Hlen. assert (Hdiv : d * (hw / d) <= hw < d * (hw / d) + d).
  { pose proof (Z.mul_div_le hw d ltac:(lia)). pose proof (Z.mul_succ_div_gt hw d ltac:(lia)). lia. }
  assert (Hpos : 0 <= hw / d) by (apply Z.div_pos; lia).
  assert (Hstay : forall p, Forall (fun f => frame_ms f = d /\ sample_count f <> 0) p ->
    (length p <= queue_limit)%nat -> exists q2 n,
    high_water_loop hw p 0 (RecomputeDepth p 0) = (q2, 0%nat, RecomputeDepth q2 0, n) /\
    Forall (fun f => frame_ms f = d /\ sample_count f <> 0) q2 /\ length q2 = length p).
  { intros p Hp Hl. destruct p as [|f [|g p]].
    - exists [], 0. done.
    - exists [f], 0. done.
    - exists (f :: g :: p), 0. split; [|done]. apply high_water_loop_below.
      rewrite RecomputeDepth_uniform by (done || lia). unfold queue_limit in Hl. cbn [length] in Hl |- *. nia. }
  destruct (decide (length q <= queue_limit)%nat) as [Hl|Hl].
  { destruct (Hstay q Hq Hl) as (q2 & n & E & Hu & Hlen2). exists q2, n. split; [done|]. split; [done|]. lia. }
  assert (length q = S queue_limit) as El by lia. unfold queue_limit in El.
  destruct q as [|f [|g q]]; [done|cbn in El; lia|]. rewrite high_water_loop_cons.
  rewrite RecomputeDepth_uniform by done. assert ((hw <? Z.min (zlen (f :: g :: q) * d) UINT32_MAX) = true) as ->.
  { apply Z.ltb_lt. unfold UINT32_MAX. cbn [length] in El |- *. nia. }
  destruct (Hstay (g :: q)) as (q2 & n & E & Hu & Hlen2).
  { by apply Forall_cons in Hq as [_ Hq]. }
  { unfold queue_limit. cbn [length] in El |- *. lia. }
  rewrite E. exists q2, (1 + n). split; [done|]. split; [done|]. unfold queue_limit in *. cbn [length] in *. lia.
Qed.

Lemma Push_uniform frame now b :
  u32 (high_water_ms (tts_cfg b)) = hw -> uniform (tts_queue b) -> front_offset_samples_ b = 0%nat ->
  frame_ms frame = d -> sample_count frame <> 0 ->
  let b' := (Push frame now b).2 in
  tts_cfg b' = tts_cfg b /\ uniform (tts_queue b') /\ front_offset_samples_ b' = 0%nat /\
  (exists k, tts_queue b' = drop k (tts_queue b ++ [frame])) /\
  length (tts_queue b') = Nat.min (S (length (tts_queue b))) queue_limit /\
  preroll_reached_ b' = preroll_reached_ b ||
    (u32 (preroll_ms (tts_cfg b)) <=? Z.min (zlen (tts_queue b') * d) UINT32_MAX).
Proof.
  intros Ehw [Hu Hl] Ho Hf Hs b'. unfold b', Push.
  destruct (Z.eqb_spec (sample_count frame) 0) as [|_]; [done|]. rewrite Ehw, Ho.
  destruct (high_water_loop_uniform (tts_queue b ++ [frame])) as (q2 & n & E & Hu2 & Hl2).
  { apply Forall_app. split; [done|]. by repeat constructor. }
  { rewrite length_app. simpl. lia. }
  rewrite E. destruct (rate_limit now (overrun_limit b)) as [[? ?] ?].
  cbn [snd tts_cfg tts_queue front_offset_samples_ preroll_reached_].
  rewrite length_app in Hl2. cbn [length] in Hl2. split; [done|]. split; [split; [done|lia]|].
  split; [done|]. split; [by eapply high_water_loop_suffix|]. split; [lia|]. by rewrite RecomputeDepth_uniform by (done || lia).
Qed.

(** The newest frames that may stay queued. *)
Definition kept (fs : list AudioFrame) : list AudioFrame := drop (length fs - queue_limit) fs.

Lemma kept_suffix (q fs : list AudioFrame) k :
  q = drop k fs -> length q = Nat.min (length fs) queue_limit -> q = kept fs.
Proof.
  intros -> Hl. unfold kept. rewrite length_drop in Hl. unfold queue_limit in *.
  destruct (decide (k <= length fs)%nat); [f_equal; lia|]. rewrite !drop_ge; [done|lia..].
Qed.

(** After [fs], the queue holds the newest frames that fit, and the pre-roll has
    been reached if it ever fits. *)
Lemma pushes_uniform fs : forall b,
  u32 (high_water_ms (tts_cfg b)) = hw -> uniform (tts_queue b) -> front_offset_samples_ b = 0%nat ->
  preroll_reached_ b = (u32 (preroll_ms (tts_cfg b)) <=? Z.min (zlen (tts_queue b) * d) UINT32_MAX) ->
  Forall (fun f => frame_ms f.1 = d /\ sample_count f.1 <> 0) fs ->
  let b' := (tts_run (pushes fs) b).2 in
  front_offset_samples_ b' = 0%nat /\ (exists k, tts_queue b' = drop k (tts_queue b ++ fs.*1)) /\
  length (tts_queue b') = Nat.min (length (tts_queue b) + length fs) queue_limit /\
  preroll_reached_ b' = (u32 (preroll_ms (tts_cfg b)) <=? Z.min (zlen (tts_queue b') * d) UINT32_MAX).
Proof.
  induction fs as [|[f now] fs IH]; intros b Ehw Hu Ho Hp Hfs; cbn [pushes fmap list_fmap tts_run tts_step].
  { simpl. rewrite app_nil_r. split; [done|]. split; [by exists 0%nat|]. split; [destruct Hu; lia|done]. }
  apply Forall_cons in Hfs as [[Hf Hs] Hfs]. cbn [fst] in Hf, Hs.
  destruct (Push_uniform f now b Ehw Hu Ho Hf Hs) as (E1 & Hu1 & Ho1 & [k Hk] & Hl1 & Hp1).
  fold (pushes fs). cbn [fst snd]. destruct (tts_run (pushes fs) (Push f now b).2) as [rs b2] eqn:E2.
  specialize (IH (Push f now b).2). rewrite E2, E1 in IH. cbn [snd] in IH |- *.
  destruct IH as (IHo & [k2 IHk] & IHl & IHp); [done|done|done| |done|].
  - rewrite Hp1, Hp. rewrite Hl1. destruct Hu as [_ Hu]. b2p.
    destruct (Z.leb_spec (u32 (preroll_ms (tts_cfg b))) (Z.min (zlen (tts_queue b) * d) UINT32_MAX)); cbn [orb]; [|done].
    symmetry. apply Z.leb_le. unfold UINT32_MAX in *.
    assert (zlen (tts_queue b) * d <= Z.of_nat (Nat.min (S (length (tts_queue b))) queue_limit) * d)
      by (apply Z.mul_le_mono_nonneg_r; lia). lia.
  - split; [done|]. split; [|split; [|done]]; cycle 1.
    { rewrite IHl, Hl1. cbn [length]. lia. }
    destruct (decide (k <= length (tts_queue b ++ [f]))%nat) as [Hkl|Hkl].
    + exists (k + k2)%nat. cbn [fmap list_fmap fst]. change (f :: fs.*1) with ([f] ++ fs.*1).
      by rewrite IHk, Hk, app_assoc, <- drop_app_le, drop_drop by done.
    + exfalso. rewrite Hk, length_drop in Hl1. unfold queue_limit in Hl1. lia.
Qed.

Lemma pushes_unended fs : forall b, eos_ (tts_run (pushes fs) b).2 = eos_ b.
Proof.
  induction fs as [|[f now] fs IH]; intros b; cbn [pushes fmap list_fmap tts_run tts_step]; [done|].
  fold (pushes fs). cbn [fst snd]. specialize (IH (Push f now b).2). destruct (tts_run (pushes fs) _) as [rs b2]. cbn in *.
  rewrite IH. apply Push_flags.
Qed.

(** The buffer of a stream that took frames of [d] ms. *)
Lemma playout_of_pushes bc fs :
  high_water_ms bc = hw -> 0 < preroll_ms bc -> preroll_ms bc <= hw ->
  Forall (fun f => frame_ms f.1 = d /\ tts_frame_ok f.1) fs ->
  let b := (tts_run (pushes fs) (TtsPlayoutBuffer_new bc)).2 in
  let n := Z.min (zlen fs) (Z.max 1 (hw / d)) in
  tts_wf b /\ front_offset_samples_ b = 0%nat /\ tts_queue b = drop (length fs - Z.to_nat n) fs.*1 /\
  preroll_reached_ b = (preroll_ms bc <=? n * d) /\ eos_ b = false.
Proof.
  intros Ehw Hpos Hle Hfs b n. pose proof (Z.div_pos hw d ltac:(lia) ltac:(lia)) as Hdiv.
  destruct (pushes_uniform fs (TtsPlayoutBuffer_new bc)) as (Ho & [k Hk] & Hl & Hr); cbn [tts_cfg TtsPlayoutBuffer_new
    tts_queue front_offset_samples_ preroll_reached_ length].
  - rewrite u32_small; lia.
  - by split; [constructor|cbn; lia].
  - done.
  - rewrite u32_small by lia. symmetry. apply Z.leb_gt. lia.
  - eapply Forall_impl; [exact Hfs|]. intros f [? [? _]]. unfold sample_count. split; [done|]. lia.
  - cbn [app tts_cfg TtsPlayoutBuffer_new tts_queue length] in Hk, Hl, Hr. rewrite u32_small in Hr by lia.
    fold b in Ho, Hk, Hl, Hr. split_and!.
    + destruct (tts_run (pushes fs) (TtsPlayoutBuffer_new bc)) as [r b0] eqn:E.
      destruct (tts_run_refines (pushes fs) _ _ _ (tts_wf_new bc)
        ltac:(apply Forall_fmap; eapply Forall_impl; [exact Hfs|]; by intros f [_ [_ ?]]) E) as (evs & A).
      exact (pa_wf _ _ _ _ _ A).
    + done.
    + rewrite (kept_suffix _ _ _ Hk) by (by rewrite length_fmap). unfold kept. rewrite length_fmap. f_equal.
      unfold n, queue_limit. lia.
    + rewrite Hr, Hl. replace (Z.of_nat (Nat.min (0 + length fs) queue_limit)) with n by (unfold n, queue_limit; lia).
      assert (n * d <= hw \/ n * d = d) by (unfold n; pose proof (Z.mul_div_le hw d ltac:(lia)); nia).
      f_equal. clearbody n. unfold UINT32_MAX. lia.
    + apply pushes_unended.
Qed.
End Uniform.

(** A buffer that took frames of one duration plays the oldest it kept, or silence. *)
Lemma primed_pop_plays cap now b :
  tts_wf b -> preroll_reached_ b = true -> tts_queue b <> [] -> (0 < cap)%nat ->
  take cap (remaining b) <> [] /\ exists pad, (Pop cap now b).1.1 = take cap (remaining b) ++ pad.
Proof.
  intros Hw Hp Hq Hcap. rewrite remaining_abs by done. pose proof (Pop_refines cap now b Hw) as H.
  destruct (Pop cap now b) as [[out au] b']. destruct H as (evs & A). cbn [fst].
  pose proof (pa_ref _ _ _ _ _ A) as R. pose proof (pa_outs _ _ _ _ _ A) as Ho.
  pose proof (tw_offset _ Hw) as Hoff. cbn [ref_run ref_op] in R. unfold ref_pop, abs in R |- *.
  cbn [po_queue po_primed po_ended] in *. rewrite Hp in R. rewrite (proj2 (Nat.ltb_lt 0 cap)) in R by done.
  pose proof (take_pieces_spec (pieces (tts_queue b) (front_offset_samples_ b)) cap) as Hs.
  destruct (tts_queue b) as [|f q]; [done|]. cbn [pieces orb andb] in R, Hs |- *. cbn [offset_ok] in Hoff.
  split.
  - intros E%(f_equal length). rewrite length_take in E. cbn [mbind list_bind snd] in E.
    rewrite length_app, length_drop in E. cbn [length] in E. lia.
  - destruct (take_pieces cap _) as [[w q2] p]. destruct Hs as [<- _]. cbn in R. injection R as <- _.
    cbn in Ho. injection Ho as ->. by eexists.
Qed.

(** C38. A validated configuration makes playback start.  For every validated
    configuration whose largest jitter buffer is below 2^31 ms (the integer rows
    FreeSWITCH returns are) and every override of a request, the bounds the
    handlers clamp to are never crossed (config.h says an override above the cap
    is rejected; it is clamped to the cap), and the buffer gets a pre-roll of at
    least 50 ms and at most its high-water mark, itself at most the cap.  After
    pushing frames of [d] ms each, at any times, the next [Pop] plays the samples
    of the newest frames the high-water mark lets stay, from their first one on,
    when those frames add up to the pre-roll; otherwise it writes silence.  So
    whenever the high-water mark leaves room for one frame beyond the pre-roll,
    playback starts once the pre-roll has been pushed. *)
Theorem validated_playback_starts regex_error cfg ov :
  Validate regex_error cfg = None -> tts_max_jitter_buffer_ms cfg < 2 ^ 31 ->
  exists bc, playout_config ov cfg = Some bc /\
    50 <= preroll_ms bc <= high_water_ms bc /\ high_water_ms bc <= tts_max_jitter_buffer_ms cfg /\
    forall d fs cap now, 0 < d < 2 ^ 31 -> (0 < cap)%nat ->
      Forall (fun f => frame_ms f.1 = d /\ tts_frame_ok f.1) fs ->
      let out := (Pop cap now (tts_run (pushes fs) (TtsPlayoutBuffer_new bc)).2).1.1 in
      let n := Z.min (zlen fs) (Z.max 1 (high_water_ms bc / d)) in
      let played := take cap (drop (length fs - Z.to_nat n) fs.*1 ≫= samples_) in
      (preroll_ms bc <= n * d -> played <> [] /\ exists pad, out = played ++ pad) /\
      (n * d < preroll_ms bc -> out = replicate cap 0) /\
      (preroll_ms bc + d <= high_water_ms bc + 1 -> preroll_ms bc <= zlen fs * d ->
         preroll_ms bc <= n * d).
Proof.
  intros Hv Hmax. destruct (playout_config_bounds ov cfg) as (bc & E & Hp & Hh); [by eapply Validate_bounds|].
  exists bc. split; [done|]. split; [done|]. split; [done|]. intros d fs cap now Hd Hcap Hfs out n played.
  destruct (playout_of_pushes d (high_water_ms bc) Hd ltac:(lia) bc fs) as (Hw & Ho & Hq & Hr & He); [done|lia|lia|done|].
  fold n in Hq, Hr. unfold out. split; [|split].
  - intros Hn. assert (Hne : remaining (tts_run (pushes fs) (TtsPlayoutBuffer_new bc)).2 =
      drop (length fs - Z.to_nat n) fs.*1 ≫= samples_) by (unfold remaining; by rewrite Ho, Hq).
    unfold played. rewrite <- Hne. apply primed_pop_plays; [done| | |done].
    + rewrite Hr. by apply Z.leb_le.
    + rewrite Hq. intros Hnil%(f_equal length). rewrite length_drop, length_fmap in Hnil. cbn [length] in Hnil. lia.
  - intros Hn. apply unprimed_pop_silent; [|done]. rewrite Hr. by apply Z.leb_gt.
  - intros Hroom Hn. pose proof (Z.mul_succ_div_gt (high_water_ms bc) d ltac:(lia)).
    pose proof (Z.div_pos (high_water_ms bc) d ltac:(lia) ltac:(lia)). unfold n. nia.
Qed.

Definition demo_tts_frame : AudioFrame := mkAudioFrame (repeat 1 160) 8000 1 0 0 0 "".
Definition demo_pushes : list (AudioFrame * Z) := repeat (demo_tts_frame, 0) 10.

Lemma validated_playback_starts_witness :
  exists bc, playout_config (mkTtsBufferOverride 0 0) Config_default = Some bc /\
    (Pop 160 0 (tts_run (pushes demo_pushes) (TtsPlayoutBuffer_new bc)).2).1.1 <> repeat 0 160 /\
    exists pad, (Pop 160 0 (tts_run (pushes demo_pushes) (TtsPlayoutBuffer_new bc)).2).1.1 = repeat 1 160 ++ pad.
Proof.
  destruct (validated_playback_starts (fun _ => None) Config_default (mkTtsBufferOverride 0 0)
    ltac:(vm_compute; reflexivity) ltac:(simpl; lia)) as (bc & E & _ & _ & H).
  exists bc. split; [exact E|]. destruct (H 20 demo_pushes 160%nat 0 ltac:(lia) ltac:(lia)) as [Hs _].
  - apply Forall_forall. intros f Hf. apply list_elem_of_In, repeat_spec in Hf as ->.
    split; [vm_compute; reflexivity|]. split; [vm_compute; lia|reflexivity].
  - vm_compute in E. injection E as <-. destruct Hs as [_ [pad Hpad]]; [vm_compute; discriminate|].
    split; [vm_compute; discriminate|]. exists pad. exact Hpad.
Defined.

(** Without that room it may never start: a validated configuration with the
    pre-roll at the high-water mark, and frames of 30 ms. *)
Definition tight_config : TtsConfig := mkTtsConfig 200 200 kSilence.

Definition frame_30ms : AudioFrame := mkAudioFrame (repeat 1 240) 8000 1 0 0 0 "".

Lemma tight_config_never_starts n now :
  preroll_reached_ (tts_run (pushes (repeat (frame_30ms, now) n)) (TtsPlayoutBuffer_new tight_config)).2 = false.
Proof.
  destruct (pushes_uniform 30 200 ltac:(lia) ltac:(lia) (repeat (frame_30ms, now) n)
    (TtsPlayoutBuffer_new tight_config)) as (_ & _ & Hl & Hr); simpl; try done.
  - split; [constructor|simpl; lia].
  - apply Forall_forall. intros f Hf. apply list_elem_of_In, repeat_spec in Hf as ->. split; [by vm_compute|done].
  - rewrite Hr, Hl. apply Z.leb_gt. change (u32 (preroll_ms _)) with 200.
    change (queue_limit 30 200) with 6%nat. unfold UINT32_MAX. lia.
Qed.
