(* ===== verification/BotRegistry.v ===== *)
(** * The registry of bots

    [src/control/active_bots.cc], [include/osw/control/active_bots.h] and the
    admission of [src/control/handlers/start_bot_handler.cc]: the running bots by
    id, an index of them by channel, and the cap on bots per channel.  The
    methods hold [mu_] for one critical section each; [StopByChannel] copies the
    ids and then stops them one by one, with other threads in between.  Tearing a
    bot down happens after the lock is released and is recorded. *)

From S2P Require Import Prelude Config.

(** ** Requests *)

Inductive BotPurpose := BOT_PURPOSE_UNSPECIFIED | TTS_BROADCAST | STT_LISTEN | BOT_VOICEBOT_DUPLEX | WHISPER.

#[export] Instance BotPurpose_eq_dec : EqDecision BotPurpose.
Proof. solve_decision. Defined.

Record StartBotRequest := mkStartBotRequest {
  sb_target_channel_uuids : list string;
  sb_upstream_endpoint : string;
  sb_purpose : BotPurpose;
  sb_write_target_channel_uuids : list string;
  sb_sample_rate_hz : Z;
  sb_drain_timeout_ms : Z }.

(** The loop over the targets with the set [seen]; [inl] is the status. *)
Fixpoint check_targets (uuids : list string) (seen : gset string) : Status + gset string :=
  match uuids with
  | [] => inr seen
  | uuid :: uuids =>
      if string_empty uuid then inl (mkStatus INVALID_ARGUMENT "target channel UUID is empty")
      else if bool_decide (uuid ∈ seen) then inl (mkStatus INVALID_ARGUMENT "duplicate target channel UUID")
      else check_targets uuids ({[uuid]} ∪ seen)
  end.

(** [inr] carries the rate of [*rate_out]. *)
Definition ValidateStartBot (req : StartBotRequest) (config : Config) : Status + Z :=
  let fail code msg := inl (mkStatus code msg) in
  if bool_decide (sb_target_channel_uuids req = []) then fail INVALID_ARGUMENT "target_channel_uuids required"%string
  else if bot_max_targets config <? u32 (zlen (sb_target_channel_uuids req))
  then fail RESOURCE_EXHAUSTED "too many target_channel_uuids"%string
  else if string_empty (sb_upstream_endpoint req) then fail INVALID_ARGUMENT "upstream_endpoint required"%string
  else match check_targets (sb_target_channel_uuids req) ∅ with
  | inl st => inl st
  | inr seen =>
      if negb (bool_decide (sb_write_target_channel_uuids req = [])) && negb (bool_decide (sb_purpose req = WHISPER))
      then fail INVALID_ARGUMENT "write_target_channel_uuids is only valid for WHISPER"%string
      else if bool_decide (sb_purpose req = WHISPER) && bool_decide (sb_write_target_channel_uuids req = [])
      then fail INVALID_ARGUMENT "WHISPER requires write_target_channel_uuids"%string
      else if bool_decide (sb_purpose req = WHISPER) &&
              negb (forallb (fun uuid => bool_decide (uuid ∈ seen)) (sb_write_target_channel_uuids req))
      then fail INVALID_ARGUMENT "write target not in target_channel_uuids"%string
      else if bool_decide (sb_purpose req = BOT_PURPOSE_UNSPECIFIED)
      then fail INVALID_ARGUMENT "purpose required"%string
      else
        let rate := if sb_sample_rate_hz req =? 0 then 16000 else sb_sample_rate_hz req in
        if negb (rate =? 8000) && negb (rate =? 16000)
        then fail INVALID_ARGUMENT "sample_rate_hz must be 8000 or 16000"%string
        else inr rate
  end.

(** ** The registry *)

(** [ab_session] says whether the bot owns a [BotSession]. *)
Record ActiveBot := mkActiveBot {
  ab_bot_id : string;
  ab_target_channel_uuids : list string;
  ab_stream_ids : list string;
  ab_session : bool }.

Record ActiveBots := mkActiveBots {
  bots_by_id : gmap string ActiveBot;
  bots_by_channel : gmap string (list string) }.

Definition ActiveBots_new : ActiveBots := mkActiveBots ∅ ∅.

Inductive ActiveBotInsertResult := kInserted | kDuplicateBotId | kChannelCapacityExceeded.

#[export] Instance ActiveBotInsertResult_eq_dec : EqDecision ActiveBotInsertResult.
Proof. solve_decision. Defined.

(** The list of a channel, empty when the map has none. *)
Definition channel_bots (bs : ActiveBots) (uuid : string) : list string :=
  default [] (bots_by_channel bs !! uuid).

Fixpoint index_bot (bot_id : string) (uuids : list string) (m : gmap string (list string))
  : gmap string (list string) :=
  match uuids with
  | [] => m
  | uuid :: uuids => index_bot bot_id uuids (<[uuid := default [] (m !! uuid) ++ [bot_id]]> m)
  end.

Definition Bots_Insert (bot : ActiveBot) (max_bots_per_channel : Z) (bs : ActiveBots)
  : ActiveBotInsertResult * ActiveBots :=
  if string_empty (ab_bot_id bot) then (kDuplicateBotId, bs)
  else match bots_by_id bs !! ab_bot_id bot with
  | Some _ => (kDuplicateBotId, bs)
  | None =>
      if existsb (fun uuid => max_bots_per_channel <=? zlen (channel_bots bs uuid)) (ab_target_channel_uuids bot)
      then (kChannelCapacityExceeded, bs)
      else (kInserted,
            mkActiveBots (<[ab_bot_id bot := bot]> (bots_by_id bs))
              (index_bot (ab_bot_id bot) (ab_target_channel_uuids bot) (bots_by_channel bs)))
  end.

(** [Register] without a capacity. *)
Definition Bots_Register (bot_id : string) (target_uuids : list string) (bs : ActiveBots) : ActiveBots :=
  (Bots_Insert (mkActiveBot bot_id target_uuids [] true) UINT32_MAX bs).2.

Definition Bots_Contains (bot_id : string) (bs : ActiveBots) : bool :=
  bool_decide (is_Some (bots_by_id bs !! bot_id)).

Definition ChannelAtCapacity (uuid : string) (max_bots_per_channel : Z) (bs : ActiveBots) : bool :=
  match bots_by_channel bs !! uuid with
  | Some ids => max_bots_per_channel <=? zlen ids
  | None => false
  end.

Definition EraseValue (values : list string) (value : string) : list string :=
  filter (fun v => v <> value) values.

Fixpoint unindex_bot (bot_id : string) (uuids : list string) (m : gmap string (list string))
  : gmap string (list string) :=
  match uuids with
  | [] => m
  | uuid :: uuids =>
      match m !! uuid with
      | None => unindex_bot bot_id uuids m
      | Some ids =>
          let ids' := EraseValue ids bot_id in
          unindex_bot bot_id uuids (if bool_decide (ids' = []) then delete uuid m else <[uuid := ids']> m)
      end
  end.

(** The critical section of [Stop]: the bot to tear down. *)
Definition Bots_Stop (bot_id : string) (bs : ActiveBots) : option ActiveBot * ActiveBots :=
  match bots_by_id bs !! bot_id with
  | None => (None, bs)
  | Some bot =>
      (Some bot, mkActiveBots (delete bot_id (bots_by_id bs))
                   (unindex_bot (ab_bot_id bot) (ab_target_channel_uuids bot) (bots_by_channel bs)))
  end.

(** The first critical section of [StopByChannel]. *)
Definition StopByChannel_snapshot (uuid : string) (bs : ActiveBots) : list string := channel_bots bs uuid.

(** [DrainAll], with an iteration order of the map. *)
Definition Bots_DrainAll (order : list string) (bs : ActiveBots) : list ActiveBot * ActiveBots :=
  (omap (fun id => bots_by_id bs !! id) order, mkActiveBots ∅ ∅).

Definition Bots_ActiveCount (bs : ActiveBots) : nat := size (bots_by_id bs).

(** What [TearDown] calls. *)
Inductive bot_effect := BotSessionStop (bot_id : string) | StreamsRemove (stream_id : string).

Definition Bots_TearDown (bot : ActiveBot) : list bot_effect :=
  (if ab_session bot then [BotSessionStop (ab_bot_id bot)] else []) ++ (StreamsRemove <$> ab_stream_ids bot).

(** ** Runs *)

(** [HandleStartBot], once the session is open and attached: the rest of the
    admission is the insertion.  [bot_id] is the generated id. *)
Definition StartBot_insert (config : Config) (req : StartBotRequest) (bot_id : string) (bs : ActiveBots)
  : Status * ActiveBots * option ActiveBot :=
  match ValidateStartBot req config with
  | inl st => (st, bs, None)
  | inr _ =>
      let bot := mkActiveBot bot_id (sb_target_channel_uuids req) [] true in
      match Bots_Insert bot (max_bots_per_channel config) bs with
      | (kInserted, bs') => (Status_OK, bs', Some bot)
      | (kChannelCapacityExceeded, bs') =>
          (mkStatus FAILED_PRECONDITION "channel already has maximum active bots", bs', None)
      | (kDuplicateBotId, bs') => (mkStatus INTERNAL "bot_id collision", bs', None)
      end
  end.

Inductive bots_label :=
| BStartBot (req : StartBotRequest) (bot_id : string)
| BStop (bot_id : string)
| BSnapshot (th : nat) (uuid : string)     (* [StopByChannel] starts *)
| BStopNext (th : nat)                     (* ... and stops the next id *)
| BDrainAll (order : list string).

(** The registry, the ids each [StopByChannel] has still to stop, the bots
    inserted and the bots torn down, in order. *)
Record bots_world := mkBotsWorld {
  bw_bots : ActiveBots;
  bw_pending : gmap nat (list string);
  bw_inserted : list ActiveBot;
  bw_torn : list ActiveBot }.

Definition bots_init : bots_world := mkBotsWorld ActiveBots_new ∅ [] [].

Definition bots_stop (id : string) (pending : gmap nat (list string)) (w : bots_world) : bots_world :=
  let '(o, bs) := Bots_Stop id (bw_bots w) in
  mkBotsWorld bs pending (bw_inserted w) (bw_torn w ++ option_list o).

Definition bots_step (config : Config) (w : bots_world) (lb : bots_label) : option bots_world :=
  match lb with
  | BStartBot req id =>
      let '(_, bs, o) := StartBot_insert config req id (bw_bots w) in
      Some (mkBotsWorld bs (bw_pending w) (bw_inserted w ++ option_list o) (bw_torn w))
  | BStop id => Some (bots_stop id (bw_pending w) w)
  | BSnapshot th uuid =>
      match default [] (bw_pending w !! th) with
      | [] => Some (mkBotsWorld (bw_bots w) (<[th := StopByChannel_snapshot uuid (bw_bots w)]> (bw_pending w))
                      (bw_inserted w) (bw_torn w))
      | _ => None
      end
  | BStopNext th =>
      match default [] (bw_pending w !! th) with
      | [] => None
      | id :: ids => Some (bots_stop id (<[th := ids]> (bw_pending w)) w)
      end
  | BDrainAll order =>
      if bool_decide (order ≡ₚ (map_to_list (bots_by_id (bw_bots w))).*1)
      then let '(vs, bs) := Bots_DrainAll order (bw_bots w) in
           Some (mkBotsWorld bs (bw_pending w) (bw_inserted w) (bw_torn w ++ vs))
      else None
  end.

Fixpoint bots_run (config : Config) (w : bots_world) (ls : list bots_label) : option bots_world :=
  match ls with
  | [] => Some w
  | lb :: ls => match bots_step config w lb with Some w' => bots_run config w' ls | None => None end
  end.

(** ** Admission *)

Lemma check_targets_spec uuids : forall seen seen',
  check_targets uuids seen = inr seen' ->
  seen' = list_to_set uuids ∪ seen /\ NoDup uuids /\ (forall u, u ∈ uuids -> u <> ""%string /\ u ∉ seen).
Proof.
  induction uuids as [|u us IH]; intros seen seen' H; simpl in H.
  { injection H as <-. split; [set_solver|]. split; [constructor|set_solver]. }
  destruct (string_empty u) eqn:Eu; [done|]. case_bool_decide as Hin; [done|].
  destruct (IH _ _ H) as (-> & Hnd & Hus). split; [set_solver|].
  assert (u <> ""%string) by (intros ->; done). split.
  - constructor; [|done]. intros Hu. apply Hus in Hu. set_solver.
  - intros x [->|Hx]%elem_of_cons; [done|]. apply Hus in Hx. set_solver.
Qed.

Lemma check_targets_fails uuids : forall seen st,
  check_targets uuids seen = inl st -> ~ (NoDup uuids /\ (forall u, u ∈ uuids -> u <> ""%string /\ u ∉ seen)).
Proof.
  induction uuids as [|u us IH]; intros seen st H; simpl in H; [done|]. intros [Hnd Hus].
  destruct (string_empty u) eqn:Eu.
  { apply string_empty_spec in Eu. destruct (Hus u); [set_solver|done]. }
  case_bool_decide as Hin; [destruct (Hus u); [set_solver|done]|].
  apply NoDup_cons in Hnd as [Hu Hnd]. apply (IH _ _ H). split; [done|].
  intros x Hx. destruct (Hus x); [set_solver|]. set_solver.
Qed.

(** What an admitted request looks like. *)
Definition request_ok (config : Config) (req : StartBotRequest) : Prop :=
  sb_target_channel_uuids req <> [] /\
  u32 (zlen (sb_target_channel_uuids req)) <= bot_max_targets config /\
  sb_upstream_endpoint req <> ""%string /\
  NoDup (sb_target_channel_uuids req) /\ (""%string ∉ sb_target_channel_uuids req) /\
  (sb_purpose req = WHISPER -> sb_write_target_channel_uuids req <> []) /\
  (sb_purpose req <> WHISPER -> sb_write_target_channel_uuids req = []) /\
  (forall u, u ∈ sb_write_target_channel_uuids req -> u ∈ sb_target_channel_uuids req) /\
  sb_purpose req <> BOT_PURPOSE_UNSPECIFIED /\ sb_sample_rate_hz req ∈ [0; 8000; 16000].

Lemma ValidateStartBot_spec req config :
  match ValidateStartBot req config with
  | inr rate => request_ok config req /\ rate = (if decide (sb_sample_rate_hz req = 8000) then 8000 else 16000)
  | inl st => ~ request_ok config req /\ st_code st ∈ [INVALID_ARGUMENT; RESOURCE_EXHAUSTED]
  end.
Proof.
  unfold ValidateStartBot, request_ok. case_bool_decide as H1; [set_solver|].
  destruct (Z.ltb_spec (bot_max_targets config) (u32 (zlen (sb_target_channel_uuids req)))) as [H2|H2];
    [split; [lia|set_solver]|].
  destruct (string_empty (sb_upstream_endpoint req)) eqn:H3.
  { apply string_empty_spec in H3. set_solver. }
  assert (sb_upstream_endpoint req <> ""%string) by (intros E; by rewrite E in H3).
  destruct (check_targets (sb_target_channel_uuids req) ∅) as [st|seen] eqn:H4.
  { split.
    - intros (_ & _ & _ & Hnd & Hne & _). apply (check_targets_fails _ _ _ H4). split; [done|].
      intros u Hu. split; [by intros ->|set_solver].
    - revert H4. generalize (∅ : gset string). clear. induction (sb_target_channel_uuids req) as [|u us IH]; simpl; [done|].
      intros s. destruct (string_empty u); [intros [= <-]; set_solver|].
      case_bool_decide; [intros [= <-]; set_solver|]. apply IH. }
  destruct (check_targets_spec _ _ _ H4) as (Hseen & Hnd & Hus).
  assert (Hne : ""%string ∉ sb_target_channel_uuids req) by (intros Hx; by apply Hus in Hx as [? _]).
  assert (Hrate : (let rate := if sb_sample_rate_hz req =? 0 then 16000 else sb_sample_rate_hz req in
      negb (rate =? 8000) && negb (rate =? 16000)) = false <-> sb_sample_rate_hz req ∈ [0; 8000; 16000]).
  { destruct (Z.eqb_spec (sb_sample_rate_hz req) 0); [by split; set_solver|]. cbv zeta.
    destruct (Z.eqb_spec (sb_sample_rate_hz req) 8000); [by split; set_solver|].
    destruct (Z.eqb_spec (sb_sample_rate_hz req) 16000); [by split; set_solver|]. split; [done|set_solver]. }
  assert (Hr : sb_sample_rate_hz req ∈ [0; 8000; 16000] ->
    (if sb_sample_rate_hz req =? 0 then 16000 else sb_sample_rate_hz req) =
    if decide (sb_sample_rate_hz req = 8000) then 8000 else 16000).
  { destruct (Z.eqb_spec (sb_sample_rate_hz req) 0) as [->|]; [done|]. case_decide; [done|set_solver]. }
  set (ws := sb_write_target_channel_uuids req) in *. set (p := sb_purpose req) in *.
  destruct (decide (p = WHISPER)) as [Hw|Hw].
  - rewrite (bool_decide_true (p = WHISPER)) by done. rewrite andb_false_r, !andb_true_l.
    case_bool_decide as H5; [split; [naive_solver|set_solver]|].
    destruct (forallb (fun uuid => bool_decide (uuid ∈ seen)) ws) eqn:H6; simpl.
    + assert (Hsub : forall u, u ∈ ws -> u ∈ sb_target_channel_uuids req).
      { rewrite forallb_forall in H6. intros u Hu. apply list_elem_of_In, H6 in Hu. b2p. set_solver. }
      rewrite bool_decide_false by congruence. cbv zeta in Hrate |- *.
      match goal with |- context [if ?b && ?c then inl _ else inr _] => destruct (b && c) eqn:H7 end.
      * split; [|set_solver]. intros Hok. assert (true = false); [|done]. apply Hrate. naive_solver.
      * pose proof (proj1 Hrate eq_refl). split; [|by apply Hr]. split_and!; try done. congruence.
    + split; [|set_solver]. intros Hok. assert (Hall : forallb (fun uuid => bool_decide (uuid ∈ seen)) ws = true); [|congruence].
      apply forallb_forall. intros u Hu. apply bool_decide_eq_true. apply list_elem_of_In in Hu. set_solver.
  - rewrite (bool_decide_false (p = WHISPER)) by done. simpl. rewrite andb_true_r.
    case_bool_decide as H5; simpl; [|split; [naive_solver|set_solver]].
    case_bool_decide as H6; [split; [naive_solver|set_solver]|]. cbv zeta in Hrate |- *.
      match goal with |- context [if ?b && ?c then inl _ else inr _] => destruct (b && c) eqn:H7 end.
    + split; [|set_solver]. intros Hok. assert (true = false); [|done]. apply Hrate. naive_solver.
    + pose proof (proj1 Hrate eq_refl). split; [|by apply Hr]. split_and!; try done. rewrite H5. set_solver.
Qed.

(** ** The index *)

Lemma lookup_index_bot id uuids : forall m ch, NoDup uuids ->
  index_bot id uuids m !! ch =
    if decide (ch ∈ uuids) then Some (default [] (m !! ch) ++ [id]) else m !! ch.
Proof.
  induction uuids as [|u us IH]; intros m ch Hnd; [by rewrite decide_False by set_solver|].
  apply NoDup_cons in Hnd as [Hu Hnd]. cbn [index_bot]. rewrite IH by done.
  destruct (decide (ch = u)) as [->|Hne].
  - rewrite (decide_False (P := u ∈ us)) by done. rewrite (decide_True (P := u ∈ u :: us)) by set_solver.
    by rewrite lookup_insert_eq.
  - rewrite lookup_insert_ne by done.
    destruct (decide (ch ∈ us)); [by rewrite decide_True by set_solver|by rewrite decide_False by set_solver].
Qed.

Lemma EraseValue_idem ids id : EraseValue (EraseValue ids id) id = EraseValue ids id.
Proof.
  unfold EraseValue. apply filter_all_true. apply Forall_forall.
  by intros v [? _]%list_elem_of_filter.
Qed.

Lemma lookup_unindex_bot id uuids : forall m ch,
  default [] (unindex_bot id uuids m !! ch) =
    if decide (ch ∈ uuids) then EraseValue (default [] (m !! ch)) id else default [] (m !! ch).
Proof.
  induction uuids as [|u us IH]; intros m ch; [by rewrite decide_False by set_solver|]. cbn [unindex_bot].
  assert (Hstep : forall m', (forall c, default [] (m' !! c) =
      if decide (c = u) then EraseValue (default [] (m !! c)) id else default [] (m !! c)) ->
    default [] (unindex_bot id us m' !! ch) =
      if decide (ch ∈ u :: us) then EraseValue (default [] (m !! ch)) id else default [] (m !! ch)).
  { intros m' Hm'. rewrite IH, Hm'. destruct (decide (ch = u)) as [->|Hne].
    - rewrite (decide_True (P := u ∈ u :: us)) by set_solver. case_decide; [apply EraseValue_idem|done].
    - destruct (decide (ch ∈ us)); [by rewrite decide_True by set_solver|by rewrite decide_False by set_solver]. }
  destruct (m !! u) as [ids|] eqn:E.
  - apply Hstep. intros c. case_bool_decide as Hids; destruct (decide (c = u)) as [->|Hc].
    + rewrite lookup_delete_eq, E. simpl. by rewrite Hids.
    + by rewrite lookup_delete_ne.
    + by rewrite lookup_insert_eq, E.
    + by rewrite lookup_insert_ne.
  - apply Hstep. intros c. destruct (decide (c = u)) as [->|]; [by rewrite E|done].
Qed.

Lemma unindex_bot_nonempty id uuids : forall m,
  (forall ch l, m !! ch = Some l -> l <> []) ->
  forall ch l, unindex_bot id uuids m !! ch = Some l -> l <> [].
Proof.
  induction uuids as [|u us IH]; intros m Hm; simpl; [done|].
  destruct (m !! u) as [ids|] eqn:E; [|by apply IH]. apply IH. intros ch l.
  case_bool_decide as Hids; [intros [_ H]%lookup_delete_Some; by apply (Hm ch)|].
  rewrite lookup_insert_Some. intros [[_ <-]|[_ H]]; [done|by apply (Hm ch)].
Qed.

(** ** The invariant *)

Record bots_inv (cap : Z) (bs : ActiveBots) : Prop := mkBotsInv {
  bi_bot : forall id b, bots_by_id bs !! id = Some b -> ab_bot_id b = id /\ NoDup (ab_target_channel_uuids b);
  bi_nonempty : forall ch l, bots_by_channel bs !! ch = Some l -> l <> [];
  bi_index : forall ch id, id ∈ channel_bots bs ch <->
    exists b, bots_by_id bs !! id = Some b /\ ch ∈ ab_target_channel_uuids b;
  bi_nodup : forall ch, NoDup (channel_bots bs ch);
  bi_cap : forall ch, zlen (channel_bots bs ch) <= cap }.

Lemma bots_inv_new cap : 0 <= cap -> bots_inv cap ActiveBots_new.
Proof.
  intros Hc. unfold ActiveBots_new. split; unfold channel_bots; simpl.
  - intros id b. by rewrite lookup_empty.
  - intros ch l. by rewrite lookup_empty.
  - intros ch id. rewrite lookup_empty. simpl. split; [set_solver|]. intros (b & Hb & _).
    by rewrite lookup_empty in Hb.
  - intros ch. rewrite lookup_empty. constructor.
  - intros ch. by rewrite lookup_empty.
Qed.

Lemma Bots_Insert_inv cap bot bs r bs' :
  bots_inv cap bs -> NoDup (ab_target_channel_uuids bot) -> Bots_Insert bot cap bs = (r, bs') ->
  bots_inv cap bs' /\
  (r = kInserted -> bots_by_id bs !! ab_bot_id bot = None /\ bots_by_id bs' = <[ab_bot_id bot := bot]> (bots_by_id bs)) /\
  (r <> kInserted -> bs' = bs).
Proof.
  intros H Hnd. unfold Bots_Insert. destruct (string_empty (ab_bot_id bot)); [by intros [= <- <-]|].
  destruct (bots_by_id bs !! ab_bot_id bot) as [b0|] eqn:E; [by intros [= <- <-]|].
  destruct (existsb _ _) eqn:Ex; [by intros [= <- <-]|]. intros [= <- <-]. split; [|done].
  assert (Hch : forall ch, channel_bots (mkActiveBots (<[ab_bot_id bot := bot]> (bots_by_id bs))
      (index_bot (ab_bot_id bot) (ab_target_channel_uuids bot) (bots_by_channel bs))) ch =
    if decide (ch ∈ ab_target_channel_uuids bot) then channel_bots bs ch ++ [ab_bot_id bot] else channel_bots bs ch).
  { intros ch. unfold channel_bots. simpl. rewrite lookup_index_bot by done. by case_decide. }
  assert (Hfresh : forall ch, ab_bot_id bot ∉ channel_bots bs ch).
  { intros ch Hin. apply (bi_index _ _ H) in Hin as (b & Hb & _). congruence. }
  split.
  - simpl. intros id b. rewrite lookup_insert_Some. intros [[<- <-]|[_ Hb]]; [done|by apply (bi_bot _ _ H)].
  - simpl. intros ch l. rewrite lookup_index_bot by done. case_decide; [|apply (bi_nonempty _ _ H)].
    intros [= <-]. by destruct (default [] _).
  - intros ch id. rewrite Hch. simpl. setoid_rewrite lookup_insert_Some.
    case_decide as Hin; [rewrite elem_of_app, list_elem_of_singleton|]; rewrite (bi_index _ _ H); split.
    + intros [(b & Hb & Hc)| ->]; [|by exists bot; auto]. exists b. split; [|done]. right.
      split; [congruence|done].
    + intros (b & [[<- <-]|[Hne Hb]] & Hc); [by right|left; by exists b].
    + intros (b & Hb & Hc). exists b. split; [|done]. right. split; [congruence|done].
    + intros (b & [[<- <-]|[Hne Hb]] & Hc); [done|by exists b].
  - intros ch. rewrite Hch. case_decide; [|apply (bi_nodup _ _ H)]. apply NoDup_app.
    split; [apply (bi_nodup _ _ H)|]. split; [|apply NoDup_singleton].
    intros id Hid ->%list_elem_of_singleton. by apply (Hfresh ch).
  - intros ch. rewrite Hch. case_decide as Hin; [|apply (bi_cap _ _ H)]. rewrite length_app. simpl.
    assert ((cap <=? zlen (channel_bots bs ch)) = false); [|b2p; lia].
    destruct (cap <=? zlen (channel_bots bs ch)) eqn:Ec; [|done].
    rewrite <- not_true_iff_false, existsb_exists in Ex. destruct Ex. exists ch. split; [|done].
    by apply list_elem_of_In.
Qed.

Lemma Bots_Stop_inv cap id bs o bs' :
  bots_inv cap bs -> Bots_Stop id bs = (o, bs') ->
  bots_inv cap bs' /\ o = bots_by_id bs !! id /\ bots_by_id bs' = delete id (bots_by_id bs).
Proof.
  intros H. unfold Bots_Stop. destruct (bots_by_id bs !! id) as [bot|] eqn:E; intros [= <- <-].
  2:{ split; [done|]. split; [done|]. by rewrite delete_id. }
  split; [|done]. destruct (bi_bot _ _ H id bot E) as [Eid Hnd]. rewrite Eid.
  assert (Hch : forall ch, channel_bots (mkActiveBots (delete id (bots_by_id bs))
      (unindex_bot id (ab_target_channel_uuids bot) (bots_by_channel bs))) ch = EraseValue (channel_bots bs ch) id).
  { intros ch. unfold channel_bots. simpl. rewrite lookup_unindex_bot. case_decide as Hc; [done|].
    symmetry. apply filter_all_true. apply Forall_forall. intros v Hv ->.
    apply (bi_index _ _ H) in Hv as (b & Hb & Hcb). congruence. }
  split.
  - simpl. intros i b [_ Hb]%lookup_delete_Some. by apply (bi_bot _ _ H).
  - simpl. apply unindex_bot_nonempty. apply (bi_nonempty _ _ H).
  - intros ch i. rewrite Hch. unfold EraseValue. rewrite list_elem_of_filter, (bi_index _ _ H). simpl.
    setoid_rewrite lookup_delete_Some. naive_solver.
  - intros ch. rewrite Hch. apply NoDup_filter, (bi_nodup _ _ H).
  - intros ch. rewrite Hch. pose proof (bi_cap _ _ H ch).
    pose proof (length_filter_le (fun v => v <> id) (channel_bots bs ch)). unfold EraseValue. lia.
Qed.

(** ** Runs *)

Definition bots_of (bs : ActiveBots) : list ActiveBot := (map_to_list (bots_by_id bs)).*2.

Record bots_world_inv (config : Config) (w : bots_world) : Prop := mkBotsWorldInv {
  bwi_inv : bots_inv (max_bots_per_channel config) (bw_bots w);
  bwi_conserved : bw_inserted w ≡ₚ bw_torn w ++ bots_of (bw_bots w) }.

Lemma bots_stop_inv config id pending w :
  bots_world_inv config w -> bots_world_inv config (bots_stop id pending w).
Proof.
  intros [Hi Hc]. unfold bots_stop. destruct (Bots_Stop id (bw_bots w)) as [o bs] eqn:E.
  destruct (Bots_Stop_inv _ _ _ _ _ Hi E) as (Hi' & -> & Ed). split; [done|]. simpl.
  rewrite Hc, <- app_assoc. f_equiv. unfold bots_of. rewrite Ed.
  destruct (bots_by_id (bw_bots w) !! id) as [bot|] eqn:Eb; simpl.
  - by rewrite <- (map_to_list_delete _ _ _ Eb).
  - by rewrite delete_id.
Qed.

Lemma omap_lookup_all {V} (m : gmap string V) order :
  order ≡ₚ (map_to_list m).*1 -> omap (fun id => m !! id) order ≡ₚ (map_to_list m).*2.
Proof.
  intros ->. assert (H : forall l, (forall x, x ∈ l -> x ∈ map_to_list m) ->
    omap (fun id => m !! id) l.*1 = l.*2).
  { induction l as [|[k v] l IH]; intros Hl; [done|]. cbn [fmap list_fmap omap list_omap fst snd].
    assert (m !! k = Some v) as -> by (apply elem_of_map_to_list, Hl; set_solver).
    rewrite IH by set_solver. done. }
  by rewrite H.
Qed.

Lemma bots_step_inv config w lb w' :
  0 <= max_bots_per_channel config ->
  bots_world_inv config w -> bots_step config w lb = Some w' -> bots_world_inv config w'.
Proof.
  intros Hcap [Hi Hc] Hs. destruct lb as [req id|id|th uuid|th|order]; simpl in Hs.
  - unfold StartBot_insert in Hs. pose proof (ValidateStartBot_spec req config) as Hv.
    destruct (ValidateStartBot req config) as [st|rate].
    { injection Hs as <-. split; simpl; [done|by rewrite app_nil_r]. }
    destruct Hv as [(_ & _ & _ & Hnd & _) _].
    destruct (Bots_Insert _ _ (bw_bots w)) as [r bs] eqn:E.
    destruct (Bots_Insert_inv _ (mkActiveBot id (sb_target_channel_uuids req) [] true) _ _ _ Hi Hnd E)
      as (Hi' & Hins & Hno).
    destruct r; injection Hs as <-; split; simpl; try done; rewrite ?app_nil_r, ?Hno by done; try done.
    destruct (Hins eq_refl) as [Efresh Eb]. unfold bots_of. rewrite Eb. simpl in *.
    rewrite map_to_list_insert by done. cbn [fmap list_fmap snd]. rewrite Hc, <- app_assoc. f_equiv.
    rewrite Permutation_app_comm. done.
  - injection Hs as <-. by apply bots_stop_inv.
  - destruct (default [] _); [|done]. injection Hs as <-. by split.
  - destruct (default [] _); [done|]. injection Hs as <-. by apply bots_stop_inv.
  - case_bool_decide as Ho; [|done]. injection Hs as <-. split; simpl; [by apply bots_inv_new|].
    unfold bots_of. simpl. rewrite map_to_list_empty, app_nil_r, Hc. f_equiv. symmetry.
    by apply omap_lookup_all.
Qed.

Lemma bots_run_inv config ls : 0 <= max_bots_per_channel config -> forall w w',
  bots_world_inv config w -> bots_run config w ls = Some w' -> bots_world_inv config w'.
Proof.
  intros Hcap. induction ls as [|lb ls IH]; intros w w' Hw; simpl; [by intros [= <-]|].
  destruct (bots_step config w lb) as [w1|] eqn:E; [|done]. apply IH. by eapply bots_step_inv.
Qed.

Lemma bots_world_inv_init config : 0 <= max_bots_per_channel config -> bots_world_inv config bots_init.
Proof. intros H. split; [by apply bots_inv_new|done]. Qed.

(** ** The registry is exact *)

(** [StopByChannel] with no other thread in between. *)
Definition StopByChannel (uuid : string) (bs : ActiveBots) : ActiveBots :=
  foldl (fun bs id => (Bots_Stop id bs).2) bs (StopByChannel_snapshot uuid bs).

Lemma Bots_Stop_channel id bs cap ch : bots_inv cap bs ->
  forall i, i ∈ channel_bots (Bots_Stop id bs).2 ch -> i ∈ channel_bots bs ch /\ i <> id.
Proof.
  intros H i. destruct (Bots_Stop id bs) as [o bs'] eqn:E.
  destruct (Bots_Stop_inv _ _ _ _ _ H E) as (H' & _ & Ed). simpl.
  rewrite (bi_index _ _ H'), (bi_index _ _ H), Ed. setoid_rewrite lookup_delete_Some. naive_solver.
Qed.

Lemma StopByChannel_clears cap uuid bs : bots_inv cap bs -> channel_bots (StopByChannel uuid bs) uuid = [].
Proof.
  unfold StopByChannel, StopByChannel_snapshot. intros H.
  assert (Hall : forall i, i ∈ channel_bots bs uuid -> i ∈ channel_bots bs uuid) by done.
  revert Hall. generalize (channel_bots bs uuid) at 2 3. intros ids. revert bs H.
  induction ids as [|id ids IH]; intros bs H Hall; simpl.
  - destruct (channel_bots bs uuid) as [|i l]; [done|]. exfalso. by apply (not_elem_of_nil i), Hall; left.
  - apply IH.
    + destruct (Bots_Stop id bs) as [o bs'] eqn:E. by destruct (Bots_Stop_inv _ _ _ _ _ H E).
    + intros i Hi. apply (Bots_Stop_channel id bs cap uuid H) in Hi as [Hi Hne].
      apply Hall, elem_of_cons in Hi as [->|Hi]; done.
Qed.

Lemma StartBot_insert_admits config req id bs :
  is_Some (StartBot_insert config req id bs).2 <->
    request_ok config req /\ id <> ""%string /\ bots_by_id bs !! id = None /\
    forall ch, ch ∈ sb_target_channel_uuids req -> zlen (channel_bots bs ch) < max_bots_per_channel config.
Proof.
  unfold StartBot_insert. pose proof (ValidateStartBot_spec req config) as Hv.
  destruct (ValidateStartBot req config) as [st|rate].
  { split; [by intros [? ?]|]. intros [? _]. by destruct Hv. }
  destruct Hv as [Hok _]. unfold Bots_Insert. simpl.
  destruct (string_empty id) eqn:Eid.
  { apply string_empty_spec in Eid as ->. split; [by intros [? ?]|]. naive_solver. }
  assert (id <> ""%string) by (intros ->; done).
  destruct (bots_by_id bs !! id) as [b|] eqn:E; [split; [by intros [? ?]|naive_solver]|].
  destruct (existsb _ _) eqn:Ex; simpl.
  - split; [by intros [? ?]|]. intros (_ & _ & _ & Hch).
    apply existsb_exists in Ex as (ch & Hin & Hle). apply list_elem_of_In, Hch in Hin. b2p. lia.
  - split; [|by eauto]. intros _. split_and!; try done. intros ch Hin.
    assert ((max_bots_per_channel config <=? zlen (channel_bots bs ch)) = false); [|b2p; lia].
    apply not_true_iff_false. intros Hle. apply not_true_iff_false in Ex. apply Ex, existsb_exists.
    exists ch. split; [by apply list_elem_of_In|done].
Qed.

(** C18. However starts, stops, channel stops and drains of bots interleave, the index of bots by channel is exact
    (a channel lists, once each, the registered bots that target it, and no channel has an empty list), no channel
    ever has more bots than the configured maximum, every bot inserted is either still registered or was torn down
    exactly once, a start is admitted if and only if the request is well formed, its id is new and every target has
    room, and a channel stop that runs alone leaves the channel without bots. *)
Theorem ActiveBots_exact (config : Config) (ls : list bots_label) (w : bots_world)
  (Hcap : 0 <= max_bots_per_channel config) (Hrun : bots_run config bots_init ls = Some w) :
  let bs := bw_bots w in
  (forall ch id, id ∈ channel_bots bs ch <->
     exists b, bots_by_id bs !! id = Some b /\ ab_bot_id b = id /\ ch ∈ ab_target_channel_uuids b) /\
  (forall ch, NoDup (channel_bots bs ch) /\ zlen (channel_bots bs ch) <= max_bots_per_channel config /\
     bots_by_channel bs !! ch <> Some []) /\
  bw_inserted w ≡ₚ bw_torn w ++ bots_of bs /\
  (forall req id, is_Some (StartBot_insert config req id bs).2 <->
     request_ok config req /\ id <> ""%string /\ bots_by_id bs !! id = None /\
     forall ch, ch ∈ sb_target_channel_uuids req -> zlen (channel_bots bs ch) < max_bots_per_channel config) /\
  (forall ch, channel_bots (StopByChannel ch bs) ch = []).
Proof.
  pose proof (bots_run_inv _ _ Hcap _ _ (bots_world_inv_init _ Hcap) Hrun) as [H Hc]. intros bs. split_and!.
  - intros ch id. unfold bs. rewrite (bi_index _ _ H). split; [intros (b & Hb & Hin)|naive_solver].
    exists b. by destruct (bi_bot _ _ H _ _ Hb).
  - intros ch. split_and!; [apply (bi_nodup _ _ H)|apply (bi_cap _ _ H)|].
    intros E. by apply (bi_nonempty _ _ H) in E.
  - done.
  - intros req id. apply StartBot_insert_admits.
  - intros ch. by eapply StopByChannel_clears.
Qed.

Definition demo_start (uuids : list string) : StartBotRequest :=
  mkStartBotRequest uuids "bot:9000" STT_LISTEN [] 0 0.

Definition demo_bots : list bots_label :=
  [BStartBot (demo_start ["a"; "b"]) "1"; BStartBot (demo_start ["a"; "c"]) "2"; BSnapshot 0 "b";
   BStartBot (demo_start ["c"]) "3"; BStopNext 0; BStartBot (demo_start ["a"]) "4"; BStop "3"]%string.

Lemma ActiveBots_exact_witness :
  exists w, bots_run Config_default bots_init demo_bots = Some w /\
    ab_bot_id <$> bw_torn w = ["1"; "3"]%string /\ channel_bots (bw_bots w) "a" = ["4"%string] /\
    channel_bots (StopByChannel "a" (bw_bots w)) "a" = [].
Proof.
  destruct (bots_run Config_default bots_init demo_bots) as [w|] eqn:E; [|vm_compute in E; discriminate E].
  exists w. split; [reflexivity|].
  assert (H : 0 <= max_bots_per_channel Config_default) by (vm_compute; discriminate).
  pose proof (ActiveBots_exact Config_default demo_bots w H E) as (_ & _ & _ & _ & Hs).
  split; [|split; [|apply Hs]]; vm_compute in E; injection E as <-; vm_compute; reflexivity.
Defined.
