(* ===== verification/Resampler.v ===== *)
(** * The resampler and its callers' helpers

    [src/media/resampler.cc], [include/osw/media/resampler.h], and the helpers
    [EnsureResampler] and [ResampledCapacity] of
    [src/control/handlers/media_bug_callbacks.cc].  The filter itself is
    FreeSWITCH's ([switch_resample_create], [switch_resample_process]): a class
    of two operations on an abstract filter state.  Log lines are not modelled,
    the flags that limit them are. *)

From S2P Require Import Prelude.

(** ** The library's filter *)

(** [switch_resample_create from to to_size]; [switch_resample_process] gives
    the filter state after the call and the samples left in [res->to]. *)
Class SwitchResample (RS : Type) := {
  switch_resample_create : Z -> Z -> Z -> option RS;
  switch_resample_process : RS -> list Z -> RS * list Z }.

(** ** The wrapper *)

Definition IsSupportedPair (from_hz to_hz : Z) : bool :=
  ((from_hz =? 8000) && (to_hz =? 16000)) || ((from_hz =? 16000) && (to_hz =? 8000)).

Definition ExpectedOutputSamples (in_samples from_hz to_hz : Z) : Z :=
  if (in_samples =? 0) || (from_hz <=? 0) || (to_hz <=? 0) then 0
  else ((in_samples *u64 to_hz) +u64 from_hz -u64 1) / from_hz +u64 16.

Definition Supports (from_hz to_hz : Z) : bool :=
  if (from_hz <=? 0) || (to_hz <=? 0) then false
  else if from_hz =? to_hz then true
  else IsSupportedPair from_hz to_hz.

Record Resampler (RS : Type) := mkResampler {
  rs_resampler : RS;
  rs_from_hz : Z;
  rs_to_hz : Z;
  rs_max_output_samples : Z }.
Arguments mkResampler {RS}.
Arguments rs_resampler {RS}.
Arguments rs_from_hz {RS}.
Arguments rs_to_hz {RS}.
Arguments rs_max_output_samples {RS}.

Section Resampler.
Context {RS : Type} `{SwitchResample RS}.

(** The arguments are [int]s. *)
Definition Resampler_Create (from_hz to_hz : Z) : option (Resampler RS) :=
  if from_hz =? to_hz then None
  else if negb (IsSupportedPair from_hz to_hz) then None
  else
    let to_size := 8192 in
    match switch_resample_create from_hz to_hz to_size with
    | None => None
    | Some res => Some (mkResampler res from_hz to_hz to_size)
    end.

(** The samples written to [out] and the wrapper; neither pointer is null. *)
Definition Resampler_Process (input : list Z) (out_cap : Z) (r : Resampler RS) : list Z * Resampler RS :=
  if zlen input =? 0 then ([], r)
  else if rs_max_output_samples r <? ExpectedOutputSamples (zlen input) (rs_from_hz r) (rs_to_hz r)
  then ([], r)
  else
    let '(res, to) := switch_resample_process (rs_resampler r) input in
    let r' := mkResampler res (rs_from_hz r) (rs_to_hz r) (rs_max_output_samples r) in
    if zlen to =? 0 then ([], r')
    else if out_cap <? zlen to then ([], r')
    else (to, r').

(** ** The helpers of the callbacks *)

Definition ResampledCapacity (in_samples from_hz to_hz : Z) : Z :=
  if (in_samples =? 0) || (from_hz =? 0) || (to_hz =? 0) then 0
  else ((in_samples *u64 to_hz) +u64 from_hz -u64 1) / from_hz +u64 16.

(** The returned flag, the resampler slot and the log flag.  The slot's address
    is never null in the callers. *)
Definition EnsureResampler (slot : option (Resampler RS)) (from_hz to_hz : Z) (error_logged : bool)
  : bool * option (Resampler RS) * bool :=
  if from_hz =? to_hz then (true, slot, error_logged)
  else
    let slot' := match slot with
                 | None => Resampler_Create (i32 from_hz) (i32 to_hz)
                 | Some r => Some r
                 end in
    match slot' with
    | Some _ => (true, slot', error_logged)
    | None => (false, None, true)
    end.

(** ** Properties *)

Lemma Resampler_Process_bound input out_cap r :
  0 <= out_cap -> zlen (Resampler_Process input out_cap r).1 <= out_cap.
Proof.
  intros Hc. unfold Resampler_Process. repeat case_test; simpl; try lia.
  destruct (switch_resample_process _ _) as [res to]. repeat case_test; simpl; lia.
Qed.

Lemma Resampler_Process_rates input out_cap r :
  rs_from_hz (Resampler_Process input out_cap r).2 = rs_from_hz r /\
  rs_to_hz (Resampler_Process input out_cap r).2 = rs_to_hz r.
Proof.
  unfold Resampler_Process. repeat case_test; try done.
  destruct (switch_resample_process _ _) as [res to]. by repeat case_test.
Qed.

(** A resampler that exists was made for one of the two supported pairs. *)
Definition resampler_wf (r : Resampler RS) : Prop :=
  IsSupportedPair (rs_from_hz r) (rs_to_hz r) = true.

Lemma Resampler_Create_wf from_hz to_hz r :
  Resampler_Create from_hz to_hz = Some r -> resampler_wf r /\ rs_from_hz r = from_hz /\ rs_to_hz r = to_hz.
Proof.
  unfold Resampler_Create, resampler_wf. case_test; [done|]. destruct (IsSupportedPair from_hz to_hz) eqn:E2; [|done].
  simpl. destruct (switch_resample_create _ _ _); [|done]. by intros [= <-].
Qed.

(** The slot, once filled, is used whatever the rates of the current frame are:
    the rates of the resampler are those of the first frame that needed one. *)
Lemma EnsureResampler_sticky r from_hz to_hz logged :
  EnsureResampler (Some r) from_hz to_hz logged = (true, Some r, logged).
Proof. unfold EnsureResampler. by case_test. Qed.

Lemma EnsureResampler_fresh from_hz to_hz logged :
  from_hz <> to_hz -> 0 <= from_hz < 2 ^ 31 -> 0 <= to_hz < 2 ^ 31 ->
  match EnsureResampler None from_hz to_hz logged with
  | (true, Some r, l) => resampler_wf r /\ rs_from_hz r = from_hz /\ rs_to_hz r = to_hz /\ l = logged
  | (false, None, l) => l = true
  | _ => False
  end.
Proof.
  intros Hne Hf Ht. unfold EnsureResampler. case_test; [done|].
  destruct (Resampler_Create (i32 from_hz) (i32 to_hz)) as [r|] eqn:Er; [|done].
  apply Resampler_Create_wf in Er as (Hw & E1 & E2).
  assert (Hi : forall z, 0 <= z < 2 ^ 31 -> i32 z = z).
  { intros z Hz. unfold i32. rewrite Z.mod_small by lia. case_test; lia. }
  by rewrite !Hi in * by done.
Qed.

(** For a supported pair and any frame below 2^48 samples the capacity is the
    exact converted length, rounded up, plus the headroom. *)
Lemma ResampledCapacity_exact n from_hz to_hz :
  0 < n < 2 ^ 48 -> IsSupportedPair from_hz to_hz = true ->
  ResampledCapacity n from_hz to_hz = (n * to_hz + from_hz - 1) / from_hz + 16 /\
  ResampledCapacity n from_hz to_hz = ExpectedOutputSamples n from_hz to_hz.
Proof.
  intros Hn Hp. unfold ResampledCapacity, ExpectedOutputSamples, IsSupportedPair in *.
  assert (Hr : (from_hz = 8000 /\ to_hz = 16000) \/ (from_hz = 16000 /\ to_hz = 8000)).
  { apply orb_prop in Hp as [Hp|Hp]; b2p; subst; auto. }
  assert (Hb : forall a b, 0 <= a -> 0 < b -> a < 2 ^ 63 -> 0 <= a / b < 2 ^ 63).
  { intros a b Ha Hb Hlt. split; [by apply Z.div_pos|]. apply Z.le_lt_trans with a; [|done].
    by apply Z.div_le_upper_bound; nia. }
  destruct Hr as [[-> ->]|[-> ->]]; simpl;
    (destruct (Z.eqb_spec n 0); [lia|]); simpl;
    rewrite (u64_small (n * _)) by lia; rewrite (u64_small (n * _ + _)) by lia;
    rewrite (u64_small (n * _ + _ - _)) by lia; rewrite u64_small; try done;
    match goal with |- context [?a / ?b] => pose proof (Hb a b ltac:(lia) ltac:(lia) ltac:(lia)) end; lia.
Qed.
End Resampler.
