(* ===== verification/MediaSenders.v ===== *)
(** * Sending tapped audio upstream

    The read taps ([src/control/handlers/media_bug_callbacks.cc]), the recording
    relay ([src/media/recording_relay.cc]) and the bot session
    ([src/media/bot_session.cc]) end in the same three calls on the media stream
    client: [NextSeq], [AdvanceTimestamp] and [SendAudio].  Each call is atomic;
    the calls of several threads, the writer thread, control messages and the
    close interleave.  This file models that protocol on top of the client's
    session and shows what reaches the wire. *)

From S2P Require Import Prelude BoundedQueue AudioFrame StreamClient.

(** What the caller puts in the frame. *)
Record send_job := mkSendJob {
  sj_samples : list Z;
  sj_rate : Z;
  sj_channels : Z;
  sj_channel : Z;
  sj_channel_uuid : string }.

(** [static_cast<std::uint32_t>(samples.size() / ch)]. *)
Definition job_units (j : send_job) : Z := u32 (zlen (sj_samples j) / sj_channels j).

Definition job_frame (j : send_job) (seq ts : Z) : AudioFrame :=
  mkAudioFrame (sj_samples j) (sj_rate j) (sj_channels j) seq ts (sj_channel j) (sj_channel_uuid j).

(** Consecutive numbers, and timestamps that advance by the durations. *)
Fixpoint gapless (seq ts : Z) (fs : list AudioFrame) : Prop :=
  match fs with
  | [] => True
  | f :: fs' =>
      seq_ f = seq /\ timestamp_samples_ f = ts /\
      gapless (seq +u64 1) (ts +u64 u32 (sample_count f / channels_ f)) fs'
  end.

(** The timestamps alone. *)
Fixpoint stamped_from (ts : Z) (fs : list AudioFrame) : Prop :=
  match fs with
  | [] => True
  | f :: fs' => timestamp_samples_ f = ts /\ stamped_from (ts +u64 u32 (sample_count f / channels_ f)) fs'
  end.

Definition frame_job (f : AudioFrame) : send_job :=
  mkSendJob (samples_ f) (sample_rate_hz_ f) (channels_ f) (channel_ f) (channel_uuid_ f).

Section Senders.
Context {Control : Type}.

(** The three calls of one thread with nothing in between. *)
Definition send_next (j : send_job) (c : StreamClient Control) : bool * StreamClient Control :=
  let '(seq, c1) := NextSeq c in
  let '(ts, c2) := AdvanceTimestamp (job_units j) c1 in
  SendAudio (job_frame j seq ts) c2.

(** Where a sending thread is between the calls. *)
Inductive sender_pc := SNumbered (j : send_job) (seq : Z) | SStamped (f : AudioFrame).

Inductive media_label :=
| MNextSeq (th : nat) (j : send_job)
| MAdvance (th : nat)
| MSend (th : nat)
| MSession (l : session_label (Control := Control)).

(** The client with its writer, the senders, and three histories: the frames
    handed to [SendAudio], the frames in the order they got their timestamps,
    and the messages the client accepted. *)
Record media_world := mkMediaWorld {
  mw_session : session (Control := Control);
  mw_pcs : gmap nat sender_pc;
  mw_sent : list (nat * AudioFrame);
  mw_stamped : list AudioFrame;
  mw_accepted : list (FromModule Control) }.

Definition with_client (c : StreamClient Control) (s : session (Control := Control)) : session :=
  mkSession c (s_writer s) (s_calls s).

Definition media_init (c : StreamClient Control) : media_world :=
  mkMediaWorld (mkSession c WWaiting []) ∅ [] [] [].

Definition media_step (w : media_world) (lb : media_label) : option media_world :=
  let s := mw_session w in
  match lb with
  | MNextSeq th j =>
      match mw_pcs w !! th with
      | Some _ => None
      | None =>
          let '(seq, c) := NextSeq (s_client s) in
          Some (mkMediaWorld (with_client c s) (<[th := SNumbered j seq]> (mw_pcs w)) (mw_sent w)
                  (mw_stamped w) (mw_accepted w))
      end
  | MAdvance th =>
      match mw_pcs w !! th with
      | Some (SNumbered j seq) =>
          let '(ts, c) := AdvanceTimestamp (job_units j) (s_client s) in
          let f := job_frame j seq ts in
          Some (mkMediaWorld (with_client c s) (<[th := SStamped f]> (mw_pcs w)) (mw_sent w)
                  (mw_stamped w ++ [f]) (mw_accepted w))
      | _ => None
      end
  | MSend th =>
      match mw_pcs w !! th with
      | Some (SStamped f) =>
          '(acc, s') ← session_step s (LSendAudio f);
          Some (mkMediaWorld s' (delete th (mw_pcs w)) (mw_sent w ++ [(th, f)])
                  (mw_stamped w) (mw_accepted w ++ acc))
      | _ => None
      end
  | MSession (LSendAudio _) => None
  | MSession l =>
      '(acc, s') ← session_step s l;
      Some (mkMediaWorld s' (mw_pcs w) (mw_sent w) (mw_stamped w) (mw_accepted w ++ acc))
  end.

Fixpoint media_run (w : media_world) (ls : list media_label) : option media_world :=
  match ls with
  | [] => Some w
  | lb :: ls' => w1 ← media_step w lb; media_run w1 ls'
  end.

(** The jobs started, in order, with their threads. *)
Definition label_jobs (lb : media_label) : list (nat * send_job) :=
  match lb with MNextSeq th j => [(th, j)] | _ => [] end.
Definition media_jobs (ls : list media_label) : list (nat * send_job) := ls ≫= label_jobs.

Lemma send_next_run th j w :
  mw_pcs w !! th = None ->
  exists w', media_run w [MNextSeq th j; MAdvance th; MSend th] = Some w' /\
    s_client (mw_session w') = (send_next j (s_client (mw_session w))).2 /\
    mw_pcs w' = mw_pcs w.
Proof.
  intros Hpc. unfold send_next. cbn [media_run media_step]. rewrite Hpc.
  destruct (NextSeq _) as [seq c1] eqn:E1. cbn [mbind option_bind mw_pcs]. rewrite lookup_insert_eq.
  cbn [with_client s_client mw_session].
  destruct (AdvanceTimestamp _ c1) as [ts c2] eqn:E2. cbn [mbind option_bind mw_pcs]. rewrite lookup_insert_eq.
  cbn [with_client s_client s_writer s_calls mw_session session_step].
  destruct (SendAudio _ c2) as [b c3] eqn:E3. cbn. eexists. split_and!; [done..|].
  by rewrite !insert_insert_eq, delete_insert_id.
Qed.

(** ** The session under the senders *)

Definition audio_of (m : FromModule Control) : option ProtoAudioFrame :=
  match m with FMAudio p => Some p | _ => None end.

(** The audio the writes put on the wire. *)
Definition wire_audio (calls : list (wire_call Control)) : list ProtoAudioFrame :=
  omap (fun x => match x with CallWrite m true => audio_of m | _ => None end) calls.

Lemma session_inv_counters cap acc s rem ws lost seq ts :
  session_inv cap acc s rem ws lost ->
  session_inv cap acc (with_client (with_counters seq ts (s_client s)) s) rem ws lost.
Proof. intros [? ? ? ? ? ? ? ? ? ? ?]. by split. Qed.

Lemma session_step_counters (s : session (Control := Control)) l acc s' :
  session_step s l = Some (acc, s') ->
  seq_counter_ (s_client s') = seq_counter_ (s_client s) /\ ts_counter_ (s_client s') = ts_counter_ (s_client s).
Proof.
  destruct l as [f|m| | |ok]; simpl; unfold SendAudio, SendControl, RingPushLocked, Close_begin,
    WriterLoop_pop, RingPopLocked, WriterLoop_write, WritesDoneOnce; intros Hs;
    repeat (case_match; simplify_eq/=; try done).
  destruct (SendRing_pop _) as [[? ?]|]; by simplify_eq/=.
Qed.

(** Audio accepted by a step that is not a send. *)
Lemma session_step_no_audio (s : session (Control := Control)) l acc s' :
  (forall f, l <> LSendAudio f) -> session_step s l = Some (acc, s') -> omap audio_of acc = [].
Proof.
  intros Hl. destruct l as [f|m| | |ok]; simpl; [by destruct (Hl f)| | | |]; intros Hs;
    simplify_eq/=; try done; repeat (case_match; simplify_eq/=; try done).
Qed.

Lemma sublist_omap {A B} (g : A -> option B) (l k : list A) :
  l `sublist_of` k -> omap g l `sublist_of` omap g k.
Proof.
  induction 1 as [|x l k _ IH|x l k _ IH]; simpl; [done| |].
  - destruct (g x); [by apply sublist_skip|done].
  - destruct (g x); [by apply sublist_cons|done].
Qed.

Lemma popped_sublist {E} (rem : list (removal * E)) : popped rem `sublist_of` rem.*2.
Proof.
  induction rem as [|[[|] e] rem IH]; cbn; [done|by apply sublist_skip|by apply sublist_cons].
Qed.

(** What was written is part of what was accepted, in order. *)
Lemma session_inv_wire cap acc s rem ws lost :
  session_inv cap acc s rem ws lost -> wire_audio (s_calls s) `sublist_of` omap audio_of acc.
Proof.
  intros [_ _ Ha Hp Hc Hl _ _ _ _ _].
  assert (wire_audio (s_calls s) = omap audio_of ws) as ->.
  { unfold wire_audio. rewrite Hc, !omap_app.
    assert (omap (fun x => match x with CallWrite m true => audio_of m | _ => None end)
      (failed_call (s_writer s) lost) = []) as ->.
    { destruct (s_writer s) as [| |[|]]; try done. simpl. clear. by induction lost. }
    assert (omap (fun x => match x with CallWrite m true => audio_of m | _ => None end)
      (writer_tail (s_writer s)) = []) as ->
      by (by destruct (s_writer s) as [| |[|]]).
    rewrite !app_nil_r. clear. induction ws as [|m ws IH]; [done|]. cbn. rewrite IH. done. }
  apply sublist_omap. rewrite Ha. apply sublist_inserts_r.
  etrans; [|apply popped_sublist]. rewrite Hp. by apply sublist_inserts_r.
Qed.

(** ** The invariant *)

(** The entries of one thread. *)
Definition of_thread {A} (th : nat) (l : list (nat * A)) : list A := (filter (fun x => x.1 = th) l).*2.

Arguments of_thread : simpl never.

Lemma of_thread_app {A} th (l k : list (nat * A)) : of_thread th (l ++ k) = of_thread th l ++ of_thread th k.
Proof. unfold of_thread. by rewrite filter_app, fmap_app. Qed.

Lemma of_thread_one {A} th th' (a : A) : of_thread th [(th', a)] = if decide (th' = th) then [a] else [].
Proof. unfold of_thread. rewrite filter_cons. simpl. by case_decide. Qed.

Lemma of_thread_all {A} th (l : list (nat * A)) :
  Forall (fun x => x.1 = th) l -> of_thread th l = l.*2.
Proof. intros H. unfold of_thread. by rewrite filter_all_true. Qed.

(** Each job with the number of its position. *)
Definition numbered_jobs (jobs : list (nat * send_job)) : list (nat * (Z * send_job)) :=
  imap (fun i x => (x.1, (u64 (Z.of_nat i), x.2))) jobs.

Lemma numbered_jobs_snoc jobs th j :
  numbered_jobs (jobs ++ [(th, j)]) = numbered_jobs jobs ++ [(th, (u64 (zlen jobs), j))].
Proof. unfold numbered_jobs. rewrite imap_app. simpl. by rewrite Nat.add_0_r. Qed.

Definition frame_entry (f : AudioFrame) : Z * send_job := (seq_ f, frame_job f).

Definition pc_entry (p : sender_pc) : Z * send_job :=
  match p with SNumbered j seq => (seq, j) | SStamped f => frame_entry f end.

Definition pc_stamped (p : sender_pc) : list AudioFrame :=
  match p with SNumbered _ _ => [] | SStamped f => [f] end.

(** The timestamp after the frames. *)
Fixpoint end_stamp (ts : Z) (fs : list AudioFrame) : Z :=
  match fs with [] => ts | f :: fs' => end_stamp (ts +u64 u32 (sample_count f / channels_ f)) fs' end.

Lemma stamped_from_snoc fs : forall ts f,
  stamped_from ts fs -> timestamp_samples_ f = end_stamp ts fs -> stamped_from ts (fs ++ [f]).
Proof. induction fs as [|g fs IH]; intros ts f; simpl; [done|]. intros [-> H] Hf. split; [done|by apply IH]. Qed.

Lemma end_stamp_snoc fs : forall ts f,
  end_stamp ts (fs ++ [f]) = end_stamp ts fs +u64 u32 (sample_count f / channels_ f).
Proof. induction fs as [|g fs IH]; intros ts f; simpl; [done|]. apply IH. Qed.

Record media_inv (cap : nat) (jobs : list (nat * send_job)) (stamped : list (nat * AudioFrame))
  (w : media_world) : Prop := mkMediaInv {
  mi_session : exists rem ws lost, session_inv cap (mw_accepted w) (mw_session w) rem ws lost;
  mi_accepted : omap audio_of (mw_accepted w) `sublist_of` (ToProto <$> (mw_sent w).*2);
  mi_seq : seq_counter_ (s_client (mw_session w)) = u64 (zlen jobs);
  mi_jobs : forall th, of_thread th (numbered_jobs jobs) =
    (frame_entry <$> of_thread th (mw_sent w)) ++ option_list (pc_entry <$> mw_pcs w !! th);
  mi_stamped : mw_stamped w = stamped.*2;
  mi_stamps : stamped_from 0 (mw_stamped w) /\ ts_counter_ (s_client (mw_session w)) = end_stamp 0 (mw_stamped w);
  mi_order : forall th, of_thread th stamped =
    of_thread th (mw_sent w) ++ from_option pc_stamped [] (mw_pcs w !! th) }.

Lemma media_step_inv cap jobs stamped w lb w' :
  media_inv cap jobs stamped w -> media_step w lb = Some w' ->
  exists new, media_inv cap (jobs ++ label_jobs lb) (stamped ++ new) w' /\
    Forall (fun x => lb = MAdvance x.1) new.
Proof.
  intros [Hs Ha Hq Hj Hst [Hts Htc] Ho] Hstep. destruct lb as [th j|th|th|l]; cbn [label_jobs].
  - cbn [media_step] in Hstep. destruct (mw_pcs w !! th) eqn:Epc; [done|]. simplify_eq/=.
    exists []. rewrite app_nil_r. split; [|done]. split; cbn; try done.
    + destruct Hs as (rem & ws & lost & Hi). exists rem, ws, lost. by apply session_inv_counters.
    + rewrite Hq, u64_add_l, length_app. simpl. f_equal. lia.
    + intros th'. rewrite numbered_jobs_snoc, of_thread_app, of_thread_one, Hj.
      destruct (decide (th = th')) as [<-|Hne].
      * rewrite lookup_insert_eq, Epc. simpl. by rewrite app_nil_r, Hq.
      * by rewrite lookup_insert_ne, app_nil_r.
    + intros th'. rewrite Ho. destruct (decide (th = th')) as [<-|Hne].
      * by rewrite lookup_insert_eq, Epc.
      * by rewrite lookup_insert_ne.
  - cbn [media_step] in Hstep. destruct (mw_pcs w !! th) as [[j seq|f]|] eqn:Epc; [|done..].
    cbn [AdvanceTimestamp] in Hstep. simplify_eq/=. rewrite app_nil_r.
    set (f := job_frame j seq (ts_counter_ (s_client (mw_session w)))).
    exists [(th, f)]. split; [|by repeat constructor]. split; cbn; try done.
    + destruct Hs as (rem & ws & lost & Hi). exists rem, ws, lost. by apply session_inv_counters.
    + intros th'. rewrite Hj. f_equal. destruct (decide (th = th')) as [<-|Hne].
      * rewrite lookup_insert_eq, Epc. simpl. by destruct j.
      * by rewrite lookup_insert_ne.
    + by rewrite fmap_app, Hst.
    + rewrite end_stamp_snoc, <- Htc. split; [|done]. by apply stamped_from_snoc.
    + intros th'. rewrite of_thread_app, of_thread_one, Ho, <- app_assoc. f_equal.
      destruct (decide (th = th')) as [<-|Hne].
      * by rewrite lookup_insert_eq, Epc.
      * by rewrite lookup_insert_ne, app_nil_r.
  - cbn [media_step] in Hstep. destruct (mw_pcs w !! th) as [[j seq|f]|] eqn:Epc; [done| |done].
    destruct (session_step (mw_session w) (LSendAudio f)) as [[acc s']|] eqn:Es; [|done].
    cbn [mbind option_bind] in Hstep. injection Hstep as <-.
    exists []. rewrite !app_nil_r. destruct (session_step_counters _ _ _ _ Es) as [Ec1 Ec2].
    assert (Hthr : forall th' (g : sender_pc -> list AudioFrame) k,
      k = from_option g [] (mw_pcs w !! th') -> g (SStamped f) = [f] ->
      k = of_thread th' [(th, f)] ++ from_option g [] (delete th (mw_pcs w) !! th')).
    { intros th' g k -> Hg. rewrite of_thread_one. destruct (decide (th = th')) as [<-|Hne].
      - rewrite lookup_delete_eq, Epc. simpl. by rewrite Hg.
      - by rewrite lookup_delete_ne. }
    split; [|done]. split; cbn; try done.
    + destruct Hs as (rem & ws & lost & Hi). by eapply session_step_inv.
    + rewrite omap_app, !fmap_app. apply sublist_app; [done|]. simpl in Es.
      destruct (SendAudio f _) as [b c'].
      injection Es as <- _. destruct (_ || _); [apply sublist_nil_l|done].
    + by rewrite Ec1.
    + intros th'. rewrite Hj, of_thread_app, fmap_app, <- app_assoc. f_equal.
      rewrite of_thread_one. destruct (decide (th = th')) as [<-|Hne].
      * by rewrite lookup_delete_eq, Epc.
      * by rewrite lookup_delete_ne.
    + by rewrite Ec2.
    + intros th'. rewrite Ho, of_thread_app, <- app_assoc. f_equal. by apply Hthr.
  - assert (Hl : (forall f, l <> LSendAudio f) /\ exists acc s', session_step (mw_session w) l = Some (acc, s') /\
      w' = mkMediaWorld s' (mw_pcs w) (mw_sent w) (mw_stamped w) (mw_accepted w ++ acc)).
    { destruct l; [done|..]; (split; [done|]); unfold media_step in Hstep;
        destruct (session_step _ _) as [[acc s']|]; try done; cbn [mbind option_bind] in Hstep;
        injection Hstep as <-; by exists acc, s'. }
    destruct Hl as (Hne & acc & s' & Es & ->). exists []. rewrite !app_nil_r. split; [|done].
    destruct (session_step_counters _ _ _ _ Es) as [Ec1 Ec2]. split; cbn; try done.
    + destruct Hs as (rem & ws & lost & Hi). by eapply session_step_inv.
    + by rewrite omap_app, (session_step_no_audio _ _ _ _ Hne Es), app_nil_r.
    + by rewrite Ec1.
    + by rewrite Ec2.
Qed.

(** ** Runs *)

Lemma media_run_inv ls : forall cap jobs stamped w w',
  media_inv cap jobs stamped w -> media_run w ls = Some w' ->
  exists stamped', media_inv cap (jobs ++ media_jobs ls) stamped' w'.
Proof.
  induction ls as [|lb ls IH]; intros cap jobs stamped w w' Hi; cbn [media_run media_jobs mbind list_bind].
  { intros [= <-]. rewrite app_nil_r. eauto. }
  destruct (media_step w lb) as [w1|] eqn:E; [|done]. cbn [mbind option_bind]. intros Hr.
  destruct (media_step_inv _ _ _ _ _ _ Hi E) as (new & Hi1 & _).
  destruct (IH _ _ _ _ _ Hi1 Hr) as (st & H). exists st. by rewrite app_assoc.
Qed.

(** [c] is a client just opened for writing. *)
Definition opened (c : StreamClient Control) : Prop :=
  exists T A cfg (h : handshake Control T A) calls, Open true h (StreamClient_new cfg) = (Status_OK, c, calls, true).

Lemma Open_counters {T A : Type} cfg (h : handshake Control T A) c calls :
  Open true h (StreamClient_new cfg) = (Status_OK, c, calls, true) -> seq_counter_ c = 0 /\ ts_counter_ c = 0.
Proof.
  unfold Open, handshake_thread. cbn [open_ StreamClient_new]. intros H.
  repeat (case_match; simplify_eq/=); done.
Qed.

Lemma media_inv_init c : opened c -> exists cap, media_inv cap [] [] (media_init c).
Proof.
  intros (T & A & cfg & h & calls & Ho). destruct (Open_inv _ _ _ _ Ho) as [Hi _].
  destruct (Open_counters _ _ _ _ Ho) as [H1 H2]. eexists. split; cbn; try done; [by eexists _, _, _|..];
    intros th; by rewrite lookup_empty.
Qed.

Lemma media_run_spec c ls w :
  opened c -> media_run (media_init c) ls = Some w ->
  exists cap stamped, media_inv cap (media_jobs ls) stamped w.
Proof.
  intros Ho Hr. destruct (media_inv_init c Ho) as [cap Hi].
  destruct (media_run_inv _ _ _ _ _ _ Hi Hr) as [st H]. by exists cap, st.
Qed.

(** ** One sending thread *)

Lemma numbered_jobs_thread th jobs :
  Forall (fun x => x.1 = th) jobs -> of_thread th (numbered_jobs jobs) = (numbered_jobs jobs).*2.
Proof.
  intros H. apply of_thread_all. unfold numbered_jobs. apply Forall_lookup. intros i x Hx.
  rewrite list_lookup_imap in Hx. destruct (jobs !! i) as [y|] eqn:E; [|done]. simplify_eq/=.
  by apply (Forall_lookup_1 _ _ _ _ H) in E.
Qed.

(** Numbers of positions and chained timestamps make a gapless stream. *)
Lemma gapless_of_numbered fs : forall k ts jobs rest,
  (imap (fun i (x : nat * send_job) => (u64 (Z.of_nat (k + i)), x.2)) jobs) = (frame_entry <$> fs) ++ rest ->
  stamped_from ts fs -> gapless (u64 (Z.of_nat k)) ts fs.
Proof.
  induction fs as [|f fs IH]; intros k ts jobs rest Hj; [done|]. intros [Hts Hst].
  destruct jobs as [|[th j] jobs]; [done|]. cbn in Hj. injection Hj as Hseq Hjob Hj.
  cbn. split_and!; [by rewrite <- Hseq, Nat.add_0_r|done|].
  replace (u64 (Z.of_nat k) +u64 1) with (u64 (Z.of_nat (S k))) by (rewrite u64_add_l; f_equal; lia).
  apply (IH (S k) _ jobs rest); [|done]. rewrite <- Hj. apply imap_ext. intros i x _. cbn. do 3 f_equal. lia.
Qed.

Lemma numbered_jobs_snd jobs :
  (numbered_jobs jobs).*2 = imap (fun i (x : nat * send_job) => (u64 (Z.of_nat i), x.2)) jobs.
Proof. unfold numbered_jobs. by rewrite fmap_imap. Qed.

Lemma numbered_jobs_jobs (jobs : list (nat * send_job)) :
  snd <$> imap (fun i (x : nat * send_job) => (u64 (Z.of_nat i), x.2)) jobs = jobs.*2.
Proof.
  apply list_eq. intros i. rewrite !list_lookup_fmap, list_lookup_imap. by destruct (jobs !! i).
Qed.

Lemma of_thread_other {A} th th' (l : list (nat * A)) :
  Forall (fun x => x.1 = th) l -> th <> th' -> of_thread th' l = [].
Proof.
  intros H Hne. unfold of_thread. rewrite filter_all_false; [done|].
  eapply Forall_impl; [exact H|]. intros x Hx. simpl in *. congruence.
Qed.

(** With a single sending thread, the frames handed to [SendAudio] are the jobs in order, less the one in
    progress, and they are gapless. *)
Lemma single_sender cap jobs stamped w th :
  media_inv cap jobs stamped w -> Forall (fun x => x.1 = th) jobs ->
  gapless 0 0 (mw_sent w).*2 /\
  jobs.*2 = (frame_job <$> (mw_sent w).*2) ++ option_list (snd ∘ pc_entry <$> mw_pcs w !! th).
Proof.
  intros [_ _ _ Hj Hst [Hts _] Ho] Hth.
  assert (Hnum : Forall (fun x => x.1 = th) (numbered_jobs jobs)).
  { apply Forall_lookup. intros i x Hx. unfold numbered_jobs in Hx. rewrite list_lookup_imap in Hx.
    destruct (jobs !! i) as [y|] eqn:E; [|done]. simplify_eq/=. by apply (Forall_lookup_1 _ _ _ _ Hth) in E. }
  assert (Hsent : Forall (fun x => x.1 = th) (mw_sent w)).
  { apply Forall_forall. intros [th' f] Hin. simpl. destruct (decide (th = th')) as [|Hne]; [done|].
    specialize (Hj th'). rewrite (of_thread_other _ _ _ Hnum Hne) in Hj.
    symmetry in Hj. apply app_eq_nil in Hj as [Hj _]. apply fmap_nil_inv in Hj.
    unfold of_thread in Hj. apply fmap_nil_inv in Hj.
    assert (Hf : (th', f) ∈ filter (fun x => x.1 = th') (mw_sent w)) by (by apply list_elem_of_filter).
    rewrite Hj in Hf. by apply not_elem_of_nil in Hf. }
  assert (Hstm : exists rest, mw_stamped w = (mw_sent w).*2 ++ rest).
  { rewrite Hst. assert (Hall : Forall (fun x => x.1 = th) stamped).
    { apply Forall_forall. intros [th' f] Hin. simpl. destruct (decide (th = th')) as [|Hne]; [done|].
      specialize (Ho th'). specialize (Hj th'). rewrite (of_thread_other _ _ _ Hnum Hne) in Hj.
      symmetry in Hj. apply app_eq_nil in Hj as [_ Hj].
      rewrite (of_thread_other _ _ _ Hsent Hne) in Ho.
      destruct (mw_pcs w !! th'); [done|]. simpl in Ho. unfold of_thread in Ho. apply fmap_nil_inv in Ho.
      assert (Hf : (th', f) ∈ filter (fun x => x.1 = th') stamped) by (by apply list_elem_of_filter).
      rewrite Ho in Hf. by apply not_elem_of_nil in Hf. }
    specialize (Ho th). rewrite (of_thread_all _ _ Hall), (of_thread_all _ _ Hsent) in Ho. eauto. }
  specialize (Hj th). rewrite (of_thread_all _ _ Hsent), (of_thread_all _ _ Hnum), numbered_jobs_snd in Hj. split.
  - destruct Hstm as [rest Hr]. rewrite Hr in Hts.
    apply (gapless_of_numbered _ 0 0 jobs (option_list (pc_entry <$> mw_pcs w !! th))); [done|].
    revert Hts. generalize 0. generalize (mw_sent w).*2. clear.
    induction l as [|f fs IH]; intros ts; [done|]. intros [H1 H2]. split; [done|by apply IH].
  - apply (f_equal (fmap snd)) in Hj. rewrite numbered_jobs_jobs, fmap_app, <- list_fmap_compose in Hj.
    rewrite Hj. f_equal. by destruct (mw_pcs w !! th).
Qed.

Lemma media_inv_wire cap jobs stamped w :
  media_inv cap jobs stamped w -> wire_audio (s_calls (mw_session w)) `sublist_of` (ToProto <$> (mw_sent w).*2).
Proof.
  intros Hi. destruct (mi_session _ _ _ _ Hi) as (rem & ws & lost & Hs).
  etrans; [by eapply session_inv_wire|apply (mi_accepted _ _ _ _ Hi)].
Qed.

(** ** Any number of senders *)

(** What reaches the wire of a media stream, whatever threads send on it.  Take a client just opened, and any
    interleaving of sending threads (each taking a sequence number, then a timestamp, then calling [SendAudio]), the
    writer thread with succeeding or failing writes, control messages and the close.  The audio written to the wire is
    a sublist, in order, of the frames handed to [SendAudio]; each thread's frames carry that thread's jobs in order,
    each numbered with the position of its job among all the jobs started, so no number is used twice by fewer than
    2^64 jobs; the timestamps, in the order they were taken, advance by exactly the durations of the frames; and when
    a single thread sends, the frames handed over are its jobs (less the one in progress), numbered 0, 1, 2, ... with
    timestamps that are the durations summed so far. *)
Theorem media_senders_wire (c : StreamClient Control) (ls : list media_label) (w : media_world)
  (Hopen : opened c) (Hrun : media_run (media_init c) ls = Some w) :
  let jobs := media_jobs ls in
  let sent := (mw_sent w).*2 in
  wire_audio (s_calls (mw_session w)) `sublist_of` (ToProto <$> sent) /\
  (forall th, of_thread th (numbered_jobs jobs) =
     (frame_entry <$> of_thread th (mw_sent w)) ++ option_list (pc_entry <$> mw_pcs w !! th)) /\
  (zlen jobs <= 2 ^ 64 -> NoDup (numbered_jobs jobs).*2.*1) /\
  stamped_from 0 (mw_stamped w) /\
  (forall th, Forall (fun x => x.1 = th) jobs ->
     gapless 0 0 sent /\ jobs.*2 = (frame_job <$> sent) ++ option_list (snd ∘ pc_entry <$> mw_pcs w !! th)).
Proof.
  destruct (media_run_spec _ _ _ Hopen Hrun) as (cap & st & Hi). intros jobs sent. split_and!.
  - by eapply media_inv_wire.
  - apply (mi_jobs _ _ _ _ Hi).
  - intros Hlen. unfold numbered_jobs. rewrite !fmap_imap. apply NoDup_alt. intros i j x Hx Hy.
    rewrite list_lookup_imap in Hx, Hy. pose proof (lookup_lt_is_Some_1 jobs i) as Bi.
    pose proof (lookup_lt_is_Some_1 jobs j) as Bj.
    destruct (jobs !! i); [|done]. destruct (jobs !! j); [|done]. simplify_eq/=.
    specialize (Bi ltac:(eauto)). specialize (Bj ltac:(eauto)). rewrite !u64_small in * by lia. lia.
  - apply (mi_stamps _ _ _ _ Hi).
  - intros th Hth. by eapply single_sender.
Qed.
End Senders.

Lemma sample_client_opened : opened sample_client.
Proof.
  exists unit, unit, (sample_stream_config false), sample_handshake,
    (Open true sample_handshake (StreamClient_new (sample_stream_config false))).1.2.
  vm_compute. reflexivity.
Qed.

Definition sample_job (z : Z) : send_job := mkSendJob [z; z] 8000 1 0 "".

Lemma media_senders_wire_witness :
  let ls := [MNextSeq 0 (sample_job 1); MAdvance 0; MSend 0; MSession LWriterPop; MNextSeq 0 (sample_job 2); MAdvance 0;
             MSend 0; MSession (LWriterWrite true); MSession LClose] in
  exists w, media_run (media_init sample_client) ls = Some w /\ length (mw_sent w) = 2%nat /\
    gapless 0 0 (mw_sent w).*2 /\ wire_audio (s_calls (mw_session w)) `sublist_of` (ToProto <$> (mw_sent w).*2).
Proof.
  intros ls. destruct (media_run (media_init sample_client) ls) as [w|] eqn:E; [|vm_compute in E; discriminate E].
  exists w. split; [reflexivity|]. split.
  { vm_compute in E. injection E as <-. reflexivity. }
  destruct (media_senders_wire sample_client ls w sample_client_opened E) as (H1 & _ & _ & _ & H2).
  split; [|exact H1]. apply (H2 0%nat). repeat constructor.
Defined.

(** Two sending threads: the second one's frame is handed over, and written, before the first one's, so the wire
    carries number 1 before number 0, although the protocol calls the sequence monotonic within the stream. *)
Definition two_senders : list (media_label (Control := unit)) :=
  [MNextSeq 0 (sample_job 1); MNextSeq 1 (sample_job 2); MAdvance 1; MSend 1; MAdvance 0; MSend 0;
   MSession LWriterPop; MSession (LWriterWrite true); MSession LWriterPop; MSession (LWriterWrite true)].

Lemma two_senders_reorder :
  exists w, media_run (media_init sample_client) two_senders = Some w /\
    p_seq <$> wire_audio (s_calls (mw_session w)) = [1; 0] /\
    p_timestamp_samples <$> wire_audio (s_calls (mw_session w)) = [0; 2].
Proof. eexists. split; [vm_compute; reflexivity|]. split; vm_compute; reflexivity. Qed.
