(* ===== verification/MediaCallbacks.v ===== *)
(** * The media callbacks of the streams

    [OswStreamingReadTap] and [OswStreamingWriteReplace] of
    [src/control/handlers/media_bug_callbacks.cc], with the contexts of
    [src/control/handlers/media_bug_callbacks.h].  FreeSWITCH calls them on the
    media thread of the channel with a callback type; what [MediaBugRead] and
    [MediaBugGetWriteReplaceFrame] return are arguments, the frame given to
    [MediaBugSetWriteReplaceFrame] is a result.  The read tap is modelled up to
    the job it hands to the client (the three calls that follow are those of
    MediaSenders); the write callback is composed with the playout buffer. *)

From S2P Require Import Prelude BoundedQueue AudioFrame StreamClient TtsPlayout Resampler MediaSenders.

(** ** FreeSWITCH's side *)

Inductive abc_type :=
| ABC_INIT | ABC_READ | ABC_WRITE | ABC_WRITE_REPLACE | ABC_READ_REPLACE | ABC_READ_PING
| ABC_TAP_NATIVE_READ | ABC_TAP_NATIVE_WRITE | ABC_CLOSE.

#[export] Instance abc_type_eq_dec : EqDecision abc_type.
Proof. solve_decision. Defined.

(** [data] is a pointer to samples, possibly null; [datalen] is in bytes. *)
Record switch_frame := mkSwitchFrame {
  fr_data : option (list Z);
  fr_datalen : Z;
  fr_samples : Z;
  fr_rate : Z;
  fr_channels : Z;
  fr_timestamp : Z }.

(** [frame.datalen / sizeof(std::int16_t)]. *)
Definition n_samples (f : switch_frame) : Z := fr_datalen f / 2.

(** The samples from the start of a buffer. *)
Definition src_samples (data : list Z) (n : Z) : list Z := take (Z.to_nat n) data.

(** The frame after [written] samples were put at the start of its buffer and
    its fields were set. *)
Definition set_frame (out : list Z) (rate : Z) (f : switch_frame) : switch_frame :=
  mkSwitchFrame ((fun d => out ++ drop (length out) d) <$> fr_data f) (u32 (zlen out * 2)) (zlen out) rate
    (fr_channels f) (fr_timestamp f).

Section Callbacks.
Context {RS : Type} `{SwitchResample RS}.

(** ** Contexts *)

(** The fields all contexts share. *)
Record TapRates := mkTapRates {
  tr_stream_rate_hz : Z;
  tr_fs_rate_hz : Z;
  tr_resampler : option (Resampler RS);
  tr_error_logged : bool }.

Definition with_resampler (slot : option (Resampler RS)) (logged : bool) (r : TapRates) : TapRates :=
  mkTapRates (tr_stream_rate_hz r) (tr_fs_rate_hz r) slot logged.

(** The pointers say only whether they are null. *)
Record ReadCallbackCtx := mkReadCtx { rc_client : bool; rc_rates : TapRates }.

Record WriteCallbackCtx := mkWriteCtx {
  wc_buffer : bool;
  wc_rates : TapRates;
  wc_first_set_frame_logged : bool }.

(** ** The read tap *)

Definition in_rate_of (r : TapRates) (f : switch_frame) : Z :=
  if fr_rate f =? 0 then tr_fs_rate_hz r else fr_rate f.

Definition out_rate_of (r : TapRates) (in_rate : Z) : Z :=
  if tr_stream_rate_hz r =? 0 then in_rate else tr_stream_rate_hz r.

Definition channels_of (f : switch_frame) : Z := if 0 <? fr_channels f then fr_channels f else 1.

(** From the frame to the samples sent, their rate and the channels; [None]
    when the callback returns early. *)
Definition tap_convert (r : TapRates) (data : list Z) (f : switch_frame)
  : option (list Z * Z * Z) * TapRates :=
  let src := src_samples data (n_samples f) in
  let in_rate := in_rate_of r f in
  let out_rate := out_rate_of r in_rate in
  let ch := channels_of f in
  if negb (in_rate =? out_rate)
  then
    if negb (ch =? 1) then (None, r)
    else
      let '(ok, slot, logged) := EnsureResampler (tr_resampler r) in_rate out_rate (tr_error_logged r) in
      match ok, slot with
      | true, Some rs =>
          let '(out, rs') := Resampler_Process src (ResampledCapacity (n_samples f) in_rate out_rate) rs in
          let r' := with_resampler (Some rs') logged r in
          if zlen out =? 0 then (None, r') else (Some (out, out_rate, ch), r')
      | _, _ => (None, with_resampler slot logged r)
      end
  else (Some (src, out_rate, ch), r).

(** [t == kAbcTypeRead || t == kAbcTypeReadPing]. *)
Definition is_read_type (t : abc_type) : bool := bool_decide (t = ABC_READ) || bool_decide (t = ABC_READ_PING).

(** The job for the client; [bug_read] is the frame [MediaBugRead] gave, or
    [None] when it failed. *)
Definition OswStreamingReadTap (t : abc_type) (ctx : option ReadCallbackCtx) (bug_read : option switch_frame)
  : option send_job * option ReadCallbackCtx :=
  if negb (is_read_type t) then (None, ctx)
  else match ctx with
  | None => (None, ctx)
  | Some x =>
      if negb (rc_client x) then (None, ctx)
      else match bug_read with
      | None => (None, ctx)
      | Some f =>
          if fr_datalen f =? 0 then (None, ctx)
          else match fr_data f with
          | None => (None, ctx)
          | Some data =>
              let '(o, r') := tap_convert (rc_rates x) data f in
              ((fun '(out, rate, ch) => mkSendJob out rate ch 0 "") <$> o, Some (mkReadCtx (rc_client x) r'))
          end
      end
  end.

(** ** The write callback *)

(** The number of samples popped at the stream's rate for [cap] samples at the
    channel's. *)
Definition needed_at_stream_rate (cap fs_rate stream_rate : Z) : Z :=
  u32 (Z.max 1 (ResampledCapacity cap fs_rate stream_rate -u64 16)).

(** [Pop] into [out], which may be null. *)
Definition pop_into (data : option (list Z)) (cap : Z) (now : Z) (b : TtsPlayoutBuffer)
  : list Z * TtsPlayoutBuffer :=
  match data with
  | None => ([], b)
  | Some _ => let '(out, _, b') := Pop (Z.to_nat cap) now b in (out, b')
  end.

(** The value returned, the frame set, the context and the buffer. *)
Definition OswStreamingWriteReplace (t : abc_type) (ctx : option WriteCallbackCtx) (frame : option switch_frame)
  (now : Z) (b : TtsPlayoutBuffer)
  : bool * option switch_frame * option WriteCallbackCtx * TtsPlayoutBuffer :=
  match t with
  | ABC_WRITE_REPLACE =>
      match ctx with
      | None => (true, None, ctx, b)
      | Some x =>
          if negb (wc_buffer x) then (true, None, ctx, b)
          else match frame with
          | None => (true, None, ctx, b)
          | Some f =>
              let r := wc_rates x in
              let cap := n_samples f in
              let fs_rate := in_rate_of r f in
              let stream_rate := out_rate_of r fs_rate in
              let set out r' b' :=
                (true, Some (set_frame out fs_rate f), Some (mkWriteCtx (wc_buffer x) r' true), b') in
              if negb (fs_rate =? stream_rate)
              then
                let '(ok, slot, logged) := EnsureResampler (tr_resampler r) stream_rate fs_rate (tr_error_logged r) in
                let r1 := with_resampler slot logged r in
                let ctx1 := Some (mkWriteCtx (wc_buffer x) r1 (wc_first_set_frame_logged x)) in
                match ok, slot with
                | true, Some rs =>
                    let '(tmp, _, b') := Pop (Z.to_nat (needed_at_stream_rate cap fs_rate stream_rate)) now b in
                    if zlen tmp =? 0 then (negb (eos_ b'), None, ctx1, b')
                    else
                      let '(out, rs') := match fr_data f with
                                         | None => ([], rs)
                                         | Some _ => Resampler_Process tmp cap rs
                                         end in
                      let r2 := with_resampler (Some rs') logged r in
                      if zlen out =? 0
                      then (true, None, Some (mkWriteCtx (wc_buffer x) r2 (wc_first_set_frame_logged x)), b')
                      else set out r2 b'
                | _, _ => (true, None, ctx1, b)
                end
              else
                let '(out, b') := pop_into (fr_data f) cap now b in
                if zlen out =? 0 then (negb (eos_ b'), None, ctx, b') else set out r b'
          end
      end
  | _ => (true, None, ctx, b)
  end.

(** ** Runs of the read tap *)

Fixpoint tap_run (ctx : option ReadCallbackCtx) (cbs : list (abc_type * option switch_frame))
  : list send_job * option ReadCallbackCtx :=
  match cbs with
  | [] => ([], ctx)
  | (t, read) :: cbs' =>
      let '(o, ctx1) := OswStreamingReadTap t ctx read in
      let '(js, ctx2) := tap_run ctx1 cbs' in (option_list o ++ js, ctx2)
  end.

(** The samples the callback has in front of it. *)
Definition tapped (cb : abc_type * option switch_frame) : list Z :=
  if negb (is_read_type cb.1) then []
  else match cb.2 with
  | Some f =>
      if fr_datalen f =? 0 then []
      else match fr_data f with Some data => src_samples data (n_samples f) | None => [] end
  | None => []
  end.

(** The frame needs no conversion. *)
Definition at_rate (r : TapRates) (cb : abc_type * option switch_frame) : Prop :=
  match cb.2 with
  | Some f => in_rate_of r f = out_rate_of r (in_rate_of r f)
  | None => True
  end.

Definition same_rates (r r' : TapRates) : Prop :=
  tr_stream_rate_hz r = tr_stream_rate_hz r' /\ tr_fs_rate_hz r = tr_fs_rate_hz r'.

Lemma same_rates_in r r' f : same_rates r r' ->
  in_rate_of r f = in_rate_of r' f /\ forall z, out_rate_of r z = out_rate_of r' z.
Proof. unfold same_rates, in_rate_of, out_rate_of. by intros [-> ->]. Qed.

Lemma tap_convert_spec r data f o r' :
  tap_convert r data f = (o, r') ->
  same_rates r r' /\
  (in_rate_of r f = out_rate_of r (in_rate_of r f) ->
   o = Some (src_samples data (n_samples f), out_rate_of r (in_rate_of r f), channels_of f)) /\
  (forall out rate ch, o = Some (out, rate, ch) -> rate = out_rate_of r (in_rate_of r f) /\ ch = channels_of f).
Proof.
  unfold tap_convert. destruct (Z.eqb_spec (in_rate_of r f) (out_rate_of r (in_rate_of r f))) as [E|E]; simpl.
  - intros [= <- <-]. split; [done|]. split; [done|]. by intros out rate ch [= <- <- <-].
  - destruct (channels_of f =? 1); simpl; [|by intros [= <- <-]].
    destruct (EnsureResampler _ _ _ _) as [[ok slot] logged]. destruct ok, slot as [rs|];
      try (by intros [= <- <-]). destruct (Resampler_Process _ _ rs) as [out rs'].
    destruct (zlen out =? 0); intros [= <- <-]; (split; [done|]); (split; [done|]); [done|].
    by intros ? ? ? [= <- <- <-].
Qed.

(** The context of a live tap. *)
Definition live_tap (r : TapRates) (ctx : option ReadCallbackCtx) : Prop :=
  exists r', ctx = Some (mkReadCtx true r') /\ same_rates r r'.

(** A job labelled with the stream's rate. *)
Definition job_ok (r : TapRates) (j : send_job) : Prop :=
  (tr_stream_rate_hz r <> 0 -> sj_rate j = tr_stream_rate_hz r) /\ 0 < sj_channels j.

Lemma channels_of_pos f : 0 < channels_of f.
Proof. unfold channels_of. case_test; lia. Qed.

Lemma tap_step_spec r ctx t read o ctx' :
  live_tap r ctx -> OswStreamingReadTap t ctx read = (o, ctx') ->
  live_tap r ctx' /\ (forall j, o = Some j -> job_ok r j) /\
  (at_rate r (t, read) -> concat (sj_samples <$> option_list o) = tapped (t, read)).
Proof.
  intros (r0 & -> & Hr). unfold OswStreamingReadTap, tapped, at_rate. simpl.
  assert (Hlive : live_tap r (Some (mkReadCtx true r0))) by (by exists r0).
  destruct (is_read_type t); simpl; [|by intros [= <- <-]].
  destruct read as [f|]; [|by intros [= <- <-]].
  destruct (fr_datalen f =? 0); [by intros [= <- <-]|].
  destruct (fr_data f) as [data|]; [|by intros [= <- <-]].
  destruct (tap_convert r0 data f) as [o' r1] eqn:Ec. intros [= <- <-].
  destruct (tap_convert_spec _ _ _ _ _ Ec) as (Hr1 & Hat & Hjob).
  destruct (same_rates_in r r0 f Hr) as [Ein Eout]. split_and!.
  - exists r1. split; [done|]. destruct Hr, Hr1. split; congruence.
  - intros j Hj. destruct o' as [[[out rate] ch]|]; [|done]. simpl in Hj. injection Hj as <-.
    destruct (Hjob _ _ _ eq_refl) as [-> ->]. split; [|apply channels_of_pos].
    intros Hne. unfold out_rate_of. simpl. destruct Hr as [<- _]. by rewrite (proj2 (Z.eqb_neq _ _) Hne).
  - rewrite Ein, Eout. intros E. rewrite (Hat E). simpl. apply app_nil_r.
Qed.

Lemma tap_run_spec r cbs : forall ctx js ctx',
  live_tap r ctx -> tap_run ctx cbs = (js, ctx') ->
  live_tap r ctx' /\ Forall (job_ok r) js /\
  (Forall (at_rate r) cbs -> concat (sj_samples <$> js) = concat (tapped <$> cbs)).
Proof.
  induction cbs as [|[t read] cbs IH]; intros ctx js ctx' Hc; cbn [tap_run]; [by intros [= <- <-]|].
  destruct (OswStreamingReadTap t ctx read) as [o ctx1] eqn:E1.
  destruct (tap_run ctx1 cbs) as [js2 ctx2] eqn:E2. intros [= <- <-].
  destruct (tap_step_spec _ _ _ _ _ _ Hc E1) as (Hl & Ho & Hs).
  destruct (IH _ _ _ Hl E2) as (Hl2 & Hjs & Hcat). split_and!; [done| |].
  - apply Forall_app. split; [|done]. destruct o; [|constructor]. constructor; [by apply Ho|constructor].
  - intros [Hat Hats]%Forall_cons. by rewrite fmap_app, concat_app, (Hs Hat), (Hcat Hats).
Qed.

(** ** Conversion

    The stream is at [to], the channel delivers mono audio at [to] or at [from],
    the other rate of a supported pair, and FreeSWITCH makes the filter [s0]. *)

Record conversion (r : TapRates) (from to : Z) (s0 : RS) : Prop := {
  cv_pair : IsSupportedPair from to = true;
  cv_stream : tr_stream_rate_hz r = to;
  cv_fresh : tr_resampler r = None;
  cv_filter : switch_resample_create from to 8192 = Some s0;
  cv_room s l : zlen l <= 4088 -> zlen (switch_resample_process s l).2 <= ExpectedOutputSamples (zlen l) from to }.

(** A frame of at most 4088 samples (what the filter's buffer takes), all there. *)
Definition convertible (r : TapRates) (from to : Z) (cb : abc_type * option switch_frame) : Prop :=
  forall f, cb.2 = Some f ->
    (in_rate_of r f = to \/ (in_rate_of r f = from /\ channels_of f = 1)) /\ n_samples f <= 4088 /\
    forall data, fr_data f = Some data -> n_samples f <= zlen data.

(** What the stream is sent: the audio at its rate as it is, the other through
    one filter, frame after frame. *)
Definition convert_block (rate to : Z) (s : RS) (src : list Z) : list Z * RS :=
  if decide (src = []) then ([], s)
  else if decide (rate = to) then (src, s)
  else let '(s', out) := switch_resample_process s src in (out, s').

Fixpoint converted (r : TapRates) (to : Z) (s : RS) (cbs : list (abc_type * option switch_frame)) : list Z :=
  match cbs with
  | [] => []
  | cb :: cbs' =>
      let '(out, s') := match cb.2 with
                        | Some f => convert_block (in_rate_of r f) to s (tapped cb)
                        | None => ([], s)
                        end in
      out ++ converted r to s' cbs'
  end.

Section conversion.
Context (r : TapRates) (from to : Z) (s0 : RS) (Hcv : conversion r from to s0).

(** The tap's slot when the filter is in state [s]. *)
Definition holds_filter (r' : TapRates) (s : RS) : Prop :=
  same_rates r r' /\
  ((tr_resampler r' = None /\ s = s0) \/ tr_resampler r' = Some (mkResampler s from to 8192)).

Lemma supported_pair_rates : (from = 8000 /\ to = 16000) \/ (from = 16000 /\ to = 8000).
Proof using Hcv.
  pose proof (cv_pair _ _ _ _ Hcv) as Hp. unfold IsSupportedPair in Hp.
  apply orb_prop in Hp as [Hp|Hp]; b2p; auto.
Qed.

Lemma EnsureResampler_holds r' s logged :
  holds_filter r' s ->
  exists l, EnsureResampler (tr_resampler r') from to logged = (true, Some (mkResampler s from to 8192), l).
Proof using Hcv.
  intros [_ [[-> ->]| ->]]; [|eexists; apply EnsureResampler_sticky].
  unfold EnsureResampler, Resampler_Create. pose proof (cv_filter _ _ _ _ Hcv) as Hf.
  assert (Hi : i32 from = from /\ i32 to = to /\ (from =? to) = false)
    by (destruct supported_pair_rates as [[-> ->]|[-> ->]]; done).
  destruct Hi as (-> & -> & ->). rewrite (cv_pair _ _ _ _ Hcv), Hf. cbn [negb]. by eexists.
Qed.

Lemma ExpectedOutput_bound n :
  0 < n <= 4088 -> 0 < ResampledCapacity n from to <= 8192 /\ ResampledCapacity n from to = ExpectedOutputSamples n from to.
Proof using Hcv.
  intros Hn. destruct (ResampledCapacity_exact n from to ltac:(lia) (cv_pair _ _ _ _ Hcv)) as [E1 E2].
  split; [|exact E2]. rewrite E1.
  destruct supported_pair_rates as [[-> ->]|[-> ->]]; split; Z.to_euclidean_division_equations; lia.
Qed.

Lemma tap_convert_converts r' s data f o r'' :
  holds_filter r' s -> convertible r from to (ABC_READ, Some f) -> fr_data f = Some data ->
  tap_convert r' data f = (o, r'') ->
  exists s', holds_filter r'' s' /\
    convert_block (in_rate_of r f) to s (src_samples data (n_samples f)) =
      (default [] ((fun '(out, _, _) => out) <$> o), s').
Proof using Hcv.
  intros Hh Hc Hd. destruct (Hc f eq_refl) as (Hrate & Hn & Hdata). specialize (Hdata data Hd).
  pose proof Hh as [Hsame Hslot]. destruct (same_rates_in r r' f Hsame) as [Ein Eout].
  assert (Eo : out_rate_of r (in_rate_of r f) = to).
  { unfold out_rate_of. rewrite (cv_stream _ _ _ _ Hcv). destruct supported_pair_rates as [[_ ->]|[_ ->]]; done. }
  unfold tap_convert. rewrite <- Ein, <- Eout, Eo. clear Hd.
  destruct (decide (in_rate_of r f = to)) as [E|E].
  { rewrite (proj2 (Z.eqb_eq _ _) E). cbn [negb]. intros [= <- <-]. exists s. split; [done|].
    unfold convert_block. rewrite (decide_True _ _ E). case_decide as Hn0; [by rewrite Hn0|done]. }
  destruct Hrate as [Hr|[Hr Hch]]; [done|]. rewrite (proj2 (Z.eqb_neq _ _) E), Hch, Hr. cbn [negb Z.eqb Pos.eqb].
  destruct (EnsureResampler_holds r' s (tr_error_logged r') Hh) as [lg ->].
  remember (src_samples data (n_samples f)) as src eqn:Esrc.
  assert (Hkeep : forall s', holds_filter (with_resampler (Some (mkResampler s' from to 8192)) lg r') s').
  { intros s'. split; [exact Hsame|by right]. }
  unfold Resampler_Process. cbn [rs_max_output_samples rs_from_hz rs_to_hz rs_resampler].
  destruct (zlen src =? 0) eqn:E0; b2p.
  { assert (src = []) as -> by (by destruct src). intros [= <- <-].
    exists s. by split; [apply Hkeep|]. }
  assert (Hlen : zlen src = n_samples f).
  { rewrite Esrc in *. unfold src_samples in *. rewrite length_take in *. lia. }
  assert (Hpos : 0 < n_samples f) by lia.
  destruct (ExpectedOutput_bound (n_samples f) ltac:(lia)) as [Hb He]. rewrite Hlen.
  destruct (Z.ltb_spec 8192 (ExpectedOutputSamples (n_samples f) from to)); [lia|].
  pose proof (cv_room _ _ _ _ Hcv s src ltac:(lia)) as Hroom. rewrite Hlen in Hroom.
  destruct (switch_resample_process s src) as [s' out] eqn:Ep. cbn [snd] in Hroom.
  unfold convert_block. rewrite decide_False by (intros Hn0; rewrite Hn0 in Hlen; simpl in Hlen; lia).
  rewrite decide_False, Ep by congruence.
  destruct (Z.eqb_spec (zlen out) 0) as [Ez|Ez].
  - cbn. intros [= <- <-]. exists s'. split; [apply Hkeep|].
    by assert (out = []) as -> by (by destruct out).
  - destruct (Z.ltb_spec (ResampledCapacity (n_samples f) from to) (zlen out)); [lia|].
    rewrite (proj2 (Z.eqb_neq _ _) Ez). intros [= <- <-]. exists s'. by split; [apply Hkeep|].
Qed.

Lemma tap_run_converts cbs : forall r' s js ctx',
  holds_filter r' s -> Forall (convertible r from to) cbs ->
  tap_run (Some (mkReadCtx true r')) cbs = (js, ctx') -> concat (sj_samples <$> js) = converted r to s cbs.
Proof using Hcv.
  induction cbs as [|[t read] cbs IH]; intros r' s js ctx' Hh Hok; cbn [tap_run converted]; [by intros [= <- <-]|].
  apply Forall_cons in Hok as [Ho Hos]. unfold OswStreamingReadTap, tapped. cbn [fst snd rc_client rc_rates negb].
  assert (Hskip : forall js ctx', (let '(js0, ctx2) := tap_run (Some (mkReadCtx true r')) cbs in
                    (option_list (A:=send_job) None ++ js0, ctx2)) = (js, ctx') ->
                  concat (sj_samples <$> js) = converted r to s cbs).
  { intros js0 ctx0. destruct (tap_run _ cbs) as [js1 ctx1] eqn:E. intros [= <- <-]. by eapply IH. }
  assert (Hnil : forall rate, convert_block rate to s [] = ([], s)) by done.
  destruct (is_read_type t); cbn [negb]; [|destruct read; rewrite ?Hnil; apply Hskip].
  destruct read as [f|]; [|apply Hskip]. destruct (fr_datalen f =? 0); [rewrite Hnil; apply Hskip|].
  destruct (fr_data f) as [data|] eqn:Ed; [|rewrite Hnil; apply Hskip].
  destruct (tap_convert r' data f) as [o r1] eqn:Ec.
  destruct (tap_convert_converts _ _ _ _ _ _ Hh Ho Ed Ec) as (s' & Hh' & Heq).
  destruct (tap_run (Some (mkReadCtx true r1)) cbs) as [js1 ctx1] eqn:E. intros [= <- <-].
  rewrite fmap_app, concat_app, (IH _ _ _ _ Hh' Hos E), Heq. f_equal.
  destruct o as [[[out rate] ch]|]; cbn; [apply app_nil_r|done].
Qed.
End conversion.


(** ** Runs of the write callback *)

Inductive wr_event :=
| WPush (frame : AudioFrame) (now : Z)
| WEos
| WCallback (t : abc_type) (frame : option switch_frame) (now : Z).

(** The samples of the frame set. *)
Definition set_samples (o : option switch_frame) : list Z :=
  match o with Some f => src_samples (default [] (fr_data f)) (fr_samples f) | None => [] end.

(** The capacity, the value returned and the samples set, of each callback that has a frame to fill. *)
Definition wr_step (ctx : option WriteCallbackCtx) (e : wr_event) (b : TtsPlayoutBuffer)
  : list (Z * bool * list Z) * option WriteCallbackCtx * TtsPlayoutBuffer :=
  match e with
  | WPush f now => ([], ctx, (Push f now b).2)
  | WEos => ([], ctx, SignalEndOfStream b)
  | WCallback t frame now =>
      let '(ret, set, ctx', b') := OswStreamingWriteReplace t ctx frame now b in
      (match t, frame with
       | ABC_WRITE_REPLACE, Some f => [(n_samples f, ret, set_samples set)]
       | _, _ => []
       end, ctx', b')
  end.

Fixpoint wr_run (ctx : option WriteCallbackCtx) (es : list wr_event) (b : TtsPlayoutBuffer)
  : list (Z * bool * list Z) * TtsPlayoutBuffer :=
  match es with
  | [] => ([], b)
  | e :: es' =>
      let '(o, ctx1, b1) := wr_step ctx e b in
      let '(os, b2) := wr_run ctx1 es' b1 in (o ++ os, b2)
  end.

(** What an event asks of the playout buffer. *)
Definition wr_op (e : wr_event) : list tts_op :=
  match e with
  | WPush f now => [OpPush f now]
  | WEos => [OpEos]
  | WCallback ABC_WRITE_REPLACE (Some f) now => [OpPop (Z.to_nat (n_samples f)) now]
  | WCallback _ _ _ => []
  end.

Definition wr_ops (es : list wr_event) : list tts_op := es ≫= wr_op.

(** The callback of a packet: it sets the packet, whole; with none to set it keeps
    the replacement going, until the stream has ended. *)
Definition callback_of (e : playout_event) : list (Z * bool * list Z) :=
  match e with
  | PlEvict _ => []
  | PlPlay cap real pad _ ended =>
      [(Z.of_nat cap, negb (bool_decide (real ++ pad = []) && ended), real ++ pad)]
  end.

(** Frames the playout buffer takes, and write frames that have a buffer and are at the stream's rate. *)
Definition wr_event_ok (r : TapRates) (e : wr_event) : Prop :=
  match e with
  | WPush f _ => sample_count f < 2 ^ 32
  | WEos => True
  | WCallback t frame _ =>
      at_rate r (t, frame) /\ forall f, frame = Some f -> 0 <= fr_datalen f /\ is_Some (fr_data f)
  end.

Lemma src_samples_set out rate f :
  is_Some (fr_data f) -> set_samples (Some (set_frame out rate f)) = out.
Proof.
  intros [d E]. unfold set_samples, set_frame, src_samples. simpl. rewrite E. simpl.
  rewrite Nat2Z.id. apply take_app_length.
Qed.

Definition live_writer (r : TapRates) (ctx : option WriteCallbackCtx) : Prop :=
  exists logged, ctx = Some (mkWriteCtx true r logged).

Lemma wr_step_refines r ctx e b os ctx' b' :
  tts_wf b -> live_writer r ctx -> wr_event_ok r e -> wr_step ctx e b = (os, ctx', b') ->
  live_writer r ctx' /\
  exists evs, playout_accounts b (wr_op e) evs (evs ≫= ev_out) b' /\ os = evs ≫= callback_of.
Proof.
  intros Hw [logged ->] Hok Hs. assert (Hl : live_writer r (Some (mkWriteCtx true r logged))) by (by eexists).
  destruct e as [f now| |t frame now]; cbn [wr_step] in Hs.
  - simplify_eq. split; [done|]. destruct (Push_refines f now b Hw Hok) as (evs & A & _). exists evs.
    rewrite <- (pa_outs _ _ _ _ _ A). split; [done|]. pose proof (pa_outs _ _ _ _ _ A) as Ho.
    clear - Ho. induction evs as [|[l|] evs IH]; [done| |done]. by apply IH.
  - simplify_eq. split; [done|]. exists []. split; [|done].
    destruct (tts_step_refines OpEos b [] (SignalEndOfStream b) Hw I eq_refl) as (evs & A).
    pose proof (pa_ref _ _ _ _ _ A) as R. cbn in R. injection R as <-. exact A.
  - destruct (decide (t = ABC_WRITE_REPLACE /\ is_Some frame)) as [[-> [f ->]]|Hno].
    2: { assert (wr_op (WCallback t frame now) = []) as -> by (destruct t, frame; try done; destruct Hno; eauto).
      assert (os = [] /\ ctx' = Some (mkWriteCtx true r logged) /\ b' = b) as (-> & -> & ->)
        by (destruct t, frame; cbn in Hs; simplify_eq; try done; destruct Hno; eauto).
      split; [done|]. exists []. split; [by apply playout_accounts_refl|done]. }
    destruct Hok as [Hat Hf]. destruct (Hf f eq_refl) as [Hlen [d Hd]].
    cbn [OswStreamingWriteReplace wc_buffer wc_rates negb] in Hs. unfold at_rate in Hat. simpl in Hat.
    rewrite (proj2 (Z.eqb_eq _ _) Hat) in Hs. cbn [negb] in Hs. unfold pop_into in Hs. rewrite Hd in Hs.
    pose proof (Pop_event (Z.to_nat (n_samples f)) now b Hw) as HP. cbn [wr_op].
    destruct (Pop _ now b) as [[out au] b1]. destruct HP as (real & pad & short & Ho & A).
    assert (Hcap : 0 <= n_samples f) by (unfold n_samples; by apply Z.div_pos).
    destruct (zlen out =? 0) eqn:E0; b2p.
    + assert (out = []) as Hn by (by apply nil_length_inv; lia). injection Hs as <- <- <-. split; [done|].
      eexists. split; [rewrite <- (pa_outs _ _ _ _ _ A); exact A|]. cbn. rewrite <- Ho, Hn.
      by rewrite Z2Nat.id, bool_decide_true by done.
    + injection Hs as <- <- <-. split; [by eexists|].
      pose proof (src_samples_set out (in_rate_of r f) f ltac:(by eexists)) as Hset. eexists. split; [rewrite <- (pa_outs _ _ _ _ _ A); exact A|]. cbn. rewrite <- Ho.
      rewrite Z2Nat.id, bool_decide_false by (first [done|intros Hn; rewrite Hn in E0; by destruct E0]).
      exact (f_equal (fun o => [(n_samples f, true, o)]) Hset).
Qed.

Lemma wr_run_refines r es : forall ctx b os b',
  tts_wf b -> live_writer r ctx -> Forall (wr_event_ok r) es -> wr_run ctx es b = (os, b') ->
  exists evs, playout_accounts b (wr_ops es) evs (evs ≫= ev_out) b' /\ os = evs ≫= callback_of.
Proof.
  induction es as [|e es IH]; intros ctx b os b' Hw Hl Hok; cbn [wr_run].
  { intros [= <- <-]. exists []. split; [by apply playout_accounts_refl|done]. }
  apply Forall_cons in Hok as [Ho Hos]. destruct (wr_step ctx e b) as [[o ctx1] b1] eqn:E1.
  destruct (wr_run ctx1 es b1) as [os2 b2] eqn:E2. intros [= <- <-].
  destruct (wr_step_refines _ _ _ _ _ _ _ Hw Hl Ho E1) as (Hl1 & s1 & A & ->).
  destruct (IH _ _ _ _ (pa_wf _ _ _ _ _ A) Hl1 Hos E2) as (s2 & B & ->).
  exists (s1 ++ s2). rewrite !bind_app. split; [|done]. exact (playout_accounts_trans _ _ _ _ _ _ _ _ _ A B).
Qed.

(** C27. What a channel hears from a stream.  For any interleaving of upstream
    frames, the end of the stream and callbacks whose frames have a buffer and are
    at the stream's rate, from an empty playout buffer: the packets set on the
    channel are those of the playout reference [ref_run], a pop for each write
    callback and a push for each upstream frame, in the order they happen.  So a
    callback sets a full packet, the next samples queued followed by the
    reference's padding, or it sets nothing: then its frame has no room, or the
    stream has ended and nothing is queued, and it asks to end the replacement
    exactly when the stream has ended.  The audio pushed is, in order, the samples
    played and the samples evicted, followed by what is still queued, and the
    counters count the evictions and the underruns. *)
Theorem StreamingWriteReplace_plays (cfg : TtsConfig) (r : TapRates) (logged : bool) (es : list wr_event)
  (os : list (Z * bool * list Z)) (b : TtsPlayoutBuffer)
  (Hok : Forall (wr_event_ok r) es)
  (Hrun : wr_run (Some (mkWriteCtx true r logged)) es (TtsPlayoutBuffer_new cfg) = (os, b)) :
  exists evs,
    ref_run cfg (wr_ops es) playout_init = (evs, abs b) /\
    os = evs ≫= callback_of /\
    Forall (fun '(cap, keep, out) => zlen out = cap \/ (out = [] /\ keep = false)) os /\
    pushed_samples (wr_ops es) = (evs ≫= ev_left) ++ (po_queue (abs b) ≫= snd) /\
    OverrunCount b = u64 (ev_total ev_evicts evs) /\
    UnderrunCount b = u64 (ev_total ev_shorts evs).
Proof.
  destruct (wr_run_refines r es _ _ _ _ (tts_wf_new cfg) ltac:(by eexists) Hok Hrun)
    as (evs & [A1 A2 A3 _ A5 A6 A7 A8] & ->).
  exists evs. split; [exact A3|]. split; [done|]. split; [|split; [|done]].
  - clear - A5. induction A5 as [|e evs He _ IH]; [constructor|]. cbn [mbind list_bind].
    apply Forall_app. split; [|exact IH]. destruct e as [l|cap real pad short ended]; [constructor|].
    constructor; [|constructor]. destruct He as [He|[-> ->]]; [left|by right]. unfold zlen. by rewrite He.
  - rewrite <- remaining_abs by done. exact A6.
Qed.
End Callbacks.

(** ** Instances *)

(** A filter that repeats each sample. *)
Definition doubler : SwitchResample unit :=
  {| switch_resample_create := fun _ _ _ => Some tt;
     switch_resample_process := fun _ l => (tt, l ≫= (fun s => [s; s])) |}.

Definition pcm_frame (samples : list Z) (rate : Z) : switch_frame :=
  mkSwitchFrame (Some samples) (2 * zlen samples) (zlen samples) rate 1 0.

Definition demo_rates : TapRates (RS := unit) := mkTapRates 8000 8000 None false.

Definition demo_taps : list (abc_type * option switch_frame) :=
  [(ABC_INIT, None); (ABC_READ, Some (pcm_frame [1; 2] 8000)); (ABC_WRITE, None); (ABC_READ, None);
   (ABC_READ_PING, Some (pcm_frame [3; 4] 0)); (ABC_CLOSE, None)].

(** A channel at 8 kHz on a stream at 16 kHz. *)
Definition wide_rates : TapRates (RS := unit) := mkTapRates 16000 8000 None false.

Lemma wide_conversion : conversion (H := doubler) wide_rates 8000 16000 tt.
Proof.
  split; try reflexivity. intros [] l Hmax.
  assert (Hd : zlen (l ≫= (fun s => [s; s])) = 2 * zlen l) by (clear Hmax; induction l as [|x l IH]; cbn in *; lia).
  cbn [switch_resample_process doubler snd]. rewrite Hd. pose proof (Nat2Z.is_nonneg (length l)) as Hl. fold (zlen l) in Hl.
  unfold ExpectedOutputSamples. destruct (Z.eqb_spec (zlen l) 0); [cbn; lia|]. cbn [orb Z.leb Z.compare].
  rewrite (u64_small (zlen l * 16000)), (u64_small (_ + 8000)), (u64_small (_ - 1)) by lia.
  rewrite u64_small; Z.to_euclidean_division_equations; lia.
Qed.


Definition demo_writes : list wr_event :=
  [WPush (tts_sample_frame 1) 0; WCallback ABC_WRITE_REPLACE (Some (pcm_frame (zeros 12) 8000)) 0;
   WCallback ABC_WRITE_REPLACE (Some (pcm_frame (zeros 4) 8000)) 0; WEos;
   WPush (tts_sample_frame 2) 0; WCallback ABC_WRITE_REPLACE (Some (pcm_frame (zeros 12) 8000)) 0;
   WCallback ABC_WRITE_REPLACE (Some (pcm_frame (zeros 12) 8000)) 0].

Lemma StreamingWriteReplace_plays_witness :
  let r := wr_run (H := doubler) (Some (mkWriteCtx true demo_rates false)) demo_writes
             (TtsPlayoutBuffer_new (mkTtsConfig 1 10 kRepeatLast)) in
  r.1 = [(12, true, repeat 1 8 ++ repeat 1 4); (4, true, repeat 1 4); (12, true, repeat 2 8 ++ zeros 4); (12, false, [])] /\
  UnderrunCount r.2 = 2.
Proof.
  intros r.
  assert (Hok : Forall (wr_event_ok demo_rates) demo_writes).
  { unfold demo_writes, wr_event_ok, at_rate.
    repeat first [apply Forall_nil_2 | apply Forall_cons_2]; try exact I; try (vm_compute; reflexivity);
      (split; [vm_compute; reflexivity|]; intros f [= <-]; split; [vm_compute; discriminate|vm_compute; eauto]). }
  destruct (@StreamingWriteReplace_plays unit doubler (mkTtsConfig 1 10 kRepeatLast) demo_rates false demo_writes r.1 r.2
    Hok (surjective_pairing _)) as (evs & Hr & Ho & _ & _ & _ & Hu).
  rewrite Ho, Hu. vm_compute in Hr. injection Hr as <-. split; reflexivity.
Defined.

(** ** Two defects *)

(** A write frame without room, on a channel whose rate differs from the stream's: the subtraction wraps, and the
    callback pops 2^32 - 16 samples out of the playout buffer for a frame that takes none. *)
Lemma empty_write_frame_pops fs_rate stream_rate :
  needed_at_stream_rate 0 fs_rate stream_rate = 2 ^ 32 - 16.
Proof. vm_compute. reflexivity. Qed.

(** The resampler made for the first frame's rate is kept: after an 8 kHz frame, 48 kHz audio (a pair the wrapper
    rejects) is run through the 8 kHz to 16 kHz filter and sent as 16 kHz audio, twelve samples where two are due. *)
Lemma rate_change_mislabelled :
  let ctx := Some (mkReadCtx true (mkTapRates (RS := unit) 16000 8000 None false)) in
  Supports 48000 16000 = false /\
  (tap_run (H := doubler) ctx
     [(ABC_READ, Some (pcm_frame [1; 2; 3] 8000)); (ABC_READ, Some (pcm_frame [1; 2; 3; 4; 5; 6] 48000))]).1 =
  [mkSendJob [1; 1; 2; 2; 3; 3] 16000 1 0 "";
   mkSendJob [1; 1; 2; 2; 3; 3; 4; 4; 5; 5; 6; 6] 16000 1 0 ""].
Proof. split; vm_compute; reflexivity. Qed.
