(* ===== verification/RecordingRelay.v ===== *)
(** * The recording relay

    [src/media/recording_relay.cc] and [include/osw/media/recording_relay.h]: a
    read tap and a write tap feed one relay, which sends either the write side
    as mono or both sides, paired by the stereo pairer, as interleaved stereo.
    A third thread ticks the pairer.  The taps' frames are lists of samples
    ([MonoSamplesFromFrame] is modelled on the FreeSWITCH frame); the times the
    code reads from the clock are arguments; the three calls on the client that
    send a frame are those of MediaSenders, so an operation here produces a job.
    What [SendAudio] returned decides only about an audit event and is an
    argument. *)

From S2P Require Import Prelude BoundedQueue AudioFrame StereoPairer StreamClient Resampler MediaSenders MediaCallbacks.

Definition kBothInterleavedChannel : Z := 3.
Definition kAuditRateLimit : Z := 60 * 1000000000.

(** ** The taps' frames *)

(** [for (i = 0; i < total; i += channels) push_back(src[i])]: every
    [channels]-th sample; the fuel is the length. *)
Fixpoint every_nth (fuel : nat) (channels : nat) (l : list Z) : list Z :=
  match fuel, l with
  | S fuel', s :: _ => s :: every_nth fuel' channels (drop channels l)
  | _, _ => []
  end.

(** The data of the frame is not null. *)
Definition MonoSamplesFromFrame (data : list Z) (f : switch_frame) : list Z :=
  let src := src_samples data (n_samples f) in
  let channels := channels_of f in
  if channels <=? 1 then src else every_nth (length src) (Z.to_nat channels) src.

(** ** The relay *)

Record RecordingRelayConfig := mkRelayConfig {
  rl_stereo : bool;
  rl_sample_rate_hz : Z;
  rl_read_fs_rate_hz : Z;
  rl_write_fs_rate_hz : Z;
  rl_desync_warn_ms : Z;
  rl_desync_timeout_ms : Z }.

Definition rl_pairer_config (cfg : RecordingRelayConfig) : PairerConfig :=
  mkPairerConfig (rl_sample_rate_hz cfg) (rl_desync_warn_ms cfg) (rl_desync_timeout_ms cfg).

Inductive relay_audit := LrDesync | SendOverflow | RelayStopped.

Section Relay.
Context {RS : Type} `{SwitchResample RS}.

(** One resampler slot and its log flag. *)
Definition slot : Type := option (Resampler RS) * bool.

(** [tick_thread_.joinable()] is [rr_tick_thread]; the client pointer says only
    whether it is null. *)
Record RecordingRelay := mkRelay {
  rr_client : bool;
  rr_cfg : RecordingRelayConfig;
  rr_pairer : StereoFramePairer;
  rr_stopped : bool;
  rr_tick_thread : bool;
  rr_stopped_audit_emitted : bool;
  rr_desync_episode : bool;
  rr_read_slot : slot;
  rr_write_slot : slot;
  rr_last_overflow_emit : Z;
  rr_last_desync_emit : Z }.

Definition RecordingRelay_new (client : bool) (cfg : RecordingRelayConfig) : RecordingRelay :=
  mkRelay client cfg (StereoFramePairer_new (rl_pairer_config cfg)) false false false false
    (None, false) (None, false) 0 0.

Definition with_run (stopped thread emitted : bool) (r : RecordingRelay) : RecordingRelay :=
  mkRelay (rr_client r) (rr_cfg r) (rr_pairer r) stopped thread emitted (rr_desync_episode r)
    (rr_read_slot r) (rr_write_slot r) (rr_last_overflow_emit r) (rr_last_desync_emit r).

Definition with_pairer (p : StereoFramePairer) (episode : bool) (r : RecordingRelay) : RecordingRelay :=
  mkRelay (rr_client r) (rr_cfg r) p (rr_stopped r) (rr_tick_thread r) (rr_stopped_audit_emitted r) episode
    (rr_read_slot r) (rr_write_slot r) (rr_last_overflow_emit r) (rr_last_desync_emit r).

Definition with_slot (left : bool) (s : slot) (r : RecordingRelay) : RecordingRelay :=
  mkRelay (rr_client r) (rr_cfg r) (rr_pairer r) (rr_stopped r) (rr_tick_thread r) (rr_stopped_audit_emitted r)
    (rr_desync_episode r) (if left then s else rr_read_slot r) (if left then rr_write_slot r else s)
    (rr_last_overflow_emit r) (rr_last_desync_emit r).

Definition with_emits (overflow desync : Z) (r : RecordingRelay) : RecordingRelay :=
  mkRelay (rr_client r) (rr_cfg r) (rr_pairer r) (rr_stopped r) (rr_tick_thread r) (rr_stopped_audit_emitted r)
    (rr_desync_episode r) (rr_read_slot r) (rr_write_slot r) overflow desync.

(** [thread_ok] says whether [std::thread] could be made. *)
Definition Relay_Start (thread_ok : bool) (r : RecordingRelay) : RecordingRelay :=
  if negb (rl_stereo (rr_cfg r)) then with_run false (rr_tick_thread r) (rr_stopped_audit_emitted r) r
  else if rr_tick_thread r then r
  else with_run (negb thread_ok) thread_ok (rr_stopped_audit_emitted r) r.

(** Joins the tick thread. *)
Definition Relay_Stop (r : RecordingRelay) : RecordingRelay :=
  with_run true false (rr_stopped_audit_emitted r) r.

Definition Relay_EmitStopped (r : RecordingRelay) : list relay_audit * RecordingRelay :=
  if rr_stopped_audit_emitted r then ([], r)
  else ([RelayStopped], with_run (rr_stopped r) (rr_tick_thread r) true r).

(** [EmitRateLimited]: whether the event is emitted, and the time kept. *)
Definition EmitRateLimited (now last_emit : Z) : bool * Z :=
  if negb (last_emit =? 0) && (now - last_emit <? kAuditRateLimit) then (false, last_emit) else (true, now).

Definition emit_desync (now : Z) (r : RecordingRelay) : list relay_audit * RecordingRelay :=
  let '(b, t) := EmitRateLimited now (rr_last_desync_emit r) in
  (if b then [LrDesync] else [], with_emits (rr_last_overflow_emit r) t r).

Definition emit_overflow (now : Z) (r : RecordingRelay) : list relay_audit * RecordingRelay :=
  let '(b, t) := EmitRateLimited now (rr_last_overflow_emit r) in
  (if b then [SendOverflow] else [], with_emits t (rr_last_desync_emit r) r).

(** The returned flag, [*out], and the relay. *)
Definition ResampleIfNeeded (left : bool) (from_hz : Z) (input : list Z) (r : RecordingRelay)
  : bool * list Z * RecordingRelay :=
  let to_hz := rl_sample_rate_hz (rr_cfg r) in
  if zlen input =? 0 then (false, [], r)
  else if from_hz =? 0 then (false, [], r)
  else if from_hz =? to_hz then (true, [], r)
  else
    let '(o, logged) := if left then rr_read_slot r else rr_write_slot r in
    let o1 := match o with Some rs => Some rs | None => Resampler_Create (i32 from_hz) (i32 to_hz) end in
    match o1 with
    | None => (false, [], with_slot left (None, true) r)
    | Some rs =>
        let '(out, rs') := Resampler_Process input (ResampledCapacity (zlen input) from_hz to_hz) rs in
        (negb (zlen out =? 0), out, with_slot left (Some rs', logged) r)
    end.

(** [for (i = 0; i < n; ++i) push_back(ReadInt16Le(bytes, i))]; [None] when a
    read is out of bounds. *)
Fixpoint read_loop (bytes : list Z) (i n : nat) : option (list Z) :=
  match n with
  | O => Some []
  | S n' => s ← ReadInt16Le bytes i; l ← read_loop bytes (S i) n'; Some (s :: l)
  end.

(** A frame is dropped, read out of bounds, or becomes a job. *)
Inductive flush_result := FlushNothing | FlushOutOfBounds | FlushJob (j : send_job).

Definition FlushPairedFrame (paired : PairedFrame) (r : RecordingRelay) : flush_result :=
  if negb (rr_client r) || (samples_per_channel paired =? 0) || (zlen (interleaved paired) =? 0) then FlushNothing
  else if negb (rl_stereo (rr_cfg r)) then FlushNothing
  else
    let n := u32 (samples_per_channel paired * 2) in
    match read_loop (interleaved paired) 0 (Z.to_nat n) with
    | None => FlushOutOfBounds
    | Some samples => FlushJob (mkSendJob samples (rl_sample_rate_hz (rr_cfg r)) 2 kBothInterleavedChannel "")
    end.

(** What follows a call on the pairer, in [PushSide] and in [TickLoop]: the
    desync episode, then the flush.  [p'] is the pairer after the call. *)
Definition after_pairing (now : Z) (paired : option PairedFrame) (p' : StereoFramePairer) (r : RecordingRelay)
  : flush_result * list relay_audit * RecordingRelay :=
  let new_desync := desync_count_ (rr_pairer r) <? desync_count_ p' in
  let '(audits, r1) :=
    if new_desync
    then if rr_desync_episode r then ([], with_pairer p' true r) else emit_desync now (with_pairer p' true r)
    else match paired with
         | Some _ => ([], with_pairer p' false r)
         | None => ([], with_pairer p' (rr_desync_episode r) r)
         end in
  match paired with
  | Some f => (FlushPairedFrame f r1, audits, r1)
  | None => (FlushNothing, audits, r1)
  end.

Definition PushSide (left : bool) (ts rate : Z) (samples : list Z) (arrived now : Z) (r : RecordingRelay)
  : flush_result * list relay_audit * RecordingRelay :=
  if rr_stopped r || negb (rr_client r) || (zlen samples =? 0) then (FlushNothing, [], r)
  else
    let source_rate := if negb (rate =? 0) then rate
                       else if left then rl_read_fs_rate_hz (rr_cfg r) else rl_write_fs_rate_hz (rr_cfg r) in
    let '(ok, converted, r1) := ResampleIfNeeded left source_rate samples r in
    if negb ok then (FlushNothing, [], r1)
    else
      let samples' := if zlen converted =? 0 then samples else converted in
      let '(paired, p') := (if left then PushLeft else PushRight) ts samples' arrived now (rr_pairer r1) in
      after_pairing now paired p' r1.

Definition FlushMonoFrame (rate : Z) (samples : list Z) (r : RecordingRelay)
  : flush_result * list relay_audit * RecordingRelay :=
  if rr_stopped r || negb (rr_client r) || (zlen samples =? 0) then (FlushNothing, [], r)
  else
    let source_rate := if negb (rate =? 0) then rate else rl_write_fs_rate_hz (rr_cfg r) in
    let '(ok, owned, r1) := ResampleIfNeeded false source_rate samples r in
    if negb ok then (FlushNothing, [], r1)
    else
      let owned' := if zlen owned =? 0 then samples else owned in
      (FlushJob (mkSendJob owned' (rl_sample_rate_hz (rr_cfg r1)) 1 0 ""), [], r1).

Definition PushReadFrame (ts rate : Z) (samples : list Z) (arrived now : Z) (r : RecordingRelay) :=
  if negb (rl_stereo (rr_cfg r)) then (FlushNothing, [], r) else PushSide true ts rate samples arrived now r.

Definition PushWriteFrame (ts rate : Z) (samples : list Z) (arrived now : Z) (r : RecordingRelay) :=
  if negb (rl_stereo (rr_cfg r)) then FlushMonoFrame rate samples r
  else PushSide false ts rate samples arrived now r.

(** One round of [TickLoop], if the thread runs. *)
Definition TickRound (now : Z) (r : RecordingRelay) : flush_result * list relay_audit * RecordingRelay :=
  if negb (rr_tick_thread r) || rr_stopped r then (FlushNothing, [], r)
  else let '(paired, p') := Tick now (rr_pairer r) in after_pairing now paired p' r.

(** What follows [SendAudio]. *)
Definition after_send (now : Z) (sent : bool) (r : RecordingRelay) : list relay_audit * RecordingRelay :=
  if sent then ([], r) else emit_overflow now r.

(** [OswRecordingReadTap] ([left]) and [OswRecordingWriteTap]: from the callback
    to the push. *)
Definition OswRecordingTap (left : bool) (t : abc_type) (relay : option RecordingRelay)
  (bug_read : option switch_frame) (arrived now : Z)
  : flush_result * list relay_audit * option RecordingRelay :=
  if negb (bool_decide (t = if left then ABC_READ else ABC_WRITE)) then (FlushNothing, [], relay)
  else match relay with
  | None => (FlushNothing, [], None)
  | Some r =>
      if rr_stopped r then (FlushNothing, [], relay)
      else match bug_read with
      | None => (FlushNothing, [], relay)
      | Some f =>
          match fr_data f with
          | None => (FlushNothing, [], relay)
          | Some data =>
              if fr_datalen f =? 0 then (FlushNothing, [], relay)
              else
                let samples := MonoSamplesFromFrame data f in
                let '(o, audits, r') :=
                  (if left then PushReadFrame else PushWriteFrame) (fr_timestamp f) (fr_rate f) samples arrived now r in
                (o, audits, Some r')
          end
      end
  end.
(** ** Runs *)

(** The operations, one at a time; [RSent] is the return of [SendAudio]. *)
Inductive relay_op :=
| RRead (ts rate : Z) (samples : list Z) (arrived now : Z)
| RWrite (ts rate : Z) (samples : list Z) (arrived now : Z)
| RTick (now : Z)
| RSent (now : Z) (sent : bool)
| RStart (thread_ok : bool)
| RStop
| REmitStopped.

Definition relay_step (r : RecordingRelay) (o : relay_op) : flush_result * list relay_audit * RecordingRelay :=
  match o with
  | RRead ts rate s a n => PushReadFrame ts rate s a n r
  | RWrite ts rate s a n => PushWriteFrame ts rate s a n r
  | RTick n => TickRound n r
  | RSent n b => let '(au, r') := after_send n b r in (FlushNothing, au, r')
  | RStart b => (FlushNothing, [], Relay_Start b r)
  | RStop => (FlushNothing, [], Relay_Stop r)
  | REmitStopped => let '(au, r') := Relay_EmitStopped r in (FlushNothing, au, r')
  end.

(** What the flushes gave, but for those that dropped the frame. *)
Definition flush_list (o : flush_result) : list flush_result :=
  match o with FlushNothing => [] | _ => [o] end.

Fixpoint relay_run (r : RecordingRelay) (os : list relay_op)
  : list flush_result * list relay_audit * RecordingRelay :=
  match os with
  | [] => ([], [], r)
  | o :: os' =>
      let '(f, au, r1) := relay_step r o in
      let '(fs, au', r2) := relay_run r1 os' in (flush_list f ++ fs, au ++ au', r2)
  end.

(** ** A running stereo relay is the pairer *)

Definition relay_pops (o : relay_op) : list pairer_op :=
  match o with
  | RRead ts _ s a n => [OpPushLeft ts s a n]
  | RWrite ts _ s a n => [OpPushRight ts s a n]
  | RTick n => [OpTick n]
  | _ => []
  end.

Definition source_rate_of (cfg : RecordingRelayConfig) (left : bool) (rate : Z) : Z :=
  if negb (rate =? 0) then rate else if left then rl_read_fs_rate_hz cfg else rl_write_fs_rate_hz cfg.

Definition audio_ok (s : list Z) : Prop := s <> [] /\ Forall int16_range s /\ zlen s < 2 ^ 31.

(** Audio at the recording's rate; the relay is not stopped. *)
Definition relay_op_ok (cfg : RecordingRelayConfig) (o : relay_op) : Prop :=
  match o with
  | RRead _ rate s _ _ => audio_ok s /\ (rl_stereo cfg = true -> source_rate_of cfg true rate = rl_sample_rate_hz cfg)
  | RWrite _ rate s _ _ => audio_ok s /\ source_rate_of cfg false rate = rl_sample_rate_hz cfg
  | RStop => False
  | RStart b => b = true
  | _ => True
  end.

Record relay_live (cfg : RecordingRelayConfig) (r : RecordingRelay) : Prop := mkRelayLive {
  rv_client : rr_client r = true;
  rv_cfg : rr_cfg r = cfg;
  rv_stopped : rr_stopped r = false;
  rv_thread : rl_stereo cfg = true -> rr_tick_thread r = true }.

Lemma ResampleIfNeeded_same left samples cfg r :
  samples <> [] -> rl_sample_rate_hz cfg <> 0 -> rr_cfg r = cfg ->
  ResampleIfNeeded left (rl_sample_rate_hz cfg) samples r = (true, [], r).
Proof.
  intros Hs Hr E. unfold ResampleIfNeeded. rewrite E.
  rewrite (proj2 (Z.eqb_neq (zlen samples) 0)) by (destruct samples; [done|simpl; lia]).
  by rewrite (proj2 (Z.eqb_neq _ _) Hr), Z.eqb_refl.
Qed.

Lemma after_pairing_live cfg now paired p' r :
  relay_live cfg r ->
  let '(o, _, r') := after_pairing now paired p' r in
  relay_live cfg r' /\ rr_pairer r' = p' /\
  o = match paired with Some f => FlushPairedFrame f r' | None => FlushNothing end.
Proof.
  intros [H1 H2 H3 H4]. unfold after_pairing, emit_desync.
  destruct (EmitRateLimited now _) as [b t].
  repeat case_match; simplify_eq; (split; [by split|done]).
Qed.

Definition flush_of (cfg : RecordingRelayConfig) (x : PairedFrame) : list flush_result :=
  flush_list (FlushPairedFrame x (RecordingRelay_new true cfg)).

Lemma flush_of_live cfg r x : relay_live cfg r -> flush_list (FlushPairedFrame x r) = flush_of cfg x.
Proof. intros [H1 H2 _ _]. unfold flush_of, FlushPairedFrame. by rewrite H1, H2. Qed.

Lemma after_pairing_run cfg now o r f au r' :
  relay_live cfg r ->
  (let '(paired, p') := pairer_step (rr_pairer r) o in after_pairing now paired p' r) = (f, au, r') ->
  relay_live cfg r' /\ exists outs, pairer_run (rr_pairer r) [o] = (outs, rr_pairer r') /\
    flush_list f = outs ≫= flush_of cfg.
Proof.
  intros Hl Hs. cbn [pairer_run]. destruct (pairer_step (rr_pairer r) o) as [paired p'].
  pose proof (after_pairing_live cfg now paired p' r Hl) as Ha.
  rewrite Hs in Ha. destruct Ha as (Hl' & Hp & Hf). split; [done|]. exists (option_list paired).
  rewrite app_nil_r, Hp. split; [done|]. subst f. destruct paired as [x|]; [|done]. simpl.
  rewrite app_nil_r. by apply flush_of_live.
Qed.

Lemma PushSide_live cfg left ts rate s a n r :
  relay_live cfg r -> rl_sample_rate_hz cfg <> 0 -> s <> [] ->
  source_rate_of cfg left rate = rl_sample_rate_hz cfg ->
  PushSide left ts rate s a n r =
    let '(paired, p') := (if left then PushLeft else PushRight) ts s a n (rr_pairer r) in after_pairing n paired p' r.
Proof.
  intros [H1 H2 H3 _] Hr Hs Hsrc. unfold PushSide. rewrite H1, H3. cbn [negb orb].
  rewrite (proj2 (Z.eqb_neq (zlen s) 0)) by (destruct s; [done|simpl; lia]).
  unfold source_rate_of in Hsrc. rewrite H2, Hsrc, (ResampleIfNeeded_same left s cfg) by done. done.
Qed.

Lemma relay_step_quiet cfg r o f au r' :
  relay_live cfg r -> relay_op_ok cfg o -> relay_pops o = [] -> relay_step r o = (f, au, r') ->
  relay_live cfg r' /\ rr_pairer r' = rr_pairer r /\ f = FlushNothing.
Proof.
  intros [H1 H2 H3 H4] Hok Hp. destruct o as [| | |n b|b| |]; simpl in Hp, Hok; try done; simpl; intros Hs.
  - unfold after_send, emit_overflow in Hs. destruct (EmitRateLimited n _).
    repeat case_match; simplify_eq; (split; [by split|done]).
  - subst b. injection Hs as <- <- <-. unfold Relay_Start. rewrite H2. repeat case_match; (split; [|done]); split; simpl; try done.
  - unfold Relay_EmitStopped in Hs. repeat case_match; simplify_eq; (split; [by split|done]).
Qed.

Lemma relay_step_stereo cfg r o f au r' :
  rl_stereo cfg = true -> rl_sample_rate_hz cfg <> 0 -> relay_live cfg r -> relay_op_ok cfg o ->
  relay_step r o = (f, au, r') ->
  relay_live cfg r' /\ exists outs, pairer_run (rr_pairer r) (relay_pops o) = (outs, rr_pairer r') /\
    flush_list f = outs ≫= flush_of cfg.
Proof.
  intros Hst Hr Hl Hok Hs. assert (Hcfg : rl_stereo (rr_cfg r) = true) by by rewrite (rv_cfg _ _ Hl).
  destruct (relay_pops o) as [|po l] eqn:Ep.
  { destruct (relay_step_quiet _ _ _ _ _ _ Hl Hok Ep Hs) as (Hl' & Hp & ->). split; [done|].
    exists []. split; [by rewrite Hp|done]. }
  destruct o as [ts rate s a n|ts rate s a n|n| | | |]; simpl in Ep; try done; injection Ep as <- <-; simpl in Hs, Hok.
  - unfold PushReadFrame in Hs. rewrite Hcfg in Hs. cbn [negb] in Hs. destruct Hok as [[Hne _] Hsrc].
    rewrite (PushSide_live cfg) in Hs by auto. by apply (after_pairing_run cfg n (OpPushLeft ts s a n)) in Hs.
  - unfold PushWriteFrame in Hs. rewrite Hcfg in Hs. cbn [negb] in Hs. destruct Hok as [[Hne _] Hsrc].
    rewrite (PushSide_live cfg) in Hs by auto. by apply (after_pairing_run cfg n (OpPushRight ts s a n)) in Hs.
  - unfold TickRound in Hs. rewrite (rv_thread _ _ Hl Hst), (rv_stopped _ _ Hl) in Hs. cbn [negb orb] in Hs.
    by apply (after_pairing_run cfg n (OpTick n)) in Hs.
Qed.

Lemma pairer_run_app os os' p :
  pairer_run p (os ++ os') =
    let '(o1, p1) := pairer_run p os in let '(o2, p2) := pairer_run p1 os' in (o1 ++ o2, p2).
Proof.
  revert p. induction os as [|o os IH]; intros p; cbn [pairer_run app]; [by destruct (pairer_run p os')|].
  destruct (pairer_step p o) as [out p1]. rewrite IH. destruct (pairer_run p1 os) as [o1 p2].
  destruct (pairer_run p2 os') as [o2 p3]. by rewrite app_assoc.
Qed.

Lemma relay_run_stereo cfg os : rl_stereo cfg = true -> rl_sample_rate_hz cfg <> 0 -> forall r fs au r',
  relay_live cfg r -> Forall (relay_op_ok cfg) os -> relay_run r os = (fs, au, r') ->
  exists outs, pairer_run (rr_pairer r) (os ≫= relay_pops) = (outs, rr_pairer r') /\ fs = outs ≫= flush_of cfg.
Proof.
  intros Hst Hr. induction os as [|o os IH]; intros r fs au r' Hl Hok; cbn [relay_run].
  { intros [= <- <- <-]. by exists []. }
  apply Forall_cons in Hok as [Ho Hos]. destruct (relay_step r o) as [[f a1] r1] eqn:E1.
  destruct (relay_run r1 os) as [[fs2 a2] r2] eqn:E2. intros [= <- <- <-].
  destruct (relay_step_stereo _ _ _ _ _ _ Hst Hr Hl Ho E1) as (Hl1 & o1 & Hp1 & Hf1).
  destruct (IH _ _ _ _ Hl1 Hos E2) as (o2 & Hp2 & ->). exists (o1 ++ o2).
  cbn [mbind list_bind]. rewrite pairer_run_app, Hp1, Hp2, bind_app, Hf1. done.
Qed.

(** ** What a pair becomes *)

(** The left and right samples alternate, the shorter side padded with silence. *)
Definition stereo_job (cfg : RecordingRelayConfig) (lr : list Z * list Z) : send_job :=
  mkSendJob (interleave_samples lr.1 lr.2 0 (Nat.max (length lr.1) (length lr.2)))
    (rl_sample_rate_hz cfg) 2 kBothInterleavedChannel "".

Definition emission_ok (lr : list Z * list Z) : Prop :=
  (lr.1 <> [] \/ lr.2 <> []) /\ Forall int16_range lr.1 /\ Forall int16_range lr.2 /\
  zlen lr.1 < 2 ^ 31 /\ zlen lr.2 < 2 ^ 31.

Lemma emissions_ok evs :
  Forall (fun f => audio_ok (pending_samples f)) (consumed kLeft evs) ->
  Forall (fun f => audio_ok (pending_samples f)) (consumed kRight evs) ->
  Forall emission_ok (emissions evs).
Proof.
  unfold emissions, consumed. induction evs as [|e evs IH]; [done|]. cbn [mbind list_bind].
  rewrite !Forall_app. intros [Hl Hl'] [Hr Hr']. split; [|by apply IH].
  destruct e as [[|] f|l r|[|] f why]; cbn [ev_emission ev_consumed] in *; rewrite ?Forall_singleton in *;
    unfold emission_ok, audio_ok in *; simpl; (split_and!; naive_solver) || done.
Qed.

Lemma read_loop_bytes l : Forall int16_range l -> forall n i, (i + n <= length l)%nat ->
  read_loop (bytes_of_samples l) i n = Some (take n (drop i l)).
Proof.
  intros Hl. induction n as [|n IH]; intros i Hi; cbn [read_loop]; [done|].
  rewrite ReadInt16Le_bytes by done. destruct (lookup_lt_is_Some_2 l i ltac:(lia)) as [s E].
  rewrite E. cbn [mbind option_bind]. rewrite IH by lia. cbn [mbind option_bind].
  by rewrite (drop_S l s i E).
Qed.

Lemma flush_of_render cfg seq lr :
  rl_stereo cfg = true -> emission_ok lr ->
  flush_of cfg (render (rl_pairer_config cfg) seq lr) = [FlushJob (stereo_job cfg lr)].
Proof.
  intros Hst (Hne & Hl & Hr & Hll & Hlr). unfold flush_of, FlushPairedFrame, render.
  cbn [rr_client RecordingRelay_new rr_cfg samples_per_channel interleaved negb orb]. rewrite Hst. cbn [negb].
  set (n := Nat.max (length lr.1) (length lr.2)).
  assert (Hn : 0 < Z.of_nat n < 2 ^ 31).
  { split; [|lia]. destruct Hne as [Hne|Hne]; [destruct (lr.1)|destruct (lr.2)]; simpl in *; lia || done. }
  rewrite interleave_loop_bytes, app_nil_l, bytes_of_samples_length, interleave_samples_length.
  rewrite (u32_small (Z.of_nat n)) by lia.
  rewrite (proj2 (Z.eqb_neq (Z.of_nat n) 0)), (proj2 (Z.eqb_neq _ 0)) by lia. cbn [orb].
  rewrite (u32_small (Z.of_nat n * 2)) by lia.
  replace (Z.to_nat (Z.of_nat n * 2)) with (2 * n)%nat by lia.
  rewrite read_loop_bytes; [|by apply interleave_samples_range|by rewrite interleave_samples_length].
  rewrite drop_0, firstn_all2 by (rewrite interleave_samples_length; lia). done.
Qed.

Lemma flushes_render cfg l : rl_stereo cfg = true -> Forall emission_ok l -> forall seq,
  render_all (rl_pairer_config cfg) seq l ≫= flush_of cfg = FlushJob ∘ stereo_job cfg <$> l.
Proof.
  intros Hst. induction 1 as [|lr l Hlr _ IH]; intros seq; [done|]. cbn [render_all mbind list_bind fmap list_fmap].
  rewrite flush_of_render by done. cbn [app]. f_equal. apply IH.
Qed.
(** ** A mono relay *)

Definition mono_job (cfg : RecordingRelayConfig) (s : list Z) : send_job :=
  mkSendJob s (rl_sample_rate_hz cfg) 1 0 "".

(** The audio the write tap pushed. *)
Definition write_pushes (os : list relay_op) : list (list Z) :=
  os ≫= (fun o => match o with RWrite _ _ s _ _ => [s] | _ => [] end).

Lemma relay_step_mono cfg r o f au r' :
  rl_stereo cfg = false -> rl_sample_rate_hz cfg <> 0 -> relay_live cfg r -> relay_op_ok cfg o ->
  relay_step r o = (f, au, r') ->
  relay_live cfg r' /\ flush_list f = FlushJob ∘ mono_job cfg <$> write_pushes [o].
Proof.
  intros Hst Hr Hl Hok Hs. assert (Hcfg : rl_stereo (rr_cfg r) = false) by by rewrite (rv_cfg _ _ Hl).
  destruct (relay_pops o) as [|po l] eqn:Ep.
  { destruct (relay_step_quiet _ _ _ _ _ _ Hl Hok Ep Hs) as (Hl' & _ & ->). split; [done|]. by destruct o. }
  destruct o as [ts rate s a n|ts rate s a n|n| | | |]; simpl in Ep; try done; simpl in Hs, Hok.
  - unfold PushReadFrame in Hs. rewrite Hcfg in Hs. by injection Hs as <- <- <-.
  - unfold PushWriteFrame, FlushMonoFrame in Hs. rewrite Hcfg, (rv_stopped _ _ Hl), (rv_client _ _ Hl) in Hs.
    cbn [negb orb] in Hs. destruct Hok as [[Hne _] Hsrc]. unfold source_rate_of in Hsrc.
    rewrite (proj2 (Z.eqb_neq (zlen s) 0)) in Hs by (destruct s; [done|simpl; lia]).
    rewrite (rv_cfg _ _ Hl), Hsrc, (ResampleIfNeeded_same false s cfg) in Hs by (done || apply Hl).
    cbn in Hs. injection Hs as <- <- <-. split; [done|]. by rewrite (rv_cfg _ _ Hl).
  - unfold TickRound in Hs. destruct (_ || _); [by injection Hs as <- <- <-|].
    destruct (Tick n (rr_pairer r)) as [paired p']. pose proof (after_pairing_live cfg n paired p' r Hl) as Ha.
    rewrite Hs in Ha. destruct Ha as (Hl' & _ & ->). split; [done|]. destruct paired as [x|]; [|done].
    unfold FlushPairedFrame. rewrite (rv_cfg _ _ Hl'), Hst. by destruct (_ || _).
Qed.

Lemma relay_run_mono cfg os : rl_stereo cfg = false -> rl_sample_rate_hz cfg <> 0 -> forall r fs au r',
  relay_live cfg r -> Forall (relay_op_ok cfg) os -> relay_run r os = (fs, au, r') ->
  fs = FlushJob ∘ mono_job cfg <$> write_pushes os.
Proof.
  intros Hst Hr. induction os as [|o os IH]; intros r fs au r' Hl Hok; cbn [relay_run].
  { by intros [= <- <- <-]. }
  apply Forall_cons in Hok as [Ho Hos]. destruct (relay_step r o) as [[f a1] r1] eqn:E1.
  destruct (relay_run r1 os) as [[fs2 a2] r2] eqn:E2. intros [= <- <- <-].
  destruct (relay_step_mono _ _ _ _ _ _ Hst Hr Hl Ho E1) as (Hl1 & ->).
  rewrite (IH _ _ _ _ Hl1 Hos E2). unfold write_pushes. cbn [mbind list_bind]. by rewrite app_nil_r, fmap_app.
Qed.

(** ** The recording *)

Definition flush_jobs (fs : list flush_result) : list send_job :=
  omap (fun o => match o with FlushJob j => Some j | _ => None end) fs.

Lemma flush_jobs_fmap js : flush_jobs (FlushJob <$> js) = js.
Proof. unfold flush_jobs. induction js as [|j js IH]; [done|]. cbn in *. by rewrite IH. Qed.

Lemma relay_live_start cfg : relay_live cfg (Relay_Start true (RecordingRelay_new true cfg)).
Proof.
  unfold Relay_Start, RecordingRelay_new. cbn [rr_cfg]. destruct (rl_stereo cfg) eqn:E; split; cbn; try done.
  by rewrite E.
Qed.

(** The frames of a run, as jobs. *)
Lemma relay_run_jobs cfg os fs au rr :
  rl_sample_rate_hz cfg <> 0 -> Forall (relay_op_ok cfg) os ->
  relay_run (Relay_Start true (RecordingRelay_new true cfg)) os = (fs, au, rr) ->
  fs = FlushJob <$> flush_jobs fs /\
  if rl_stereo cfg
  then exists evs,
    (forall side, ops_pushed (os ≫= relay_pops) side =
       consumed side evs ++ SideRing_contents (side_of side (rr_pairer rr))) /\
    Forall (ev_ok (rl_pairer_config cfg)) evs /\ flush_jobs fs = stereo_job cfg <$> emissions evs
  else flush_jobs fs = mono_job cfg <$> write_pushes os.
Proof.
  intros Hr Hok Hrun. pose proof (relay_live_start cfg) as Hl. destruct (rl_stereo cfg) eqn:Hst.
  - destruct (relay_run_stereo _ _ Hst Hr _ _ _ _ Hl Hok Hrun) as (outs & Hp & ->).
    assert (E : rr_pairer (Relay_Start true (RecordingRelay_new true cfg)) =
      StereoFramePairer_new (rl_pairer_config cfg)) by (unfold Relay_Start; cbn [rr_cfg RecordingRelay_new];
        by repeat case_match).
    rewrite E in Hp.
    destruct (pairer_run_accounts _ _ _ _ (pairer_inv_new _) Hp) as (evs & [_ _ Af Ao _ _ _ _ _ Ak] & _).
    assert (Hf : forall side, ops_pushed (os ≫= relay_pops) side =
      consumed side evs ++ SideRing_contents (side_of side (rr_pairer rr))) by (intros side; rewrite <- Af; by destruct side).
    assert (Haud : forall side, Forall (fun f => audio_ok (pending_samples f)) (consumed side evs)).
    { intros side. assert (Hall : Forall (fun f => audio_ok (pending_samples f)) (ops_pushed (os ≫= relay_pops) side)).
      { unfold ops_pushed. apply Forall_bind, Forall_forall. intros po Hpo.
        apply list_elem_of_bind in Hpo as (o & Hpo & Ho). apply (proj1 (Forall_forall _ _) Hok) in Ho.
        destruct o; simpl in Hpo; rewrite ?list_elem_of_singleton in Hpo; try (by apply not_elem_of_nil in Hpo);
          subst po; destruct side; simpl; repeat constructor; apply Ho. }
      rewrite Hf, Forall_app in Hall. apply Hall. }
    subst outs. pose proof (emissions_ok evs (Haud kLeft) (Haud kRight)) as He.
    cbn [sfp_cfg StereoFramePairer_new sfp_seq] in *. rewrite flushes_render, list_fmap_compose by done.
    rewrite flush_jobs_fmap. split; [done|]. by exists evs.
  - rewrite (relay_run_mono _ _ Hst Hr _ _ _ _ Hl Hok Hrun), list_fmap_compose, flush_jobs_fmap. done.
Qed.

Lemma Relay_Stop_silent r o : (forall b, o <> RStart b) -> (relay_step (Relay_Stop r) o).1.1 = FlushNothing.
Proof.
  intros Ho. destruct o as [ts rate s a n|ts rate s a n|n|n b|b| |]; simpl.
  - unfold PushReadFrame, PushSide. by destruct (negb _).
  - unfold PushWriteFrame, FlushMonoFrame, PushSide. by destruct (negb _).
  - done.
  - unfold after_send. destruct b; [done|]. unfold emit_overflow. by destruct (EmitRateLimited _ _).
  - by destruct (Ho b).
  - done.
  - unfold Relay_EmitStopped. by destruct (rr_stopped_audit_emitted _).
Qed.

(** C13. What a recording contains.  For any sequence of read frames, write frames, ticks and sends (audio at the
    recording's rate, one relay call at a time) from the start of a relay, and whatever the writer thread of the
    client does in between: a mono recording is the write side's audio, every frame once and in order; a stereo
    recording is the emissions of the pairing events, in order, each as alternating left and right samples with the
    shorter side padded by silence, where on each side the frames pushed are those the events consumed followed by
    those still queued and every pairing is within the configured tolerance; the frames handed to the client are
    numbered 0, 1, 2, ... with timestamps summing the durations, the audio on the wire is a sublist of them, no byte
    is read out of bounds, and a stopped relay sends nothing until it is started again. *)
Theorem RecordingRelay_records {Control : Type} (c : StreamClient Control) (cfg : RecordingRelayConfig)
  (os : list relay_op) (fs : list flush_result) (au : list relay_audit) (rr : RecordingRelay)
  (th : nat) (ls : list media_label) (w : media_world)
  (Hrate : rl_sample_rate_hz cfg <> 0) (Hok : Forall (relay_op_ok cfg) os)
  (Hrun : relay_run (Relay_Start true (RecordingRelay_new true cfg)) os = (fs, au, rr))
  (Hopen : opened c) (Hmedia : media_run (media_init c) ls = Some w)
  (Hjobs : media_jobs ls = pair th <$> flush_jobs fs) (Hdone : mw_pcs w !! th = None) :
  let sent := (mw_sent w).*2 in
  fs = FlushJob <$> flush_jobs fs /\
  (if rl_stereo cfg
   then exists evs,
     (forall side, ops_pushed (os ≫= relay_pops) side =
        consumed side evs ++ SideRing_contents (side_of side (rr_pairer rr))) /\
     Forall (ev_ok (rl_pairer_config cfg)) evs /\
     frame_job <$> sent = stereo_job cfg <$> emissions evs
   else frame_job <$> sent = mono_job cfg <$> write_pushes os) /\
  gapless 0 0 sent /\
  wire_audio (s_calls (mw_session w)) `sublist_of` (ToProto <$> sent) /\
  (forall o, (forall b, o <> RStart b) -> (relay_step (Relay_Stop rr) o).1.1 = FlushNothing).
Proof.
  intros sent. destruct (media_run_spec _ _ _ Hopen Hmedia) as (cap & st & Hi).
  destruct (relay_run_jobs _ _ _ _ _ Hrate Hok Hrun) as [Hfs Hjs].
  destruct (single_sender _ _ _ _ th Hi) as [Hg Hsent].
  { rewrite Hjobs. apply Forall_fmap. by apply Forall_forall. }
  rewrite Hdone, app_nil_r, Hjobs, <- list_fmap_compose in Hsent. unfold compose in Hsent. simpl in Hsent.
  rewrite list_fmap_id in Hsent. fold sent in Hsent, Hg. rewrite <- Hsent. split_and!; try done.
  - by eapply media_inv_wire.
  - intros o Ho. by apply Relay_Stop_silent.
Qed.
End Relay.

Definition demo_relay (stereo : bool) : RecordingRelayConfig := mkRelayConfig stereo 8000 8000 8000 5 25.

Definition demo_relay_ops : list relay_op :=
  [RRead 0 8000 [1; -2] 0 0; RWrite 80 0 [3] 1 1; RSent 2 true; RRead 500 8000 [7] 2 2; RTick 25000002;
   RTick 26000002; REmitStopped].

Lemma RecordingRelay_records_witness :
  let ls := [MNextSeq 2%nat (mkSendJob [1; 3; -2; 0] 8000 2 3 ""); MAdvance 2; MSend 2; MSession LWriterPop;
             MSession (LWriterWrite true); MNextSeq 2%nat (mkSendJob [7; 0] 8000 2 3 ""); MAdvance 2; MSend 2] in
  exists w, media_run (media_init sample_client) ls = Some w /\
    (timestamp_samples_ <$> (mw_sent w).*2 = [0; 2]) /\ gapless 0 0 (mw_sent w).*2 /\
    wire_audio (s_calls (mw_session w)) `sublist_of` (ToProto <$> (mw_sent w).*2).
Proof.
  intros ls. destruct (media_run (media_init sample_client) ls) as [w|] eqn:E; [|vm_compute in E; discriminate E].
  exists w. split; [reflexivity|].
  assert (Hd : mw_pcs w !! 2%nat = None) by (vm_compute in E; injection E as <-; reflexivity).
  split; [vm_compute in E; injection E as <-; vm_compute; reflexivity|].
  pose (r := relay_run (H := doubler) (Relay_Start true (RecordingRelay_new true (demo_relay true))) demo_relay_ops).
  assert (Hok : Forall (relay_op_ok (demo_relay true)) demo_relay_ops).
  { unfold demo_relay_ops, relay_op_ok, audio_ok, int16_range.
    repeat first [apply Forall_nil_2 | apply Forall_cons_2 | split]; try exact I; try discriminate;
      vm_compute; (reflexivity || discriminate || (intros _; reflexivity)). }
  destruct (@RecordingRelay_records unit doubler unit sample_client (demo_relay true) demo_relay_ops r.1.1 r.1.2 r.2
    2 ls w ltac:(vm_compute; discriminate) Hok ltac:(vm_compute; reflexivity) sample_client_opened E
    ltac:(vm_compute; reflexivity) Hd) as (_ & _ & Hg & Hw & _).
  split; [exact Hg|exact Hw].
Defined.
