(* ===== verification/BotSession.v ===== *)
(** * Bot sessions and the start of a bot

    [src/media/bot_session.cc], [include/osw/media/bot_session.h],
    [src/control/handlers/start_bot_handler.cc], [stop_bot_handler.cc],
    [src/control/handlers/media_rate.h] and the two bot callbacks of
    [src/control/handlers/media_bug_callbacks.cc].  What FreeSWITCH, the bug
    manager and the client answer are arguments; the attaches, wirings, detaches
    and frees are effects in the order they happen, replayed on a small memory
    in which freeing a context a bug is still wired to, or detaching a bug twice,
    is an error. *)

From S2P Require Import Prelude BoundedQueue AudioFrame StreamClient BugManager BugFanout Config Resampler MediaSenders MediaCallbacks BotRegistry.

(** ** Rates ([media_rate.h]) *)

Definition ValidateRatePair (label : string) (from_hz to_hz : Z) : Status :=
  if (from_hz =? 0) || (to_hz =? 0) then mkStatus FAILED_PRECONDITION (label +:+ " media rate unavailable")%string
  else if negb (Supports (i32 from_hz) (i32 to_hz))
  then mkStatus INVALID_ARGUMENT
         (label +:+ " unsupported media rate pair " +:+ pretty from_hz +:+ "->" +:+ pretty to_hz)%string
  else Status_OK.

(** ** The session *)

Definition kDefaultPtimeMs : Z := 20.

Definition MediaPurposeFor (p : BotPurpose) : Z :=
  match p with
  | TTS_BROADCAST => 1
  | STT_LISTEN => 2
  | BOT_VOICEBOT_DUPLEX | WHISPER => 3
  | BOT_PURPOSE_UNSPECIFIED => 0
  end.

Definition MediaSideFor (p : BotPurpose) : Z :=
  match p with
  | TTS_BROADCAST => 2
  | STT_LISTEN => 1
  | BOT_VOICEBOT_DUPLEX | WHISPER => 3
  | BOT_PURPOSE_UNSPECIFIED => 0
  end.

Definition AttachFailureStatus (st : Status) : Status :=
  match st_code st with
  | ALREADY_EXISTS => mkStatus FAILED_PRECONDITION (st_message st)
  | _ => st
  end.

Record BotSessionConfig := mkBotSessionConfig {
  bc_bot_id : string;
  bc_tenant_id : string;
  bc_upstream_endpoint : string;
  bc_traceparent : string;
  bc_targets : list string;
  bc_write_targets : list string;
  bc_purpose : BotPurpose;
  bc_sample_rate_hz : Z;
  bc_start_message : string;
  bc_variables : gmap string string;
  bc_target_queue_ms : Z;
  bc_drain_timeout_ms : Z }.

Definition SupportsRead (p : BotPurpose) : bool :=
  bool_decide (p = STT_LISTEN) || bool_decide (p = BOT_VOICEBOT_DUPLEX) || bool_decide (p = WHISPER).

Definition SupportsWrite (p : BotPurpose) : bool :=
  bool_decide (p = TTS_BROADCAST) || bool_decide (p = BOT_VOICEBOT_DUPLEX) || bool_decide (p = WHISPER).

Definition ShouldAttachWrite (cfg : BotSessionConfig) (uuid : string) : bool :=
  if negb (SupportsWrite (bc_purpose cfg)) then false
  else if negb (bool_decide (bc_purpose cfg = WHISPER)) then true
  else bool_decide (uuid ∈ bc_write_targets cfg).

Definition QueueCapacityFrames (cfg : BotSessionConfig) : Z := Z.max 1 (bc_target_queue_ms cfg / kDefaultPtimeMs).

(** A handle is the id of its bug, a context the number of its allocation. *)
Record BotSession := mkBotSession {
  bs_cfg : BotSessionConfig;
  bs_channel : bool;
  bs_client : bool;
  bs_fanout : BugFanout;
  bs_handles : list Z;
  bs_read_contexts : list nat;
  bs_write_contexts : list nat;
  bs_next_context : nat;
  bs_stopped : bool;
  bs_opened : bool;
  bs_frames_recv : Z;
  bs_frames_sent : Z }.

Definition BotSession_new (cfg : BotSessionConfig) (channel : bool) : BotSession :=
  mkBotSession cfg channel false
    (BugFanout_new (mkFanoutConfig (if bool_decide (bc_purpose cfg = WHISPER) then kWhisper else kBroadcast)
       (bc_targets cfg) (bc_write_targets cfg) (Z.to_nat (QueueCapacityFrames cfg))))
    [] [] [] 0 false false 0 0.

Inductive bs_effect :=
| BClientOpen (sc : StreamConfig)
| BClientClose
| BAttach (id : Z) (uuid : string) (p : Purpose)
| BNew (c : nat) (write : bool) (uuid : string)   (** a context of one direction and target *)
| BWire (id : Z) (c : nat)
| BDetach (id : Z)
| BFree (c : nat)
| BMark (uuid : string).

(** [sc.variables]: the bot id, and the targets by position. *)
Fixpoint target_variables (i : nat) (uuids : list string) (m : gmap string string) : gmap string string :=
  match uuids with
  | [] => m
  | u :: us => target_variables (S i) us (<[("osw.target." +:+ pretty i)%string := u]> m)
  end.

Definition bot_stream_config (cfg : BotSessionConfig) : StreamConfig :=
  mkStreamConfig (bc_bot_id cfg) (bc_tenant_id cfg) (MediaPurposeFor (bc_purpose cfg)) (bc_sample_rate_hz cfg) 1 1
    (MediaSideFor (bc_purpose cfg)) (bc_traceparent cfg) (bc_start_message cfg)
    (target_variables 0 (bc_targets cfg) (<["osw.bot_id"%string := bc_bot_id cfg]> (bc_variables cfg)))
    (negb (SupportsRead (bc_purpose cfg))) 256.

(** [Open]; [opened] is the status of [client_->Open]. *)
Definition BotSession_Open (opened : Status) (s : BotSession) : Status * BotSession * list bs_effect :=
  let with_client b o := mkBotSession (bs_cfg s) (bs_channel s) b (bs_fanout s) (bs_handles s) (bs_read_contexts s)
    (bs_write_contexts s) (bs_next_context s) (bs_stopped s) o (bs_frames_recv s)
    (bs_frames_sent s) in
  if bs_opened s then (Status_OK, s, [])
  else if negb (bs_channel s) then (mkStatus UNAVAILABLE "grpc channel unavailable", s, [])
  else if string_empty (bc_bot_id (bs_cfg s)) then (mkStatus INVALID_ARGUMENT "bot_id required", s, [])
  else if bool_decide (bc_targets (bs_cfg s) = []) then (mkStatus INVALID_ARGUMENT "target_channel_uuids required", s, [])
  else
    let start := BClientOpen (bot_stream_config (bs_cfg s)) in
    if Status_ok opened then (Status_OK, with_client true true, [start])
    else (opened, with_client false (bs_opened s), [start; BClientClose]).

(** ** Attach *)

(** The answers for one target: whether the channel could be locked, the results
    of the two attaches and of the two [SetBugCallback]s. *)
Record target_answers := mkTargetAnswers {
  ta_lock : bool;
  ta_read : Status + Z;
  ta_read_wired : bool;
  ta_write : Status + Z;
  ta_write_wired : bool }.

Definition with_wiring (handles : list Z) (rs ws : list nat) (next : nat) (s : BotSession) : BotSession :=
  mkBotSession (bs_cfg s) (bs_channel s) (bs_client s) (bs_fanout s) handles rs ws next (bs_stopped s) (bs_opened s)
    (bs_frames_recv s) (bs_frames_sent s).

(** [handles_.clear(); read_contexts_.clear(); write_contexts_.clear()]. *)
Definition clear_effects (s : BotSession) : list bs_effect :=
  (BDetach <$> bs_handles s) ++ (BFree <$> bs_read_contexts s) ++ (BFree <$> bs_write_contexts s).

Definition unwind (st : Status) (s : BotSession) : (Status + BotSession) * BotSession * list bs_effect :=
  (inl st, with_wiring [] [] [] (bs_next_context s) s, clear_effects s).

(** The read block and the write block of the loop.  After a failed wiring the
    unwinding comes first, then the local context and handle are destroyed. *)
Definition attach_one (write : bool) (uuid : string) (p : Purpose) (answer : Status + Z) (wired : bool)
  (s : BotSession) : (Status + BotSession) * BotSession * list bs_effect :=
  match answer with
  | inl st => unwind (AttachFailureStatus st) s
  | inr id =>
      let c := bs_next_context s in
      let s1 := with_wiring (bs_handles s) (bs_read_contexts s) (bs_write_contexts s) (S c) s in
      let local := [BAttach id uuid p; BNew c write uuid] in
      if negb wired
      then
        let '(r, s2, es) := unwind (mkStatus INTERNAL (if write then "failed to wire write callback"
                                                       else "failed to wire read callback")) s1 in
        (r, s2, local ++ es ++ [BFree c; BDetach id])
      else
        let s2 := with_wiring (bs_handles s1 ++ [id])
                    (if write then bs_read_contexts s1 else bs_read_contexts s1 ++ [c])
                    (if write then bs_write_contexts s1 ++ [c] else bs_write_contexts s1) (S c) s1 in
        (inr s2, s2, local ++ [BWire id c])
  end.

Definition read_purpose (cfg : BotSessionConfig) : Purpose :=
  if bool_decide (bc_purpose cfg = STT_LISTEN) then kSttTranscribe else kVoicebotDuplexRead.

Definition write_purpose (cfg : BotSessionConfig) : Purpose :=
  if bool_decide (bc_purpose cfg = BOT_VOICEBOT_DUPLEX) then kVoicebotDuplexWrite else kTtsPlayback.

(** A block under its [if]. *)
Definition attach_if (cond write : bool) (uuid : string) (p : Purpose) (answer : Status + Z) (wired : bool)
  (s : BotSession) : (Status + BotSession) * BotSession * list bs_effect :=
  if cond then attach_one write uuid p answer wired s else (inr s, s, []).

Fixpoint attach_loop (answers : string -> target_answers) (uuids : list string) (s : BotSession)
  : Status * BotSession * list bs_effect :=
  match uuids with
  | [] => (Status_OK, s, [])
  | uuid :: uuids' =>
      let a := answers uuid in
      if negb (ta_lock a)
      then let '(_, s', es) := unwind (mkStatus NOT_FOUND ("channel not found: " +:+ uuid)%string) s in
           (mkStatus NOT_FOUND ("channel not found: " +:+ uuid)%string, s', es)
      else
        let '(r1, s1, es1) :=
          attach_if (SupportsRead (bc_purpose (bs_cfg s))) false uuid (read_purpose (bs_cfg s))
            (ta_read a) (ta_read_wired a) s in
        match r1 with
        | inl st => (st, s1, es1)
        | inr _ =>
            let '(r2, s2, es2) :=
              attach_if (ShouldAttachWrite (bs_cfg s) uuid) true uuid (write_purpose (bs_cfg s))
                (ta_write a) (ta_write_wired a) s1 in
            match r2 with
            | inl st => (st, s2, es1 ++ es2)
            | inr _ => let '(st, s3, es3) := attach_loop answers uuids' s2 in (st, s3, es1 ++ es2 ++ es3)
            end
        end
  end.

(** The callbacks say only whether they are null. *)
Definition BotSession_Attach (answers : string -> target_answers) (write_cb read_cb : bool) (s : BotSession)
  : Status * BotSession * list bs_effect :=
  if bs_stopped s then (mkStatus FAILED_PRECONDITION "bot session stopped", s, [])
  else if SupportsWrite (bc_purpose (bs_cfg s)) && negb write_cb
  then (mkStatus INVALID_ARGUMENT "write callback required", s, [])
  else if SupportsRead (bc_purpose (bs_cfg s)) && negb read_cb
  then (mkStatus INVALID_ARGUMENT "read callback required", s, [])
  else attach_loop answers (bc_targets (bs_cfg s)) s.

Definition BotSession_Stop (s : BotSession) : BotSession * list bs_effect :=
  if bs_stopped s then (s, [])
  else
    (mkBotSession (bs_cfg s) (bs_channel s) false (HalfClose (bs_fanout s)) [] [] [] (bs_next_context s) true false
       (bs_frames_recv s) (bs_frames_sent s),
     clear_effects s ++ (if bs_client s then [BClientClose] else [])).

(** ** Audio *)

(** [on_audio]: the number of frames the push dropped decides about an audit. *)
Definition BotSession_on_audio (frame : AudioFrame) (s : BotSession) : Z * BotSession :=
  if bs_stopped s then (0, s)
  else
    let '(dropped, f) := Push frame (bs_fanout s) in
    (dropped, mkBotSession (bs_cfg s) (bs_channel s) (bs_client s) f (bs_handles s) (bs_read_contexts s)
       (bs_write_contexts s) (bs_next_context s) (bs_stopped s) (bs_opened s) (bs_frames_recv s +u64 1)
       (bs_frames_sent s)).

Definition with_fanout (f : BugFanout) (s : BotSession) : BotSession :=
  mkBotSession (bs_cfg s) (bs_channel s) (bs_client s) f (bs_handles s) (bs_read_contexts s)
    (bs_write_contexts s) (bs_next_context s) (bs_stopped s) (bs_opened s) (bs_frames_recv s) (bs_frames_sent s).

Definition PopWriteFrame (uuid : string) (s : BotSession) : option AudioFrame * BotSession :=
  if bs_stopped s then (None, s)
  else let '(o, f) := Pop uuid (bs_fanout s) in (o, with_fanout f s).

(** The job for the client. *)
Definition OnTargetReadFrame (uuid : string) (samples : list Z) (rate channels : Z) (s : BotSession) : option send_job :=
  if bs_stopped s || negb (bs_client s) || (zlen samples =? 0) then None
  else Some (mkSendJob samples rate (Z.max channels 1) 0 uuid).

(** The rest of [OnTargetReadFrame]: [sent] is what [SendAudio] of the job
    returned. *)
Definition OnTargetReadFrame_sent (sent : bool) (s : BotSession) : BotSession :=
  mkBotSession (bs_cfg s) (bs_channel s) (bs_client s) (bs_fanout s) (bs_handles s) (bs_read_contexts s)
    (bs_write_contexts s) (bs_next_context s) (bs_stopped s) (bs_opened s) (bs_frames_recv s)
    (if sent then bs_frames_sent s +u64 1 else bs_frames_sent s).

Section Callbacks.
Context {RS : Type} `{SwitchResample RS}.

(** [bot] is never null in the contexts [Attach] builds. *)
Record BotReadTapCtx := mkBotReadCtx { br_channel_uuid : string; br_rates : TapRates (RS := RS) }.

Record BotWriteReplaceCtx := mkBotWriteCtx {
  bw_channel_uuid : string;
  bw_fs_rate_hz : Z;
  bw_resampler : option (Resampler RS);
  bw_resampler_error_logged : bool;
  bw_first_set_frame_logged : bool }.

Definition OswBotReadTap (t : abc_type) (ctx : option BotReadTapCtx) (bug_read : option switch_frame) (s : BotSession)
  : option send_job * option BotReadTapCtx :=
  if negb (is_read_type t) then (None, ctx)
  else match ctx with
  | None => (None, ctx)
  | Some x =>
      if bs_stopped s then (None, ctx)
      else match bug_read with
      | None => (None, ctx)
      | Some f =>
          if fr_datalen f =? 0 then (None, ctx)
          else match fr_data f with
          | None => (None, ctx)
          | Some data =>
              let '(o, r') := tap_convert (br_rates x) data f in
              (o ≫= (fun '(out, rate, ch) => OnTargetReadFrame (br_channel_uuid x) out rate ch s),
               Some (mkBotReadCtx (br_channel_uuid x) r'))
          end
      end
  end.

(** The frame set, the context and the session. *)
Definition OswBotWriteReplace (t : abc_type) (ctx : option BotWriteReplaceCtx) (frame : option switch_frame)
  (s : BotSession) : option switch_frame * option BotWriteReplaceCtx * BotSession :=
  if negb (bool_decide (t = ABC_WRITE_REPLACE)) then (None, ctx, s)
  else match ctx with
  | None => (None, ctx, s)
  | Some x =>
      if bs_stopped s then (None, ctx, s)
      else
        let '(o, s1) := PopWriteFrame (bw_channel_uuid x) s in
        match o, frame with
        | None, _ | _, None => (None, ctx, s1)
        | Some af, Some f =>
            match fr_data f with
            | None => (None, ctx, s1)
            | Some _ =>
                if fr_datalen f =? 0 then (None, ctx, s1)
                else
                  let cap := n_samples f in
                  let fs_rate := if fr_rate f =? 0 then bw_fs_rate_hz x else fr_rate f in
                  let stream_rate := sample_rate_hz_ af in
                  let finish out slot logged :=
                    if zlen out =? 0
                    then (None, Some (mkBotWriteCtx (bw_channel_uuid x) (bw_fs_rate_hz x) slot logged
                                        (bw_first_set_frame_logged x)), s1)
                    else (Some (set_frame out (if fs_rate =? 0 then stream_rate else fs_rate) f),
                          Some (mkBotWriteCtx (bw_channel_uuid x) (bw_fs_rate_hz x) slot logged true), s1) in
                  if negb (fs_rate =? 0) && negb (stream_rate =? 0) && negb (fs_rate =? stream_rate)
                  then
                    let '(ok, slot, logged) := EnsureResampler (bw_resampler x) stream_rate fs_rate
                                                 (bw_resampler_error_logged x) in
                    match ok, slot with
                    | true, Some rs =>
                        let '(out, rs') := Resampler_Process (samples_ af) cap rs in finish out (Some rs') logged
                    | _, _ => (None, Some (mkBotWriteCtx (bw_channel_uuid x) (bw_fs_rate_hz x) slot logged
                                             (bw_first_set_frame_logged x)), s1)
                    end
                  else finish (take (Z.to_nat (Z.min cap (u32 (sample_count af)))) (samples_ af))
                         (bw_resampler x) (bw_resampler_error_logged x)
            end
        end
  end.
End Callbacks.

(** ** The start and stop handlers *)

(** What the handler meets: the capacity checks and the insertion see the
    registry at their own times; [ha_lock] is the [SessionLock] of the checks,
    [ha_mark_lock] that of the marking loop. *)
Record start_bot_answers := mkStartBotAnswers {
  ha_planes : bool;
  ha_bots_at_check : ActiveBots;
  ha_bots_at_insert : ActiveBots;
  ha_lock : string -> bool;
  ha_read_rate : string -> Z;
  ha_write_rate : string -> Z;
  ha_bot_id : string;
  ha_open : Status;
  ha_attach : string -> target_answers;
  ha_mark_lock : string -> bool }.

Definition ShouldWriteTarget (req : StartBotRequest) (uuid : string) : bool :=
  if negb (SupportsWrite (sb_purpose req)) then false
  else if negb (bool_decide (sb_purpose req = WHISPER)) then true
  else bool_decide (uuid ∈ sb_write_target_channel_uuids req).

(** The first loop of the handler; [None] when every target passes. *)
Fixpoint check_channels (config : Config) (h : start_bot_answers) (req : StartBotRequest) (rate : Z)
  (uuids : list string) : option Status :=
  match uuids with
  | [] => None
  | uuid :: uuids' =>
      let read_status := ValidateRatePair "StartBot read" (ha_read_rate h uuid) rate in
      let write_status := ValidateRatePair "StartBot write" rate (ha_write_rate h uuid) in
      if ChannelAtCapacity uuid (max_bots_per_channel config) (ha_bots_at_check h)
      then Some (mkStatus FAILED_PRECONDITION "channel already has maximum active bots")
      else if negb (ha_lock h uuid) then Some (mkStatus NOT_FOUND ("channel not found: " +:+ uuid)%string)
      else if SupportsRead (sb_purpose req) && negb (Status_ok read_status) then Some read_status
      else if ShouldWriteTarget req uuid && negb (Status_ok write_status) then Some write_status
      else check_channels config h req rate uuids'
  end.

Definition bot_config (req : StartBotRequest) (header : string * string) (start : string * gmap string string)
  (rate : Z) (config : Config) (bot_id : string) : BotSessionConfig :=
  mkBotSessionConfig bot_id header.1 (sb_upstream_endpoint req) header.2 (sb_target_channel_uuids req)
    (sb_write_target_channel_uuids req) (sb_purpose req) rate start.1 start.2 (bot_target_queue_ms config)
    (if sb_drain_timeout_ms req =? 0 then bot_drain_timeout_ms config else sb_drain_timeout_ms req).

(** [header] is the tenant id and the traceparent, [start] the start message
    and the variables.  The result: the status, the registry, the effects, and
    the session the registry owns. *)
Definition HandleStartBot (config : Config) (req : StartBotRequest) (header : string * string)
  (start : string * gmap string string) (h : start_bot_answers)
  : Status * ActiveBots * list bs_effect * option BotSession :=
  let bots := ha_bots_at_insert h in
  if negb (ha_planes h) then (mkStatus UNAVAILABLE "media plane not initialised", bots, [], None)
  else match ValidateStartBot req config with
  | inl st => (st, bots, [], None)
  | inr rate =>
      match check_channels config h req rate (sb_target_channel_uuids req) with
      | Some st => (st, bots, [], None)
      | None =>
          let s0 := BotSession_new (bot_config req header start rate config (ha_bot_id h)) true in
          let '(open_st, s1, es1) := BotSession_Open (ha_open h) s0 in
          if negb (Status_ok open_st) then (open_st, bots, es1 ++ (BotSession_Stop s1).2, None)
          else
            let '(attach_st, s2, es2) := BotSession_Attach (ha_attach h) true true s1 in
            if negb (Status_ok attach_st) then (attach_st, bots, es1 ++ es2 ++ (BotSession_Stop s2).2, None)
            else
              let marks := BMark <$> filter (fun u => ha_mark_lock h u = true) (sb_target_channel_uuids req) in
              let bot := mkActiveBot (ha_bot_id h) (bc_targets (bs_cfg s2)) [] true in
              match Bots_Insert bot (max_bots_per_channel config) bots with
              | (kInserted, bots') => (Status_OK, bots', es1 ++ es2 ++ marks, Some s2)
              | (kChannelCapacityExceeded, bots') =>
                  (mkStatus FAILED_PRECONDITION "channel already has maximum active bots", bots',
                   es1 ++ es2 ++ marks ++ (BotSession_Stop s2).2, None)
              | (kDuplicateBotId, bots') =>
                  (mkStatus INTERNAL "bot_id collision", bots', es1 ++ es2 ++ marks ++ (BotSession_Stop s2).2, None)
              end
      end
  end.

(** [planes]: neither registry is null.  The flag is [was_active]. *)
Definition HandleStopBot (planes : bool) (bot_id : string) (bots : ActiveBots)
  : Status * bool * option ActiveBot * ActiveBots :=
  if string_empty bot_id then (mkStatus INVALID_ARGUMENT "bot_id required", false, None, bots)
  else if negb planes then (mkStatus UNAVAILABLE "media plane not initialised", false, None, bots)
  else let '(o, bots') := Bots_Stop bot_id bots in (Status_OK, bool_decide (is_Some o), o, bots').

(** ** The memory *)

(** The bugs FreeSWITCH has, each with the context it is wired to; the live
    contexts; whether the client is open. *)
Record bs_mem := mkBsMem {
  mem_bugs : list (Z * option nat);
  mem_contexts : list nat;
  mem_client : bool }.

Definition bs_mem_empty : bs_mem := mkBsMem [] [] false.

Definition run_effect (e : bs_effect) (m : bs_mem) : option bs_mem :=
  match e with
  | BClientOpen _ => if mem_client m then None else Some (mkBsMem (mem_bugs m) (mem_contexts m) true)
  | BClientClose => if mem_client m then Some (mkBsMem (mem_bugs m) (mem_contexts m) false) else None
  | BAttach id _ _ =>
      if bool_decide (id ∈ (mem_bugs m).*1) then None
      else Some (mkBsMem (mem_bugs m ++ [(id, None)]) (mem_contexts m) (mem_client m))
  | BNew c _ _ =>
      if bool_decide (c ∈ mem_contexts m) then None
      else Some (mkBsMem (mem_bugs m) (mem_contexts m ++ [c]) (mem_client m))
  | BWire id c =>
      if bool_decide ((id, None) ∈ mem_bugs m) && bool_decide (c ∈ mem_contexts m)
      then Some (mkBsMem ((fun b => if bool_decide (b.1 = id) then (id, Some c) else b) <$> mem_bugs m)
                   (mem_contexts m) (mem_client m))
      else None
  | BDetach id =>
      if bool_decide (id ∈ (mem_bugs m).*1)
      then Some (mkBsMem (filter (fun b => b.1 <> id) (mem_bugs m)) (mem_contexts m) (mem_client m))
      else None
  | BFree c =>
      if bool_decide (c ∈ mem_contexts m) && negb (bool_decide (Some c ∈ (mem_bugs m).*2))
      then Some (mkBsMem (mem_bugs m) (filter (fun x => x <> c) (mem_contexts m)) (mem_client m))
      else None
  | BMark _ => Some m
  end.

Fixpoint run_effects (es : list bs_effect) (m : bs_mem) : option bs_mem :=
  match es with
  | [] => Some m
  | e :: es' => m' ← run_effect e m; run_effects es' m'
  end.

Lemma run_effects_app es1 es2 m m1 :
  run_effects es1 m = Some m1 -> run_effects (es1 ++ es2) m = run_effects es2 m1.
Proof.
  revert m. induction es1 as [|e es IH]; intros m; cbn [run_effects app]; [by intros [= ->]|].
  destruct (run_effect e m) as [m'|]; [|done]. cbn [mbind option_bind]. apply IH.
Qed.

(** The memory agrees with the session: its handles are the bugs, each wired to
    one of its contexts. *)
Record mem_ok (s : BotSession) (m : bs_mem) : Prop := mkMemOk {
  mo_bugs : (mem_bugs m).*1 = bs_handles s;
  mo_nodup : NoDup (bs_handles s);
  mo_wired : forall id o, (id, o) ∈ mem_bugs m -> exists c, o = Some c /\ c ∈ mem_contexts m;
  mo_contexts : bs_read_contexts s ++ bs_write_contexts s ≡ₚ mem_contexts m;
  mo_contexts_nodup : NoDup (mem_contexts m);
  mo_fresh : forall c, c ∈ mem_contexts m -> (c < bs_next_context s)%nat }.

Lemma run_detach hs : forall m, NoDup hs -> (forall id, id ∈ hs -> id ∈ (mem_bugs m).*1) ->
  run_effects (BDetach <$> hs) m =
    Some (mkBsMem (filter (fun b => b.1 ∉ hs) (mem_bugs m)) (mem_contexts m) (mem_client m)).
Proof.
  induction hs as [|id hs IH]; intros m Hnd Hin; cbn [fmap list_fmap run_effects].
  { rewrite filter_all_true; [by destruct m|]. apply Forall_forall. intros b _. apply not_elem_of_nil. }
  apply NoDup_cons in Hnd as [Hid Hnd]. cbn [run_effect].
  rewrite bool_decide_true by (apply Hin; by left). cbn [mbind option_bind]. rewrite IH; [|done|].
  - cbn [mem_bugs mem_contexts mem_client]. do 2 f_equal. rewrite list_filter_filter.
    apply filter_ext_in. intros b _. rewrite not_elem_of_cons. tauto.
  - intros i Hi. cbn [mem_bugs]. assert (Hi' : i ∈ (mem_bugs m).*1) by (apply Hin; by right).
    apply list_elem_of_fmap in Hi' as ([i' o] & -> & Hb). apply list_elem_of_fmap. exists (i', o).
    split; [done|]. apply list_elem_of_filter. split; [|done]. simpl. intros ->. done.
Qed.

Lemma run_free cs : forall m, NoDup cs -> (forall c, c ∈ cs -> c ∈ mem_contexts m /\ (Some c ∉ (mem_bugs m).*2)) ->
  run_effects (BFree <$> cs) m =
    Some (mkBsMem (mem_bugs m) (filter (fun c => c ∉ cs) (mem_contexts m)) (mem_client m)).
Proof.
  induction cs as [|c cs IH]; intros m Hnd Hin; cbn [fmap list_fmap run_effects].
  { rewrite filter_all_true; [by destruct m|]. apply Forall_forall. intros b _. apply not_elem_of_nil. }
  apply NoDup_cons in Hnd as [Hc Hnd]. cbn [run_effect]. destruct (Hin c ltac:(by left)) as [Hc1 Hc2].
  rewrite bool_decide_true, (bool_decide_false (Some c ∈ _)) by done.
  cbn [negb andb mbind option_bind]. rewrite IH; [|done|].
  - cbn [mem_bugs mem_contexts mem_client]. do 2 f_equal. rewrite list_filter_filter.
    apply filter_ext_in. intros b _. rewrite not_elem_of_cons. tauto.
  - intros i Hi. cbn [mem_bugs mem_contexts]. destruct (Hin i ltac:(by right)). split; [|done].
    apply list_elem_of_filter. split; [intros ->; done|done].
Qed.

(** Detaching the handles and freeing the contexts, when [extra] bugs without
    a context and [more] contexts are not the session's yet. *)
Lemma run_clear_extra s m extra more :
  mem_ok s m -> Forall (fun b => (b.1 ∉ bs_handles s) /\ b.2 = None) extra ->
  Forall (fun c => c ∉ mem_contexts m) more ->
  run_effects (clear_effects s) (mkBsMem (mem_bugs m ++ extra) (mem_contexts m ++ more) (mem_client m)) =
    Some (mkBsMem extra more (mem_client m)).
Proof.
  intros [H1 H2 H3 H4 H5 H6] He Hm. unfold clear_effects. rewrite <- fmap_app.
  erewrite run_effects_app; [|apply run_detach; [done|]].
  2:{ intros id Hid. cbn [mem_bugs]. rewrite fmap_app, H1. apply elem_of_app. by left. }
  cbn [mem_bugs mem_contexts mem_client].
  assert (filter (fun b => b.1 ∉ bs_handles s) (mem_bugs m ++ extra) = extra) as ->.
  { rewrite filter_app, filter_all_false, filter_all_true; [done| |].
    - eapply Forall_impl; [exact He|]. by intros b [? _].
    - apply Forall_forall. intros b Hb Hn. apply Hn. rewrite <- H1. by apply list_elem_of_fmap_2. }
  assert (Hperm : forall c, c ∈ bs_read_contexts s ++ bs_write_contexts s <-> c ∈ mem_contexts m) by (intros c; by rewrite H4).
  rewrite run_free; cbn [mem_bugs mem_contexts mem_client].
  - do 2 f_equal. rewrite filter_app, filter_all_false, filter_all_true; [done| |].
    + eapply Forall_impl; [exact Hm|]. intros c Hc. by rewrite Hperm.
    + apply Forall_forall. intros c Hc Hn. apply Hn. by rewrite Hperm.
  - by rewrite H4.
  - intros c Hc. split; [apply elem_of_app; left; by apply Hperm|].
    intros Hb. apply list_elem_of_fmap in Hb as (b & Hb & Hin). apply (proj1 (Forall_forall _ _) He) in Hin as [_ Hin].
    congruence.
Qed.

(** Clearing the three vectors leaves nothing behind, whatever the session holds. *)
Lemma run_clear s m : mem_ok s m -> run_effects (clear_effects s) m = Some (mkBsMem [] [] (mem_client m)).
Proof.
  intros H. rewrite <- (run_clear_extra s m [] []) by (done || constructor). rewrite !app_nil_r. by destruct m.
Qed.

(** ** Attaching *)

Definition answer_ids (a : Status + Z) : list Z := match a with inl _ => [] | inr id => [id] end.

(** The bugs a full attach of the targets makes, in order. *)
Definition attach_ids (cfg : BotSessionConfig) (answers : string -> target_answers) (uuids : list string) : list Z :=
  uuids ≫= (fun u => (if SupportsRead (bc_purpose cfg) then answer_ids (ta_read (answers u)) else []) ++
                     (if ShouldAttachWrite cfg u then answer_ids (ta_write (answers u)) else [])).

(** A refused attach carries an error. *)
Definition answer_ok (a : Status + Z) : Prop := forall st, a = inl st -> Status_ok st = false.

Definition wiped (s : BotSession) : Prop := bs_handles s = [] /\ bs_read_contexts s = [] /\ bs_write_contexts s = [].

(** What attaching and clearing never change. *)
Definition same_session (s s' : BotSession) : Prop :=
  bs_cfg s' = bs_cfg s /\ bs_client s' = bs_client s /\ bs_stopped s' = bs_stopped s /\ bs_opened s' = bs_opened s /\
  bs_fanout s' = bs_fanout s.

(** The bugs a full attach makes, in order: the direction, the target, the purpose
    and the id of each. *)
Abbreviation planned_bug := (bool * string * Purpose * Z)%type.

Definition attach_plan (cfg : BotSessionConfig) (answers : string -> target_answers) (uuids : list string) : list planned_bug :=
  uuids ≫= (fun u =>
    (if SupportsRead (bc_purpose cfg) then (fun id => (false, u, read_purpose cfg, id)) <$> answer_ids (ta_read (answers u)) else []) ++
    (if ShouldAttachWrite cfg u then (fun id => (true, u, write_purpose cfg, id)) <$> answer_ids (ta_write (answers u)) else [])).

(** What an attach does for each: the bug, a context of its own for that direction
    and target, and the wiring of the one to the other. *)
Fixpoint wirings (next : nat) (xs : list planned_bug) : list bs_effect :=
  match xs with
  | [] => []
  | (write, u, p, id) :: xs => [BAttach id u p; BNew next write u; BWire id next] ++ wirings (S next) xs
  end.

(** The bugs then: the [i]-th wired to the [i]-th context. *)
Fixpoint wired_bugs (next : nat) (xs : list planned_bug) : list (Z * option nat) :=
  match xs with [] => [] | x :: xs => (x.2, Some next) :: wired_bugs (S next) xs end.

Lemma wirings_app n xs ys : wirings n (xs ++ ys) = wirings n xs ++ wirings (n + length xs) ys.
Proof.
  revert n. induction xs as [|[[[w u] p] id] xs IH]; intros n; cbn [wirings app length]; [by rewrite Nat.add_0_r|].
  rewrite IH. cbn [app]. by rewrite Nat.add_succ_r.
Qed.

Lemma wired_bugs_app n xs ys : wired_bugs n (xs ++ ys) = wired_bugs n xs ++ wired_bugs (n + length xs) ys.
Proof.
  revert n. induction xs as [|x xs IH]; intros n; cbn [wired_bugs app length]; [by rewrite Nat.add_0_r|].
  rewrite IH. cbn [app]. by rewrite Nat.add_succ_r.
Qed.

(** What a successful attach of [xs] has done. *)
Definition attached (xs : list planned_bug) (s s' : BotSession) (m m' : bs_mem) (es : list bs_effect) : Prop :=
  es = wirings (bs_next_context s) xs /\ mem_bugs m' = mem_bugs m ++ wired_bugs (bs_next_context s) xs /\
  bs_next_context s' = (bs_next_context s + length xs)%nat.

Lemma attached_app xs ys s1 s2 s3 m1 m2 m3 es es' :
  attached xs s1 s2 m1 m2 es -> attached ys s2 s3 m2 m3 es' -> attached (xs ++ ys) s1 s3 m1 m3 (es ++ es').
Proof.
  intros (-> & E1 & E2) (-> & E3 & E4). split_and!.
  - by rewrite wirings_app, E2.
  - by rewrite E3, E1, wired_bugs_app, E2, app_assoc.
  - rewrite E4, E2, length_app. lia.
Qed.

Lemma wire_bugs bugs id c :
  id ∉ bugs.*1 ->
  (fun b : Z * option nat => if bool_decide (b.1 = id) then (id, Some c) else b) <$> (bugs ++ [(id, None)]) =
    bugs ++ [(id, Some c)].
Proof.
  intros Hid. rewrite fmap_app. simpl. rewrite bool_decide_true by done. f_equal.
  rewrite <- (list_fmap_id bugs) at 2. apply list_fmap_ext. intros i b Hb.
  rewrite bool_decide_false; [done|]. intros <-. apply Hid, list_elem_of_fmap_2. by eapply list_elem_of_lookup_2.
Qed.

Lemma attach_one_spec write uuid p answer wired s m :
  mem_ok s m -> answer_ok answer -> (forall id, answer = inr id -> id ∉ bs_handles s) ->
  let '(r, s', es) := attach_one write uuid p answer wired s in
  same_session s s' /\
  match r with
  | inl st => Status_ok st = false /\ wiped s' /\ run_effects es m = Some (mkBsMem [] [] (mem_client m))
  | inr s2 => s2 = s' /\ bs_handles s' = bs_handles s ++ answer_ids answer /\ length (answer_ids answer) = 1%nat /\
      exists m', run_effects es m = Some m' /\ mem_ok s' m' /\ mem_client m' = mem_client m /\
        attached ((fun id => (write, uuid, p, id)) <$> answer_ids answer) s s' m m' es
  end.
Proof.
  intros Hm Ha Hid. destruct answer as [st|id]; cbn [attach_one].
  { unfold unwind. split; [done|]. split; [|split; [done|by apply run_clear]].
    specialize (Ha st eq_refl). unfold AttachFailureStatus, Status_ok in *. by destruct (st_code st) eqn:E; rewrite ?E in *. }
  specialize (Hid id eq_refl). pose proof Hm as [H1 H2 H3 H4 H5 H6].
  set (c := bs_next_context s).
  assert (Hc : c ∉ mem_contexts m) by (intros Hc; apply H6 in Hc; unfold c in Hc; lia).
  assert (Hidm : id ∉ (mem_bugs m).*1) by by rewrite H1.
  assert (Hlocal : forall es, run_effects ([BAttach id uuid p; BNew c write uuid] ++ es) m =
    run_effects es (mkBsMem (mem_bugs m ++ [(id, None)]) (mem_contexts m ++ [c]) (mem_client m))).
  { intros es. cbn [app run_effects run_effect]. rewrite bool_decide_false by done.
    cbn [mbind option_bind mem_contexts mem_bugs mem_client]. by rewrite bool_decide_false. }
  destruct wired; cbn [negb].
  - split; [done|]. split; [done|]. split; [done|]. split; [done|].
    eexists. rewrite Hlocal. cbn [run_effects run_effect mem_bugs mem_contexts mem_client].
    rewrite (bool_decide_true ((id, None) ∈ _)) by (apply elem_of_app; right; by apply list_elem_of_singleton).
    rewrite bool_decide_true by (apply elem_of_app; right; by apply list_elem_of_singleton).
    cbn [andb mbind option_bind]. split; [done|]. split; [|split; [done|]].
    2: { unfold attached. cbn [mem_bugs answer_ids fmap list_fmap wirings wired_bugs length snd with_wiring bs_next_context].
         rewrite wire_bugs by done. split_and!; [done|done|unfold c; lia]. }
    split; cbn [mem_bugs mem_contexts with_wiring bs_handles bs_read_contexts bs_write_contexts bs_next_context].
    + rewrite wire_bugs, fmap_app, H1 by done. done.
    + apply NoDup_app. split; [done|]. split; [|apply NoDup_singleton]. intros i Hi ->%list_elem_of_singleton. done.
    + rewrite wire_bugs by done. intros i o [Hio|Hio]%elem_of_app; [|apply list_elem_of_singleton in Hio as [= -> ->]].
      * destruct (H3 _ _ Hio) as (c' & -> & Hc'). exists c'. split; [done|]. apply elem_of_app. by left.
      * exists c. split; [done|]. apply elem_of_app. right. by apply list_elem_of_singleton.
    + rewrite <- H4. destruct write; [by rewrite app_assoc|]. rewrite <- !app_assoc. f_equiv. apply Permutation_app_comm.
    + apply NoDup_app. split; [done|]. split; [|apply NoDup_singleton]. intros i Hi ->%list_elem_of_singleton. done.
    + intros c' [Hc'|Hc']%elem_of_app; [apply H6 in Hc'; unfold c; lia|].
      apply list_elem_of_singleton in Hc' as ->. lia.
  - unfold unwind. cbn [bs_next_context with_wiring]. split; [done|]. split; [done|]. split; [done|].
    rewrite Hlocal. change (clear_effects _) with (clear_effects s).
    erewrite run_effects_app; [|apply run_clear_extra; [done| |]];
      [|by repeat constructor..].
    cbn [run_effects run_effect mem_contexts mem_bugs mem_client]. 
    rewrite bool_decide_true by (by apply list_elem_of_singleton).
    rewrite (bool_decide_false (Some c ∈ _)) by (intros Hx%list_elem_of_singleton; done).
    cbn [negb andb mbind option_bind mem_bugs mem_client mem_contexts].
    rewrite bool_decide_true by (by apply list_elem_of_singleton). cbn [mbind option_bind].
    rewrite !filter_cons_False by (simpl; tauto). done.
Qed.

(** A block, taken or not. *)
Lemma attach_if_spec (cond write : bool) uuid p answer wired s m :
  mem_ok s m -> answer_ok answer ->
  let ids := if cond then answer_ids answer else [] in
  (forall id, id ∈ ids -> id ∉ bs_handles s) ->
  let '(r, s', es) := attach_if cond write uuid p answer wired s in
  same_session s s' /\
  match r with
  | inl st => Status_ok st = false /\ wiped s' /\ run_effects es m = Some (mkBsMem [] [] (mem_client m))
  | inr _ => bs_handles s' = bs_handles s ++ ids /\ (cond = true -> length (answer_ids answer) = 1%nat) /\
      exists m', run_effects es m = Some m' /\ mem_ok s' m' /\ mem_client m' = mem_client m /\
        attached (if cond then (fun id => (write, uuid, p, id)) <$> answer_ids answer else []) s s' m m' es
  end.
Proof.
  intros Hm Ha ids Hid. unfold attach_if. destruct cond.
  - pose proof (attach_one_spec write uuid p answer wired s m Hm Ha) as H.
    destruct (attach_one _ _ _ _ _ s) as [[[st|s2] s1] es1]; (destruct H as [H1 H2]; [|split; [done|]]);
      try (intros id E; apply Hid; unfold ids; rewrite E; by left).
    + done.
    + destruct H2 as (_ & H2 & H3 & H4). by split.
  - split; [done|]. unfold ids. rewrite app_nil_r. split; [done|]. split; [done|]. exists m. split_and!; [done..|].
    split_and!; cbn; [done|by rewrite app_nil_r|lia].
Qed.

Lemma attach_loop_spec answers uuids : forall s m,
  mem_ok s m -> (forall u, u ∈ uuids -> answer_ok (ta_read (answers u)) /\ answer_ok (ta_write (answers u))) ->
  NoDup (bs_handles s ++ attach_ids (bs_cfg s) answers uuids) ->
  let '(st, s', es) := attach_loop answers uuids s in
  same_session s s' /\
  if Status_ok st
  then bs_handles s' = bs_handles s ++ attach_ids (bs_cfg s) answers uuids /\
    (forall u, u ∈ uuids -> ta_lock (answers u) = true /\
       (SupportsRead (bc_purpose (bs_cfg s)) = true -> length (answer_ids (ta_read (answers u))) = 1%nat) /\
       (ShouldAttachWrite (bs_cfg s) u = true -> length (answer_ids (ta_write (answers u))) = 1%nat)) /\
    exists m', run_effects es m = Some m' /\ mem_ok s' m' /\ mem_client m' = mem_client m /\
      attached (attach_plan (bs_cfg s) answers uuids) s s' m m' es
  else wiped s' /\ run_effects es m = Some (mkBsMem [] [] (mem_client m)).
Proof.
  induction uuids as [|u uuids IH]; intros s m Hm Ha Hnd; cbn [attach_loop].
  { simpl. split; [done|]. split; [by rewrite app_nil_r|]. split; [by intros u Hu%not_elem_of_nil|]. exists m.
    split_and!; [done..|]. split_and!; cbn; [done|by rewrite app_nil_r|lia]. }
  destruct (Ha u ltac:(by left)) as [Har Haw].
  assert (Ha' : forall u, u ∈ uuids -> answer_ok (ta_read (answers u)) /\ answer_ok (ta_write (answers u)))
    by (intros v Hv; apply Ha; by right).
  destruct (ta_lock (answers u)) eqn:El; cbn [negb].
  2:{ split; [done|]. split; [done|]. by apply run_clear. }
  assert (Hids : attach_ids (bs_cfg s) answers (u :: uuids) =
    (if SupportsRead (bc_purpose (bs_cfg s)) then answer_ids (ta_read (answers u)) else []) ++
    (if ShouldAttachWrite (bs_cfg s) u then answer_ids (ta_write (answers u)) else []) ++
    attach_ids (bs_cfg s) answers uuids)
    by (unfold attach_ids; cbn [mbind list_bind]; by rewrite <- app_assoc).
  rewrite Hids in Hnd |- *. set (rids := if SupportsRead _ then _ else []) in *.
  pose proof (attach_if_spec (SupportsRead (bc_purpose (bs_cfg s))) false u (read_purpose (bs_cfg s))
    (ta_read (answers u)) (ta_read_wired (answers u)) s m Hm Har) as Hread.
  destruct (attach_if _ false _ _ _ _ s) as [[r1 s1] es1]. destruct Hread as [Hs1 Hread].
  { intros id Hid Hin. apply NoDup_app in Hnd as (_ & Hnd & _). apply (Hnd id Hin), elem_of_app. by left. }
  destruct r1 as [st|x]; [destruct Hread as (Hst & Hw & Hrun); split; [done|]; by rewrite Hst|].
  destruct Hread as (Hh1 & Hlen1 & m1 & Hrun1 & Hm1 & Hc1 & Hat1).
  destruct Hs1 as (Ecfg1 & Eopen1 & Estop1 & Eop1 & Efo1). fold rids in Hh1. rewrite <- Ecfg1 in *.
  set (wids := if ShouldAttachWrite (bs_cfg s1) u then _ else []) in *.
  pose proof (attach_if_spec (ShouldAttachWrite (bs_cfg s1) u) true u (write_purpose (bs_cfg s1))
    (ta_write (answers u)) (ta_write_wired (answers u)) s1 m1 Hm1 Haw) as Hwrite.
  destruct (attach_if _ true _ _ _ _ s1) as [[r2 s2] es2]. destruct Hwrite as [Hs2 Hwrite].
  { intros id Hid Hin. rewrite Hh1 in Hin. rewrite app_assoc in Hnd. apply NoDup_app in Hnd as (_ & Hnd & _).
    apply (Hnd id Hin), elem_of_app. by left. }
  assert (Hs02 : same_session s s2) by (destruct Hs2 as (? & ? & ? & ? & ?); unfold same_session; split_and!; congruence).
  destruct r2 as [st|y].
  { destruct Hwrite as (Hst & Hw & Hrun). split; [done|]. rewrite Hst. split; [done|].
    rewrite (run_effects_app _ _ _ _ Hrun1), Hrun. by rewrite Hc1. }
  destruct Hwrite as (Hh2 & Hlen2 & m2 & Hrun2 & Hm2 & Hc2 & Hat2). fold wids in Hh2.
  destruct Hs2 as (Ecfg2 & Eopen2 & Estop2 & Eop2 & Efo2). rewrite <- Ecfg2 in *.
  assert (Hh : bs_handles s2 = bs_handles s ++ rids ++ wids) by (by rewrite Hh2, Hh1, app_assoc).
  pose proof (IH s2 m2 Hm2 Ha') as IH2. rewrite Hh, <- !app_assoc in IH2. specialize (IH2 Hnd).
  destruct (attach_loop answers uuids s2) as [[st s3] es3]. destruct IH2 as [Hs3 IH2].
  split; [destruct Hs02 as (? & ? & ? & ? & ?), Hs3 as (? & ? & ? & ? & ?); unfold same_session; split_and!; congruence|].
  assert (Hrun : forall m', run_effects es3 m2 = Some m' -> run_effects (es1 ++ es2 ++ es3) m = Some m').
  { intros m' Hr. by rewrite (run_effects_app _ _ _ _ Hrun1), (run_effects_app _ _ _ _ Hrun2). }
  destruct (Status_ok st).
  - destruct IH2 as (Hh3 & Hu3 & m3 & Hrun3 & Hm3 & Hc3 & Hat3). split; [done|]. split.
    + intros v [->|Hv]%elem_of_cons; [|by apply Hu3]. by split_and!.
    + exists m3. split_and!; [by apply Hrun|done|congruence|].
      unfold attach_plan in *. cbn [mbind list_bind]. rewrite <- app_assoc. eapply attached_app; [exact Hat1|].
      eapply attached_app; [exact Hat2|exact Hat3].
  - destruct IH2 as [Hw Hr3]. split; [done|]. rewrite (Hrun _ Hr3). by rewrite Hc2, Hc1.
Qed.

(** ** The start of a bot, whole *)

(** The bugs of a request's targets, in order. *)
Definition start_ids (req : StartBotRequest) (h : start_bot_answers) : list Z :=
  sb_target_channel_uuids req ≫= (fun u =>
    (if SupportsRead (sb_purpose req) then answer_ids (ta_read (ha_attach h u)) else []) ++
    (if ShouldWriteTarget req u then answer_ids (ta_write (ha_attach h u)) else [])).

Lemma run_marks us m : run_effects (BMark <$> us) m = Some m.
Proof. induction us as [|u us IH]; [done|]. cbn. done. Qed.

Lemma mem_ok_new cfg channel m : mem_bugs m = [] -> mem_contexts m = [] -> mem_ok (BotSession_new cfg channel) m.
Proof.
  intros E1 E2. split; rewrite ?E1, ?E2; cbn; try done; [constructor| |constructor|].
  - by intros id o ?%not_elem_of_nil.
  - by intros c ?%not_elem_of_nil.
Qed.

Lemma mem_ok_same s s' m :
  bs_handles s' = bs_handles s -> bs_read_contexts s' = bs_read_contexts s ->
  bs_write_contexts s' = bs_write_contexts s -> bs_next_context s' = bs_next_context s -> mem_ok s m -> mem_ok s' m.
Proof. intros E1 E2 E3 E4 [H1 H2 H3 H4 H5 H6]. split; by rewrite ?E1, ?E2, ?E3, ?E4. Qed.

Lemma run_stop s m :
  mem_ok s m -> bs_stopped s = false -> mem_client m = bs_client s ->
  run_effects (BotSession_Stop s).2 m = Some bs_mem_empty.
Proof.
  intros Hm Hst Hc. unfold BotSession_Stop. rewrite Hst. cbn [snd].
  erewrite run_effects_app; [|by apply run_clear]. destruct (bs_client s); cbn; by rewrite Hc.
Qed.

Lemma wiped_mem_ok s client : wiped s -> mem_ok s (mkBsMem [] [] client).
Proof.
  intros (H1 & H2 & H3). split; rewrite ?H1, ?H2, ?H3; cbn; try done; [constructor| |constructor|].
  - by intros id o ?%not_elem_of_nil.
  - by intros c ?%not_elem_of_nil.
Qed.

Lemma Bots_Insert_cases bot cap bs :
  let '(r, bs') := Bots_Insert bot cap bs in
  (r = kInserted -> bots_by_id bs' !! ab_bot_id bot = Some bot) /\ (r <> kInserted -> bs' = bs).
Proof.
  unfold Bots_Insert. destruct (string_empty _); [done|]. destruct (bots_by_id bs !! _); [done|].
  destruct (existsb _ _); [done|]. split; [|done]. intros _. cbn. by rewrite lookup_insert_eq.
Qed.

(** C11. Starting a bot is all or nothing.  Whatever FreeSWITCH, the bug manager, the upstream and the registry
    answer at each step: no context is ever freed while a media bug is wired to it and nothing is detached or freed
    twice; when the start succeeds the registry holds the bot, its session has exactly one bug per direction and target
    of its purpose, in target order; the start has done nothing but open the stream, mark the channels it could lock,
    and for each of these bugs attach it, make a context for its direction and its target, and wire it to that context,
    so that the i-th bug is wired to the i-th context and no two to one; the upstream stream is open, and stopping it
    detaches and frees everything and closes the stream, once; when the start fails, with an error status, the
    registry is unchanged and no bug, context or stream is left behind. *)
Theorem StartBot_all_or_nothing (config : Config) (req : StartBotRequest) (header : string * string)
  (start : string * gmap string string) (h : start_bot_answers)
  (Herr : forall u, u ∈ sb_target_channel_uuids req ->
     answer_ok (ta_read (ha_attach h u)) /\ answer_ok (ta_write (ha_attach h u)))
  (Hids : NoDup (start_ids req h)) :
  let '(st, bots', es, o) := HandleStartBot config req header start h in
  match o with
  | Some s =>
      st = Status_OK /\ is_Some (bots_by_id bots' !! ha_bot_id h) /\ bs_handles s = start_ids req h /\
      (forall u, u ∈ sb_target_channel_uuids req -> ta_lock (ha_attach h u) = true /\
         (SupportsRead (sb_purpose req) = true -> length (answer_ids (ta_read (ha_attach h u))) = 1%nat) /\
         (ShouldWriteTarget req u = true -> length (answer_ids (ta_write (ha_attach h u))) = 1%nat)) /\
      bc_purpose (bs_cfg s) = sb_purpose req /\
      (let plan := attach_plan (bs_cfg s) (ha_attach h) (sb_target_channel_uuids req) in
       es = [BClientOpen (bot_stream_config (bs_cfg s))] ++ wirings 0 plan ++
            (BMark <$> filter (fun u => ha_mark_lock h u = true) (sb_target_channel_uuids req)) /\
       exists m, run_effects es bs_mem_empty = Some m /\ mem_ok s m /\ mem_bugs m = wired_bugs 0 plan /\
         mem_client m = true /\ run_effects (BotSession_Stop s).2 m = Some bs_mem_empty) /\
      (BotSession_Stop (BotSession_Stop s).1).2 = []
  | None =>
      Status_ok st = false /\ bots' = ha_bots_at_insert h /\ run_effects es bs_mem_empty = Some bs_mem_empty
  end.
Proof.
  unfold HandleStartBot. destruct (ha_planes h); [|done]. cbn [negb].
  pose proof (ValidateStartBot_spec req config) as Hv. destruct (ValidateStartBot req config) as [st|rate].
  { split; [|done]. destruct Hv as [_ Hv]. unfold Status_ok. by destruct (st_code st); set_solver. }
  destruct Hv as [(Hne & _) _].
  destruct (check_channels config h req rate (sb_target_channel_uuids req)) as [st|] eqn:Ec.
  { split; [|done]. clear -Ec. induction (sb_target_channel_uuids req) as [|u us IH]; cbn [check_channels] in Ec; [done|].
    destruct (ChannelAtCapacity _ _ _); [by injection Ec as <-|]. destruct (ha_lock h u); cbn [negb] in Ec; [|by injection Ec as <-].
    destruct (SupportsRead _ && negb (Status_ok (ValidateRatePair _ (ha_read_rate h u) rate))) eqn:E1; [injection Ec as <-; by b2p|].
    destruct (ShouldWriteTarget req u && negb (Status_ok (ValidateRatePair _ rate (ha_write_rate h u)))) eqn:E2;
      [injection Ec as <-; by b2p|]. by apply IH. }
  set (cfg := bot_config req header start rate config (ha_bot_id h)).
  unfold BotSession_Open. cbn [bs_opened bs_channel bs_cfg BotSession_new negb].
  destruct (string_empty (bc_bot_id cfg)); [done|].
  rewrite (bool_decide_false (bc_targets cfg = [])) by done.
  destruct (Status_ok (ha_open h)) eqn:Eo; cbn [negb]; [|by rewrite Eo].
  set (s1 := mkBotSession cfg true true (bs_fanout (BotSession_new cfg true)) [] [] [] 0 false true 0 0).
  match goal with |- context [BotSession_Attach _ true true ?x] => change x with s1 end.
  set (m1 := mkBsMem [] [] true).
  assert (Hm1 : mem_ok s1 m1) by (apply (mem_ok_same (BotSession_new cfg true)); try done; by apply mem_ok_new).
  assert (Hattach : BotSession_Attach (ha_attach h) true true s1 = attach_loop (ha_attach h) (bc_targets cfg) s1).
  { unfold BotSession_Attach. cbn [bs_stopped s1 negb]. by rewrite !andb_false_r. }
  change (Status_ok Status_OK) with true. cbn [negb]. rewrite Hattach.
  pose proof (attach_loop_spec (ha_attach h) (bc_targets cfg) s1 m1 Hm1 Herr Hids) as Hl.
  destruct (attach_loop (ha_attach h) (bc_targets cfg) s1) as [[st s2] es2].
  destruct Hl as ((Ecfg & Ecl & Est & _ & _) & Hl).
  assert (Hopen : forall es, run_effects ([BClientOpen (bot_stream_config cfg)] ++ es) bs_mem_empty = run_effects es m1) by done.
  destruct (Status_ok st) eqn:Eok; cbn [negb].
  2:{ destruct Hl as [Hw Hr]. split; [done|]. split; [done|]. rewrite Hopen, (run_effects_app _ _ _ _ Hr).
      apply run_stop; [by apply wiped_mem_ok|done|done]. }
  destruct Hl as (Hh & Hu & m2 & Hr & Hm2 & Hc2 & Hes & Hbugs & _).
  pose proof (Bots_Insert_cases (mkActiveBot (ha_bot_id h) (bc_targets (bs_cfg s2)) [] true)
    (max_bots_per_channel config) (ha_bots_at_insert h)) as Hi.
  destruct (Bots_Insert _ _ _) as [r bots']. destruct Hi as [Hi1 Hi2].
  assert (Hfail : forall us, run_effects ([BClientOpen (bot_stream_config cfg)] ++ es2 ++ (BMark <$> us) ++
      (BotSession_Stop s2).2) bs_mem_empty = Some bs_mem_empty).
  { intros us. rewrite Hopen, (run_effects_app _ _ _ _ Hr), (run_effects_app _ _ _ _ (run_marks us m2)).
    apply run_stop; [done|done|]. by rewrite Hc2, Ecl. }
  destruct r; [|split_and!; [done|by apply Hi2|by apply Hfail]..].
  split_and!; [done|eexists; by apply Hi1|done|done|by rewrite Ecfg|by rewrite Hes, Ecfg| |].
  - exists m2. split_and!; [|done|by rewrite Hbugs, Ecfg|done|].
    + rewrite Hopen, (run_effects_app _ _ _ _ Hr). apply run_marks.
    + apply run_stop; [done|done|]. by rewrite Hc2, Ecl.
  - unfold BotSession_Stop at 2. rewrite Est. done.
Qed.

Definition demo_answers (wired : bool) (req : StartBotRequest) : start_bot_answers :=
  mkStartBotAnswers true ActiveBots_new ActiveBots_new (fun _ => true) (fun _ => 8000) (fun _ => 8000) "bot-1" Status_OK
    (fun u => if String.eqb u "a"
              then mkTargetAnswers true (inr 1) true (inr 2) true
              else mkTargetAnswers true (inr 3) true (inr 4) wired)
    (fun _ => true).

Definition demo_whisper : StartBotRequest := mkStartBotRequest ["a"; "b"] "bot:9000" WHISPER ["b"] 0 0.

(** The last wiring succeeds or fails. *)
Lemma StartBot_all_or_nothing_witness :
  (exists bots es s, HandleStartBot Config_default demo_whisper ("t", "")%string (""%string, ∅)
      (demo_answers true demo_whisper) = (Status_OK, bots, es, Some s) /\ bs_handles s = [1; 3; 4]) /\
  (exists st bots es, HandleStartBot Config_default demo_whisper ("t", "")%string (""%string, ∅)
      (demo_answers false demo_whisper) = (st, bots, es, None) /\ st_code st = INTERNAL /\
      run_effects es bs_mem_empty = Some bs_mem_empty).
Proof.
  split.
  - pose proof (StartBot_all_or_nothing Config_default demo_whisper ("t", "")%string (""%string, ∅)
      (demo_answers true demo_whisper)) as H.
    destruct (HandleStartBot _ _ _ _ (demo_answers true demo_whisper)) as [[[st bots] es] o] eqn:E.
    assert (Ho : is_Some o) by (vm_compute in E; injection E as _ _ _ <-; eauto).
    destruct o as [s|]; [|by destruct Ho].
    destruct H as (Hst & _ & Hh & _); [| |exists bots, es, s; rewrite Hst; split; [reflexivity|exact Hh]].
    + intros u _. split; intros st' Hst'; unfold demo_answers in Hst'; simpl in Hst'; by destruct (String.eqb u "a").
    + apply (bool_decide_eq_true _). vm_compute. reflexivity.
  - pose proof (StartBot_all_or_nothing Config_default demo_whisper ("t", "")%string (""%string, ∅)
      (demo_answers false demo_whisper)) as H.
    destruct (HandleStartBot _ _ _ _ (demo_answers false demo_whisper)) as [[[st bots] es] o] eqn:E.
    assert (Ho : o = None /\ st_code st = INTERNAL) by (vm_compute in E; injection E as <- _ _ <-; split; reflexivity).
    destruct Ho as [-> Hcode]. exists st, bots, es. destruct H as (_ & _ & Hr); [| |by split].
    + intros u _. split; intros st' Hst'; unfold demo_answers in Hst'; simpl in Hst'; by destruct (String.eqb u "a").
    + apply (bool_decide_eq_true _). vm_compute. reflexivity.
Defined.

(** ** The bot callbacks *)

(** A silent bot passes the channel's audio through: nothing is set, and the session does not change. *)
Lemma bot_silent_passthrough {RS : Type} `{SwitchResample RS} t (x : BotWriteReplaceCtx) frame (s : BotSession) :
  (Pop (bw_channel_uuid x) (bs_fanout s)).1 = None ->
  (OswBotWriteReplace t (Some x) frame s).1.1 = None /\
  bs_fanout (OswBotWriteReplace t (Some x) frame s).2 = bs_fanout s.
Proof.
  intros Hp. unfold OswBotWriteReplace, PopWriteFrame. destruct (negb _); [done|]. destruct (bs_stopped s); [done|].
  assert (Hpop : Pop (bw_channel_uuid x) (bs_fanout s) = (None, bs_fanout s)).
  { revert Hp. unfold Pop. destruct (FindQueue _ _) as [i|]; [|done].
    destruct (queues_ (bs_fanout s) !! i) as [[u [|f q]]|]; done. }
  by rewrite Hpop.
Qed.

Definition demo_bot (targets : list string) (frames : list AudioFrame) : BotSession :=
  let s := BotSession_new (mkBotSessionConfig "bot-1" "t" "ep" "" targets [] TTS_BROADCAST 8000 "" ∅ 500 2000) true in
  foldl (fun s f => (BotSession_on_audio f s).2) s frames.

Definition demo_write_ctx : BotWriteReplaceCtx (RS := unit) := mkBotWriteCtx "a" 8000 None false false.

(** An upstream frame longer than the channel's packet loses its tail: 40 ms of audio is written into a 20 ms frame,
    and the second half is neither played nor kept. *)
Lemma bot_long_frame_truncated :
  let s := demo_bot ["a"%string] [mkAudioFrame (repeat 7 320) 8000 1 0 0 0 ""] in
  let r := OswBotWriteReplace (H := doubler) ABC_WRITE_REPLACE (Some demo_write_ctx)
             (Some (pcm_frame (repeat 0 160) 8000)) s in
  set_samples r.1.1 = repeat 7 160 /\ QueueDepth "a" (bs_fanout r.2) = 0%nat.
Proof. split; vm_compute; reflexivity. Qed.

(** The targets of a bot share one timestamp counter: with two targets of 160 samples a packet, each target's
    timestamps advance by 320, although the protocol counts samples since the start of the stream. *)
Lemma bot_timestamps_shared :
  let jobs := [mkSendJob (repeat 1 160) 8000 1 0 "a"; mkSendJob (repeat 2 160) 8000 1 0 "b";
               mkSendJob (repeat 1 160) 8000 1 0 "a"]%string in
  let ls := jobs ≫= (fun j => [MNextSeq 0 j; MAdvance 0; MSend 0]) in
  (fun w => (fun f => (channel_uuid_ f, timestamp_samples_ f)) <$> (mw_sent w).*2) <$>
    media_run (media_init sample_client) ls = Some [("a", 0); ("b", 160); ("a", 320)]%string.
Proof. vm_compute. reflexivity. Qed.
