(* ===== verification/CallControl.v ===== *)
(** * Call control

    [src/control/var_denylist.cc], [src/control/originate_options.cc],
    [src/control/call_cause.cc] and the handlers of [src/control/handlers] that
    act on calls: originate, hangup, hangup_many, bridge, execute,
    set_variables, hold, unhold and blind_transfer.  What FreeSWITCH answers is
    an argument of each handler; the calls made on it are effects, in order, and
    so is what is done with the idempotency reservation.  The channel states are
    FreeSWITCH's, section variables; the audits are in [CallAudit]. *)

From S2P Require Import Prelude Eavesdrop.

(** [std::string::c_str]: FreeSWITCH reads a string up to its first NUL. *)
Definition c_str (s : string) : string :=
  match find_char (char_of 0) s with Some i => string_take i s | None => s end.

(** ** Reserved variables *)

Definition kReservedVarPrefixes : list string :=
  ["api_"; "exec_"; "bridge_pre_execute_"; "bridge_post_bridge_"; "hangup_after_bridge_"; "sip_h_"; "record_";
   "_record_"; "wait_for_"; "transfer_after_bridge"; "session_in_hangup_hook"; "api_on_"; "execute_on_"]%string.

Definition kReservedVarExact : list string :=
  ["osw_bot_session"; "osw_bot_purpose"; "osw_eavesdrop_policy"; "osw_tenant"]%string.

Definition IsReservedVar (name : string) : bool :=
  if string_empty name then false
  else
    let lower := string_map tolower name in
    existsb (String.eqb lower) kReservedVarExact ||
    existsb (fun prefix => string_starts_with prefix lower) kReservedVarPrefixes.

Definition is_var_char (c : ascii) : bool :=
  let b := byte_of c in
  ((65 <=? b) && (b <=? 90)) || ((97 <=? b) && (b <=? 122)) || ((48 <=? b) && (b <=? 57)) || (b =? 95) || (b =? 45).

Definition IsValidVarName (name : string) : bool := if string_empty name then false else string_all is_var_char name.

(** ** Causes *)

Definition kCauseTable : list (Z * string) :=
  [(0, "NONE"); (1, "UNALLOCATED_NUMBER"); (2, "NO_ROUTE_TRANSIT_NET"); (3, "NO_ROUTE_DESTINATION");
   (6, "CHANNEL_UNACCEPTABLE"); (7, "CALL_AWARDED_DELIVERED"); (16, "NORMAL_CLEARING"); (17, "USER_BUSY");
   (18, "NO_USER_RESPONSE"); (19, "NO_ANSWER"); (20, "SUBSCRIBER_ABSENT"); (21, "CALL_REJECTED");
   (22, "NUMBER_CHANGED"); (23, "REDIRECTION_TO_NEW_DESTINATION"); (25, "EXCHANGE_ROUTING_ERROR");
   (27, "DESTINATION_OUT_OF_ORDER"); (28, "INVALID_NUMBER_FORMAT"); (29, "FACILITY_REJECTED");
   (30, "RESPONSE_TO_STATUS_ENQUIRY"); (31, "NORMAL_UNSPECIFIED"); (34, "NORMAL_CIRCUIT_CONGESTION");
   (38, "NETWORK_OUT_OF_ORDER"); (41, "NORMAL_TEMPORARY_FAILURE"); (42, "SWITCH_CONGESTION");
   (43, "ACCESS_INFO_DISCARDED"); (44, "REQUESTED_CHAN_UNAVAIL"); (45, "PRE_EMPTED"); (50, "FACILITY_NOT_SUBSCRIBED");
   (52, "OUTGOING_CALL_BARRED"); (54, "INCOMING_CALL_BARRED"); (57, "BEARERCAPABILITY_NOTAUTH");
   (58, "BEARERCAPABILITY_NOTAVAIL"); (63, "SERVICE_UNAVAILABLE"); (65, "BEARERCAPABILITY_NOTIMPL");
   (66, "CHAN_NOT_IMPLEMENTED"); (69, "FACILITY_NOT_IMPLEMENTED"); (79, "SERVICE_NOT_IMPLEMENTED");
   (81, "INVALID_CALL_REFERENCE"); (88, "INCOMPATIBLE_DESTINATION"); (95, "INVALID_MSG_UNSPECIFIED");
   (96, "MANDATORY_IE_MISSING"); (97, "MESSAGE_TYPE_NONEXIST"); (98, "WRONG_MESSAGE"); (99, "IE_NONEXIST");
   (100, "INVALID_IE_CONTENTS"); (101, "WRONG_CALL_STATE"); (102, "RECOVERY_ON_TIMER_EXPIRE");
   (103, "MANDATORY_IE_LENGTH_ERROR"); (111, "PROTOCOL_ERROR"); (127, "INTERWORKING"); (142, "SUCCESS");
   (487, "ORIGINATOR_CANCEL"); (700, "CRASH"); (701, "SYSTEM_SHUTDOWN"); (702, "LOSE_RACE"); (703, "MANAGER_REQUEST");
   (800, "BLIND_TRANSFER"); (801, "ATTENDED_TRANSFER"); (802, "ALLOTTED_TIMEOUT"); (803, "USER_CHALLENGE");
   (804, "MEDIA_TIMEOUT"); (805, "PICKED_OFF"); (806, "USER_NOT_REGISTERED"); (807, "PROGRESS_TIMEOUT");
   (808, "INVALID_GATEWAY"); (809, "GATEWAY_DOWN"); (810, "INVALID_URL"); (811, "INVALID_PROFILE"); (812, "NO_PICKUP");
   (813, "SRTP_READ_ERROR"); (814, "BOWOUT"); (815, "BUSY_EVERYWHERE"); (816, "DECLINE");
   (817, "DOES_NOT_EXIST_ANYWHERE"); (818, "NOT_ACCEPTABLE"); (819, "UNWANTED"); (820, "NO_IDENTITY");
   (821, "BAD_IDENTITY_INFO"); (822, "UNSUPPORTED_CERTIFICATE"); (823, "INVALID_IDENTITY"); (824, "STALE_DATE");
   (825, "REJECT_ALL")]%string.

Definition CallCause_FromString (s : string) : Z :=
  if string_empty s || String.eqb s "UNSPECIFIED" then 16
  else match List.find (fun e => String.eqb s e.2) kCauseTable with Some e => e.1 | None => 16 end.

Definition CallCause_ToString (cause : Z) : string :=
  match List.find (fun e => e.1 =? cause) kCauseTable with Some e => e.2 | None => "UNSPECIFIED"%string end.

(** ** Originate options *)

Inductive Strategy := STRATEGY_UNSPECIFIED | SIMULTANEOUS | FAILOVER | MULTIPLE.

(** The timeout is a [google.protobuf.Duration]: seconds and nanoseconds.  The
    variables are in the map's iteration order. *)
Record OriginateRequest := mkOriginateRequest {
  or_endpoints : list string;
  or_strategy : Strategy;
  or_caller_id_name : string;
  or_caller_id_number : string;
  or_timeout : option (Z * Z);
  or_variables : list (string * string) }.

Definition kDefaultTimeoutSec : Z := 60.

Definition strategy_separator (s : Strategy) : string :=
  match s with SIMULTANEOUS => "," | MULTIPLE => ":_:" | FAILOVER | STRATEGY_UNSPECIFIED => "|" end%string.

(** The loop of [BuildDialString] from the second endpoint on. *)
Fixpoint append_endpoints (sep : string) (endpoints : list string) (ds : string) : string :=
  match endpoints with [] => ds | e :: es => append_endpoints sep es (ds +:+ sep +:+ e) end.

Definition BuildDialString (req : OriginateRequest) : string :=
  match or_endpoints req with
  | [] => ""%string
  | [e] => e
  | e :: es => append_endpoints (strategy_separator (or_strategy req)) es e
  end.

Record OriginateOptions := mkOriginateOptions {
  oo_dial_string : string;
  oo_cid_name : string;
  oo_cid_num : string;
  oo_timeout_sec : Z;
  oo_ovars : option (list (string * string)) }.

(** The position of the first empty endpoint. *)
Fixpoint empty_endpoint (i : nat) (es : list string) : option nat :=
  match es with [] => None | e :: es => if string_empty e then Some i else empty_endpoint (S i) es end.

(** [inl] is the error message; [event_ok] says whether the event for the
    variables could be allocated. *)
Definition OriginateOptions_Build (event_ok : bool) (req : OriginateRequest) : string + OriginateOptions :=
  match or_endpoints req with
  | [] => inl "at least one endpoint is required"%string
  | _ =>
      match empty_endpoint 0 (or_endpoints req) with
      | Some i => inl ("endpoint at index " +:+ pretty i +:+ " is empty")%string
      | None =>
          let build timeout_sec :=
            let opts ovars := mkOriginateOptions (BuildDialString req) (or_caller_id_name req)
                                (or_caller_id_number req) timeout_sec ovars in
            match or_variables req with
            | [] => inr (opts None)
            | vars => if event_ok then inr (opts (Some ((fun '(k, v) => (c_str k, c_str v)) <$> vars)))
                      else inl "failed to allocate channel variables event"%string
            end in
          match or_timeout req with
          | None => build kDefaultTimeoutSec
          | Some (seconds, nanos) =>
              if (seconds <=? 0) && (nanos <=? 0) then inl "timeout must be > 0"%string
              else build (if 0 <? seconds then u32 seconds else 1)
          end
      end
  end.

(** ** Effects *)

Inductive cc_effect :=
| CcSetVariable (uuid name value : string)
| CcHangup (uuid : string) (cause : Z)
| CcOriginate (opts : OriginateOptions)
| CcExecute (uuid app : string) (args : option string)
| CcBridge (a b : string)
| CcTransfer (uuid destination : string) (dialplan context : option string)
| CcHold (uuid : string)
| CcUnhold (uuid : string).

(** What happens to the reservation of the idempotency cache. *)
Inductive reservation := CacheStore (st : Status) | CacheCancel.

(** The outcome of the lookup: no deduplication, a reservation, a stored
    response that parses, or one that does not. *)
Inductive lookup := NoDedup | Miss | HitParsed (st : Status) | HitCorrupt.

Definition dedup (l : lookup) : bool := match l with NoDedup => false | _ => true end.

Definition cc_result : Type := Status * list cc_effect * list reservation.

(** [cache_and_return] and [cancel_and_return]; [ser] says whether the response
    could be serialized. *)
Definition cache_and_return (l : lookup) (ser : bool) (st : Status) (es : list cc_effect) : cc_result :=
  (st, es, if dedup l then [if ser then CacheStore st else CacheCancel] else []).

Definition cancel_and_return (l : lookup) (st : Status) (es : list cc_effect) : cc_result :=
  (st, es, if dedup l then [CacheCancel] else []).

Section Handlers.
Context (CS_ROUTING CS_EXECUTE CS_HANGUP SWITCH_STATUS_SUCCESS : Z).

(** A located session: whether its channel pointer is not null, the state, and
    the answered and hold flags. *)
Record session_view := mkSessionView {
  sv_channel : bool; sv_state : Z; sv_answered : bool; sv_hold : bool }.

Definition not_found (uuid : string) : Status := mkStatus NOT_FOUND ("session not found: uuid=" +:+ uuid)%string.
Definition channel_null : Status := mkStatus INTERNAL "channel pointer null".
Definition invalid (msg : string) : Status := mkStatus INVALID_ARGUMENT msg.
Definition reserved_name (name : string) : Status := invalid ("variable name is reserved: '" +:+ name +:+ "'")%string.

(** ** SetVariables *)

Fixpoint check_vars (vars : list (string * string)) : option Status :=
  match vars with
  | [] => None
  | (name, _) :: vars =>
      if negb (IsValidVarName name) then Some (invalid ("invalid variable name: '" +:+ name +:+ "' (must match [A-Za-z0-9_-]+)")%string)
      else if IsReservedVar name then Some (reserved_name name)
      else check_vars vars
  end.

Definition kMaxVariables : Z := 64.

Definition too_many (vars : list (string * string)) : Status :=
  mkStatus RESOURCE_EXHAUSTED ("too many variables: max=64 got=" +:+ pretty (zlen vars))%string.

Definition SetVariables (uuid : string) (vars : list (string * string)) (found : option session_view)
  : Status * list cc_effect :=
  if string_empty uuid then (invalid "uuid must not be empty", [])
  else if bool_decide (vars = []) then (invalid "variables map must not be empty", [])
  else if kMaxVariables <? i32 (zlen vars) then (too_many vars, [])
  else match check_vars vars with
  | Some st => (st, [])
  | None =>
      match found with
      | None => (not_found uuid, [])
      | Some v =>
          if negb (sv_channel v) then (channel_null, [])
          else (Status_OK, (fun '(name, value) => CcSetVariable uuid (c_str name) (c_str value)) <$> vars)
      end
  end.

(** ** Hangup *)

(** The loop over the variables: those set before a reserved one stay set. *)
Fixpoint hangup_vars (uuid : string) (vars : list (string * string)) : option Status * list cc_effect :=
  match vars with
  | [] => (None, [])
  | (k, v) :: vars =>
      if IsReservedVar k then (Some (reserved_name k), [])
      else let '(st, es) := hangup_vars uuid vars in (st, CcSetVariable uuid (c_str k) (c_str v) :: es)
  end.

Definition already_hung_up (uuid : string) : Status :=
  mkStatus FAILED_PRECONDITION ("channel already hung up: uuid=" +:+ uuid)%string.

Definition Hangup (uuid cause : string) (vars : list (string * string)) (found : option session_view)
  : Status * list cc_effect :=
  if string_empty uuid then (invalid "uuid must not be empty", [])
  else match found with
  | None => (not_found uuid, [])
  | Some v =>
      if negb (sv_channel v) then (channel_null, [])
      else if CS_HANGUP <=? sv_state v then (already_hung_up uuid, [])
      else match hangup_vars uuid vars with
      | (Some st, es) => (st, es)
      | (None, es) => (Status_OK, es ++ [CcHangup uuid (CallCause_FromString cause)])
      end
  end.

Definition HangupOne (uuid : string) (cause : Z) (found : option session_view) : bool * list cc_effect :=
  if string_empty uuid then (false, [])
  else match found with
  | None => (false, [])
  | Some v =>
      if negb (sv_channel v) then (false, [])
      else if CS_HANGUP <=? sv_state v then (false, [])
      else (true, [CcHangup uuid cause])
  end.

(** [found i]: what the [i]-th location finds.  The uuids hung up. *)
Fixpoint HangupMany_loop (i : nat) (uuids : list string) (cause : Z) (found : nat -> option session_view)
  : list string * list cc_effect :=
  match uuids with
  | [] => ([], [])
  | uuid :: uuids =>
      let '(ok, es) := HangupOne uuid cause (found i) in
      let '(us, es') := HangupMany_loop (S i) uuids cause found in ((if ok then [uuid] else []) ++ us, es ++ es')
  end.

Definition HangupMany (uuids : list string) (cause : string) (found : nat -> option session_view)
  : list string * list cc_effect := HangupMany_loop 0 uuids (CallCause_FromString cause) found.

(** ** Execute *)

Definition failed_rc (call : string) (rc : Z) : Status :=
  mkStatus FAILED_PRECONDITION (call +:+ " failed: rc=" +:+ pretty rc)%string.

Definition AllowedApps : list string := ["playback"; "set"; "hangup"; "answer"]%string.

(** The name the guard reads off the arguments of [set]: up to the first [=], or
    everything. *)
Definition set_var_name (args : string) : string :=
  match find_char "=" args with Some i => string_take i args | None => args end.

(** [rc]: what [switch_core_session_execute_application] returns. *)
Definition Execute (l : lookup) (ser : bool) (uuid app args : string) (found : option session_view) (rc : Z)
  : cc_result :=
  let ret := cache_and_return l ser in
  match l with
  | HitParsed st => (st, [], [])
  | _ =>
      if string_empty uuid then ret (invalid "uuid must not be empty") []
      else if string_empty app then ret (invalid "app must not be empty") []
      else if negb (bool_decide (app ∈ AllowedApps))
      then ret (invalid ("app '" +:+ app +:+ "' is not in the V1 allow-list")%string) []
      else match found with
      | None => ret (not_found uuid) []
      | Some v =>
          if negb (sv_channel v) then cancel_and_return l channel_null []
          else if CS_HANGUP <=? sv_state v then ret (already_hung_up uuid) []
          else if String.eqb app "set" && negb (string_empty args) && IsReservedVar (set_var_name args)
          then ret (reserved_name (set_var_name args)) []
          else
            let es := [CcExecute uuid (c_str app) (if string_empty args then None else Some (c_str args))] in
            if negb (rc =? SWITCH_STATUS_SUCCESS) then ret (failed_rc "execute_application" rc) es
            else ret Status_OK es
      end
  end.

(** ** Bridge *)

Definition IsChannelBridgeable (state : Z) : bool := (state =? CS_ROUTING) || (state =? CS_EXECUTE).

Definition not_bridgeable (uuid : string) : Status :=
  mkStatus FAILED_PRECONDITION ("channel not in bridgeable state: uuid=" +:+ uuid)%string.

(** The two uuids in the order they are locked. *)
Definition lock_order (a b : string) : string * string := if String.ltb a b then (a, b) else (b, a).

Definition Bridge (l : lookup) (ser : bool) (a b : string) (found : string -> option session_view) (rc : Z)
  : cc_result :=
  let ret := cache_and_return l ser in
  match l with
  | HitParsed st => (st, [], [])
  | _ =>
      if string_empty a then ret (invalid "leg_a_uuid must not be empty") []
      else if string_empty b then ret (invalid "leg_b_uuid must not be empty") []
      else if String.eqb a b then ret (invalid "leg_a_uuid and leg_b_uuid must be different") []
      else
        let '(first, second) := lock_order a b in
        match found first with
        | None => ret (not_found first) []
        | Some v1 =>
            match found second with
            | None => ret (not_found second) []
            | Some v2 =>
                if negb (sv_channel v1) || negb (sv_channel v2) then cancel_and_return l channel_null []
                else if negb (IsChannelBridgeable (sv_state v1)) then ret (not_bridgeable first) []
                else if negb (IsChannelBridgeable (sv_state v2)) then ret (not_bridgeable second) []
                else let es := [CcBridge (c_str a) (c_str b)] in
                if negb (rc =? SWITCH_STATUS_SUCCESS) then ret (failed_rc "switch_ivr_uuid_bridge" rc) es
                else ret Status_OK es
            end
        end
  end.

(** ** Originate *)

Definition MapOriginateFailure (cause : Z) : Status :=
  if (cause =? 487) || (cause =? 802) || (cause =? 807) || (cause =? 804)
  then mkStatus DEADLINE_EXCEEDED "originate timed out before answer"
  else mkStatus FAILED_PRECONDITION ("originate failed: cause=" +:+ CallCause_ToString cause)%string.

(** What [switch_ivr_originate] gave: a failure with its cause, or the uuid of
    the new session, [None] when the session is null. *)
Inductive originated := OrigFailed (cause : Z) | OrigSession (uuid : option string).

Definition Originate (l : lookup) (ser event_ok : bool) (req : OriginateRequest) (o : originated) : cc_result :=
  let ret := cache_and_return l ser in
  match l with
  | HitParsed st => (st, [], [])
  | _ =>
      match OriginateOptions_Build event_ok req with
      | inl msg => ret (invalid msg) []
      | inr opts =>
          let es := [CcOriginate opts] in
          match o with
          | OrigFailed cause => ret (MapOriginateFailure cause) es
          | OrigSession None => cancel_and_return l (mkStatus UNAVAILABLE "FS returned null session") es
          | OrigSession (Some uuid) =>
              if string_empty uuid
              then cancel_and_return l (mkStatus INTERNAL "originated session has no UUID") es
              else ret Status_OK es
          end
      end
  end.

(** ** Hold, unhold, transfer *)

(** One uuid of [Hold] or [Unhold]: the status when the loop stops there. *)
Definition Hold_one (uuid : string) (found : option session_view) (rc : Z) : option Status * list cc_effect :=
  if string_empty uuid then (Some (invalid "uuid must not be empty"), [])
  else match found with
  | None => (Some (not_found uuid), [])
  | Some v =>
      if negb (sv_channel v) then (Some channel_null, [])
      else if negb (sv_answered v)
      then (Some (mkStatus FAILED_PRECONDITION ("channel not in answered state: uuid=" +:+ uuid)%string), [])
      else if sv_hold v then (Some (mkStatus FAILED_PRECONDITION ("channel already on hold: uuid=" +:+ uuid)%string), [])
      else if negb (rc =? SWITCH_STATUS_SUCCESS) then (Some (mkStatus INTERNAL ("HoldUuid failed for uuid=" +:+ uuid)%string), [CcHold (c_str uuid)])
      else (None, [CcHold (c_str uuid)])
  end.

Definition Unhold_one (uuid : string) (found : option session_view) (rc : Z) : option Status * list cc_effect :=
  if string_empty uuid then (Some (invalid "uuid must not be empty"), [])
  else match found with
  | None => (Some (not_found uuid), [])
  | Some v =>
      if negb (sv_channel v) then (Some channel_null, [])
      else if negb (sv_hold v) then (Some (mkStatus FAILED_PRECONDITION ("channel is not on hold: uuid=" +:+ uuid)%string), [])
      else if negb (rc =? SWITCH_STATUS_SUCCESS) then (Some (mkStatus INTERNAL ("UnholdUuid failed for uuid=" +:+ uuid)%string), [CcUnhold (c_str uuid)])
      else (None, [CcUnhold (c_str uuid)])
  end.

(** The loops: the status, the uuids added to the response, and the effects. *)
Fixpoint hold_loop (one : string -> option session_view -> Z -> option Status * list cc_effect)
  (i : nat) (uuids : list string) (found : nat -> option session_view) (rc : nat -> Z)
  : Status * list string * list cc_effect :=
  match uuids with
  | [] => (Status_OK, [], [])
  | uuid :: uuids =>
      match one uuid (found i) (rc i) with
      | (Some st, es) => (st, [], es)
      | (None, es) => let '(st, us, es') := hold_loop one (S i) uuids found rc in (st, uuid :: us, es ++ es')
      end
  end.

Definition Hold (uuids : list string) (found : nat -> option session_view) (rc : nat -> Z) :=
  if bool_decide (uuids = []) then (invalid "uuids list must not be empty", [], [])
  else hold_loop Hold_one 0 uuids found rc.

Definition Unhold (uuids : list string) (found : nat -> option session_view) (rc : nat -> Z) :=
  if bool_decide (uuids = []) then (invalid "uuids list must not be empty", [], [])
  else hold_loop Unhold_one 0 uuids found rc.

Definition OptionalStringToPtr (s : string) : option string := if string_empty s then None else Some (c_str s).

Definition BlindTransfer (uuid destination dialplan context : string) (found : option session_view) (rc : Z)
  : Status * list cc_effect :=
  if string_empty uuid then (invalid "uuid must not be empty", [])
  else if string_empty destination then (invalid "destination (extension) must not be empty", [])
  else match found with
  | None => (not_found uuid, [])
  | Some _ =>
      let es := [CcTransfer uuid (c_str destination) (OptionalStringToPtr dialplan) (OptionalStringToPtr context)] in
      (if rc =? SWITCH_STATUS_SUCCESS then Status_OK else failed_rc "session_transfer" rc, es)
  end.
End Handlers.

(** [handlers::Unimplemented], the answer of a method without a body, and the
    method that still has none in the builds of the unit tests. *)
Definition Unimplemented (method wave : string) : Status :=
  mkStatus UNIMPLEMENTED ("not yet implemented (wave " +:+ wave +:+ " coming)")%string.

Definition SubscribeEvents_stub : Status := Unimplemented "SubscribeEvents" "W2 (stub for W3A tests)".

(** ** What is refused *)

Definition nul_free (s : string) : bool := string_all (is_not (char_of 0)) s.

Lemma c_str_nul_free s : nul_free s = true -> c_str s = s.
Proof. unfold c_str, nul_free. intros H. by rewrite find_char_none. Qed.

Lemma IsValidVarName_nul_free name : IsValidVarName name = true -> nul_free name = true.
Proof.
  unfold IsValidVarName. case_match; [done|]. apply string_all_impl. intros c.
  unfold is_not. destruct (Ascii.eqb_spec c (char_of 0)) as [->|]; [vm_compute; congruence|done].
Qed.

(** What the denylist means: an exact name, or a prefix, whatever the case. *)
Definition reserved (name : string) : Prop :=
  string_map tolower name ∈ kReservedVarExact \/
  exists prefix rest, prefix ∈ kReservedVarPrefixes /\ string_map tolower name = prefix +:+ rest.

Lemma reserved_nonempty : ~ reserved "".
Proof.
  intros [H|(p & t & Hp & Ht)].
  - repeat (apply elem_of_cons in H as [H|H]; [done|]). by apply elem_of_nil in H.
  - repeat (apply elem_of_cons in Hp as [->|Hp]; [done|]). by apply elem_of_nil in Hp.
Qed.

Lemma IsReservedVar_spec name : IsReservedVar name = true <-> reserved name.
Proof.
  unfold IsReservedVar. destruct (string_empty name) eqn:He.
  { apply string_empty_spec in He as ->. split; [done|]. intros H. by destruct (reserved_nonempty H). }
  rewrite orb_true_iff, !existsb_exists. unfold reserved. split.
  - intros [(x & Hx & <-%String.eqb_eq)|(p & Hp & [t ->]%string_starts_with_spec)];
      [left|right; exists p, t]; by rewrite list_elem_of_In.
  - intros [H|(p & t & Hp & ->)]; [left|right; exists p];
      [exists (string_map tolower name)|]; split; auto using String.eqb_refl, string_starts_with_app;
      by apply list_elem_of_In.
Qed.

Lemma not_reserved name : IsReservedVar name = false -> ~ reserved name.
Proof. rewrite <- IsReservedVar_spec. by destruct (IsReservedVar name). Qed.

(** A call on FreeSWITCH that the denylist and the allow-list permit: a [set] of
    the literal argument [name=value] does not name a reserved variable. *)
Definition permitted (e : cc_effect) : Prop :=
  match e with
  | CcSetVariable _ name _ => ~ reserved name
  | CcExecute _ app args =>
      app ∈ AllowedApps /\
      (app = "set"%string -> forall name value, string_all (is_not "=") name = true ->
         args = Some (name +:+ String "=" value)%string -> ~ reserved name)
  | _ => True
  end.

Lemma set_var_name_literal name value :
  string_all (is_not "=") name = true -> set_var_name (name +:+ String "=" value)%string = name.
Proof. intros H. unfold set_var_name. by rewrite find_char_app, string_take_app. Qed.

Section Proofs.
Context (CS_ROUTING CS_EXECUTE CS_HANGUP SWITCH_STATUS_SUCCESS : Z).

Lemma check_vars_ok vars :
  check_vars vars = None ->
  Forall (fun e => IsValidVarName e.1 = true /\ IsReservedVar e.1 = false) vars.
Proof.
  induction vars as [|[name value] vars IH]; [by constructor|]. simpl.
  destruct (IsValidVarName name) eqn:Hv; simpl; [|done].
  destruct (IsReservedVar name) eqn:Hr; [done|]. intros H. constructor; [done|by apply IH].
Qed.

(** The branches of [SetVariables]: refused with nothing written, or every
    variable written in order. *)
Lemma SetVariables_cases uuid vars found :
  ((SetVariables uuid vars found).1 <> Status_OK /\ (SetVariables uuid vars found).2 = []) \/
  (check_vars vars = None /\ vars <> [] /\ i32 (zlen vars) <= 64 /\
   SetVariables uuid vars found
   = (Status_OK, (fun e => CcSetVariable uuid (c_str e.1) (c_str e.2)) <$> vars)).
Proof.
  unfold SetVariables. case_match; [by left|]. case_bool_decide; [by left|].
  unfold kMaxVariables. destruct (Z.ltb_spec 64 (i32 (zlen vars))); [by left|].
  destruct (check_vars vars) as [st|] eqn:Hc.
  { left. simpl. split; [|done]. revert Hc. clear. induction vars as [|[name value] vars IH]; [done|]. simpl.
    repeat case_match; intros; simplify_eq; try done. by apply IH. }
  destruct found as [v|]; [|by left]. destruct (sv_channel v); [|by left]. right. split_and!; try done.
  f_equal. apply list_fmap_ext. by intros ? [].
Qed.

Lemma hangup_vars_permitted uuid vars :
  Forall (fun s => nul_free s = true) vars.*1 -> Forall permitted (hangup_vars uuid vars).2.
Proof.
  induction vars as [|[k v] vars IH]; [constructor|]. intros [Hk Hvs]%Forall_cons. specialize (IH Hvs). simpl.
  destruct (IsReservedVar k) eqn:Hr; [constructor|].
  destruct (hangup_vars uuid vars) as [st es]. constructor; [|done]. simpl in *.
  rewrite c_str_nul_free by done. by apply not_reserved.
Qed.

Lemma cache_and_return_effects l ser st es : (cache_and_return l ser st es).1.2 = es.
Proof. done. Qed.

Lemma Execute_permitted l ser uuid app args found rc :
  nul_free args = true ->
  Forall permitted (Execute CS_HANGUP SWITCH_STATUS_SUCCESS l ser uuid app args found rc).1.2.
Proof.
  intros Hargs. unfold Execute.
  assert (Happ : app ∈ AllowedApps -> c_str app = app).
  { intros H. repeat (apply elem_of_cons in H as [->|H]; [done|]). by apply elem_of_nil in H. }
  destruct (decide (app ∈ AllowedApps)) as [Ha|Ha]; [rewrite bool_decide_true by done|rewrite bool_decide_false by done];
    [|by repeat case_match; constructor].
  specialize (Happ Ha). rewrite Happ, c_str_nul_free by done. cbn [negb].
  assert (Hset : (String.eqb app "set" && negb (string_empty args) && IsReservedVar (set_var_name args)) = false ->
    permitted (CcExecute uuid app (if string_empty args then None else Some args))).
  { intros H. split; [done|]. intros -> name value Hn. destruct (string_empty args); [done|].
    intros [= ->]. cbn [negb andb] in H. rewrite set_var_name_literal in H by done. by apply not_reserved. }
  repeat case_match; cbn [cache_and_return cancel_and_return fst snd]; rewrite ?Forall_singleton; auto using Forall_nil_2.
Qed.

(** C20. The reserved variables are out of reach of [SetVariables], [Hangup]
    and of the literal argument of [Execute].  When no name and no argument
    holds a NUL, no assignment these handlers make on a channel is to a name the
    denylist covers, in any letter case; [Execute] runs an application of the
    allow-list only, and never [set] with an argument [name=value] that spells
    such a name.  (FreeSWITCH expands a [${...}] in the argument later, with the
    channel's variables: what it then assigns is not claimed.)  [SetVariables]
    refused writes nothing; answering OK it has tried every assignment, in
    order, and reports OK even if FreeSWITCH refused some of them.  [Hangup]
    refused for a reserved name may have written the names before it. *)
Theorem control_no_reserved_write l ser uuid app args cause vars found rc :
  Forall (fun s => nul_free s = true) (args :: vars.*1) ->
  Forall permitted (SetVariables uuid vars found).2 /\
  ((SetVariables uuid vars found).1 <> Status_OK -> (SetVariables uuid vars found).2 = []) /\
  ((SetVariables uuid vars found).1 = Status_OK ->
   (SetVariables uuid vars found).2 = (fun e => CcSetVariable uuid e.1 (c_str e.2)) <$> vars) /\
  Forall permitted (Hangup CS_HANGUP uuid cause vars found).2 /\
  Forall permitted (Execute CS_HANGUP SWITCH_STATUS_SUCCESS l ser uuid app args found rc).1.2.
Proof.
  intros [Hargs Hvars]%Forall_cons. split_and!.
  - destruct (SetVariables_cases uuid vars found) as [[_ ->]|(Hc & _ & _ & ->)]; [constructor|].
    apply Forall_fmap, (Forall_impl _ _ _ (check_vars_ok _ Hc)). intros e [Hv Hr]. simpl.
    rewrite c_str_nul_free by by apply IsValidVarName_nul_free. by apply not_reserved.
  - destruct (SetVariables_cases uuid vars found) as [[_ ?]|(_ & _ & _ & ->)]; [done|by intros []].
  - destruct (SetVariables_cases uuid vars found) as [[Hn _]|(_ & _ & _ & ->)]; [done|]. intros _. simpl.
    apply map_ext_in. intros e He. apply list_elem_of_In in He. rewrite Forall_fmap, Forall_forall in Hvars.
    by rewrite (c_str_nul_free e.1) by exact (Hvars e He).
  - pose proof (hangup_vars_permitted uuid vars Hvars) as H. unfold Hangup.
    destruct (hangup_vars uuid vars) as [[st|] es]; repeat case_match; try apply Forall_nil_2; try done.
    simpl. apply Forall_app. by rewrite Forall_singleton.
  - by apply Execute_permitted.
Qed.

(** ** The reservation is settled *)

(** What a deduplicated handler may do with its reservation: a stored response
    is replayed with no call on FreeSWITCH; otherwise there is at most one call,
    exactly one when the answer is OK, and the reservation, if any, is settled
    once: stored with the very status returned, or cancelled when the response
    could not be serialized or the failure is transient. *)
Definition settled (l : lookup) (ser : bool) (r : cc_result) : Prop :=
  match l with
  | HitParsed st => r = (st, [], [])
  | _ =>
      let '(st, es, rs) := r in
      (length es <= 1)%nat /\ (st = Status_OK -> length es = 1%nat) /\
      match rs with
      | [] => l = NoDedup
      | [CacheStore st'] => l <> NoDedup /\ ser = true /\ st' = st /\ st_code st <> INTERNAL /\ st_code st <> UNAVAILABLE
      | [CacheCancel] => l <> NoDedup /\ (ser = false \/ st_code st = INTERNAL \/ st_code st = UNAVAILABLE)
      | _ => False
      end
  end.

Lemma cache_and_return_settled l ser st es :
  (forall st', l <> HitParsed st') -> (length es <= 1)%nat -> (st = Status_OK -> length es = 1%nat) ->
  st_code st <> INTERNAL -> st_code st <> UNAVAILABLE -> settled l ser (cache_and_return l ser st es).
Proof. intros Hl. destruct l, ser; simpl; intros; split_and?; auto; by destruct (Hl st0). Qed.

Lemma cancel_and_return_settled l ser st es :
  (forall st', l <> HitParsed st') -> (length es <= 1)%nat -> st_code st = INTERNAL \/ st_code st = UNAVAILABLE ->
  settled l ser (cancel_and_return l st es).
Proof.
  intros Hl. destruct l; simpl; intros ? Hst; split_and?; auto; try (by destruct (Hl st0));
    intros ->; by destruct Hst.
Qed.

Lemma MapOriginateFailure_code cause :
  st_code (MapOriginateFailure cause) = DEADLINE_EXCEEDED \/ st_code (MapOriginateFailure cause) = FAILED_PRECONDITION.
Proof. unfold MapOriginateFailure. case_match; auto. Qed.

(** One branch of a deduplicated handler. *)
Ltac settle :=
  lazymatch goal with
  | |- settled _ _ (cancel_and_return _ _ _) => apply cancel_and_return_settled
  | |- _ => apply cache_and_return_settled
  end; simpl; auto; try done.

Lemma Execute_settled l ser uuid app args found rc :
  settled l ser (Execute CS_HANGUP SWITCH_STATUS_SUCCESS l ser uuid app args found rc).
Proof.
  unfold Execute. cbv zeta. destruct l; [| |done|]; repeat case_match; settle.
Qed.

Lemma Bridge_settled l ser a b found rc :
  settled l ser (Bridge CS_ROUTING CS_EXECUTE SWITCH_STATUS_SUCCESS l ser a b found rc).
Proof.
  unfold Bridge. cbv zeta. destruct l; [| |done|]; repeat case_match; settle.
Qed.

Lemma Originate_settled l ser event_ok req o : settled l ser (Originate l ser event_ok req o).
Proof.
  assert (Hm : forall cause, MapOriginateFailure cause <> Status_OK /\ st_code (MapOriginateFailure cause) <> INTERNAL /\
    st_code (MapOriginateFailure cause) <> UNAVAILABLE).
  { intros cause. destruct (MapOriginateFailure_code cause) as [H|H]; rewrite H; split_and!; try done; intros Heq; by rewrite Heq in H. }
  unfold Originate. cbv zeta. destruct l; [| |done|]; repeat case_match; settle; by apply Hm.
Qed.

(** C21. Every path of [Execute], [Bridge] and [Originate] settles the
    idempotency reservation exactly once and makes at most one call on
    FreeSWITCH: a replayed response makes none; a definitive answer is stored
    with the status returned; [INTERNAL] and [UNAVAILABLE], and a response that
    cannot be serialized, release the reservation, so that no waiter is left
    blocked and a retry runs again.  (The control-api specification, under
    error-path cleanup, wants these two failures stored and replayed like the
    others unless [idempotency_cache_errors] is off; the handlers do not read
    such a setting.) *)
Theorem control_settles l ser event_ok uuid app args found found2 a b rc rc2 req o :
  settled l ser (Execute CS_HANGUP SWITCH_STATUS_SUCCESS l ser uuid app args found rc) /\
  settled l ser (Bridge CS_ROUTING CS_EXECUTE SWITCH_STATUS_SUCCESS l ser a b found2 rc2) /\
  settled l ser (Originate l ser event_ok req o).
Proof. split_and!; [apply Execute_settled|apply Bridge_settled|apply Originate_settled]. Qed.

(** ** Locks, holds, causes, dial strings *)

(** Two concurrent [Bridge] calls on the same two legs lock them in the same
    order, whichever leg each names first. *)
Lemma lock_order_comm a b : a <> b -> lock_order a b = lock_order b a.
Proof.
  intros Hab. unfold lock_order, String.ltb. rewrite (String.compare_antisym b a).
  destruct (String.compare a b) eqn:H; try done. by apply String.compare_eq_iff in H.
Qed.

Lemma hold_loop_prefix one mk i uuids found rc :
  (forall u f r, match one u f r with
                 | (None, es) => es = [mk u]
                 | (Some st, es) => st <> Status_OK /\ (es = [] \/ es = [mk u])
                 end) ->
  let '(st, us, es) := hold_loop one i uuids found rc in
  us `prefix_of` uuids /\ (st = Status_OK <-> us = uuids) /\
  (es = mk <$> us \/ exists u, (us ++ [u]) `prefix_of` uuids /\ es = (mk <$> us) ++ [mk u]).
Proof.
  intros Hone. revert i. induction uuids as [|u uuids IH]; intros i; simpl.
  { split_and!; [done|done|by left]. }
  specialize (Hone u (found i) (rc i)). destruct (one u (found i) (rc i)) as [[st|] es].
  - destruct Hone as [Hst Hes]. split_and!; [apply prefix_nil|done|].
    destruct Hes as [->| ->]; [by left|]. right. exists u. split; [|done]. by apply prefix_cons, prefix_nil.
  - specialize (IH (S i)). destruct (hold_loop one (S i) uuids found rc) as [[st us] es'].
    destruct IH as (Hp & Hst & Hes). subst es. split_and!.
    + by apply prefix_cons.
    + rewrite Hst. split; congruence.
    + destruct Hes as [->|(u' & Hu & ->)]; [by left|]. right. exists u'. split; [by apply prefix_cons|done].
Qed.

(** [Hold] and [Unhold] stop at the first uuid that fails: the response lists a
    prefix of the request, each of its channels was held (or released) once, in
    order, and the answer is OK when the prefix is the whole request. *)
Lemma Hold_prefix uuids found rc :
  uuids <> [] ->
  let '(st, us, es) := Hold SWITCH_STATUS_SUCCESS uuids found rc in
  us `prefix_of` uuids /\ (st = Status_OK <-> us = uuids) /\
  (es = (fun u => CcHold (c_str u)) <$> us \/
   exists u, (us ++ [u]) `prefix_of` uuids /\ es = ((fun u => CcHold (c_str u)) <$> us) ++ [CcHold (c_str u)]).
Proof.
  intros Hne. unfold Hold. rewrite bool_decide_false by done.
  apply hold_loop_prefix with (mk := fun u => CcHold (c_str u)). intros u f r. unfold Hold_one.
  repeat case_match; simplify_eq; try (split; [done|]); auto.
Qed.

Lemma Unhold_prefix uuids found rc :
  uuids <> [] ->
  let '(st, us, es) := Unhold SWITCH_STATUS_SUCCESS uuids found rc in
  us `prefix_of` uuids /\ (st = Status_OK <-> us = uuids) /\
  (es = (fun u => CcUnhold (c_str u)) <$> us \/
   exists u, (us ++ [u]) `prefix_of` uuids /\ es = ((fun u => CcUnhold (c_str u)) <$> us) ++ [CcUnhold (c_str u)]).
Proof.
  intros Hne. unfold Unhold. rewrite bool_decide_false by done.
  apply hold_loop_prefix with (mk := fun u => CcUnhold (c_str u)). intros u f r. unfold Unhold_one.
  repeat case_match; simplify_eq; try (split; [done|]); auto.
Qed.

End Proofs.

(** The causes and their names: distinct, so that each conversion undoes the
    other on the table. *)
Lemma kCauseTable_NoDup : NoDup kCauseTable.*1 /\ NoDup kCauseTable.*2.
Proof. split; apply (bool_decide_unpack _); by vm_compute. Qed.

Lemma CallCause_roundtrip cause name :
  (cause, name) ∈ kCauseTable -> CallCause_FromString name = cause /\ CallCause_ToString cause = name.
Proof.
  assert (H : forallb (fun e => (CallCause_FromString e.2 =? e.1) && String.eqb (CallCause_ToString e.1) e.2) kCauseTable
              = true) by by vm_compute.
  rewrite forallb_forall in H. intros Hin%list_elem_of_In%H. simpl in Hin.
  apply andb_true_iff in Hin as [?%Z.eqb_eq ?%String.eqb_eq]. done.
Qed.

(** The dial string of several endpoints, split at its separator, gives the
    endpoints back. *)
Lemma append_endpoints_join c es e : append_endpoints (String c "") es e = string_join c (e :: es).
Proof.
  revert e. induction es as [|e' es IH]; intros e; [done|].
  change (append_endpoints (String c "") (e' :: es) e) with (append_endpoints (String c "") es (e +:+ String c "" +:+ e')).
  rewrite IH. destruct es as [|e'' es]; [done|].
  change (string_join c ((e +:+ String c "" +:+ e') :: e'' :: es))
    with ((e +:+ String c "" +:+ e') +:+ String c (string_join c (e'' :: es))).
  change (string_join c (e :: e' :: e'' :: es)) with (e +:+ String c (e' +:+ String c (string_join c (e'' :: es)))).
  by rewrite <- !string_app_assoc.
Qed.

Lemma BuildDialString_split req c :
  strategy_separator (or_strategy req) = String c "" -> or_endpoints req <> [] ->
  Forall (fun e => string_all (is_not c) e = true) (or_endpoints req) ->
  split_on c (BuildDialString req) = or_endpoints req.
Proof.
  intros Hsep Hne Hes. unfold BuildDialString. destruct (or_endpoints req) as [|e [|e' es]] eqn:He; [done| |].
  - apply (split_on_join c [e]); [done|congruence].
  - rewrite Hsep, append_endpoints_join. apply split_on_join; [done|congruence].
Qed.

(** ** Witnesses and what modelling showed *)

Definition live_session : option session_view := Some (mkSessionView true 4 true false).

Lemma control_no_reserved_write_witness :
  (SetVariables "u" [("lang", "vi"); ("SIP_H_X", "1")] live_session).2 = [] /\
  (Hangup 10 "u" "USER_BUSY" [("lang", "vi"); ("SIP_H_X", "1")] live_session).1
    = mkStatus INVALID_ARGUMENT "variable name is reserved: 'SIP_H_X'" /\
  Forall permitted (Execute 10 0 NoDedup true "u" "set" "lang=vi" live_session 0).1.2 /\
  (Execute 10 0 NoDedup true "u" "set" "lang=vi" live_session 0).1.2 = [CcExecute "u" "set" (Some "lang=vi")].
Proof.
  destruct (control_no_reserved_write 10 0 NoDedup true "u" "set" "lang=vi" "USER_BUSY"
    [("lang", "vi"); ("SIP_H_X", "1")]%string live_session 0) as (_ & Hatomic & _ & _ & Hexec).
  { repeat constructor. }
  split_and!; [apply Hatomic; by vm_compute|by vm_compute|exact Hexec|by vm_compute].
Defined.

(** [Hangup] checks each name as it goes: a request refused for a later reserved
    name has already written the earlier ones, where [SetVariables] writes none. *)
Lemma hangup_refused_partially_applied :
  Hangup 10 "u" "" [("lang", "vi"); ("api_on_answer", "x")] live_session
  = (mkStatus INVALID_ARGUMENT "variable name is reserved: 'api_on_answer'", [CcSetVariable "u" "lang" "vi"]).
Proof. by vm_compute. Qed.

(** A NUL hides an exactly reserved name: the check sees the whole string,
    FreeSWITCH the part before the NUL. *)
Lemma hangup_nul_writes_reserved :
  IsReservedVar "osw_tenant" = true /\
  CcSetVariable "u" "osw_tenant" "other"
    ∈ (Hangup 10 "u" "" [("osw_tenant" +:+ String (char_of 0) "x", "other")%string] live_session).2.
Proof. split; [by vm_compute|]. apply list_elem_of_In. by left. Qed.

(** [Originate] hands the variables of the request to the new channel without
    the denylist. *)
Lemma originate_writes_reserved :
  let req := mkOriginateRequest ["user/1"] SIMULTANEOUS "" "" None [("api_on_answer", "x")] in
  IsReservedVar "api_on_answer" = true /\
  exists opts, (Originate NoDedup true true req (OrigSession (Some "u"))).1 = (Status_OK, [CcOriginate opts]) /\
               oo_ovars opts = Some [("api_on_answer", "x")].
Proof. split; [by vm_compute|]. eexists. by split. Qed.

(** A timeout of 2^32 seconds becomes no timeout at all. *)
Lemma originate_timeout_truncated :
  exists opts, OriginateOptions_Build true
    (mkOriginateRequest ["user/1"] SIMULTANEOUS "" "" (Some (4294967296, 0)) []) = inr opts /\ oo_timeout_sec opts = 0.
Proof. eexists. by split. Qed.
