(* ===== verification/Module.v ===== *)
(** * The module's life: load, failed load, shutdown, reload

    [src/core/module.cc], [src/core/lifecycle.cc],
    [include/osw/core/lifecycle.h] and the status of
    [include/osw/observability/health.h].  The [unique_ptr] members of
    [osw::Module] are constructed one by one while threads that use them are
    already running, and are reset in another order.  A script is the sequence
    of actions of [Load], of [LoadGuard]'s destructor and of [Shutdown]; the
    main thread executes it one action at a time, and between two actions the
    other threads start calls, dereference the members they were given, and end
    calls.  Dereferencing or destroying what is not there is an error the
    execution records.

    The scripts are checked by a static execution that knows the members and
    the state of each kind of thread but not the calls in flight
    ([static_step]); [main_step_sound] shows once that what it accepts is safe
    under every interleaving.  What the components do inside their methods is
    the subject of their own files.  The values of a load, from
    the configuration on, are in [Startup].  Log lines are not modelled. *)

From S2P Require Import Prelude.

(** ** Members, threads, actions *)

(** The [std::unique_ptr] members of [osw::Module]. *)
Inductive subsystem :=
  | prometheus_registry_ | health_metrics_ | rpc_metrics_ | metrics_server_
  | grpc_server_ | idempotency_cache_ | active_media_streams_ | active_bots_
  | silence_driver_registry_ | bug_manager_
  | classifier_ | rings_ | binder_ | broadcaster_.

#[export] Instance subsystem_eq_dec : EqDecision subsystem.
Proof. solve_decision. Defined.

(** The threads that call into the members: the metrics server's loop; gRPC
    handlers, and [SubscribeEvents] once it has been given the event plane;
    FreeSWITCH's event dispatchers; the broadcaster's workers; FreeSWITCH's
    session threads in the CS_DESTROY hook. *)
Inductive agent := Scrape | Rpc | Subscribe | Dispatch | Worker | DestroyHook.

#[export] Instance agent_eq_dec : EqDecision agent.
Proof. solve_decision. Defined.

Definition all_agents : list agent := [Scrape; Rpc; Subscribe; Dispatch; Worker; DestroyHook].

(** What a thread reaches through pointers it was given when it started, and
    uses without a null test. *)
Definition raw_deps (a : agent) : list subsystem :=
  match a with
  | Scrape => [metrics_server_; health_metrics_; prometheus_registry_]
  | Rpc => [grpc_server_; rpc_metrics_; prometheus_registry_; idempotency_cache_;
            active_media_streams_; active_bots_; bug_manager_]
  | Subscribe => [grpc_server_; rpc_metrics_; prometheus_registry_; broadcaster_; rings_]
  | Dispatch => [binder_; rings_; classifier_]
  | Worker => [broadcaster_; rings_]
  | DestroyHook => [bug_manager_]
  end.

(** What a thread reads from a shared pointer, tests, and then uses: the hook's
    cleanup function tests [mod->active_bots_] and
    [mod->active_media_streams_]; [MediaBugManager] copies its pointer to the
    silence registry under its lock and uses the copy after releasing it. *)
Definition checked_deps (a : agent) : list subsystem :=
  match a with
  | DestroyHook => [active_bots_; active_media_streams_; silence_driver_registry_]
  | Rpc => [silence_driver_registry_]
  | _ => []
  end.

Inductive State := kLoaded | kServing | kDraining | kStopped.
Inductive HealthStatus := HUnspecified | HServing | HNotServing | HDraining.

#[export] Instance State_eq_dec : EqDecision State.
Proof. solve_decision. Defined.
#[export] Instance HealthStatus_eq_dec : EqDecision HealthStatus.
Proof. solve_decision. Defined.

Inductive action :=
  | Construct (s : subsystem)       (** [member_ = std::make_unique<...>] *)
  | Method (s : subsystem)          (** a method of the member that only works *)
  | Open (a : agent)                (** threads of this kind may start calls *)
  | Close (a : agent)               (** no new call *)
  | Join (a : agent)                (** wait for the calls in flight *)
  | Reset (s : subsystem)           (** [member_.reset()] *)
  | SetSilence (b : bool)           (** [bug_manager_->SetSilenceDriverRegistry] *)
  | TransitionTo (st : State)       (** the three operations of [Lifecycle] *)
  | SetLoaded (b : bool).

(** An action, under the test of a member ([if (member_)]) or not. *)
Record instr := mkInstr { guard : option subsystem; act : action }.

Definition always (x : action) : instr := mkInstr None x.
Definition when_set (s : subsystem) (xs : list action) : list instr := mkInstr (Some s) <$> xs.

(** ** Lifecycle *)

Record Lifecycle := mkLifecycle { state_ : State; health_status : HealthStatus }.

(** [std::atomic<State> state_{kLoaded}] and [status_{Status::kServing}]. *)
Definition Lifecycle_init : Lifecycle := mkLifecycle kLoaded HServing.

Definition TransitionToServing (l : Lifecycle) : Lifecycle :=
  mkLifecycle
    (if decide (state_ l = kLoaded) then kServing else state_ l)
    (match health_status l with HUnspecified | HServing => HServing | h => h end).

Definition SignalDrain (l : Lifecycle) : bool * Lifecycle :=
  match state_ l with
  | kDraining | kStopped => (false, l)
  | _ => (true, mkLifecycle kDraining HDraining)
  end.

Definition MarkStopped (l : Lifecycle) : Lifecycle := mkLifecycle kStopped HNotServing.

Definition lifecycle_step (st : State) (l : Lifecycle) : Lifecycle :=
  match st with
  | kLoaded => l
  | kServing => TransitionToServing l
  | kDraining => (SignalDrain l).2
  | kStopped => MarkStopped l
  end.

(** ** The scripts *)

(** [config_.metrics_enabled], and whether the server could bind. *)
Inductive metrics_outcome := MetricsDisabled | MetricsBound | MetricsBindFailed.

Definition start_metrics (m : metrics_outcome) : list instr :=
  match m with
  | MetricsDisabled => []
  | MetricsBound => [always (Construct metrics_server_); always (Open Scrape)]
  | MetricsBindFailed => [always (Construct metrics_server_); always (Reset metrics_server_)]
  end.

(** [Module::Load], the steps after each of which it may still return false or
    throw.  [grpc_server_->Start], [binder_->Init] and [broadcaster_->Start]
    are the places where gRPC handlers, dispatchers and workers begin. *)
Definition Load_steps (m : metrics_outcome) : list instr :=
  [always (Construct prometheus_registry_);
   always (Construct health_metrics_);
   always (Construct rpc_metrics_)] ++
  start_metrics m ++
  [always (Construct grpc_server_);
   always (Construct idempotency_cache_);
   always (Construct active_media_streams_);
   always (Construct active_bots_);
   always (Construct silence_driver_registry_);
   always (Construct bug_manager_);
   always (SetSilence true);
   always (Open DestroyHook);
   always (Open Rpc);
   always (Construct classifier_);
   always (Construct rings_);
   always (Construct binder_);
   always (Open Dispatch);
   always (Construct broadcaster_);
   always (Open Worker)].

(** The rest is [noexcept]: [SetEventPlane], [TransitionToServing], the commit. *)
Definition Load_commit : list instr :=
  [always (Open Subscribe); always (TransitionTo kServing); always (SetLoaded true)].

(** [GrpcServer::Drain]: [Shutdown(deadline)] refuses new calls and returns when
    the handlers have. *)
Definition Drain : list action := [Close Rpc; Close Subscribe; Join Rpc; Join Subscribe].

(** [LoadGuard::~LoadGuard], when the load was not committed. *)
Definition LoadGuard : list instr :=
  when_set broadcaster_ [Method broadcaster_; Close Worker; Join Worker; Reset broadcaster_] ++
  when_set binder_ [Close Dispatch; Join Dispatch; Reset binder_] ++
  [always (Reset rings_); always (Reset classifier_)] ++
  when_set metrics_server_ [Close Scrape; Join Scrape; Reset metrics_server_] ++
  when_set grpc_server_ (Drain ++ [Reset grpc_server_]) ++
  [always (Reset idempotency_cache_)] ++
  when_set bug_manager_ [Close DestroyHook; Join DestroyHook] ++
  when_set active_bots_ [Method active_bots_; Reset active_bots_] ++
  [always (Reset active_media_streams_)] ++
  when_set bug_manager_ [SetSilence false] ++
  when_set silence_driver_registry_ [Method silence_driver_registry_; Reset silence_driver_registry_] ++
  [always (Reset bug_manager_); always (Reset rpc_metrics_); always (Reset health_metrics_);
   always (Reset prometheus_registry_)].

(** [Module::Shutdown], one list for each call it makes. *)
Definition Shutdown_calls : list (list instr) :=
  [[always (TransitionTo kDraining)];
   when_set binder_ [Close Dispatch; Join Dispatch];
   when_set rings_ [Method rings_];
   when_set broadcaster_ [Method broadcaster_; Close Worker; Join Worker];
   when_set metrics_server_ [Close Scrape; Join Scrape];
   when_set metrics_server_ [Reset metrics_server_];
   when_set grpc_server_ Drain;
   when_set grpc_server_ [Reset grpc_server_];
   [always (Reset broadcaster_)]; [always (Reset binder_)]; [always (Reset rings_)];
   [always (Reset classifier_)]; [always (Reset idempotency_cache_)];
   when_set bug_manager_ [Close DestroyHook; Join DestroyHook];
   when_set active_bots_ [Method active_bots_];
   when_set active_bots_ [Reset active_bots_];
   [always (Reset active_media_streams_)];
   when_set bug_manager_ [SetSilence false];
   when_set silence_driver_registry_ [Method silence_driver_registry_];
   when_set silence_driver_registry_ [Reset silence_driver_registry_];
   [always (Reset bug_manager_)]; [always (Reset rpc_metrics_)]; [always (Reset health_metrics_)];
   [always (Reset prometheus_registry_)]; [always (TransitionTo kStopped)];
   [always (SetLoaded false)]].

(** What FreeSWITCH asks for, and how it goes: a load that succeeds, or fails
    after some of its steps; a shutdown that completes, or throws after some of
    its calls (it then returns false, and may be called again). *)
Inductive request :=
  | Load (m : metrics_outcome) (fails_after : option nat)
  | Shutdown (throws_after : option nat).

Definition script (loaded_ : bool) (r : request) : list instr :=
  match r with
  | Load m o =>
      if loaded_ then [] else
      match o with
      | None => Load_steps m ++ Load_commit
      | Some k => take k (Load_steps m) ++ LoadGuard
      end
  | Shutdown o =>
      if negb loaded_ then [] else
      match o with
      | None => concat Shutdown_calls
      | Some k => concat (take k Shutdown_calls)
      end
  end.

(** ** Execution *)

Inductive agent_phase := Closed | Opened | Closing.

#[export] Instance agent_phase_eq_dec : EqDecision agent_phase.
Proof. solve_decision. Defined.

(** The module's members as far as the scripts know them.  [populated]: gRPC
    handlers have run, so the registries may hold bots and streams. *)
Record members := mkMembers {
  owned : list subsystem;
  opened : list agent;
  closing : list agent;
  silence_ptr : bool;
  populated : bool;
  loaded_ : bool;
}.

#[export] Instance members_eq_dec : EqDecision members.
Proof. solve_decision. Defined.

Definition phase (m : members) (a : agent) : agent_phase :=
  if decide (a ∈ opened m) then Opened else if decide (a ∈ closing m) then Closing else Closed.

Definition without {A} `{EqDecision A} (x : A) (l : list A) : list A := filter (fun y => y <> x) l.

Definition set_phase (m : members) (a : agent) (ph : agent_phase) : members :=
  mkMembers (owned m)
    (match ph with Opened => [a] | _ => [] end ++ without a (opened m))
    (match ph with Closing => [a] | _ => [] end ++ without a (closing m))
    (silence_ptr m) (populated m) (loaded_ m).

Definition set_owned (m : members) (o : list subsystem) : members :=
  mkMembers o (opened m) (closing m) (silence_ptr m) (populated m) (loaded_ m).

Definition set_populated (m : members) (b : bool) : members :=
  mkMembers (owned m) (opened m) (closing m) (silence_ptr m) b (loaded_ m).

Definition members_init : members := mkMembers [] [] [] false false false.

(** What a method of a member, or its destructor, reaches.  [DrainAll] and the
    stream registry's destructor detach the bugs of what is registered, so they
    use the bug manager and, through it, the silence registry;
    [Broadcaster::Stop] closes the rings. *)
Definition bug_deps (m : members) : list subsystem :=
  if populated m then [bug_manager_] ++ (if silence_ptr m then [silence_driver_registry_] else [])
  else [].

Definition method_deps (m : members) (s : subsystem) : list subsystem :=
  s :: match s with
       | broadcaster_ => [rings_]
       | active_bots_ => active_media_streams_ :: bug_deps m
       | _ => []
       end.

Definition destructor_deps (m : members) (s : subsystem) : list subsystem :=
  match s with
  | active_bots_ | active_media_streams_ => bug_deps m
  | _ => []
  end.

(** A pointer a thread tests: null or not. *)
Definition pointer_set (m : members) (s : subsystem) : bool :=
  if decide (s = silence_driver_registry_) then silence_ptr m else bool_decide (s ∈ owned m).

(** One action of the main thread on the members; [None] when it dereferences a
    null member, destroys a member whose destructor needs one that is gone, or
    overwrites a member. *)
Definition apply_action (x : action) (m : members) : option members :=
  match x with
  | Construct s =>
      if decide (s ∈ owned m) then None
      else let m := set_owned m (s :: owned m) in
           Some (if decide (s = active_media_streams_) then set_populated m false else m)
  | Method s => if decide (method_deps m s ⊆ owned m) then Some m else None
  | Open a =>
      if decide (phase m a = Closed) then
        let m := set_phase m a Opened in
        Some (if decide (a = Rpc) then set_populated m true else m)
      else None
  | Close a => Some (match phase m a with Opened => set_phase m a Closing | _ => m end)
  | Join a => Some (match phase m a with Closing => set_phase m a Closed | _ => m end)
  | Reset s =>
      if decide (s ∈ owned m) then
        if decide (destructor_deps m s ⊆ owned m)
        then Some (set_owned m (without s (owned m))) else None
      else Some m
  | SetSilence b =>
      if decide (bug_manager_ ∈ owned m)
      then Some (mkMembers (owned m) (opened m) (closing m) b (populated m) (loaded_ m)) else None
  | TransitionTo _ => Some m
  | SetLoaded b =>
      Some (mkMembers (owned m) (opened m) (closing m) (silence_ptr m) (populated m) b)
  end.

Definition guard_holds (i : instr) (m : members) : bool :=
  match guard i with None => true | Some s => bool_decide (s ∈ owned m) end.

(** A call in flight: whose thread it is on, and the tested pointers it holds. *)
Record call := mkCall { c_agent : agent; c_held : list subsystem }.

Record world := mkWorld {
  w_members : members;
  w_lifecycle : Lifecycle;
  w_calls : list (option call);     (** [None]: has ended *)
  w_script : list instr;            (** what the main thread has left to do *)
  w_error : bool;
}.

Definition world_init : world := mkWorld members_init Lifecycle_init [] [] false.

Definition in_flight (w : world) (a : agent) : bool :=
  existsb (fun o => match o with Some c => bool_decide (c_agent c = a) | None => false end) (w_calls w).

(** A step of the main thread: the next request when it is idle, the next
    action, or the steps of another thread. *)
Inductive event :=
  | Request (r : request)
  | Main
  | StartCall (a : agent)
  | Test (i : nat) (s : subsystem)
  | Use (i : nat) (s : subsystem)
  | EndCall (i : nat).

Definition set_error (w : world) : world :=
  mkWorld (w_members w) (w_lifecycle w) (w_calls w) (w_script w) true.

Definition set_calls (w : world) (cs : list (option call)) : world :=
  mkWorld (w_members w) (w_lifecycle w) cs (w_script w) (w_error w).

Definition next_lifecycle (x : action) (l : Lifecycle) : Lifecycle :=
  match x with TransitionTo st => lifecycle_step st l | _ => l end.

(** [waits]: whether [switch_core_remove_state_handler] returns only when the
    hooks in flight have ended. *)
Section execution.
Context (waits : bool).

Definition blocked (x : action) (w : world) : bool :=
  match x with
  | Join a => in_flight w a && (waits || negb (bool_decide (a = DestroyHook)))
  | _ => false
  end.

Definition main_step (w : world) : world :=
  match w_script w with
  | [] => w
  | i :: rest =>
      if negb (guard_holds i (w_members w)) then
        mkWorld (w_members w) (w_lifecycle w) (w_calls w) rest (w_error w)
      else if blocked (act i) w then w
      else match apply_action (act i) (w_members w) with
           | None => set_error w
           | Some m => mkWorld m (next_lifecycle (act i) (w_lifecycle w)) (w_calls w) rest (w_error w)
           end
  end.

Definition exec (e : event) (w : world) : world :=
  let m := w_members w in
  match e with
  | Request r =>
      match w_script w with
      | [] => mkWorld m (w_lifecycle w) (w_calls w) (script (loaded_ m) r) (w_error w)
      | _ => w
      end
  | Main => main_step w
  | StartCall a =>
      if decide (phase m a = Opened) then set_calls w (w_calls w ++ [Some (mkCall a [])]) else w
  | Test i s =>
      match w_calls w !! i with
      | Some (Some c) =>
          if bool_decide (s ∈ checked_deps (c_agent c)) && pointer_set m s
          then set_calls w (<[i := Some (mkCall (c_agent c) (s :: c_held c))]> (w_calls w)) else w
      | _ => w
      end
  | Use i s =>
      match w_calls w !! i with
      | Some (Some c) =>
          if bool_decide (s ∈ raw_deps (c_agent c) ++ c_held c)
          then if decide (s ∈ owned m) then w else set_error w else w
      | _ => w
      end
  | EndCall i => set_calls w (<[i := None]> (w_calls w))
  end.

Definition exec_all (es : list event) (w : world) : world := fold_left (fun w e => exec e w) es w.
End execution.

(** ** The static execution *)

(** Threads that may run find what they use; the silence pointer is null or
    valid. *)
Definition well_formed (m : members) : bool :=
  forallb (fun a => bool_decide (phase m a = Closed) || bool_decide (raw_deps a ⊆ owned m)) all_agents &&
  (negb (silence_ptr m) || bool_decide (silence_driver_registry_ ∈ owned m)).

(** Nothing a thread may hold is destroyed before the thread was waited for, and
    only threads that can start no new call are waited for. *)
Definition unreferenced (x : action) (m : members) : bool :=
  match x with
  | Reset s =>
      forallb (fun a => bool_decide (phase m a = Closed) || negb (bool_decide (s ∈ checked_deps a))) all_agents
  | Join a => negb (bool_decide (phase m a = Opened))
  | _ => true
  end.

Definition static_step (i : instr) (m : members) : option members :=
  if negb (guard_holds i m) then Some m
  else if negb (unreferenced (act i) m) then None
  else match apply_action (act i) m with
       | Some m' => if well_formed m' then Some m' else None
       | None => None
       end.

Definition static_run (l : list instr) (m : members) : option members :=
  fold_left (fun o i => o ≫= static_step i) l (Some m).

(** ** Facts about the members *)

Lemma elem_of_without {A} `{EqDecision A} (x y : A) (l : list A) :
  y ∈ without x l <-> y <> x /\ y ∈ l.
Proof. unfold without. rewrite list_elem_of_filter. done. Qed.

Lemma phase_set_phase m a ph b :
  phase (set_phase m a ph) b = if decide (b = a) then ph else phase m b.
Proof.
  unfold phase, set_phase. cbn.
  destruct (decide (b = a)) as [->|Hne], ph; repeat case_decide;
    rewrite ?elem_of_app, ?list_elem_of_singleton, ?elem_of_without in *; set_solver.
Qed.

Lemma agent_in_all a : a ∈ all_agents.
Proof. destruct a; set_solver. Qed.

Lemma forallb_agents (P : agent -> bool) a : forallb P all_agents = true -> P a = true.
Proof. intros H. eapply forallb_forall in H; [exact H|]. apply list_elem_of_In, agent_in_all. Qed.

Lemma well_formed_raw m a :
  well_formed m = true -> phase m a <> Closed -> raw_deps a ⊆ owned m.
Proof.
  intros [H _]%andb_prop Hp. apply (forallb_agents _ a) in H.
  apply orb_prop in H as [H|H]; apply bool_decide_eq_true in H; done.
Qed.

Lemma well_formed_silence m :
  well_formed m = true -> silence_ptr m = true -> silence_driver_registry_ ∈ owned m.
Proof.
  intros [_ H]%andb_prop Hs. rewrite Hs in H. by apply bool_decide_eq_true in H.
Qed.

Lemma unreferenced_checked s m a :
  unreferenced (Reset s) m = true -> phase m a <> Closed -> s ∉ checked_deps a.
Proof.
  intros H Hp. apply (forallb_agents _ a) in H.
  apply orb_prop in H as [H|H]; [by apply bool_decide_eq_true in H|].
  apply negb_true_iff, bool_decide_eq_false in H. done.
Qed.

(** What [pointer_set] lets a thread hold is there. *)
Lemma pointer_set_owned m s : well_formed m = true -> pointer_set m s = true -> s ∈ owned m.
Proof.
  unfold pointer_set. intros Hw. case_decide as Hs; [subst|by intros H%bool_decide_eq_true].
  by apply well_formed_silence.
Qed.

(** ** One step of the main thread *)

Definition call_ok (m : members) (c : call) : Prop :=
  phase m (c_agent c) <> Closed /\
  forall s, s ∈ c_held c -> s ∈ checked_deps (c_agent c) /\ s ∈ owned m.

(** An action the static execution accepts keeps every call in flight valid,
    when a joined kind of thread has no call left. *)
Lemma apply_action_call_ok x m m' c :
  unreferenced x m = true -> apply_action x m = Some m' ->
  (forall a, x = Join a -> c_agent c <> a) -> call_ok m c -> call_ok m' c.
Proof.
  intros Hu Ha Hj [Hp Hh]. destruct x; cbn in Ha; repeat case_decide; simplify_eq; try done.
  - split; [done|]. intros t Ht. apply Hh in Ht as [? ?]. split; [done|]. set_solver.
  - split; [done|]. intros t Ht. apply Hh in Ht as [? ?]. split; [done|]. set_solver.
  - split; [|done]. change (phase (set_phase m Rpc Opened) (c_agent c) <> Closed).
    rewrite phase_set_phase. by case_decide.
  - split; [|done]. rewrite phase_set_phase. by case_decide.
  - destruct (phase m a) eqn:E; try done. split; [|done]. rewrite phase_set_phase. by case_decide.
  - destruct (phase m a) eqn:E; try done. split; [|done]. rewrite phase_set_phase.
    case_decide; [by destruct (Hj a)|done].
  - split; [done|]. intros t Ht. destruct (Hh _ Ht) as [Hc Ho]. split; [done|].
    apply elem_of_without. split; [|done]. intros ->. by eapply unreferenced_checked.
Qed.

Lemma in_flight_false w a i c :
  in_flight w a = false -> w_calls w !! i = Some (Some c) -> c_agent c <> a.
Proof.
  unfold in_flight. intros Hf Hi <-. apply not_true_iff_false in Hf. apply Hf.
  apply existsb_exists. exists (Some c). split; [|by apply bool_decide_eq_true].
  apply list_elem_of_In. by eapply list_elem_of_lookup_2.
Qed.

(** ** Requests *)

Lemma static_run_cons i l m : static_run (i :: l) m = static_step i m ≫= static_run l.
Proof.
  unfold static_run. cbn. destruct (static_step i m); [done|]. cbn. by induction l.
Qed.

(** The members between two requests: nothing, everything, or what a shutdown
    that threw has left. *)
Definition metrics_outcomes : list metrics_outcome := [MetricsDisabled; MetricsBound; MetricsBindFailed].

Definition loaded_members : list members :=
  omap (fun o => static_run (script false (Load o None)) members_init) metrics_outcomes.

Definition stable : list members :=
  [members_init; set_populated members_init true] ++
  (loaded_members ≫= fun m =>
     omap (fun k => static_run (script true (Shutdown (Some k))) m) (seq 0 (S (length Shutdown_calls)))).

Definition requests : list request :=
  (metrics_outcomes ≫= fun m => (Load m) <$> (None :: (Some <$> seq 0 24))) ++
  (Shutdown <$> (None :: (Some <$> seq 0 (S (length Shutdown_calls))))).

Definition stays_stable (m : members) (r : request) : bool :=
  match static_run (script (loaded_ m) r) m with
  | Some m' => bool_decide (m' ∈ stable)
  | None => false
  end.

Lemma stable_closed : forallb (fun m => forallb (stays_stable m) requests) stable = true.
Proof. vm_compute. reflexivity. Qed.

Lemma take_cap {A} (k n : nat) (l : list A) : (length l <= n)%nat -> take k l = take (min k n) l.
Proof. intros H. destruct (Nat.le_gt_cases k n); [by rewrite Nat.min_l|]. rewrite !take_ge; [done|lia..]. Qed.

(** Every request is the same as one of the list. *)
Lemma script_requests b r : exists r', r' ∈ requests /\ script b r = script b r'.
Proof.
  destruct r as [m [k|]|[k|]].
  - exists (Load m (Some (min k 23))). split.
    + unfold requests. apply elem_of_app. left. apply list_elem_of_bind. exists m. split; [|by destruct m; set_solver].
      apply list_elem_of_fmap. exists (Some (min k 23)). split; [done|]. right. apply list_elem_of_fmap_2, elem_of_seq. lia.
    + cbn. destruct b; [done|]. f_equal. apply take_cap. by destruct m; cbn; lia.
  - exists (Load m None). split; [|done]. unfold requests. apply elem_of_app. left.
    apply list_elem_of_bind. exists m. split; [by left|by destruct m; set_solver].
  - exists (Shutdown (Some (min k (length Shutdown_calls)))). split.
    + unfold requests. apply elem_of_app. right. apply list_elem_of_fmap_2. right. apply list_elem_of_fmap_2, elem_of_seq. lia.
    + cbn [script]. destruct b; [|done]. cbn [negb]. f_equal. by apply take_cap.
  - exists (Shutdown None). split; [|done]. unfold requests. apply elem_of_app. right. apply list_elem_of_fmap_2. by left.
Qed.

Lemma stable_script m r :
  m ∈ stable -> exists m', static_run (script (loaded_ m) r) m = Some m' /\ m' ∈ stable.
Proof.
  intros Hm. destruct (script_requests (loaded_ m) r) as (r' & Hr & ->).
  pose proof stable_closed as H.
  eapply forallb_forall in H; [|by apply list_elem_of_In].
  eapply forallb_forall in H; [|by apply list_elem_of_In].
  unfold stays_stable in H. destruct (static_run _ m) as [m'|]; [|done].
  apply bool_decide_eq_true in H. eauto.
Qed.

(** Between requests an unloaded module owns nothing and no thread runs in it;
    a load that succeeded left everything in place. *)
Definition module_clean (m : members) : Prop :=
  owned m = [] /\ (forall a, phase m a = Closed) /\ silence_ptr m = false.

Lemma stable_unloaded m : m ∈ stable -> loaded_ m = false -> module_clean m.
Proof.
  intros Hm Hl.
  assert (H : forallb (fun m => loaded_ m || bool_decide (owned m = [] /\ opened m = [] /\ closing m = []
                                                        /\ silence_ptr m = false)) stable = true)
    by (vm_compute; reflexivity).
  eapply forallb_forall in H; [|by apply list_elem_of_In]. rewrite Hl in H.
  apply bool_decide_eq_true in H as (H1 & H2 & H3 & H4). split_and!; [done| |done].
  intros a. unfold phase. by rewrite H2, H3.
Qed.

Lemma stable_init : members_init ∈ stable.
Proof. by left. Qed.

#[local] Opaque stable.

(** ** Every interleaving *)

Record world_inv (w : world) : Prop := {
  wi_error : w_error w = false;
  wi_well_formed : well_formed (w_members w) = true;
  wi_calls : forall i c, w_calls w !! i = Some (Some c) -> call_ok (w_members w) c;
  wi_script : exists m, static_run (w_script w) (w_members w) = Some m /\ m ∈ stable;
}.

Lemma world_inv_init : world_inv world_init.
Proof. split; [done..|]. exists members_init. split; [done|]. apply stable_init. Qed.

(** What the static execution accepts is safe: the main thread's next action
    keeps the invariant. *)
Lemma main_step_sound w : world_inv w -> world_inv (main_step true w).
Proof.
  intros [He Hw Hc (mf & Hs & Hf)]. unfold main_step.
  destruct (w_script w) as [|i rest] eqn:Es; [split; rewrite ?Es; eauto|].
  rewrite static_run_cons in Hs. unfold static_step in Hs.
  destruct (guard_holds i (w_members w)) eqn:Eg; cbn in *; [|split; cbn; eauto].
  destruct (blocked true (act i) w) eqn:Eb.
  { split; eauto. rewrite Es, static_run_cons. unfold static_step. rewrite Eg. eauto. }
  destruct (unreferenced (act i) (w_members w)) eqn:Eu; [|done]. cbn in Hs.
  destruct (apply_action (act i) (w_members w)) as [m'|] eqn:Ea; [|done].
  destruct (well_formed m') eqn:Ew; [|done]. split; cbn; [done|done| |eauto].
  intros k c Hk. eapply apply_action_call_ok; [done|done| |by eapply Hc].
  intros a Hj. rewrite Hj in Eb. cbn in Eb. rewrite andb_true_r in Eb. by eapply in_flight_false.
Qed.

Lemma set_calls_inv w cs :
  world_inv w ->
  (forall i c, cs !! i = Some (Some c) -> call_ok (w_members w) c) ->
  world_inv (set_calls w cs).
Proof. intros [He Hw Hc Hs] H. by split. Qed.

Lemma exec_sound e w : world_inv w -> world_inv (exec true e w).
Proof.
  intros Hi. pose proof Hi as [He Hw Hc (mf & Hs & Hf)]. destruct e as [r| |a|i s|i s|i]; cbn.
  - destruct (w_script w) eqn:Es; [|done]. injection Hs as Hs. rewrite <- Hs in Hf.
    destruct (stable_script _ r Hf) as (m' & Hm & Hst). split; cbn; eauto.
  - by apply main_step_sound.
  - case_decide as Ho; [|done]. apply set_calls_inv; [done|]. intros k c Hk.
    apply lookup_app_Some in Hk as [Hk|[_ Hk]]; [by eapply Hc|].
    apply list_lookup_singleton_Some in Hk as [_ [= <-]]. split; cbn; [by rewrite Ho|set_solver].
  - destruct (w_calls w !! i) as [[c|]|] eqn:Ei; [|done..].
    destruct (_ && _) eqn:Et; [|done]. apply andb_prop in Et as [Et Ep]. apply bool_decide_eq_true in Et.
    apply set_calls_inv; [done|]. intros k c' Hk. apply list_lookup_insert_Some in Hk as [(<- & [= <-] & _)|[_ Hk]]; [|by eapply Hc].
    destruct (Hc _ _ Ei) as [Hp Hh]. split; cbn; [done|]. intros t [->|Ht]%elem_of_cons; [|by apply Hh].
    split; [done|]. by apply pointer_set_owned.
  - destruct (w_calls w !! i) as [[c|]|] eqn:Ei; [|done..]. case_bool_decide as Hd; [|done].
    destruct (Hc _ _ Ei) as [Hp Hh]. case_decide as Ho; [done|]. destruct Ho.
    apply elem_of_app in Hd as [Hd|Hd]; [by eapply well_formed_raw|by apply Hh].
  - apply set_calls_inv; [done|]. intros k c Hk.
    apply list_lookup_insert_Some in Hk as [(_ & [=] & _)|[_ Hk]]. by eapply Hc.
Qed.

Lemma exec_all_sound es w : world_inv w -> world_inv (exec_all true es w).
Proof. revert w. induction es as [|e es IH]; intros w Hi; [done|]. by apply IH, exec_sound. Qed.

Lemma closed_no_call w : world_inv w -> (forall a, phase (w_members w) a = Closed) -> forall a, in_flight w a = false.
Proof.
  intros Hi Hp a. apply not_true_iff_false. intros (o & Ho & Hc)%existsb_exists.
  destruct o as [c|]; [|done]. apply list_elem_of_In, list_elem_of_lookup_1 in Ho as [i Hk].
  apply (wi_calls w Hi) in Hk as [Hk _]. by destruct Hk.
Qed.

(** The main thread waits only for calls that are already in flight, of a kind
    of thread that can start no more. *)
Lemma main_step_blocked w i rest :
  world_inv w -> w_script w = i :: rest ->
  w_script (main_step true w) = rest \/
  exists a, act i = Join a /\ in_flight w a = true /\ phase (w_members w) a = Closing.
Proof.
  intros Hi Hs. destruct (wi_script w Hi) as (mf & Hm & _).
  rewrite Hs, static_run_cons in Hm. unfold main_step, static_step in *. rewrite Hs.
  destruct (guard_holds i (w_members w)) eqn:Eg; cbn in *; [|by left].
  destruct (blocked true (act i) w) eqn:Eb.
  - right. destruct (act i) as [| | | |a| | | |] eqn:Ea; try done. cbn in Eb. rewrite andb_true_r in Eb.
    exists a. split_and!; [done..|]. cbn in Hm. case_bool_decide as Ho; [done|].
    unfold in_flight in Eb. apply existsb_exists in Eb as (o & Hin & Hc). destruct o as [c|]; [|done].
    apply bool_decide_eq_true in Hc as <-. apply list_elem_of_In, list_elem_of_lookup_1 in Hin as [k Hk].
    apply (wi_calls w Hi) in Hk as [Hk _]. by destruct (phase (w_members w) (c_agent c)).
  - left. destruct (unreferenced (act i) (w_members w)); [|done]. cbn in Hm.
    by destruct (apply_action (act i) (w_members w)).
Qed.

(** C7. The module loads and unloads safely, whatever fails. For any sequence
    of loads (with the metrics server or without, succeeding, or failing or
    throwing after any of their steps) and shutdowns (completing, or throwing
    after any of their calls and called again), and for every interleaving of
    the main thread with gRPC handlers, subscriptions, event dispatchers,
    broadcaster workers, metrics scrapes and CS_DESTROY hooks: no thread ever
    uses a member that has been destroyed or was never made, the main thread
    neither dereferences a null member nor destroys one that another member's
    destructor needs, and no member is overwritten. Whenever no request is being
    served and the module is not loaded, every member has been freed and no
    thread is inside the module. (Hooks in flight are waited for when they are
    unregistered, as they are when the sessions are gone by then; see
    [destroy_hook_use_after_free] for the other case.) *)
Theorem Module_safe (es : list event) :
  let w := exec_all true es world_init in
  w_error w = false /\
  (w_script w = [] -> loaded_ (w_members w) = false ->
   module_clean (w_members w) /\ forall a, in_flight w a = false).
Proof.
  intros w. assert (Hi : world_inv w) by apply exec_all_sound, world_inv_init.
  split; [apply Hi|]. intros Hs Hl. destruct (wi_script w Hi) as (m & Hm & Hst).
  rewrite Hs in Hm. injection Hm as Hm. rewrite <- Hm in Hst.
  pose proof (stable_unloaded _ Hst Hl) as Hc. split; [done|].
  apply closed_no_call; [done|]. apply Hc.
Qed.

Definition no_calls (w : world) : Prop := forall a, in_flight w a = false.

Lemma main_step_calls w : w_calls (main_step true w) = w_calls w.
Proof. unfold main_step. repeat case_match; done. Qed.

Lemma main_steps_finish n w :
  world_inv w -> no_calls w -> (length (w_script w) <= n)%nat ->
  w_script (exec_all true (repeat Main n) w) = [].
Proof.
  revert w. induction n as [|n IH]; intros w Hi Hn Hl; cbn; [by destruct (w_script w); cbn in Hl; [|lia]|].
  apply IH; [by apply main_step_sound| |].
  - intros a. unfold in_flight. rewrite main_step_calls. apply Hn.
  - destruct (w_script w) as [|i rest] eqn:Es; cbn in Hl.
    + unfold main_step. rewrite Es, Es. cbn. lia.
    + destruct (main_step_blocked w i rest Hi Es) as [->|(a & _ & Ha & _)]; [lia|]. by rewrite Hn in Ha.
Qed.

Lemma end_calls n w k c :
  w_calls (exec_all true (EndCall <$> seq 0 n) w) !! k = Some (Some c) ->
  (n <= k)%nat /\ w_calls w !! k = Some (Some c).
Proof.
  induction n as [|n IH]; [split; [lia|done]|].
  rewrite seq_S, fmap_app. unfold exec_all in *. rewrite fold_left_app. cbn.
  intros [(_ & [=] & _)|[Hne Hk]]%list_lookup_insert_Some. destruct (IH Hk). split; [lia|done].
Qed.

Lemma end_calls_script js w : w_script (exec_all true (EndCall <$> js) w) = w_script w.
Proof. revert w. induction js as [|i js IH]; intros w; [done|]. exact (IH (exec true (EndCall i) w)). Qed.

(** Every load and every shutdown returns: once the calls in flight end, the
    main thread needs one step for each action it has left. *)
Lemma Module_request_returns es :
  let w := exec_all true es world_init in
  w_script (exec_all true ((EndCall <$> seq 0 (length (w_calls w))) ++ repeat Main (length (w_script w))) w) = [].
Proof.
  intros w. assert (Hi : world_inv w) by apply exec_all_sound, world_inv_init.
  set (ends := EndCall <$> seq 0 (length (w_calls w))).
  unfold exec_all. rewrite fold_left_app. fold (exec_all true ends w).
  apply main_steps_finish; [by apply exec_all_sound| |by unfold ends; rewrite end_calls_script].
  intros a. apply not_true_iff_false. intros (o & Ho & Hc)%existsb_exists. destruct o as [c|]; [|done].
  apply list_elem_of_In, list_elem_of_lookup_1 in Ho as [k Hk]. apply end_calls in Hk as [Hl Hk].
  apply lookup_lt_Some in Hk. lia.
Qed.

(** ** What clients of the health service see *)

Definition state_rank (st : State) : nat :=
  match st with kLoaded => 0 | kServing => 1 | kDraining => 2 | kStopped => 3 end.

(** The status that goes with a state. *)
Definition status_of (st : State) : HealthStatus :=
  match st with kLoaded | kServing => HServing | kDraining => HDraining | kStopped => HNotServing end.

Lemma lifecycle_step_monotone st l :
  health_status l = status_of (state_ l) ->
  health_status (lifecycle_step st l) = status_of (state_ (lifecycle_step st l)) /\
  (state_rank (state_ l) <= state_rank (state_ (lifecycle_step st l)))%nat.
Proof. intros H. destruct l as [[] []]; try discriminate H; destruct st; cbn; split; done || lia. Qed.

Lemma exec_lifecycle waits e w :
  health_status (w_lifecycle w) = status_of (state_ (w_lifecycle w)) ->
  let l := w_lifecycle (exec waits e w) in
  health_status l = status_of (state_ l) /\ (state_rank (state_ (w_lifecycle w)) <= state_rank (state_ l))%nat.
Proof.
  intros H. destruct e as [r| |a|i s|i s|i]; cbn; try (repeat case_match; by split).
  unfold main_step. repeat case_match; try by split. cbn. unfold next_lifecycle.
  case_match; try by split. by apply lifecycle_step_monotone.
Qed.

(** The lifecycle only moves forward, and the health status goes with it. *)
Lemma Module_lifecycle waits es w :
  health_status (w_lifecycle w) = status_of (state_ (w_lifecycle w)) ->
  let l := w_lifecycle (exec_all waits es w) in
  health_status l = status_of (state_ l) /\ (state_rank (state_ (w_lifecycle w)) <= state_rank (state_ l))%nat.
Proof.
  revert w. induction es as [|e es IH]; intros w H; [by split|].
  destruct (exec_lifecycle waits e w H) as [H1 H2]. destruct (IH _ H1) as [H3 H4].
  split; [exact H3|]. exact (Nat.le_trans _ _ _ H2 H4).
Qed.

(** ** Runs *)

Definition request_run (r : request) (n : nat) : list event := Request r :: repeat Main n.

Definition load_run : list event := request_run (Load MetricsBound None) 30.
Definition shutdown_run : list event := request_run (Shutdown None) 60.

(** A load, a hook and two handlers at work, a shutdown that waits for them. *)
Definition busy_run : list event :=
  load_run ++
  [StartCall DestroyHook; Test 0 active_bots_; StartCall Rpc; StartCall Subscribe; Use 2 broadcaster_] ++
  shutdown_run ++ [Use 1 bug_manager_; Use 0 active_bots_; EndCall 1; EndCall 2] ++ repeat Main 60 ++
  [Use 0 active_bots_; EndCall 0] ++ repeat Main 60.

Example busy_run_returns :
  let w := exec_all true busy_run world_init in
  w_script w = [] /\ loaded_ (w_members w) = false /\ w_lifecycle w = mkLifecycle kStopped HNotServing.
Proof. vm_compute. done. Qed.

Lemma Module_safe_witness :
  let w := exec_all true busy_run world_init in
  w_error w = false /\ (module_clean (w_members w) /\ forall a, in_flight w a = false).
Proof.
  destruct (Module_safe busy_run) as [H1 H2]. split; [exact H1|]. apply H2; vm_compute; reflexivity.
Defined.

(** When unregistering the hook does not wait for the hooks in flight
    ([switch_core_remove_state_handler] takes the handler out of a table), a hook
    that has tested [active_bots_] uses it after [Shutdown] has freed it. *)
Example destroy_hook_use_after_free :
  w_error (exec_all false (load_run ++ [StartCall DestroyHook; Test 0 active_bots_] ++ shutdown_run ++
                           [Use 0 active_bots_]) world_init) = true.
Proof. vm_compute. done. Qed.

(** [LoadGuard] frees the broadcaster and the rings before it drains the gRPC
    server; that is safe only because nothing can fail after [SetEventPlane]. *)
Example guard_after_event_plane_unsafe :
  static_run (Load_steps MetricsBound ++ [always (Open Subscribe)] ++ LoadGuard) members_init = None.
Proof. vm_compute. done. Qed.

(** A module that is loaded again after a shutdown serves requests, but stays
    stopped and reports NOT_SERVING. *)
Example reload_reports_not_serving :
  let w := exec_all true (load_run ++ shutdown_run ++ load_run) world_init in
  w_script w = [] /\ loaded_ (w_members w) = true /\ phase (w_members w) Rpc = Opened /\
  w_lifecycle w = mkLifecycle kStopped HNotServing.
Proof. vm_compute. done. Qed.

(** The health status is SERVING before the first load has begun. *)
Example serving_before_load : health_status (w_lifecycle world_init) = HServing.
Proof. done. Qed.
