(* ===== verification/MediaHandlers.v ===== *)
(** * Starting and stopping media streams

    [src/control/handlers/start_tts_handler.cc], [start_stt_handler.cc],
    [start_voicebot_handler.cc], [start_recording_relay_handler.cc],
    [stop_media_stream_handler.cc] and [stop_recording_relay_handler.cc].  A
    start opens a client, attaches media bugs, wires them to callback contexts
    and hands everything to the stream registry; it can fail at each of these
    points, and C++'s destructors then run in the reverse order of the
    declarations.  The handlers are written in a small monad that keeps the
    effects done and the destructors pending ([frame]), so that an early return
    runs exactly the destructors of what was declared before it.

    What FreeSWITCH, the bug manager, the upstream and the registry answer are
    arguments.  The effects are replayed on a memory in which freeing what a bug
    is wired to, freeing the buffer while the client's reader can push into it,
    freeing or detaching twice, and attaching without the session lock are
    errors.  The plain audit events are in [Service]; log lines are not
    modelled. *)

From S2P Require Import Prelude SilenceDriver Idempotency BoundedQueue AudioFrame StreamClient TtsPlayout BugManager MediaStreams Eavesdrop Config TtsStart BotRegistry BotSession RecordingRelay.

(** ** Effects *)

(** What [std::make_unique] builds, with the values it is given. *)
Inductive new_object :=
  | NewBuffer (cfg : TtsConfig) (sample_rate_hz : Z)
  | NewClient (sc : StreamConfig)
  | NewWriteCtx (stream_rate_hz fs_rate_hz : Z)
  | NewReadCtx (stream_rate_hz fs_rate_hz : Z)
  | NewRelay (cfg : RecordingRelayConfig).

Definition resource_of (o : new_object) : resource :=
  match o with
  | NewBuffer _ _ => RBuffer | NewClient _ => RClient | NewWriteCtx _ _ => RWriteCtx
  | NewReadCtx _ _ => RReadCtx | NewRelay _ => RRecording
  end.

Inductive h_effect :=
  | HLock | HUnlock                            (** the session's read lock *)
  | HStopPrior (uuid : string)                 (** [RemoveWriteReplaceForChannel] *)
  | HNew (o : new_object)
  | HOpen | HClose                             (** of the client *)
  | HAttach (id : Z) (cfg : BugConfig)
  | HWire (id : Z) (k : cb_kind)
  | HRelayStart
  | HWarnRecordBeforeInject (count : Z)
  | HMarkBotSession (label : string) (policy : EavesdropPolicy) (tenant_id : string)
  | HInsert (s : ActiveMediaStream)            (** the registry owns the stream now *)
  | HTear (e : td_effect)                      (** a refused stream is torn down *)
  | HDetach (id : Z)                           (** [~BugHandle] *)
  | HFree (r : resource)                       (** [~unique_ptr] *)
  | HUndefined.                                (** [std::clamp] with crossed bounds *)

(** ** Scopes

    [fr_out]: the effects so far; [fr_scope]: the destructors of the live
    locals, the last declared first. *)
Record frame := mkFrame { fr_out : list h_effect; fr_scope : list h_effect }.

Definition H (A : Type) : Type := frame -> (Status + A) * frame.

Definition h_ret {A} (a : A) : H A := fun f => (inr a, f).
Definition h_bind {A B} (m : H A) (k : A -> H B) : H B :=
  fun f => match m f with (inr a, f') => k a f' | (inl st, f') => (inl st, f') end.
(** [return status;] *)
Definition h_return {A} (st : Status) : H A := fun f => (inl st, f).
Definition emit (e : h_effect) : H unit := fun f => (inr tt, mkFrame (fr_out f ++ [e]) (fr_scope f)).
(** A local with a destructor. *)
Definition own (d : h_effect) : H unit := fun f => (inr tt, mkFrame (fr_out f) (d :: fr_scope f)).

(** Its object was moved out: the destructor does nothing. *)
Definition remove_first (test : h_effect -> bool) : list h_effect -> list h_effect :=
  fix go l := match l with [] => [] | d :: l => if test d then l else d :: go l end.

Definition is_destructor (d d' : h_effect) : bool :=
  match d, d' with
  | HUnlock, HUnlock => true
  | HFree r, HFree r' => resource_eqb r r'
  | HDetach i, HDetach i' => i =? i'
  | _, _ => false
  end.

Definition moved (d : h_effect) : H unit :=
  fun f => (inr tt, mkFrame (fr_out f) (remove_first (is_destructor d) (fr_scope f))).

(** A block: its locals are destroyed when it is left, also by a return. *)
Definition block {A} (m : H A) : H A :=
  fun f => let '(r, f') := m (mkFrame (fr_out f) []) in
           (r, mkFrame (fr_out f' ++ fr_scope f') (fr_scope f)).

Declare Scope handler_scope.
Delimit Scope handler_scope with handler.
Notation "x <-- m ; k" := (h_bind m (fun x => k)) (at level 100, m at level 99, right associativity) : handler_scope.
Notation "m ;; k" := (h_bind m (fun _ => k)) (at level 100, right associativity) : handler_scope.
Notation "'when' c 'return_' st" := (if c then h_return st else h_ret tt) (at level 99, c at level 9) : handler_scope.
#[local] Open Scope handler_scope.

(** [if (!status.ok()) { ...; return status; }] *)
Definition unless_ok (st : Status) (cleanup : H unit) : H unit :=
  if Status_ok st then h_ret tt else cleanup ;; h_return st.

(** A handler's result: the status and the effects, destructors included. *)
Definition run_handler (m : H unit) : Status * list h_effect :=
  match block m (mkFrame [] []) with
  | (inl st, f) => (st, fr_out f)
  | (inr _, f) => (Status_OK, fr_out f)
  end.

(** ** Requests and answers *)

Record StartRequest := mkStartRequest {
  rq_channel_uuid : string;
  rq_endpoint : string;                (** [upstream_endpoint], [relay_endpoint] *)
  rq_sample_rate_hz : Z;
  rq_tenant_id : string;               (** of the header, if there is one *)
  rq_traceparent : string;
  rq_start_message : string;
  rq_variables : gmap string string;
  rq_buffer_override : TtsBufferOverride;
  rq_language : string;
  rq_interim_results : bool;
  rq_vocabulary_hints : list string;
  rq_stereo : bool;
}.

(** What a session shows when it is located: its read and write rates, 0 when
    FreeSWITCH does not tell; [None] when the channel is gone. *)
Record SessionView := mkSessionView { sv_read_rate : Z; sv_write_rate : Z }.

Record start_answers := mkStartAnswers {
  sa_planes : bool;                    (** [bug_mgr && streams] *)
  sa_first : option SessionView;       (** the two calls of [Locate] *)
  sa_second : option SessionView;
  sa_has_inject : bool;                (** [bug_mgr->HasInjectBug] *)
  sa_stream_id : string;
  sa_open : Status;
  sa_attach1 : Status + Z;
  sa_attach2 : Status + Z;
  sa_wired1 : bool;                    (** [SetBugCallback] *)
  sa_wired2 : bool;
  sa_record_count : Z;                 (** [MediaBugCount(session, "record_session")] *)
  sa_insert : bool;
}.

(** ** Shared pieces *)

Definition invalid (msg : string) : Status := mkStatus INVALID_ARGUMENT msg.
Definition channel_not_found : Status := mkStatus NOT_FOUND "channel not found".

Definition kDefaultSampleRateHz : Z := 16000.
Definition kReadStreamFlag : Z := Z.shiftl 1 0.
Definition kWriteStreamFlag : Z := Z.shiftl 1 1.

(** The checks of the request every start makes; the rate. *)
Definition check_request (req : StartRequest) (endpoint_msg : string) : H unit :=
  when (string_empty (rq_channel_uuid req)) return_ (invalid "channel_uuid required") ;;
  when (string_empty (rq_endpoint req)) return_ (invalid endpoint_msg).

Definition check_stream_rate (req : StartRequest) : H Z :=
  let rate := if rq_sample_rate_hz req =? 0 then kDefaultSampleRateHz else rq_sample_rate_hz req in
  when (negb (rate =? 8000) && negb (rate =? 16000)) return_ (invalid "sample_rate_hz must be 8000 or 16000") ;;
  h_ret rate.

Definition check_planes (h : start_answers) : H unit :=
  when (negb (sa_planes h)) return_ (mkStatus UNAVAILABLE "media plane not initialised").

(** [auto sg = SessionGuard::Locate(...)] and its test. *)
Definition locate (o : option SessionView) (cleanup : H unit) : H SessionView :=
  match o with
  | None => cleanup ;; h_return channel_not_found
  | Some v => emit HLock ;; own HUnlock ;; h_ret v
  end.

Definition ValidateReadStreamRate (v : SessionView) (rate : Z) (label : string) : Status :=
  ValidateRatePair label (sv_read_rate v) rate.
Definition ValidateWriteStreamRate (v : SessionView) (rate : Z) (label : string) : Status :=
  ValidateRatePair label rate (sv_write_rate v).
Definition ValidateRecordingWriteRate (v : SessionView) (rate : Z) (label : string) : Status :=
  ValidateRatePair label (sv_write_rate v) rate.

(** [std::make_unique] into a local. *)
Definition make (o : new_object) : H unit := emit (HNew o) ;; own (HFree (resource_of o)).

Definition make_client (sc : StreamConfig) : H unit := make (NewClient sc).

(** [client->Open(5000)]; the reader thread runs from here on when it succeeds. *)
Definition open_client (h : start_answers) : H unit :=
  (if Status_ok (sa_open h) then emit HOpen else h_ret tt) ;; unless_ok (sa_open h) (h_ret tt).

(** [bug_mgr->Attach(sg.get(), cfg)] into a local, and its test. *)
Definition attach (answer : Status + Z) (p : Purpose) (flags : Z) : H Z :=
  match answer with
  | inl st => emit HClose ;; h_return st
  | inr id => emit (HAttach id (mkBugConfig p flags)) ;; own (HDetach id) ;; h_ret id
  end.

(** [bug_mgr->SetBugCallback], whose result the handlers do not test. *)
Definition wire (id : Z) (k : cb_kind) (wired : bool) : H unit :=
  if wired then emit (HWire id k) else h_ret tt.

Definition MaybeWarnRecordBeforeInject (config : Config) (count : Z) : H unit :=
  if negb (warn_record_before_inject config) then h_ret tt
  else if count =? 0 then h_ret tt
  else emit (HWarnRecordBeforeInject count).

Definition mark_bot (config : Config) (label tenant_id : string) : H unit :=
  emit (HMarkBotSession label
          (ResolveEffectivePolicy (eavesdrop_policy config) (tenant_eavesdrop_policies config) tenant_id) tenant_id).

Fixpoint emit_all (es : list h_effect) : H unit :=
  match es with [] => h_ret tt | e :: es => emit e ;; emit_all es end.

(** [streams->Insert(std::move(stream))], which tears a refused stream down.
    Everything the stream owns was moved into it. *)
Definition insert_stream (h : start_answers) (s : ActiveMediaStream) : H unit :=
  if sa_insert h then emit (HInsert s)
  else emit_all (HTear <$> TearDown s) ;; h_return (mkStatus INTERNAL "stream_id collision").

Fixpoint move_all (ds : list h_effect) : H unit :=
  match ds with [] => h_ret tt | d :: ds => moved d ;; move_all ds end.

Definition move_into_stream (s : ActiveMediaStream) : H unit :=
  move_all ((HDetach <$> ams_bugs s) ++ (HFree <$> owned_resources s)).

(** ** StartTts *)

Definition tts_stream_config (req : StartRequest) (rate : Z) : StreamConfig :=
  mkStreamConfig (rq_channel_uuid req) (rq_tenant_id req) 1 rate 1 1 0 (rq_traceparent req)
    (rq_start_message req) (rq_variables req) true 256.

(** The playout buffer of a TTS or voicebot stream. *)
Definition make_buffer (config : Config) (req : StartRequest) (rate : Z) : H unit :=
  match playout_config (rq_buffer_override req) config with
  | None => emit HUndefined
  | Some bc => make (NewBuffer bc rate)
  end.

Definition HandleStartTts (config : Config) (req : StartRequest) (h : start_answers) : H unit :=
  check_request req "upstream_endpoint required" ;;
  rate <-- check_stream_rate req ;
  check_planes h ;;
  block (sg <-- locate (sa_first h) (h_ret tt) ;
         unless_ok (ValidateWriteStreamRate sg rate "StartTts write") (h_ret tt)) ;;
  emit (HStopPrior (rq_channel_uuid req)) ;;
  make_buffer config req rate ;;
  make_client (tts_stream_config req rate) ;;
  open_client h ;;
  sg <-- locate (sa_second h) (emit HClose) ;
  unless_ok (ValidateWriteStreamRate sg rate "StartTts write") (emit HClose) ;;
  bug <-- attach (sa_attach1 h) kTtsPlayback kSmbfWriteReplace ;
  MaybeWarnRecordBeforeInject config (sa_record_count h) ;;
  mark_bot config "tts" (rq_tenant_id req) ;;
  make (NewWriteCtx rate (sv_write_rate sg)) ;;
  wire bug CbWriteReplace (sa_wired1 h) ;;
  let s := mkActiveMediaStream (rq_channel_uuid req) (sa_stream_id h) TTS_PLAYBACK [bug] true true true false false in
  move_into_stream s ;;
  insert_stream h s.

(** ** StartStt *)

(** [variables["vocabulary_hints"]]: the hints, appended with commas to what
    the request may have put there. *)
Definition append_hint (vars : gmap string string) (hint : string) : gmap string string :=
  let v := default ""%string (vars !! "vocabulary_hints"%string) in
  <["vocabulary_hints"%string := (if string_empty v then hint else v +:+ "," +:+ hint)%string]> vars.

Definition stt_variables (req : StartRequest) : gmap string string :=
  let vars := rq_variables req in
  let vars := if string_empty (rq_language req) then vars else <["language"%string := rq_language req]> vars in
  let vars := <["interim_results"%string := (if rq_interim_results req then "true" else "false")%string]> vars in
  fold_left append_hint (rq_vocabulary_hints req) vars.

Definition stt_stream_config (req : StartRequest) (rate : Z) : StreamConfig :=
  mkStreamConfig (rq_channel_uuid req) (rq_tenant_id req) 2 rate 1 1 0 "" "" (stt_variables req) false 256.

Definition HandleStartStt (config : Config) (req : StartRequest) (h : start_answers) : H unit :=
  check_request req "upstream_endpoint required" ;;
  rate <-- check_stream_rate req ;
  check_planes h ;;
  block (sg <-- locate (sa_first h) (h_ret tt) ;
         unless_ok (ValidateReadStreamRate sg rate "StartStt read") (h_ret tt)) ;;
  make_client (stt_stream_config req rate) ;;
  open_client h ;;
  sg <-- locate (sa_second h) (emit HClose) ;
  unless_ok (ValidateReadStreamRate sg rate "StartStt read") (emit HClose) ;;
  bug <-- attach (sa_attach1 h) kSttTranscribe kReadStreamFlag ;
  make (NewReadCtx rate (sv_read_rate sg)) ;;
  wire bug CbReadTap (sa_wired1 h) ;;
  let s := mkActiveMediaStream (rq_channel_uuid req) (sa_stream_id h) STT_TRANSCRIBE [bug] true false false true false in
  move_into_stream s ;;
  insert_stream h s.

(** ** StartVoicebot *)

Definition voicebot_stream_config (req : StartRequest) (rate : Z) : StreamConfig :=
  mkStreamConfig (rq_channel_uuid req) (rq_tenant_id req) 3 rate 1 1 0 (rq_traceparent req)
    (rq_start_message req) (rq_variables req) false 256.

Definition HandleStartVoicebot (config : Config) (req : StartRequest) (h : start_answers) : H unit :=
  check_request req "upstream_endpoint required" ;;
  rate <-- check_stream_rate req ;
  check_planes h ;;
  block (sg <-- locate (sa_first h) (h_ret tt) ;
         unless_ok (ValidateReadStreamRate sg rate "StartVoicebot read") (h_ret tt) ;;
         unless_ok (ValidateWriteStreamRate sg rate "StartVoicebot write") (h_ret tt)) ;;
  emit (HStopPrior (rq_channel_uuid req)) ;;
  make_buffer config req rate ;;
  make_client (voicebot_stream_config req rate) ;;
  open_client h ;;
  sg <-- locate (sa_second h) (emit HClose) ;
  unless_ok (ValidateReadStreamRate sg rate "StartVoicebot read") (emit HClose) ;;
  unless_ok (ValidateWriteStreamRate sg rate "StartVoicebot write") (emit HClose) ;;
  read_bug <-- attach (sa_attach1 h) kVoicebotDuplexRead kReadStreamFlag ;
  make (NewReadCtx rate (sv_read_rate sg)) ;;
  wire read_bug CbReadTap (sa_wired1 h) ;;
  write_bug <-- attach (sa_attach2 h) kVoicebotDuplexWrite kSmbfWriteReplace ;
  MaybeWarnRecordBeforeInject config (sa_record_count h) ;;
  mark_bot config "voicebot" (rq_tenant_id req) ;;
  make (NewWriteCtx rate (sv_write_rate sg)) ;;
  wire write_bug CbWriteReplace (sa_wired2 h) ;;
  let s := mkActiveMediaStream (rq_channel_uuid req) (sa_stream_id h) VOICEBOT_DUPLEX [read_bug; write_bug]
             true true true true false in
  move_into_stream s ;;
  insert_stream h s.

(** ** StartRecordingRelay *)

Definition kAssumedPtimeMs : Z := 20.

Definition ValidRate (rate : Z) : bool :=
  (rate =? 8000) || (rate =? 16000) || (rate =? 24000) || (rate =? 48000).

(** [recording_send_ring_ms] is a [uint32_t]. *)
Definition relay_ring_capacity (config : Config) : nat :=
  Z.to_nat (Z.max 1 (u32 (u32 (recording_send_ring_ms config + kAssumedPtimeMs) - 1) / kAssumedPtimeMs)).

Definition relay_stream_config (config : Config) (req : StartRequest) (rate : Z) : StreamConfig :=
  mkStreamConfig (rq_channel_uuid req) (rq_tenant_id req) 5 rate (if rq_stereo req then 2 else 1) 1
    (if rq_stereo req then 4 else 3) (rq_traceparent req) "" ∅ false (relay_ring_capacity config).

Definition relay_config (config : Config) (req : StartRequest) (rate : Z) (sg : SessionView) : RecordingRelayConfig :=
  mkRelayConfig (rq_stereo req) rate (if rq_stereo req then sv_read_rate sg else 0) (sv_write_rate sg)
    (stereo_desync_warn_ms config) (stereo_desync_timeout_ms config).

Definition check_relay_rates (req : StartRequest) (rate : Z) (sg : SessionView) (cleanup : H unit) : H unit :=
  unless_ok (ValidateRecordingWriteRate sg rate "StartRecordingRelay write") cleanup ;;
  if rq_stereo req then unless_ok (ValidateReadStreamRate sg rate "StartRecordingRelay read") cleanup else h_ret tt.

(** [sg.Reset()]. *)
Definition unlock_session : H unit := emit HUnlock ;; moved HUnlock.

(** [sg = SessionGuard::Locate(...)]: [sg] was the first local declared, so its
    destructor runs last. *)
Definition relocate (o : option SessionView) (cleanup : H unit) : H SessionView :=
  match o with
  | None => cleanup ;; h_return channel_not_found
  | Some v => emit HLock ;; fun f => (inr v, mkFrame (fr_out f) (fr_scope f ++ [HUnlock]))
  end.

Definition HandleStartRecordingRelay (config : Config) (req : StartRequest) (h : start_answers) : H unit :=
  check_request req "relay_endpoint required" ;;
  check_planes h ;;
  let rate := if rq_sample_rate_hz req =? 0 then recording_default_rate_hz config else rq_sample_rate_hz req in
  when (negb (ValidRate rate)) return_ (invalid "sample_rate_hz must be 8000, 16000, 24000, or 48000") ;;
  sg <-- locate (sa_first h) (h_ret tt) ;
  when (negb (sa_has_inject h))
    return_ (mkStatus FAILED_PRECONDITION "recording relay requires active TTS or voicebot inject bug") ;;
  check_relay_rates req rate sg (h_ret tt) ;;
  unlock_session ;;
  make_client (relay_stream_config config req rate) ;;
  open_client h ;;
  sg <-- relocate (sa_second h) (emit HClose) ;
  check_relay_rates req rate sg (emit HClose) ;;
  reads <-- (if rq_stereo req
             then bug <-- attach (sa_attach1 h) kRecordingRelay kReadStreamFlag ; h_ret [bug]
             else h_ret []) ;
  write_bug <-- attach (sa_attach2 h) kRecordingRelay kWriteStreamFlag ;
  make (NewRelay (relay_config config req rate sg)) ;;
  (if rq_stereo req then emit_all ((fun bug => HWire bug CbRecording) <$> (if sa_wired1 h then reads else []))
   else h_ret tt) ;;
  wire write_bug CbRecording (sa_wired2 h) ;;
  emit HRelayStart ;;
  let s := mkActiveMediaStream (rq_channel_uuid req) (sa_stream_id h) RECORDING_RELAY (reads ++ [write_bug])
             true false false false true in
  move_into_stream s ;;
  insert_stream h s.

(** ** The stop handlers *)

(** [stream_of] and [m] are the registry's streams; the result also holds the
    streams to tear down. *)
Definition HandleStopMediaStream (planes : bool) (stream_id : string) (m : StreamMap)
  : Status * bool * StreamMap * list stream_loc :=
  if string_empty stream_id then (invalid "stream_id required", false, m, [])
  else if negb planes then (mkStatus UNAVAILABLE "media plane not initialised", false, m, [])
  else let '(was_active, m', vs) := Streams_Remove stream_id m in (Status_OK, was_active, m', vs).

Definition HandleStopRecordingRelay (stream_of : stream_loc -> option ActiveMediaStream) (planes : bool)
    (stream_id channel_uuid : string) (order : list string) (m : StreamMap)
  : Status * Z * StreamMap * list stream_loc :=
  if negb planes then (mkStatus UNAVAILABLE "media plane not initialised", 0, m, [])
  else if string_empty stream_id && string_empty channel_uuid
  then (invalid "stream_id or channel_uuid required", 0, m, [])
  else if negb (string_empty stream_id) then
    let '(stopped, m', vs) := Streams_RemoveIfPurpose stream_of stream_id RECORDING_RELAY m in
    (Status_OK, if stopped : bool then 1 else 0, m', vs)
  else
    let '(n, m', vs) := Streams_RemovePurposeForChannel stream_of channel_uuid RECORDING_RELAY order m in
    (Status_OK, u32 (Z.of_nat n), m', vs).

(** ** The memory the effects act on

    [hm_bugs]: the bugs attached, with the callback each is wired to;
    [hm_reading]: the client's reader thread may run; [hm_ticking]: the relay's
    tick thread; [hm_given]: what the registry was given. *)
Record h_mem := mkHMem {
  hm_locked : bool;
  hm_live : list resource;
  hm_bugs : list (Z * option cb_kind);
  hm_reading : bool;
  hm_ticking : bool;
  hm_given : option (ActiveMediaStream * list (Z * option cb_kind)) }.

Definition h_mem_empty : h_mem := mkHMem false [] [] false false None.

Definition live (r : resource) (m : h_mem) : bool := existsb (resource_eqb r) (hm_live m).
Definition attached (id : Z) (m : h_mem) : bool := existsb (fun b => b.1 =? id) (hm_bugs m).

Definition object_uses (o : new_object) : list resource :=
  match o with
  | NewWriteCtx _ _ => [RClient; RBuffer]
  | NewReadCtx _ _ | NewRelay _ => [RClient]
  | NewBuffer _ _ | NewClient _ => []
  end.

(** Nothing that may still run uses it. *)
Definition freeable (r : resource) (m : h_mem) : bool :=
  negb (existsb (fun b => match b.2 with Some k => existsb (resource_eqb r) (kind_uses k) | None => false end) (hm_bugs m)) &&
  match r with
  | RBuffer => negb (hm_reading m)
  | RRecording | RClient => negb (hm_ticking m)
  | _ => true
  end.

Definition free (r : resource) (m : h_mem) : option h_mem :=
  if live r m && freeable r m
  then Some (mkHMem (hm_locked m) (List.filter (fun x => negb (resource_eqb r x)) (hm_live m)) (hm_bugs m)
               (match r with RClient => false | _ => hm_reading m end) (hm_ticking m) (hm_given m))
  else None.

Definition detach (id : Z) (m : h_mem) : option h_mem :=
  if attached id m
  then Some (mkHMem (hm_locked m) (hm_live m) (List.filter (fun b => negb (b.1 =? id)) (hm_bugs m))
               (hm_reading m) (hm_ticking m) (hm_given m))
  else None.

Definition with_threads (reading ticking : bool) (m : h_mem) : h_mem :=
  mkHMem (hm_locked m) (hm_live m) (hm_bugs m) reading ticking (hm_given m).

Definition close_client (m : h_mem) : option h_mem :=
  if live RClient m then Some (with_threads false (hm_ticking m) m) else None.

(** The stream given away owns everything there is. *)
Definition same_resources (a b : list resource) : bool :=
  (length a =? length b)%nat && forallb (fun r => existsb (resource_eqb r) b) a.

Fixpoint same_ids (a b : list Z) : bool :=
  match a, b with
  | [], [] => true
  | x :: a, y :: b => (x =? y) && same_ids a b
  | _, _ => false
  end.

Definition run_h (e : h_effect) (m : h_mem) : option h_mem :=
  let locked b := mkHMem b (hm_live m) (hm_bugs m) (hm_reading m) (hm_ticking m) (hm_given m) in
  match e with
  | HLock => if hm_locked m then None else Some (locked true)
  | HUnlock => if hm_locked m then Some (locked false) else None
  | HStopPrior _ => Some m
  | HNew o =>
      if live (resource_of o) m || negb (forallb (fun r => live r m) (object_uses o)) then None
      else Some (mkHMem (hm_locked m) (hm_live m ++ [resource_of o]) (hm_bugs m) (hm_reading m) (hm_ticking m) (hm_given m))
  | HOpen => if live RClient m && negb (hm_reading m) then Some (with_threads true (hm_ticking m) m) else None
  | HClose => close_client m
  | HAttach id _ =>
      if hm_locked m && negb (attached id m)
      then Some (mkHMem (hm_locked m) (hm_live m) (hm_bugs m ++ [(id, None)]) (hm_reading m) (hm_ticking m) (hm_given m))
      else None
  | HWire id k =>
      if attached id m && forallb (fun r => live r m) (kind_uses k)
      then Some (mkHMem (hm_locked m) (hm_live m)
                   ((fun b => if b.1 =? id then (id, Some k) else b) <$> hm_bugs m) (hm_reading m) (hm_ticking m) (hm_given m))
      else None
  | HRelayStart =>
      if live RRecording m && live RClient m then Some (with_threads (hm_reading m) true m) else None
  | HWarnRecordBeforeInject _ | HMarkBotSession _ _ _ => if hm_locked m then Some m else None
  | HInsert s =>
      if same_resources (hm_live m) (owned_resources s) && same_ids (hm_bugs m).*1 (ams_bugs s)
      then Some (mkHMem (hm_locked m) [] [] false false (Some (s, hm_bugs m)))
      else None
  | HTear TClientClose => close_client m
  | HTear TSignalEndOfStream => if live RBuffer m then Some m else None
  | HTear TRelayStop => if live RRecording m then Some (with_threads (hm_reading m) false m) else None
  | HTear TEmitStopped => Some m
  | HTear (TDetach b) => detach b m
  | HTear (TReset r) => if live r m then free r m else Some m
  | HDetach id => detach id m
  | HFree r => free r m
  | HUndefined => None
  end.

Fixpoint run_hs (es : list h_effect) (m : h_mem) : option h_mem :=
  match es with
  | [] => Some m
  | e :: es' => m' ← run_h e m; run_hs es' m'
  end.

(** ** The four starts *)

Inductive start_rpc := RpcTts | RpcStt | RpcVoicebot | RpcRecordingRelay.

Definition start_handler (r : start_rpc) : Config -> StartRequest -> start_answers -> H unit :=
  match r with
  | RpcTts => HandleStartTts
  | RpcStt => HandleStartStt
  | RpcVoicebot => HandleStartVoicebot
  | RpcRecordingRelay => HandleStartRecordingRelay
  end.

Definition rpc_kind (r : start_rpc) (req : StartRequest) : start_kind :=
  match r with
  | RpcTts => StartTts
  | RpcStt => StartStt
  | RpcVoicebot => StartVoicebot
  | RpcRecordingRelay => StartRecordingRelay (rq_stereo req)
  end.

Definition answer_id (a : Status + Z) : Z := match a with inr id => id | inl _ => 0 end.

(** What the bug manager answers: a failure has an error status, two bugs have
    two ids. *)
Record answers_ok (h : start_answers) : Prop := {
  ao_attach1 : answer_ok (sa_attach1 h);
  ao_attach2 : answer_ok (sa_attach2 h);
  ao_distinct : answer_id (sa_attach1 h) <> answer_id (sa_attach2 h) }.

Definition start_outcome (r : start_rpc) (config : Config) (req : StartRequest) (h : start_answers) : Status * option h_mem :=
  let '(st, es) := run_handler (start_handler r config req h) in (st, run_hs es h_mem_empty).

(** What the registry holds after a start: the stream, and its bugs with their
    callbacks. *)
Definition handed_over (r : start_rpc) (req : StartRequest) (h : start_answers)
  : ActiveMediaStream * list (Z * option cb_kind) :=
  let b1 := answer_id (sa_attach1 h) in
  let b2 := answer_id (sa_attach2 h) in
  (start_stream (rpc_kind r req) (rq_channel_uuid req) (sa_stream_id h) b1 b2,
   (fun w => (w.1, if (if w.1 =? b1 then sa_wired1 h else sa_wired2 h) then Some w.2 else None))
     <$> start_wiring (rpc_kind r req) b1 b2).

(** ** A logic for handlers

    [wp m Q mem ds]: from a memory [mem] with the destructors [ds] pending, [m]
    runs without error; if it ends normally [Q] holds, and if it returns early,
    its status is an error and the destructors leave nothing behind. *)
Definition wp {A} (m : H A) (Q : A -> h_mem -> list h_effect -> Prop) (mem : h_mem) (ds : list h_effect) : Prop :=
  forall out, run_hs out h_mem_empty = Some mem ->
  match m (mkFrame out ds) with
  | (inr a, f) => exists mem', run_hs (fr_out f) h_mem_empty = Some mem' /\ Q a mem' (fr_scope f)
  | (inl st, f) => Status_ok st = false /\ run_hs (fr_out f ++ fr_scope f) h_mem_empty = Some h_mem_empty
  end.

Lemma run_hs_app es1 es2 m : run_hs (es1 ++ es2) m = run_hs es1 m ≫= run_hs es2.
Proof. revert m. induction es1 as [|e es1 IH]; intros m; [done|]. cbn. by destruct (run_h e m); cbn. Qed.

Section rules.
Context {A : Type}.
Implicit Types (Q : A -> h_mem -> list h_effect -> Prop) (Qu : unit -> h_mem -> list h_effect -> Prop).

Lemma wp_ret a Q mem ds : Q a mem ds -> wp (h_ret a) Q mem ds.
Proof. intros HQ out Ho. by exists mem. Qed.

Lemma wp_bind {B} (m : H B) (k : B -> H A) Q mem ds :
  wp m (fun b => wp (k b) Q) mem ds -> wp (h_bind m k) Q mem ds.
Proof.
  intros Hm out Ho. specialize (Hm out Ho). unfold h_bind. destruct (m _) as [[st|b] [out' ds']]; [done|].
  destruct Hm as (mem' & Hr & Hk). exact (Hk _ Hr).
Qed.

Lemma wp_return st Q mem ds :
  Status_ok st = false -> run_hs ds mem = Some h_mem_empty -> wp (h_return st) Q mem ds.
Proof. intros Hs Hd out Ho. split; [done|]. cbn. by rewrite run_hs_app, Ho. Qed.

Lemma wp_emit e mem' Qu mem ds : run_h e mem = Some mem' -> Qu tt mem' ds -> wp (emit e) Qu mem ds.
Proof.
  intros He HQ out Ho. exists mem'. split; [|done]. cbn. rewrite run_hs_app, Ho. cbn. by rewrite He.
Qed.

Lemma wp_own d Qu mem ds : Qu tt mem (d :: ds) -> wp (own d) Qu mem ds.
Proof. intros HQ out Ho. by exists mem. Qed.

Lemma wp_moved d Qu mem ds ds' :
  remove_first (is_destructor d) ds = ds' -> Qu tt mem ds' -> wp (moved d) Qu mem ds.
Proof. intros <- HQ out Ho. by exists mem. Qed.

Lemma wp_block (m : H A) Q mem :
  wp m (fun a mem' ds => exists mem'', run_hs ds mem' = Some mem'' /\ Q a mem'' []) mem [] ->
  wp (block m) Q mem [].
Proof.
  intros Hm out Ho. specialize (Hm out Ho). unfold block. cbn.
  destruct (m _) as [[st|a] [out' ds']]; cbn in *; [by rewrite app_nil_r|].
  destruct Hm as (mem' & Hr & mem'' & Hd & HQ). exists mem''. split; [|done]. by rewrite run_hs_app, Hr.
Qed.

End rules.

Lemma wp_emit_all_cons e es mem' Q mem ds :
  run_h e mem = Some mem' -> wp (emit_all es) Q mem' ds -> wp (emit_all (e :: es)) Q mem ds.
Proof. intros He Hw. apply wp_bind. by eapply wp_emit. Qed.

Lemma run_hs_cons e es m m' r : run_h e m = Some m' -> run_hs es m' = r -> run_hs (e :: es) m = r.
Proof. intros He Hr. cbn. by rewrite He. Qed.

(** [sg = Locate(...)]. *)
Lemma wp_relocate o cleanup Q mem ds mem' :
  run_h HLock mem = Some mem' ->
  (o = None -> wp (cleanup ;; h_return channel_not_found) Q mem ds) ->
  (forall v, o = Some v -> Q v mem' (ds ++ [HUnlock])) ->
  wp (relocate o cleanup) Q mem ds.
Proof.
  intros He Hn HQ. destruct o as [v|]; [|by apply Hn]. apply wp_bind. eapply wp_emit; [exact He|].
  intros out Ho. exists mem'. by split; [|apply HQ].
Qed.

(** A handler that satisfies its triple: errors leave nothing, and the other
    outcome is the memory the post-condition describes. *)
Lemma wp_run_handler (m : H unit) mem' :
  wp m (fun _ mem ds => run_hs ds mem = Some mem') h_mem_empty [] ->
  let '(st, es) := run_handler m in
  run_hs es h_mem_empty = Some (if Status_ok st then mem' else h_mem_empty).
Proof.
  intros Hm. specialize (Hm [] eq_refl). unfold run_handler, block. cbn.
  destruct (m _) as [[st|[]] [out ds]]; cbn in *; [by destruct Hm as [-> ?]|].
  destruct Hm as (mem & Hr & Hd). by rewrite run_hs_app, Hr.
Qed.

(** Evaluate the memory on the ids at hand. *)
Ltac h_cbv :=
  cbv [run_h run_hs live attached existsb forallb freeable free detach with_threads close_client object_uses
       resource_of kind_uses hm_locked hm_live hm_bugs hm_reading hm_ticking hm_given List.filter fst snd
       andb orb negb same_resources same_ids length Nat.eqb owned_resources ams_channel_uuid ams_stream_id
       ams_purpose ams_bugs ams_client ams_tts_buffer ams_write_ctx ams_read_ctx ams_recording_ctx app fmap
       list_fmap remove_first is_destructor h_mem_empty].

Ltac h_eval :=
  h_cbv;
  repeat (match goal with
          | |- context [?a =? ?a] => rewrite (Z.eqb_refl a)
          | H : answer_id _ <> answer_id _ |- _ => progress cbn [answer_id] in H
          | H : ?a <> ?b |- context [?a =? ?b] => rewrite (proj2 (Z.eqb_neq a b) H)
          | H : ?a <> ?b |- context [?b =? ?a] => rewrite (proj2 (Z.eqb_neq b a) (not_eq_sym H))
          | |- context [resource_eqb ?a ?b] =>
              let v := eval vm_compute in (resource_eqb a b) in change (resource_eqb a b) with v
          end; h_cbv);
  try reflexivity.

(** Run pending destructors. *)
Ltac h_run := repeat (eapply run_hs_cons; [h_eval|]); reflexivity.

(** One step of a handler; a test splits the proof. *)
Ltac wp_step :=
  lazymatch goal with
  | |- wp (h_bind _ _) _ _ _ => apply wp_bind
  | |- wp (h_ret _) _ _ _ => apply wp_ret
  | |- wp (own _) _ _ _ => apply wp_own
  | |- wp (moved _) _ _ _ => eapply wp_moved; [h_eval|]
  | |- wp (emit _) _ _ _ => eapply wp_emit; [h_eval|]
  | |- wp (emit_all []) _ _ _ => apply wp_ret
  | |- wp (emit_all (_ :: _)) _ _ _ => eapply wp_emit_all_cons; [h_eval|]
  | |- wp (emit_all (_ <$> (if ?b then _ else _))) _ _ _ => destruct b eqn:?
  | |- wp (emit_all ?l) _ _ _ => let l' := eval cbn in l in progress change l with l'
  | |- wp (h_return _) _ _ _ => apply wp_return; [by eauto|first [assumption | h_run]]
  | |- wp (block _) _ _ _ => apply wp_block
  | |- wp (relocate _ _) _ _ _ => eapply wp_relocate; [h_eval|intros ?|intros ? ?]
  | |- wp (if ?b then _ else _) _ _ _ => destruct b eqn:?
  | |- wp (match ?x with _ => _ end) _ _ _ => destruct x eqn:?
  | |- exists m, run_hs _ _ = Some m /\ _ => eexists; split; [h_run|]
  end.

(** The named pieces of the handlers. *)
Ltac wp_unfold :=
  lazymatch goal with
  | |- wp (check_request _ _) _ _ _ => unfold check_request
  | |- wp (check_planes _) _ _ _ => unfold check_planes
  | |- wp (locate _ _) _ _ _ => unfold locate
  | |- wp (unless_ok _ _) _ _ _ => unfold unless_ok
  | |- wp (make _) _ _ _ => unfold make
  | |- wp (make_client _) _ _ _ => unfold make_client
  | |- wp (open_client _) _ _ _ => unfold open_client
  | |- wp (attach _ _ _) _ _ _ => unfold attach
  | |- wp (wire _ _ _) _ _ _ => unfold wire
  | |- wp (MaybeWarnRecordBeforeInject _ _) _ _ _ => unfold MaybeWarnRecordBeforeInject
  | |- wp (mark_bot _ _ _) _ _ _ => unfold mark_bot
  | |- wp (insert_stream _ _) _ _ _ => unfold insert_stream
  | |- wp (move_into_stream _) _ _ _ => unfold move_into_stream; cbn
  | |- wp (check_relay_rates _ _ _ _) _ _ _ => unfold check_relay_rates
  | |- wp unlock_session _ _ _ => unfold unlock_session
  end.

(** The rate is one of two; which one does not matter to the memory. *)
Lemma wp_check_stream_rate req Q mem ds :
  run_hs ds mem = Some h_mem_empty -> (forall rate, Q rate mem ds) -> wp (check_stream_rate req) Q mem ds.
Proof. intros Hd HQ. unfold check_stream_rate. cbv zeta. repeat (wp_step || wp_unfold); eauto. Qed.

Lemma wp_make_buffer config req rate Q mem ds :
  ConfigBounds config -> (forall bc, wp (make (NewBuffer bc rate)) Q mem ds) ->
  wp (make_buffer config req rate) Q mem ds.
Proof.
  intros Hc HQ. unfold make_buffer.
  destruct (playout_config_bounds (rq_buffer_override req) config Hc) as (bc & -> & _). done.
Qed.

Definition given_mem (g : ActiveMediaStream * list (Z * option cb_kind)) : h_mem :=
  mkHMem false [] [] false false (Some g).

Ltac wp_lemma :=
  lazymatch goal with
  | |- wp (check_stream_rate _) _ _ _ => apply wp_check_stream_rate; [h_run|intros ?]
  | |- wp (make_buffer _ _ _) _ _ _ => apply wp_make_buffer; [assumption|intros ?]
  end.

(** Run a handler through every branch. *)
Ltac wp_run := cbv zeta; repeat (wp_step || wp_lemma || wp_unfold).

(** What was handed over, in terms of the answers of this branch. *)
Ltac handler_end req h :=
  unfold given_mem, handed_over, rpc_kind;
  repeat match goal with
         | H : ?f h = _ |- context [?f h] => rewrite H
         | H : ?f req = _ |- context [?f req] => rewrite H
         end;
  cbv [start_stream start_wiring]; cbn [answer_id]; h_eval; h_run.

Lemma StartTts_wp config req h : ConfigBounds config -> answers_ok h ->
  wp (HandleStartTts config req h)
    (fun _ mem ds => run_hs ds mem = Some (given_mem (handed_over RpcTts req h))) h_mem_empty [].
Proof. intros Hc [H1 H2 H3]. unfold HandleStartTts. wp_run; handler_end req h. Qed.

Lemma StartStt_wp config req h : answers_ok h ->
  wp (HandleStartStt config req h)
    (fun _ mem ds => run_hs ds mem = Some (given_mem (handed_over RpcStt req h))) h_mem_empty [].
Proof. intros [H1 H2 H3]. unfold HandleStartStt. wp_run; handler_end req h. Qed.

Lemma StartRecordingRelay_wp config req h : answers_ok h ->
  wp (HandleStartRecordingRelay config req h)
    (fun _ mem ds => run_hs ds mem = Some (given_mem (handed_over RpcRecordingRelay req h))) h_mem_empty [].
Proof. intros [H1 H2 H3]. unfold HandleStartRecordingRelay. wp_run; handler_end req h. Qed.

(** For a voicebot the second attach must not fail; see
    [voicebot_second_attach_fails]. *)
Lemma StartVoicebot_wp config req h : ConfigBounds config -> answers_ok h -> (exists id, sa_attach2 h = inr id) ->
  wp (HandleStartVoicebot config req h)
    (fun _ mem ds => run_hs ds mem = Some (given_mem (handed_over RpcVoicebot req h))) h_mem_empty [].
Proof.
  intros Hc [H1 H2 H3] [id Hi]. unfold HandleStartVoicebot. rewrite Hi in *. wp_run; handler_end req h.
Qed.

(** C10. Starting a stream is all or nothing. For [StartTts], [StartStt],
    [StartVoicebot] and [StartRecordingRelay], under a validated configuration
    and whatever FreeSWITCH, the bug manager, the upstream and the registry
    answer: no effect of the handler frees an object that a wired bug, the
    client's reader or the relay's tick thread may use, frees or detaches
    anything twice, or attaches a bug without the session lock, and the buffer's
    bounds are never crossed. An error status means that nothing is left: the
    client closed and freed, no bug attached, the session unlocked. OK means
    that the registry got a stream that owns everything that was made, its bugs
    wired to it as wiring succeeded; when it did, this is the object the
    lifetime theorem of the stream registry starts from. (For a voicebot the
    second attach must succeed: see [voicebot_second_attach_fails].) *)
Theorem starts_all_or_nothing (r : start_rpc) (regex_error : string -> option string) (config : Config)
    (req : StartRequest) (h : start_answers)
    (Hconfig : Validate regex_error config = None)
    (Hanswers : answers_ok h)
    (Hsecond : r = RpcVoicebot -> exists id, sa_attach2 h = inr id)
    (st : Status) (mem : option h_mem) (Hstart : start_outcome r config req h = (st, mem)) :
  mem = Some (if Status_ok st then given_mem (handed_over r req h) else h_mem_empty) /\
  (sa_wired1 h = true -> sa_wired2 h = true ->
   let o := start_obj (rpc_kind r req) (rq_channel_uuid req) (sa_stream_id h)
              (answer_id (sa_attach1 h)) (answer_id (sa_attach2 h)) in
   handed_over r req h = (so_stream o, (fun w => (w.1, Some w.2)) <$> so_attached o)).
Proof.
  apply Validate_bounds in Hconfig. unfold start_outcome in Hstart.
  assert (Hwp : wp (start_handler r config req h)
    (fun _ mem ds => run_hs ds mem = Some (given_mem (handed_over r req h))) h_mem_empty []).
  { destruct r; [by apply StartTts_wp|by apply StartStt_wp|apply StartVoicebot_wp; auto|by apply StartRecordingRelay_wp]. }
  apply wp_run_handler in Hwp. destruct (run_handler _) as [st' es]. injection Hstart as <- <-.
  split; [exact Hwp|]. intros H1 H2. unfold handed_over. rewrite H1, H2. cbn. f_equal.
  apply list_fmap_ext. intros i w _. by destruct (_ =? _).
Qed.

Definition demo_start (stereo : bool) : StartRequest :=
  mkStartRequest "chan" "svc:9000" 8000 "acme" "" "hello" ∅ (mkTtsBufferOverride 0 0) "vi-VN" true ["a"; "b"]%string stereo.

Definition demo_view : SessionView := mkSessionView 8000 8000.

Definition demo_start_answers (attach2 : Status + Z) (insert : bool) : start_answers :=
  mkStartAnswers true (Some demo_view) (Some demo_view) true "s-1" Status_OK (inr 7) attach2 true true 0 insert.

Lemma starts_all_or_nothing_witness :
  (start_outcome RpcRecordingRelay Config_default (demo_start true) (demo_start_answers (inr 8) true)).2 =
    Some (given_mem (mkActiveMediaStream "chan" "s-1" RECORDING_RELAY [7; 8] true false false false true,
                     [(7, Some CbRecording); (8, Some CbRecording)])) /\
  (start_outcome RpcVoicebot Config_default (demo_start true) (demo_start_answers (inr 8) false)).2 = Some h_mem_empty.
Proof.
  assert (Ha : forall b, answers_ok (demo_start_answers (inr 8) b)) by (intros b; split; [done|done|discriminate]).
  assert (Hv : Validate (fun _ => None) Config_default = None) by (vm_compute; reflexivity).
  split.
  - destruct (start_outcome RpcRecordingRelay Config_default (demo_start true) (demo_start_answers (inr 8) true)) as [st m] eqn:E.
    destruct (starts_all_or_nothing RpcRecordingRelay (fun _ => None) Config_default (demo_start true)
      (demo_start_answers (inr 8) true) Hv (Ha true) ltac:(by exists 8) st m E) as [-> _].
    vm_compute in E. injection E as <- _. reflexivity.
  - destruct (start_outcome RpcVoicebot Config_default (demo_start true) (demo_start_answers (inr 8) false)) as [st m] eqn:E.
    destruct (starts_all_or_nothing RpcVoicebot (fun _ => None) Config_default (demo_start true)
      (demo_start_answers (inr 8) false) Hv (Ha false) ltac:(by exists 8) st m E) as [-> _].
    vm_compute in E. injection E as <- _. reflexivity.
Defined.

(** When the second attach of a voicebot fails, the context and the client of
    the first bug are freed while the bug is still wired to them. *)
Example voicebot_second_attach_fails :
  let '(st, es) := run_handler (HandleStartVoicebot Config_default (demo_start false)
                                  (demo_start_answers (inl (mkStatus ALREADY_EXISTS "")) true)) in
  st_code st = ALREADY_EXISTS /\ run_hs es h_mem_empty = None /\
  drop (length es - 6) es = [HClose; HFree RReadCtx; HDetach 7; HUnlock; HFree RClient; HFree RBuffer].
Proof. vm_compute. done. Qed.

(** A mono recording announces both sides, mixed, and attaches the write side
    only. *)
Example mono_relay_one_side :
  let es := (run_handler (HandleStartRecordingRelay Config_default (demo_start false)
                            (demo_start_answers (inr 8) true))).2 in
  sc_side (relay_stream_config Config_default (demo_start false) 8000) = 3 /\
  filter (fun e => match e with HAttach _ _ => true | _ => false end = true) es =
    [HAttach 8 (mkBugConfig kRecordingRelay kWriteStreamFlag)].
Proof. vm_compute. done. Qed.

(** A start that fails after its first checks has already stopped the stream
    that was playing on the channel. *)
Example failed_start_stops_prior :
  let h := demo_start_answers (inl (mkStatus ALREADY_EXISTS "")) true in
  (run_handler (HandleStartTts Config_default (demo_start false)
     (mkStartAnswers true (Some demo_view) None true "s-1" Status_OK (inr 7) (inr 8) true true 0 true))).1 = channel_not_found /\
  HStopPrior "chan" ∈ (run_handler (HandleStartTts Config_default (demo_start false)
     (mkStartAnswers true (Some demo_view) None true "s-1" Status_OK (inr 7) (inr 8) true true 0 true))).2.
Proof. vm_compute. split; [done|]. repeat constructor. Qed.

(** ** Admission: the first check that fails *)

Fixpoint first_error (cs : list (bool * Status)) : Status :=
  match cs with
  | [] => Status_OK
  | (failed, st) :: cs => if failed then st else first_error cs
  end.

Definition start_rate (r : start_rpc) (config : Config) (req : StartRequest) : Z :=
  if rq_sample_rate_hz req =? 0
  then match r with RpcRecordingRelay => recording_default_rate_hz config | _ => 16000 end
  else rq_sample_rate_hz req.

Definition not_ok (st : Status) : bool * Status := (negb (Status_ok st), st).

Definition session_checks (r : start_rpc) (req : StartRequest) (rate : Z) (o : option SessionView) : list (bool * Status) :=
  match o with
  | None => [(true, mkStatus NOT_FOUND "channel not found")]
  | Some v =>
      match r with
      | RpcTts => [not_ok (ValidateRatePair "StartTts write" rate (sv_write_rate v))]
      | RpcStt => [not_ok (ValidateRatePair "StartStt read" (sv_read_rate v) rate)]
      | RpcVoicebot => [not_ok (ValidateRatePair "StartVoicebot read" (sv_read_rate v) rate);
                        not_ok (ValidateRatePair "StartVoicebot write" rate (sv_write_rate v))]
      | RpcRecordingRelay =>
          not_ok (ValidateRatePair "StartRecordingRelay write" (sv_write_rate v) rate) ::
          (if rq_stereo req then [not_ok (ValidateRatePair "StartRecordingRelay read" (sv_read_rate v) rate)] else [])
      end
  end.

Definition attach_check (a : Status + Z) : list (bool * Status) :=
  match a with inl st => [(true, st)] | inr _ => [] end.

Definition start_checks (r : start_rpc) (config : Config) (req : StartRequest) (h : start_answers) : list (bool * Status) :=
  let rate := start_rate r config req in
  let planes := (negb (sa_planes h), mkStatus UNAVAILABLE "media plane not initialised") in
  [(string_empty (rq_channel_uuid req), invalid "channel_uuid required");
   (string_empty (rq_endpoint req),
    invalid (match r with RpcRecordingRelay => "relay_endpoint required" | _ => "upstream_endpoint required" end))] ++
  match r with
  | RpcRecordingRelay =>
      [planes; (negb (ValidRate rate), invalid "sample_rate_hz must be 8000, 16000, 24000, or 48000")]
  | _ => [(negb ((rate =? 8000) || (rate =? 16000)), invalid "sample_rate_hz must be 8000 or 16000"); planes]
  end ++
  match r, sa_first h with
  | RpcRecordingRelay, Some _ =>
      [(negb (sa_has_inject h), mkStatus FAILED_PRECONDITION "recording relay requires active TTS or voicebot inject bug")]
  | _, _ => []
  end ++
  session_checks r req rate (sa_first h) ++
  [not_ok (sa_open h)] ++
  session_checks r req rate (sa_second h) ++
  (if match r with RpcRecordingRelay => rq_stereo req | _ => true end then attach_check (sa_attach1 h) else []) ++
  match r with RpcVoicebot | RpcRecordingRelay => attach_check (sa_attach2 h) | _ => [] end ++
  [(negb (sa_insert h), mkStatus INTERNAL "stream_id collision")].

(** The status a handler returns does not depend on what is pending. *)
Definition yields {A} (m : H A) (r : Status + A) : Prop := forall f, (m f).1 = r.

Fixpoint checked {A} (cs : list (bool * Status)) (a : A) : Status + A :=
  match cs with
  | [] => inr a
  | (failed, st) :: cs => if failed then inl st else checked cs a
  end.

Section yields.
Context {A B : Type}.
Implicit Types (m : H A) (k : A -> H B) (cs : list (bool * Status)) (a : A) (b : B).

(** What never fails; *)
Lemma yields_bind m k a r : yields m (inr a) -> yields (k a) r -> yields (h_bind m k) r.
Proof. intros Hm Hk f. unfold h_bind. specialize (Hm f). destruct (m f) as [? f']. cbn in Hm. subst. apply Hk. Qed.

(** a check; *)
Lemma yields_check m k a failed st cs b :
  yields m (checked [(failed, st)] a) -> (failed = false -> yields (k a) (checked cs b)) ->
  yields (h_bind m k) (checked ((failed, st) :: cs) b).
Proof.
  intros Hm Hk f. unfold h_bind. specialize (Hm f). destruct (m f) as [? f']. cbn in *. subst.
  destruct failed; [done|]. by apply Hk.
Qed.

(** several checks. *)
Lemma yields_checks n m k a cs b :
  yields m (checked (take n cs) a) -> yields (k a) (checked (drop n cs) b) ->
  yields (h_bind m k) (checked cs b).
Proof.
  intros Hm Hk f. unfold h_bind. specialize (Hm f). destruct (m f) as [? f']. cbn in *. subst.
  specialize (Hk f'). clear - Hk. revert cs Hk. induction n as [|n IH]; intros [|[[] st] cs] Hk; cbn in *; try done.
  by apply IH.
Qed.

Lemma yields_return st cs a : yields (h_return st) (checked ((true, st) :: cs) a).
Proof. done. Qed.

Lemma yields_ret a : yields (h_ret a) (checked [] a).
Proof. done. Qed.

Lemma yields_when (failed : bool) st : yields (when failed return_ st) (checked [(failed, st)] tt).
Proof. by destruct failed. Qed.

Lemma yields_block m r : yields m r -> yields (block m) r.
Proof. intros Hm f. unfold block. specialize (Hm (mkFrame (fr_out f) [])). by destruct (m _). Qed.

Lemma yields_assoc {C} (m : H C) (k1 : C -> H A) k r :
  yields (h_bind m (fun c => h_bind (k1 c) k)) r -> yields (h_bind (h_bind m k1) k) r.
Proof. intros H f. specialize (H f). revert H. unfold h_bind. destruct (m f) as [[st|c] f']; done. Qed.
End yields.

Lemma yields_emit_all es : yields (emit_all es) (inr tt).
Proof. induction es as [|e es IH]; [done|]. by apply (yields_bind _ _ tt). Qed.

Lemma yields_move_into s : yields (move_into_stream s) (inr tt).
Proof. unfold move_into_stream. induction (_ ++ _) as [|d ds IH]; [done|]. by apply (yields_bind _ _ tt). Qed.

Lemma yields_unless_ok st cleanup : yields cleanup (inr tt) -> yields (unless_ok st cleanup) (checked [not_ok st] tt).
Proof. intros Hc. unfold unless_ok, not_ok. destruct (Status_ok st); [done|]. by apply (yields_bind _ _ tt). Qed.

Lemma yields_make_buffer config req rate : yields (make_buffer config req rate) (inr tt).
Proof. unfold make_buffer. by destruct (playout_config _ _). Qed.

Lemma yields_wire id k wired : yields (wire id k wired) (inr tt).
Proof. by destruct wired. Qed.

Lemma yields_warn config count : yields (MaybeWarnRecordBeforeInject config count) (inr tt).
Proof. unfold MaybeWarnRecordBeforeInject. by repeat case_match. Qed.

Lemma yields_open h : yields (open_client h) (checked [not_ok (sa_open h)] tt).
Proof. unfold open_client, unless_ok, not_ok. by destruct (Status_ok (sa_open h)). Qed.

Lemma yields_locate o cleanup cs v : yields cleanup (inr tt) ->
  yields (locate o cleanup) (match o with None => checked ((true, channel_not_found) :: cs) v | Some sv => inr sv end).
Proof. intros Hc. destruct o; [done|]. by apply (yields_bind _ _ tt). Qed.

Lemma yields_relocate o cleanup cs v : yields cleanup (inr tt) ->
  yields (relocate o cleanup) (match o with None => checked ((true, channel_not_found) :: cs) v | Some sv => inr sv end).
Proof. intros Hc. destruct o; [done|]. by apply (yields_bind _ _ tt). Qed.

Lemma yields_attach ans p flags :
  yields (attach ans p flags) (match ans with inl st => inl st | inr id => inr id end).
Proof. by destruct ans. Qed.

Lemma yields_insert h s : yields (insert_stream h s) (checked [(negb (sa_insert h), mkStatus INTERNAL "stream_id collision")] tt).
Proof. unfold insert_stream. destruct (sa_insert h); [done|]. apply (yields_bind _ _ tt); [apply yields_emit_all|done]. Qed.

Lemma run_handler_checked m cs : yields m (checked cs tt) -> (run_handler m).1 = first_error cs.
Proof.
  intros Hm. unfold run_handler. apply yields_block in Hm. specialize (Hm (mkFrame [] [])).
  destruct (block m _) as [r f]. cbn in Hm. subst. induction cs as [|[[] st] cs IH]; done.
Qed.

Lemma yields_emit e : yields (emit e) (inr tt).
Proof. done. Qed.
Lemma yields_own d : yields (own d) (inr tt).
Proof. done. Qed.
Lemma yields_make o : yields (make o) (inr tt).
Proof. done. Qed.
Lemma yields_mark config label tenant : yields (mark_bot config label tenant) (inr tt).
Proof. done. Qed.
Lemma yields_unlock : yields unlock_session (inr tt).
Proof. done. Qed.
Lemma yields_ret' {A} (a : A) : yields (h_ret a) (inr a).
Proof. done. Qed.

Lemma yields_locate_some v cleanup : yields (locate (Some v) cleanup) (inr v).
Proof. done. Qed.
Lemma yields_relocate_some v cleanup : yields (relocate (Some v) cleanup) (inr v).
Proof. done. Qed.
Lemma yields_attach_some id p flags : yields (attach (inr id) p flags) (inr id).
Proof. done. Qed.

Create HintDb yields.
#[export] Hint Resolve yields_emit yields_own yields_make yields_mark yields_unlock yields_ret' yields_move_into
  yields_emit_all yields_make_buffer yields_wire yields_warn yields_locate_some yields_relocate_some
  yields_attach_some yields_open yields_when yields_insert : yields.
#[export] Hint Resolve yields_unless_ok : yields.

Lemma yields_stop {A B} (m : H A) (k : A -> H B) st cs b :
  yields m (inl st) -> yields (h_bind m k) (checked ((true, st) :: cs) b).
Proof. intros Hm f. unfold h_bind. specialize (Hm f). destruct (m f) as [? f']. cbn in *. by subst. Qed.

Lemma locate_none cleanup : yields cleanup (inr tt) -> yields (locate None cleanup) (inl channel_not_found).
Proof. intros Hc. by apply (yields_bind _ _ tt). Qed.
Lemma relocate_none cleanup : yields cleanup (inr tt) -> yields (relocate None cleanup) (inl channel_not_found).
Proof. intros Hc. by apply (yields_bind _ _ tt). Qed.
Lemma attach_none st p flags : yields (attach (inl st) p flags) (inl st).
Proof. done. Qed.
#[export] Hint Resolve locate_none relocate_none attach_none : yields.

Ltac y_step :=
  lazymatch goal with
  | |- yields (h_bind (h_bind _ _) _) _ => apply yields_assoc
  | |- yields (h_bind (block _) _) (checked (_ :: _) _) => fail
  | |- yields (h_bind _ _) _ =>
      first [eapply yields_bind; [solve [eauto with yields]|]
            |eapply yields_stop; solve [eauto with yields]
            |eapply yields_check; [solve [eauto with yields]|intros _]]
  | |- yields _ _ => solve [eauto with yields]
  end.

(** A block with [n] checks. *)
Ltac y_block n :=
  apply (yields_checks n _ _ tt); [apply yields_block; cbn [take]; repeat y_step|cbn [drop]]; repeat y_step.

Ltac status_start :=
  apply run_handler_checked; unfold start_checks, check_request, check_stream_rate, check_planes, start_rate;
  cbv zeta; rewrite <- ?negb_orb.

Lemma StartTts_status config req h :
  (run_handler (HandleStartTts config req h)).1 = first_error (start_checks RpcTts config req h).
Proof.
  unfold HandleStartTts. status_start.
  destruct (sa_first h) as [v1|], (sa_second h) as [v2|], (sa_attach1 h) as [st1|id1];
    cbn [app session_checks attach_check]; repeat y_step; y_block 1%nat.
Qed.

Lemma StartStt_status config req h :
  (run_handler (HandleStartStt config req h)).1 = first_error (start_checks RpcStt config req h).
Proof.
  unfold HandleStartStt. status_start.
  destruct (sa_first h) as [v1|], (sa_second h) as [v2|], (sa_attach1 h) as [st1|id1];
    cbn [app session_checks attach_check]; repeat y_step; y_block 1%nat.
Qed.

Lemma StartVoicebot_status config req h :
  (run_handler (HandleStartVoicebot config req h)).1 = first_error (start_checks RpcVoicebot config req h).
Proof.
  unfold HandleStartVoicebot. status_start.
  destruct (sa_first h) as [v1|], (sa_second h) as [v2|], (sa_attach1 h) as [st1|id1], (sa_attach2 h) as [st2|id2];
    cbn [app session_checks attach_check]; repeat y_step;
    [y_block 2%nat..|y_block 1%nat|y_block 1%nat|y_block 1%nat|y_block 1%nat|y_block 1%nat|y_block 1%nat|y_block 1%nat|y_block 1%nat].
Qed.

Lemma StartRecordingRelay_status config req h :
  (run_handler (HandleStartRecordingRelay config req h)).1 = first_error (start_checks RpcRecordingRelay config req h).
Proof.
  unfold HandleStartRecordingRelay, check_relay_rates. status_start.
  unfold session_checks.
  destruct (rq_stereo req), (sa_first h) as [v1|], (sa_second h) as [v2|], (sa_attach1 h) as [st1|id1], (sa_attach2 h) as [st2|id2];
    cbn [app attach_check]; repeat y_step.
Qed.

(** Which starts are admitted, and with which status the others are refused:
    the first check that fails, in the order the handlers make them. *)
Lemma start_admission r config req h :
  (run_handler (start_handler r config req h)).1 = first_error (start_checks r config req h).
Proof.
  destruct r; [apply StartTts_status|apply StartStt_status|apply StartVoicebot_status|apply StartRecordingRelay_status].
Qed.


(** ** What the recogniser is told *)

Lemma append_hints hints vars v :
  v <> ""%string -> Forall (fun hint => hint <> ""%string) hints ->
  vars !! "vocabulary_hints"%string = Some v ->
  fold_left append_hint hints vars !! "vocabulary_hints"%string = Some (string_join "," (v :: hints)).
Proof.
  revert vars v. induction hints as [|hint hints IH]; intros vars v Hv Hh Hk; [done|].
  apply Forall_cons in Hh as [Hn Hh]. cbn [fold_left].
  rewrite (IH _ (v +:+ "," +:+ hint)%string); [|by destruct v|done|].
  - change ("," +:+ hint)%string with (String "," hint).
    destruct hints as [|hint' hints]; cbn [string_join]; [done|].
    by rewrite <- string_app_assoc, string_app_cons.
  - unfold append_hint. rewrite Hk. cbn [default from_option id]. rewrite lookup_insert_eq.
    destruct (string_empty v) eqn:E; [|done]. by apply string_empty_spec in E.
Qed.

(** The hints reach the recogniser as one comma-separated variable. *)
Lemma stt_variables_hints req hint hints :
  rq_vocabulary_hints req = hint :: hints -> Forall (fun hint => hint <> ""%string) (hint :: hints) ->
  rq_variables req !! "vocabulary_hints"%string = None ->
  stt_variables req !! "vocabulary_hints"%string = Some (string_join "," (hint :: hints)).
Proof.
  intros Hr [Hn Hh]%Forall_cons Hv. unfold stt_variables. cbv zeta. rewrite Hr. cbn [fold_left].
  apply append_hints; [done|done|]. unfold append_hint. rewrite lookup_insert_eq.
  rewrite lookup_insert_ne by discriminate. destruct (string_empty (rq_language req)); [by rewrite Hv|].
  rewrite lookup_insert_ne by discriminate. by rewrite Hv.
Qed.

(** ** Stopping *)

(** Stopping a recording by its id never stops anything but a recording, and
    says how many streams it stopped. *)
Lemma StopRecordingRelay_count st planes id uuid order m r n m' vs :
  HandleStopRecordingRelay st planes id uuid order m = (r, n, m', vs) -> zlen vs < 2 ^ 32 ->
  n = zlen vs /\ forall l s, l ∈ vs -> st l = Some s -> ams_purpose s = RECORDING_RELAY.
Proof.
  unfold HandleStopRecordingRelay. destruct (negb planes); [intros [= <- <- <- <-]; set_solver|].
  destruct (_ && _); [intros [= <- <- <- <-]; set_solver|].
  destruct (negb (string_empty id)).
  - unfold Streams_RemoveIfPurpose. destruct (m !! id) as [l|]; [|intros [= <- <- <- <-]; set_solver].
    destruct (st l) as [s|] eqn:Es; [|intros [= <- <- <- <-]; set_solver].
    case_bool_decide; intros [= <- <- <- <-]; [|set_solver]. split; [done|].
    intros l' s' ->%list_elem_of_singleton Hs. congruence.
  - unfold Streams_RemovePurposeForChannel. destruct (erase_matching _ _ _ _) as [m1 v1] eqn:E.
    intros [= <- <- <- <-] Hl. split; [apply u32_small; split; [apply Nat2Z.is_nonneg|exact Hl]|]. clear Hl.
    revert m m1 v1 E. induction order as [|k order IH]; intros m m1 v1 E; cbn in E; [injection E as <- <-; set_solver|].
    destruct (m !! k ≫= _) as [[l s]|] eqn:Ek; [|by eapply IH].
    destruct (_ && _) eqn:Et; [|by eapply IH].
    destruct (erase_matching _ _ order _) as [m2 v2] eqn:E2. injection E as <- <-.
    intros l' s' [->|Hin]%elem_of_cons Hs.
    + apply bind_Some in Ek as (l0 & _ & (s0 & Hs0 & [= -> ->])%bind_Some). rewrite Hs in Hs0. injection Hs0 as ->.
      apply andb_prop in Et as [_ Et]. by apply bool_decide_eq_true in Et.
    + by eapply (IH _ _ _ E2).
Qed.

(** ** The service methods

    [ControlServiceSkeleton::StartTts] and the others: the handler under
    [RunIdempotent].  The response is filled at the end of a start that
    succeeds. *)

Record StartResponse := mkStartResponse { rs_stream_id : string; rs_codec : Z; rs_sample_rate_hz : Z }.

Definition StartResponse_default : StartResponse := mkStartResponse "" 0 0.

Definition rpc_name (r : start_rpc) : string :=
  match r with
  | RpcTts => "StartTts" | RpcStt => "StartStt" | RpcVoicebot => "StartVoicebot"
  | RpcRecordingRelay => "StartRecordingRelay"
  end.

(** [StartRecordingRelayResponse] has no codec. *)
Definition start_response (r : start_rpc) (config : Config) (req : StartRequest) (h : start_answers) : StartResponse :=
  mkStartResponse (sa_stream_id h) (match r with RpcRecordingRelay => 0 | _ => 1 end) (start_rate r config req).

Section service.
Context (SerializeToString : StartResponse -> option string) (ParseFromString : string -> option StartResponse).

(** The world is the effects of the handlers that have run. *)
Definition execute_start (r : start_rpc) (config : Config) (req : StartRequest) (h : start_answers)
    (w : list h_effect) : Status * StartResponse * list h_effect :=
  let '(st, es) := run_handler (start_handler r config req h) in
  (st, if Status_ok st then start_response r config req h else StartResponse_default, w ++ es).

Definition ServiceStart (r : start_rpc) (cache : option IdempotencyCache) (config : option Config) (req : StartRequest)
    (request_id : string) (h : start_answers) (now now' later : Z) (w : list h_effect) : RunOutcome :=
  match config with
  | None => RunReturns cache (mkStatus UNAVAILABLE "media config not initialised") StartResponse_default w
  | Some config =>
      RunIdempotent SerializeToString ParseFromString cache (rpc_name r) (rq_tenant_id req) request_id true
        (execute_start r config req h) now now' later w
  end.
End service.

Definition demo_serialize (r : StartResponse) : option string := Some (rs_stream_id r).
Definition demo_parse (s : string) : option StartResponse :=
  Some (if string_empty s then StartResponse_default else mkStartResponse s 1 8000).

(** A start that failed because the upstream was unavailable is stored like any
    other result: the retry with the same request id gets the same error without
    trying, for as long as the entry lives. *)
Example transient_failure_is_replayed :
  let down := mkStartAnswers true (Some demo_view) (Some demo_view) true "s-1" (mkStatus UNAVAILABLE "down")
                (inr 7) (inr 8) true true 0 true in
  let up := demo_start_answers (inr 8) true in
  let call := ServiceStart demo_serialize demo_parse RpcTts in
  match call (Some (IdempotencyCache_new 8 300 30)) (Some Config_default) (demo_start false) "req-1" down 0 0 1 [] with
  | RunReturns c st1 _ w1 =>
      match call c (Some Config_default) (demo_start false) "req-1" up 200 200 201 w1 with
      | RunReturns _ st2 _ w2 => st_code st1 = UNAVAILABLE /\ st_code st2 = UNAVAILABLE /\ w2 = w1
      | _ => False
      end
  | _ => False
  end.
Proof. vm_compute. done. Qed.

(** ** The bug manager's answers *)

(** The answer of an attach is the result of one of the manager's steps. *)
Definition answered (r : bm_result) (a : Status + Z) : Prop :=
  match r, a with
  | RHandle id, inr id' => id = id'
  | RStatus e, inl st => st_code st = e
  | _, _ => False
  end.

Lemma omap_NoDup_lookup {A B} (f : A -> option B) l : forall i j x y z,
  NoDup (omap f l) -> l !! i = Some x -> l !! j = Some y -> f x = Some z -> f y = Some z -> i = j.
Proof.
  induction l as [|a l IH]; intros i j x y z Hnd Hi Hj Hx Hy; [done|]. cbn in Hnd.
  assert (Hin : forall k w, l !! k = Some w -> f w = Some z -> z ∈ omap f l)
    by (intros k w Hk Hw; apply list_elem_of_omap; exists w; split; [by eapply list_elem_of_lookup_2|done]).
  destruct i as [|i], j as [|j]; cbn in Hi, Hj; [done| | |].
  - injection Hi as ->. rewrite Hx in Hnd. apply NoDup_cons in Hnd as [Hnd _]. destruct Hnd. eauto.
  - injection Hj as ->. rewrite Hy in Hnd. apply NoDup_cons in Hnd as [Hnd _]. destruct Hnd. eauto.
  - f_equal. eapply IH; [|done..]. destruct (f a); [by apply NoDup_cons in Hnd as [_ ?]|done].
Qed.

(** What [starts_all_or_nothing] assumes of the answers, the manager keeps: in any
    run of it, with any other calls between them, two attaches of which one
    succeeds are answered so. *)
Theorem manager_answers_ok s ls rs ow i j ri rj h :
  (forall r, s = Some r -> drivers_ r = ∅) -> Z.of_nat (length ls) < 2 ^ 64 - 1 ->
  bm_run (bm_init s) ls = Some (rs, ow) ->
  rs !! i = Some ri -> rs !! j = Some rj -> i <> j ->
  answered ri (sa_attach1 h) -> answered rj (sa_attach2 h) ->
  (exists id, ri = RHandle id \/ rj = RHandle id) -> answers_ok h.
Proof.
  intros Hs Hn Hr Hi Hj Hij H1 H2 Hsome.
  destruct (bm_run_handles ls _ _ _ [] (bm_inv_init s Hs) eq_refl ltac:(cbn; lia) ltac:(by intros ? ?%elem_of_nil) Hr)
    as [Hnd Hpos].
  assert (Hok : forall k r a, rs !! k = Some r -> answered r a -> answer_ok a).
  { intros k r a Hk Ha st ->. destruct r; try done. cbn in Ha. apply list_elem_of_lookup_2 in Hk.
    pose proof (bm_run_status _ _ _ _ _ Hr Hk). unfold Status_ok. subst. by destruct (st_code st). }
  assert (Hhd : forall k id, rs !! k = Some (RHandle id) -> 0 < id).
  { intros k id Hk. apply Hpos. unfold handles_of. apply list_elem_of_omap. exists (RHandle id).
    split; [by eapply list_elem_of_lookup_2|done]. }
  split; [eauto..|].
  destruct (sa_attach1 h) as [st1|id1], ri as [|e1|id1'|b1]; cbn in H1; try done; subst;
  destruct (sa_attach2 h) as [st2|id2], rj as [|e2|id2'|b2]; cbn in H2; try done; subst; cbn [answer_id].
  - destruct Hsome as [id [?|?]]; done.
  - pose proof (Hhd _ _ Hj). lia.
  - pose proof (Hhd _ _ Hi). lia.
  - intros ->. destruct Hij. by eapply (omap_NoDup_lookup _ rs).
Qed.
