(* ===== verification/Metrics.v ===== *)
(** * Metrics: recording, the exposition text, the scrape server

    [src/observability/prometheus.cc], [health_metrics.cc], [health.cc] and
    [metrics_server.cc], [src/control/rpc_metrics.cc] and
    [src/control/handlers/health_handler.cc].  A metric object the registry owns
    is its position in the registry's list.  Observed values are [double]s: the
    comparison with a bound, the conversion to nanoseconds and the printing of
    the two kinds of values are arguments ([Observation]).  The counters are
    atomics that only grow, so each method is a function.  Sockets are the bytes
    that [recv] returned, one chunk per call.

    The text a scraper gets is compared with [parse_exposition], a reader of the
    Prometheus text format. *)

From S2P Require Import Prelude Module.

#[local] Open Scope string_scope.
#[local] Open Scope Z_scope.

(** What the code does with a [double]. *)
Class Observation (D : Type) := {
  dle : D -> D -> bool;              (** [value <= bound] *)
  to_ns : D -> Z;                    (** [static_cast<std::uint64_t>(value * 1e9)] *)
  show_bound : D -> string;          (** [ostringstream << bound] *)
  show_sum : Z -> string;            (** [ostringstream << sum_ns / 1e9] *)
}.

(** ** Labels *)

Record Label := mkLabel { lb_key : string; lb_value : string }.

#[export] Instance Label_eq_dec : EqDecision Label.
Proof. solve_decision. Defined.

Definition backslash : ascii := char_of 92.
Definition dquote : ascii := char_of 34.
Definition newline : ascii := char_of 10.

Definition escape_char (c : ascii) (rest : string) : string :=
  if Ascii.eqb c backslash then String backslash (String backslash rest)
  else if Ascii.eqb c dquote then String backslash (String dquote rest)
  else if Ascii.eqb c newline then String backslash (String "n" rest)
  else String c rest.

Fixpoint escape (s : string) : string :=
  match s with EmptyString => EmptyString | String c s => escape_char c (escape s) end.

Definition render_label (l : Label) : string :=
  lb_key l +:+ String "=" (String dquote (escape (lb_value l) +:+ String dquote "")).

(** The labels and the closing brace. *)
Definition label_tail (ls : list Label) : string := string_join "," (render_label <$> ls) +:+ "}".

Definition RenderLabels (ls : list Label) : string :=
  match ls with [] => "" | _ => String "{" (label_tail ls) end.

(** ** Metrics *)

Record Counter := mkCounter { ct_name : string; ct_help : string; ct_labels : list Label; ct_value : Z }.
Record Gauge := mkGauge { ga_name : string; ga_help : string; ga_labels : list Label; ga_value : Z }.

Definition Counter_Inc (delta : Z) (c : Counter) : Counter :=
  mkCounter (ct_name c) (ct_help c) (ct_labels c) (ct_value c +u64 delta).

Definition Gauge_Set (v : Z) (g : Gauge) : Gauge := mkGauge (ga_name g) (ga_help g) (ga_labels g) v.

Definition nl : string := String newline "".

Definition header (name help kind : string) : string :=
  "# HELP " +:+ name +:+ " " +:+ help +:+ nl +:+ "# TYPE " +:+ name +:+ " " +:+ kind +:+ nl.

(** A sample line, without its newline. *)
Definition sample_line (name labels value : string) : string := name +:+ labels +:+ " " +:+ value.

Definition Counter_Render (c : Counter) : string :=
  header (ct_name c) (ct_help c) "counter" +:+
  sample_line (ct_name c) (RenderLabels (ct_labels c)) (pretty (ct_value c)) +:+ nl.

Definition Gauge_Render (g : Gauge) : string :=
  header (ga_name g) (ga_help g) "gauge" +:+
  sample_line (ga_name g) (RenderLabels (ga_labels g)) (pretty (ga_value g)) +:+ nl.

Section metrics.
Context {D : Type} `{Observation D}.

Record Histogram := mkHistogram {
  hi_name : string; hi_help : string; hi_labels : list Label;
  bounds_ : list D;
  bucket_counts_ : list Z;             (** one more, for +Inf *)
  count_ : Z;
  sum_ns_ : Z }.

Definition Histogram_new (name help : string) (labels : list Label) (bounds : list D) : Histogram :=
  mkHistogram name help labels bounds (replicate (S (length bounds)) 0) 0 0.

(** The loop over the bounds and the unconditional last bucket. *)
Fixpoint observe_buckets (value : D) (bounds : list D) (counts : list Z) : list Z :=
  match bounds, counts with
  | b :: bounds, n :: counts => (if dle value b then n +u64 1 else n) :: observe_buckets value bounds counts
  | [], [inf] => [inf +u64 1]
  | _, counts => counts
  end.

Definition Observe (value : D) (h : Histogram) : Histogram :=
  mkHistogram (hi_name h) (hi_help h) (hi_labels h) (bounds_ h)
    (observe_buckets value (bounds_ h) (bucket_counts_ h)) (count_ h +u64 1) (sum_ns_ h +u64 to_ns value).

(** [_bucket{le="...",<labels>}]. *)
Definition bucket_labels (le : string) (ls : list Label) : string :=
  "{le=" +:+ String dquote (le +:+ String dquote (match ls with [] => "}" | _ => String "," (label_tail ls) end)).

Definition bucket_line (h : Histogram) (le : string) (n : Z) : string :=
  sample_line (hi_name h +:+ "_bucket") (bucket_labels le (hi_labels h)) (pretty n).

Definition Histogram_lines (h : Histogram) : list string :=
  (zip_with (bucket_line h) ((show_bound <$> bounds_ h) ++ ["+Inf"]) (bucket_counts_ h)) ++
  [sample_line (hi_name h +:+ "_sum") (RenderLabels (hi_labels h)) (show_sum (sum_ns_ h));
   sample_line (hi_name h +:+ "_count") (RenderLabels (hi_labels h)) (pretty (count_ h))].

Fixpoint lines (ls : list string) : string :=
  match ls with [] => "" | l :: ls => l +:+ nl +:+ lines ls end.

Definition Histogram_Render (h : Histogram) : string :=
  "# HELP " +:+ hi_name h +:+ "_bucket " +:+ hi_help h +:+ nl +:+
  "# TYPE " +:+ hi_name h +:+ " histogram" +:+ nl +:+ lines (Histogram_lines h).

(** ** Registry *)

Record Registry := mkRegistry { counters_ : list Counter; gauges_ : list Gauge; histograms_ : list Histogram }.

Definition Registry_empty : Registry := mkRegistry [] [] [].

Definition AddCounter (name help : string) (ls : list Label) (r : Registry) : nat * Registry :=
  (length (counters_ r), mkRegistry (counters_ r ++ [mkCounter name help ls 0]) (gauges_ r) (histograms_ r)).

Definition AddGauge (name help : string) (ls : list Label) (r : Registry) : nat * Registry :=
  (length (gauges_ r), mkRegistry (counters_ r) (gauges_ r ++ [mkGauge name help ls 0]) (histograms_ r)).

Definition AddHistogram (name help : string) (ls : list Label) (bounds : list D) (r : Registry) : nat * Registry :=
  (length (histograms_ r),
   mkRegistry (counters_ r) (gauges_ r) (histograms_ r ++ [Histogram_new name help ls bounds])).

Definition Registry_Render (r : Registry) : string :=
  String.concat "" ((Counter_Render <$> counters_ r) ++ (Gauge_Render <$> gauges_ r) ++
                    (Histogram_Render <$> histograms_ r)).

(** A method called through the pointer the registry returned. *)
Definition on_counter (i : nat) (f : Counter -> Counter) (r : Registry) : Registry :=
  mkRegistry (alter f i (counters_ r)) (gauges_ r) (histograms_ r).
Definition on_gauge (i : nat) (f : Gauge -> Gauge) (r : Registry) : Registry :=
  mkRegistry (counters_ r) (alter f i (gauges_ r)) (histograms_ r).
Definition on_histogram (i : nat) (f : Histogram -> Histogram) (r : Registry) : Registry :=
  mkRegistry (counters_ r) (gauges_ r) (alter f i (histograms_ r)).

(** ** RPC metrics *)

(** [rfind('/')] and the rest; the whole string without a slash. *)
Fixpoint ExtractRpcName (method_path : string) : string :=
  match method_path with
  | EmptyString => ""
  | String _ rest =>
      match find_char "/" method_path with Some _ => ExtractRpcName rest | None => method_path end
  end.

Definition StatusCodeToString (code : StatusCode) : string :=
  match code with
  | OK => "OK" | CANCELLED => "CANCELLED" | UNKNOWN => "UNKNOWN" | INVALID_ARGUMENT => "INVALID_ARGUMENT"
  | DEADLINE_EXCEEDED => "DEADLINE_EXCEEDED" | NOT_FOUND => "NOT_FOUND" | ALREADY_EXISTS => "ALREADY_EXISTS"
  | PERMISSION_DENIED => "PERMISSION_DENIED" | RESOURCE_EXHAUSTED => "RESOURCE_EXHAUSTED"
  | FAILED_PRECONDITION => "FAILED_PRECONDITION" | ABORTED => "ABORTED" | OUT_OF_RANGE => "OUT_OF_RANGE"
  | UNIMPLEMENTED => "UNIMPLEMENTED" | INTERNAL => "INTERNAL" | UNAVAILABLE => "UNAVAILABLE"
  | DATA_LOSS => "DATA_LOSS" | UNAUTHENTICATED => "UNAUTHENTICATED"
  end.

Record RpcMetrics := mkRpcMetrics {
  call_counters_ : gmap string nat;
  authz_counters_ : gmap string nat;
  latency_hists_ : gmap string nat;
  rm_registry : Registry }.

Definition RpcMetrics_new (r : Registry) : RpcMetrics := mkRpcMetrics ∅ ∅ ∅ r.

Definition call_labels (rpc code : string) : list Label := [mkLabel "rpc" rpc; mkLabel "code" code].

Definition GetOrCreateCallCounter (rpc : string) (code : StatusCode) (m : RpcMetrics) : nat * RpcMetrics :=
  let code_str := StatusCodeToString code in
  let key := rpc +:+ "/" +:+ code_str in
  match call_counters_ m !! key with
  | Some i => (i, m)
  | None =>
      let '(i, r) := AddCounter "osw_rpc_calls_total" "Total gRPC RPC calls by method and status code"
                       (call_labels rpc code_str) (rm_registry m) in
      (i, mkRpcMetrics (<[key := i]> (call_counters_ m)) (authz_counters_ m) (latency_hists_ m) r)
  end.

Definition GetOrCreateAuthzCounter (rpc outcome : string) (m : RpcMetrics) : nat * RpcMetrics :=
  let key := rpc +:+ "/" +:+ outcome in
  match authz_counters_ m !! key with
  | Some i => (i, m)
  | None =>
      let '(i, r) := AddCounter "osw_rpc_authz_decisions_total" "Total gRPC authz decisions by RPC and outcome"
                       [mkLabel "rpc" rpc; mkLabel "outcome" outcome] (rm_registry m) in
      (i, mkRpcMetrics (call_counters_ m) (<[key := i]> (authz_counters_ m)) (latency_hists_ m) r)
  end.

Context (kDefaultLatencyBuckets : list D).

Definition AddLatencyHistogram (name help : string) (ls : list Label) (r : Registry) : nat * Registry :=
  AddHistogram name help ls kDefaultLatencyBuckets r.

Definition GetOrCreateLatencyHistogram (rpc : string) (m : RpcMetrics) : nat * RpcMetrics :=
  match latency_hists_ m !! rpc with
  | Some i => (i, m)
  | None =>
      let '(i, r) := AddLatencyHistogram "osw_rpc_latency_seconds" "gRPC RPC latency in seconds"
                       [mkLabel "rpc" rpc] (rm_registry m) in
      (i, mkRpcMetrics (call_counters_ m) (authz_counters_ m) (<[rpc := i]> (latency_hists_ m)) r)
  end.

Definition with_registry (r : Registry) (m : RpcMetrics) : RpcMetrics :=
  mkRpcMetrics (call_counters_ m) (authz_counters_ m) (latency_hists_ m) r.

Definition Record_ (rpc : string) (code : StatusCode) (latency : D) (m : RpcMetrics) : RpcMetrics :=
  let '(call_ctr, m) := GetOrCreateCallCounter rpc code m in
  let '(lat_hist, m) := GetOrCreateLatencyHistogram rpc m in
  with_registry (on_histogram lat_hist (Observe latency) (on_counter call_ctr (Counter_Inc 1) (rm_registry m))) m.

Definition RecordAuthz (rpc outcome : string) (m : RpcMetrics) : RpcMetrics :=
  let '(ctr, m) := GetOrCreateAuthzCounter rpc outcome m in
  with_registry (on_counter ctr (Counter_Inc 1) (rm_registry m)) m.

(** The interceptor: [method] is null when the library gives none; the start is
    noted at PRE_SEND_INITIAL_METADATA, and the end of the call is recorded, with
    the code OK, at PRE_SEND_STATUS. *)
Record RpcMetricsInterceptor := mkInterceptor { rpc_name_ : string; start_ : option D }.

Definition Interceptor_new (method : option string) : RpcMetricsInterceptor :=
  mkInterceptor (match method with Some m => ExtractRpcName m | None => "unknown" end) None.

(** [elapsed start now] is the difference of two clock readings. *)
Definition Intercept (elapsed : D -> D -> D) (initial_metadata send_status : bool) (now : D)
    (i : RpcMetricsInterceptor) (m : RpcMetrics) : RpcMetricsInterceptor * RpcMetrics :=
  let i := if initial_metadata then mkInterceptor (rpc_name_ i) (Some now) else i in
  (i, match send_status, start_ i with
      | true, Some start => Record_ (rpc_name_ i) OK (elapsed start now) m
      | _, _ => m
      end).

(** ** The module's health, as gauges and as the Health response *)

Record HealthSnapshot := mkHealthSnapshot {
  hs_status : HealthStatus;
  hs_module_version : string;
  hs_freeswitch_version : string;
  hs_active_channels : Z;
  hs_active_media_bugs : Z;
  hs_events_emitted_total : Z;
  hs_subscriber_count : Z;
  hs_ring_fill_pct : Z * Z * Z;
  hs_dropped_total : Z * Z * Z }.

(** The five gauges, by their positions. *)
Record HealthMetrics := mkHealthMetrics {
  subscriber_gauge_ : nat; tier1_drops_gauge_ : nat; tier2_drops_gauge_ : nat; tier3_drops_gauge_ : nat;
  audit_emit_gauge_ : nat }.

Definition drops_help (tier : string) : string :=
  "Total events dropped from the tier-" +:+ tier +:+ " ring since module load".

Definition HealthMetrics_new (r : Registry) : HealthMetrics * Registry :=
  let drops tier := AddGauge "osw_events_tier_ring_drops_total" (drops_help tier) [mkLabel "tier" tier] in
  let '(sub, r) := AddGauge "osw_events_subscribers" "Current number of active SubscribeEvents gRPC streams" [] r in
  let '(t1, r) := drops "1" r in
  let '(t2, r) := drops "2" r in
  let '(t3, r) := drops "3" r in
  let '(audit, r) := AddGauge "osw_events_audit_emit_total"
                       "Total audit events emitted (osw::audit::Emit calls) since module load" [] r in
  (mkHealthMetrics sub t1 t2 t3 audit, r).

(** [static_cast<std::int64_t>] of an unsigned value. *)
Definition i64 (z : Z) : Z := let m := z mod 2 ^ 64 in if m <? 2 ^ 63 then m else m - 2 ^ 64.

Definition Refresh (hm : HealthMetrics) (s : HealthSnapshot) (r : Registry) : Registry :=
  let '(d1, d2, d3) := hs_dropped_total s in
  let set i v := on_gauge i (Gauge_Set (i64 v)) in
  set (audit_emit_gauge_ hm) (hs_events_emitted_total s)
    (set (tier3_drops_gauge_ hm) d3 (set (tier2_drops_gauge_ hm) d2 (set (tier1_drops_gauge_ hm) d1
      (set (subscriber_gauge_ hm) (hs_subscriber_count s) r)))).

(** What a scrape renders ([Module::Load]'s closure). *)
Definition render_fn (hm : HealthMetrics) (s : HealthSnapshot) (r : Registry) : string * Registry :=
  let r := Refresh hm s r in (Registry_Render r, r).
End metrics.

Arguments Registry _ : clear implicits.

Record HealthResponse := mkHealthResponse {
  hr_status : Z;
  hr_module_version : string;
  hr_freeswitch_version : string;
  hr_active_channels : Z; hr_active_media_bugs : Z; hr_events_emitted_total : Z; hr_subscriber_count : Z;
  hr_ring_fill_pct : Z * Z * Z; hr_dropped_total : Z * Z * Z }.

Definition MapStatus (s : HealthStatus) : Z :=
  match s with HServing => 1 | HNotServing => 2 | HDraining => 3 | HUnspecified => 0 end.

(** [ControlServiceSkeleton::Health]; [health] is null or shows a snapshot. *)
Definition HandleHealth (module_version freeswitch_version : string) (health : option HealthSnapshot)
  : Status * option HealthResponse :=
  match health with
  | None => (mkStatus INTERNAL "health aggregator not initialised", None)
  | Some s =>
      (Status_OK, Some (mkHealthResponse (MapStatus (hs_status s))
         (if string_empty module_version then hs_module_version s else module_version)
         (if string_empty freeswitch_version then hs_freeswitch_version s else freeswitch_version)
         (hs_active_channels s) (hs_active_media_bugs s) (hs_events_emitted_total s) (hs_subscriber_count s)
         (hs_ring_fill_pct s) (hs_dropped_total s)))
  end.

(** ** The scrape server *)

Definition crlf : string := String (char_of 13) nl.

Definition before (pat s : string) : string := match find_str pat s with Some (a, _) => a | None => s end.

Definition kMaxRequestBytes : Z := 8192.

(** [size()] of a string. *)
Definition slen (s : string) : Z := Z.of_nat (String.length s).

(** The reading loop of [HandleConnection]: each chunk is what one [recv]
    returned; it stops at the end of the headers, at a full buffer, or when
    [recv] fails or times out (the end of the list).  The bytes read, and the
    number of [recv]s. *)
Fixpoint recv_loop (buf : string) (chunks : list string) (recvs : nat) : string * nat :=
  if kMaxRequestBytes <=? slen buf then (buf, recvs)
  else match chunks with
       | [] => (buf, S recvs)
       | chunk :: chunks =>
           let n := string_take (Z.to_nat (kMaxRequestBytes - slen buf)) chunk in
           if string_empty n then (buf, S recvs)
           else
             let buf := buf +:+ n in
             match find_str (crlf +:+ crlf) buf with
             | Some _ => (buf, S recvs)
             | None => recv_loop buf chunks (S recvs)
             end
       end.

Definition plain_response (status body : string) (length : string) : string :=
  "HTTP/1.1 " +:+ status +:+ crlf +:+ "Content-Type: text/plain" +:+ crlf +:+ "Connection: close" +:+ crlf +:+
  "Content-Length: " +:+ length +:+ crlf +:+ crlf +:+ body.

Definition kNotFoundResponse : string := plain_response "404 Not Found" "Not Found" "9".
Definition kBadRequestResponse : string := plain_response "400 Bad Request" "Bad Request" "11".
Definition kMethodNotAllowedResponse : string := plain_response "405 Method Not Allowed" "Method Not Allowed" "18".

Definition kOkHeader : string :=
  "HTTP/1.1 200 OK" +:+ crlf +:+ "Content-Type: text/plain; version=0.0.4; charset=utf-8" +:+ crlf +:+
  "Connection: close" +:+ crlf.

(** [body] is what [render_fn_] would return. *)
Definition HandleRequest (raw_request body : string) : Z * string :=
  let request_line := before crlf raw_request in
  if string_empty request_line then (400, kBadRequestResponse)
  else match find_str " " request_line with
  | None => (400, kBadRequestResponse)
  | Some (method, rest) =>
      let path := before " " rest in
      if negb (String.eqb method "GET") then (405, kMethodNotAllowedResponse)
      else if negb (String.eqb (before "?" path) "/metrics") then (404, kNotFoundResponse)
      else (200, kOkHeader +:+ "Content-Length: " +:+ pretty (slen body) +:+ crlf +:+ crlf +:+ body)
  end.

(** ** A reader of the text format *)

Record Sample := mkSample { sm_name : string; sm_labels : list Label; sm_value : string }.

#[export] Instance Sample_eq_dec : EqDecision Sample.
Proof. solve_decision. Defined.

Definition in_range (lo hi : Z) (c : ascii) : bool := (lo <=? byte_of c) && (byte_of c <=? hi).

(** Letters, digits, underscore, colon. *)
Definition is_name_char (c : ascii) : bool :=
  in_range 97 122 c || in_range 65 90 c || in_range 48 57 c || Ascii.eqb c "_" || Ascii.eqb c ":".

Fixpoint span (P : ascii -> bool) (s : string) : string * string :=
  match s with
  | EmptyString => ("", "")
  | String c r => if P c then let '(a, b) := span P r in (String c a, b) else ("", s)
  end.

(** A label value after its opening quote. *)
Fixpoint parse_quoted (s : string) : option (string * string) :=
  match s with
  | EmptyString => None
  | String c r =>
      if Ascii.eqb c dquote then Some ("", r)
      else if Ascii.eqb c backslash then
        match r with
        | String d r =>
            match parse_quoted r with
            | Some (v, rest) => Some (String (if Ascii.eqb d "n" then newline else d) v, rest)
            | None => None
            end
        | EmptyString => None
        end
      else match parse_quoted r with Some (v, rest) => Some (String c v, rest) | None => None end
  end.

(** The labels after the opening brace; each takes some of the fuel. *)
Fixpoint parse_labels (fuel : nat) (s : string) : option (list Label * string) :=
  match fuel with
  | O => None
  | S fuel =>
      let '(key, r) := span is_name_char s in
      match r with
      | String "=" (String q r) =>
          if negb (Ascii.eqb q dquote) then None
          else match parse_quoted r with
               | Some (v, String "," r) =>
                   match parse_labels fuel r with
                   | Some (ls, rest) => Some (mkLabel key v :: ls, rest)
                   | None => None
                   end
               | Some (v, String "}" r) => Some ([mkLabel key v], r)
               | _ => None
               end
      | _ => None
      end
  end.

Definition parse_value (name : string) (labels : list Label) (s : string) : option Sample :=
  match s with String " " v => Some (mkSample name labels v) | _ => None end.

Definition parse_sample (line : string) : option Sample :=
  let '(name, r) := span is_name_char line in
  if string_empty name then None
  else match r with
       | String "{" r =>
           match parse_labels (String.length r) r with
           | Some (ls, rest) => parse_value name ls rest
           | None => None
           end
       | _ => parse_value name [] r
       end.

(** Empty lines and comments ([# HELP], [# TYPE]) hold no sample. *)
Definition is_sample_line (line : string) : bool :=
  negb (string_empty line) && negb (string_starts_with "#" line).

Definition parse_exposition (s : string) : option (list Sample) :=
  mapM parse_sample (List.filter is_sample_line (split_on newline s)).

(** ** Reading back what was rendered *)

Definition name_ok (s : string) : Prop := s <> ""%string /\ string_all is_name_char s = true.
Definition no_newline (s : string) : bool := string_all (is_not newline) s.
(** What needs no escaping inside quotes. *)
Definition plain (s : string) : bool :=
  string_all (fun c => is_not newline c && is_not dquote c && is_not backslash c) s.
Definition labels_ok (ls : list Label) : Prop := Forall (fun l => name_ok (lb_key l)) ls.

(** Where a name ends. *)
Definition ends_name (s : string) : bool := match s with EmptyString => true | String c _ => negb (is_name_char c) end.

Lemma span_app P a b :
  string_all P a = true -> match b with EmptyString => true | String c _ => negb (P c) end = true ->
  span P (a +:+ b) = (a, b).
Proof.
  intros Ha Hb. induction a as [|c a IH].
  - sapp. destruct b as [|c b]; [done|]. cbn. apply negb_true_iff in Hb. by rewrite Hb.
  - cbn in Ha. apply andb_prop in Ha as [Hc Ha]. sapp. cbn. by rewrite Hc, IH.
Qed.

Lemma parse_quoted_pair d r :
  parse_quoted (String backslash (String d r)) =
  match parse_quoted r with
  | Some (v, rest) => Some (String (if Ascii.eqb d "n" then newline else d) v, rest)
  | None => None
  end.
Proof. done. Qed.

Lemma parse_quoted_escape v r : parse_quoted (escape v +:+ String dquote r) = Some (v, r).
Proof.
  induction v as [|c v IH]; [done|]. cbn [escape]. unfold escape_char.
  destruct (Ascii.eqb_spec c backslash) as [->|Hb]; [sapp; rewrite parse_quoted_pair; by rewrite IH|].
  destruct (Ascii.eqb_spec c dquote) as [->|Hq]; [sapp; rewrite parse_quoted_pair; by rewrite IH|].
  destruct (Ascii.eqb_spec c newline) as [->|Hn]; [sapp; rewrite parse_quoted_pair; by rewrite IH|].
  sapp. cbn [parse_quoted].
  rewrite (proj2 (Ascii.eqb_neq c dquote) Hq), (proj2 (Ascii.eqb_neq c backslash) Hb). by rewrite IH.
Qed.

Lemma escape_plain v : plain v = true -> escape v = v.
Proof.
  unfold plain. induction v as [|c v IH]; [done|]. cbn [string_all escape]. intros [[[Hn Hq]%andb_prop Hb]%andb_prop Hv]%andb_prop.
  unfold escape_char, is_not in *. rewrite (IH Hv).
  apply negb_true_iff in Hn, Hq, Hb. by rewrite Hb, Hq, Hn.
Qed.

Lemma escape_no_newline v : no_newline (escape v) = true.
Proof.
  unfold no_newline. induction v as [|c v IH]; [done|]. cbn [escape]. unfold escape_char.
  destruct (Ascii.eqb_spec c backslash); [cbn [string_all]; by rewrite IH|].
  destruct (Ascii.eqb_spec c dquote); [cbn [string_all]; by rewrite IH|].
  destruct (Ascii.eqb c newline) eqn:E; [cbn [string_all]; by rewrite IH|]. cbn [string_all]. unfold is_not at 1. by rewrite E, IH.
Qed.

(** One label, whatever follows its value. *)
Lemma parse_labels_step fuel l r :
  name_ok (lb_key l) ->
  parse_labels (S fuel) (render_label l +:+ r) =
  match r with
  | String "," r => match parse_labels fuel r with Some (ls, rest) => Some (l :: ls, rest) | None => None end
  | String "}" r => Some ([l], r)
  | _ => None
  end.
Proof.
  intros [_ Hk]. unfold render_label. rewrite <- string_app_assoc. cbn [parse_labels].
  rewrite span_app by done. sapp. rewrite <- string_app_assoc. sapp. rewrite parse_quoted_escape. by destruct l.
Qed.

Lemma label_tail_cons l l' ls :
  label_tail (l :: l' :: ls) = render_label l +:+ String "," (label_tail (l' :: ls)).
Proof. unfold label_tail. cbn [fmap list_fmap string_join]. rewrite <- string_app_assoc. by sapp. Qed.

Lemma parse_label_tail ls r fuel :
  labels_ok ls -> ls <> [] -> (length ls <= fuel)%nat ->
  parse_labels fuel (label_tail ls +:+ r) = Some (ls, r).
Proof.
  intros Hok Hne. revert fuel. induction Hok as [|l ls Hl Hok IH]; [done|]. intros fuel Hf.
  destruct fuel as [|fuel]; [cbn in Hf; lia|]. destruct ls as [|l' ls].
  - unfold label_tail. cbn [fmap list_fmap string_join].
    rewrite <- string_app_assoc, parse_labels_step by done. by sapp.
  - rewrite label_tail_cons, <- string_app_assoc, parse_labels_step by done. sapp.
    by rewrite (IH ltac:(done) fuel ltac:(cbn in *; lia)).
Qed.

(** Each label takes at least one character, so the length of the text is fuel enough. *)
Lemma label_tail_length ls r : (length ls <= String.length (label_tail ls +:+ r))%nat.
Proof.
  rewrite string_length_app. induction ls as [|l [|l' ls] IH]; [cbn; lia|unfold label_tail|].
  - cbn [fmap list_fmap string_join length]. rewrite string_length_app. cbn. lia.
  - rewrite label_tail_cons, string_length_app. cbn [String.length length] in *. lia.
Qed.

Lemma parse_sample_line name ls v :
  name_ok name -> labels_ok ls ->
  parse_sample (sample_line name (RenderLabels ls) v) = Some (mkSample name ls v).
Proof.
  intros [Hne Hn] Hls. unfold parse_sample, sample_line. destruct ls as [|l ls].
  - cbn [RenderLabels]. sapp. rewrite span_app by done. by destruct name.
  - cbn [RenderLabels]. sapp. rewrite span_app by done. destruct (string_empty name) eqn:E; [by destruct name|].
    rewrite parse_label_tail by (done || apply label_tail_length). done.
Qed.

(** The bucket's labels start with its bound. *)
Lemma bucket_labels_render le ls : plain le = true -> bucket_labels le ls = RenderLabels (mkLabel "le" le :: ls).
Proof.
  intros Hle. unfold bucket_labels, RenderLabels. destruct ls as [|l ls].
  - unfold label_tail, render_label. cbn [fmap list_fmap string_join lb_key lb_value]. rewrite escape_plain by done.
    sapp. rewrite <- string_app_assoc. by sapp.
  - rewrite label_tail_cons. unfold render_label at 1. cbn [lb_key lb_value]. rewrite escape_plain by done.
    sapp. rewrite <- ?string_app_assoc. by sapp.
Qed.

(** ** The lines of a scrape *)

Definition header_lines (metric name help kind : string) : list string :=
  ["# HELP " +:+ metric +:+ " " +:+ help; "# TYPE " +:+ name +:+ " " +:+ kind].

Definition simple_lines (name help kind : string) (ls : list Label) (v : Z) : list string :=
  header_lines name name help kind ++ [sample_line name (RenderLabels ls) (pretty v)].

Definition Counter_lines (c : Counter) : list string :=
  simple_lines (ct_name c) (ct_help c) "counter" (ct_labels c) (ct_value c).
Definition Gauge_lines (g : Gauge) : list string :=
  simple_lines (ga_name g) (ga_help g) "gauge" (ga_labels g) (ga_value g).

(** What a metric may be made of: label values are arbitrary. *)
Record metric_ok (name help : string) (ls : list Label) : Prop := {
  mk_name : name_ok name;
  mk_help : no_newline help = true;
  mk_labels : labels_ok ls }.

(** [ls] reads as [ss]. *)
Definition reads (ls : list string) (ss : list Sample) : Prop :=
  Forall (fun l => no_newline l = true) ls /\ mapM parse_sample (List.filter is_sample_line ls) = Some ss.

Lemma no_newline_app a b : no_newline (a +:+ b) = no_newline a && no_newline b.
Proof. apply string_all_app. Qed.

Lemma name_no_newline s : string_all is_name_char s = true -> no_newline s = true.
Proof.
  apply string_all_impl. intros c. unfold is_not. destruct (Ascii.eqb_spec c newline) as [->|]; [|done].
  by vm_compute.
Qed.

Lemma labels_no_newline ls : labels_ok ls -> no_newline (label_tail ls) = true.
Proof.
  assert (Hone : forall l, name_ok (lb_key l) -> no_newline (render_label l) = true).
  { intros l [_ Hk]. unfold render_label. rewrite no_newline_app, (name_no_newline _ Hk).
    change (no_newline (String "=" (String dquote ?s))) with (no_newline s).
    cbn [no_newline string_all].
    change (no_newline (escape (lb_value l) +:+ String dquote "") = true).
    by rewrite no_newline_app, escape_no_newline. }
  intros H. induction H as [|l [|l' ls] Hl Hls IH]; [done| |].
  - unfold label_tail. cbn [fmap list_fmap string_join]. by rewrite no_newline_app, Hone.
  - rewrite label_tail_cons, no_newline_app, Hone by done. exact IH.
Qed.

Lemma render_labels_no_newline ls : labels_ok ls -> no_newline (RenderLabels ls) = true.
Proof. intros H. destruct ls as [|l ls]; [done|]. exact (labels_no_newline _ H). Qed.

(** A number prints as digits, after a sign. *)
Lemma pretty_N_go_all P n s :
  (forall d, P (pretty_N_char d) = true) -> string_all P s = true -> string_all P (pretty_N_go n s) = true.
Proof.
  intros HP. revert s. induction (N.lt_wf_0 n) as [n _ IH]; intros s Hs.
  destruct (decide (n = 0)%N) as [->|Hn]; [by rewrite pretty_N_go_0|].
  rewrite pretty_N_go_step by lia. apply IH; [apply N.div_lt; lia|]. cbn [string_all]. by rewrite Hs, HP.
Qed.

Lemma pretty_all P (z : Z) :
  (forall d, P (pretty_N_char d) = true) -> P "-"%char = true -> string_all P (pretty z) = true.
Proof.
  intros HP Hm. assert (HN : forall n : N, string_all P (pretty n) = true).
  { intros n. unfold pretty, pretty_N. case_decide; [cbn; by rewrite (HP 0%N : P "0"%char = true)|].
    by apply pretty_N_go_all. }
  destruct z as [|p|p]; [exact (HN 0%N)|apply HN|]. change (string_all P ("-" +:+ pretty (N.pos p)) = true).
  rewrite string_all_app, HN. cbn. by rewrite Hm.
Qed.

Lemma pretty_no_newline (z : Z) : no_newline (pretty z) = true.
Proof. apply pretty_all; [|done]. intros d. unfold pretty_N_char. by repeat case_match. Qed.

Lemma pretty_plain (z : Z) : plain (pretty z) = true.
Proof. apply pretty_all; [|done]. intros d. unfold pretty_N_char. by repeat case_match. Qed.

Lemma lines_app a b : lines (a ++ b) = lines a +:+ lines b.
Proof. induction a as [|l a IH]; [done|]. cbn [lines app]. rewrite IH. by rewrite !string_app_assoc. Qed.

Lemma split_on_lines ls :
  Forall (fun l => no_newline l = true) ls -> split_on newline (lines ls) = (ls ++ [""])%list.
Proof.
  induction 1 as [|l ls Hl _ IH]; [done|]. cbn [lines]. unfold nl. sapp.
  rewrite split_on_app by done. cbn [app]. by f_equal.
Qed.

Lemma reads_app a b sa sb : reads a sa -> reads b sb -> reads (a ++ b) (sa ++ sb).
Proof.
  intros [Ha1 Ha2] [Hb1 Hb2]. split; [by apply Forall_app|]. rewrite List.filter_app.
  clear Ha1 Hb1. revert sa Ha2. induction (List.filter is_sample_line a) as [|l ls IH]; cbn; intros sa Ha.
  - by injection Ha as <-.
  - destruct (parse_sample l) as [s|]; [|done]. cbn in *. destruct (mapM parse_sample ls) as [ss|]; [|done].
    injection Ha as <-. by rewrite (IH ss eq_refl).
Qed.

Lemma reads_nil : reads [] [].
Proof. done. Qed.

Lemma reads_concat {A} (f : A -> list string) (g : A -> list Sample) xs :
  Forall (fun x => reads (f x) (g x)) xs -> reads (concat (f <$> xs)) (concat (g <$> xs)).
Proof. induction 1; cbn; [apply reads_nil|by apply reads_app]. Qed.

Lemma reads_header metric name help kind :
  no_newline metric = true -> no_newline name = true -> no_newline help = true -> no_newline kind = true ->
  reads (header_lines metric name help kind) [].
Proof.
  intros Hm Hn Hh Hk. split; [|done].
  repeat constructor; rewrite !no_newline_app, ?Hm, ?Hn, ?Hh, ?Hk; done.
Qed.

Lemma reads_sample name ls v :
  name_ok name -> labels_ok ls -> no_newline v = true ->
  reads [sample_line name (RenderLabels ls) v] [mkSample name ls v].
Proof.
  intros Hn Hls Hv. split.
  - constructor; [|done]. unfold sample_line. rewrite !no_newline_app, Hv.
    by rewrite (name_no_newline _ (proj2 Hn)), render_labels_no_newline.
  - cbn [List.filter]. assert (is_sample_line (sample_line name (RenderLabels ls) v) = true) as ->.
    { destruct Hn as [Hne Hn]. destruct name as [|c name]; [done|]. unfold is_sample_line, sample_line.
      cbn in Hn. apply andb_prop in Hn as [Hc _]. sapp. cbn [string_empty string_starts_with negb andb].
      destruct (Ascii.eqb_spec "#" c) as [<-|]; [by vm_compute in Hc|done]. }
    cbn [mapM]. by rewrite parse_sample_line.
Qed.

(** ** What a scraper reads *)

Definition Counter_ok (c : Counter) : Prop := metric_ok (ct_name c) (ct_help c) (ct_labels c).
Definition Gauge_ok (g : Gauge) : Prop := metric_ok (ga_name g) (ga_help g) (ga_labels g).
Definition Counter_sample (c : Counter) : Sample := mkSample (ct_name c) (ct_labels c) (pretty (ct_value c)).
Definition Gauge_sample (g : Gauge) : Sample := mkSample (ga_name g) (ga_labels g) (pretty (ga_value g)).

Lemma simple_reads name help kind ls v :
  metric_ok name help ls -> no_newline kind = true ->
  reads (simple_lines name help kind ls v) [mkSample name ls (pretty v)].
Proof.
  intros [Hn Hh Hl] Hk. unfold simple_lines. rewrite <- (app_nil_l [mkSample _ _ _]). apply reads_app.
  - pose proof (name_no_newline _ (proj2 Hn)). by apply reads_header.
  - apply reads_sample; [done..|apply pretty_no_newline].
Qed.

Section scrape.
Context {D : Type} `{Observation D}.
(** A stream prints a [double] with digits, signs, a point and an exponent. *)
Hypothesis show_bound_plain : forall b, plain (show_bound b) = true.
Hypothesis show_sum_no_newline : forall z, no_newline (show_sum z) = true.

Definition Histogram_ok (h : Histogram (D := D)) : Prop :=
  metric_ok (hi_name h) (hi_help h) (hi_labels h) /\ length (bucket_counts_ h) = S (length (bounds_ h)).

Definition bucket_sample (h : Histogram (D := D)) (le : string) (n : Z) : Sample :=
  mkSample (hi_name h +:+ "_bucket") (mkLabel "le" le :: hi_labels h) (pretty n).

Definition Histogram_samples (h : Histogram (D := D)) : list Sample :=
  (zip_with (bucket_sample h) ((show_bound <$> bounds_ h) ++ ["+Inf"]) (bucket_counts_ h) ++
   [mkSample (hi_name h +:+ "_sum") (hi_labels h) (show_sum (sum_ns_ h));
    mkSample (hi_name h +:+ "_count") (hi_labels h) (pretty (count_ h))])%list.

Definition Histogram_all_lines (h : Histogram (D := D)) : list string :=
  (header_lines (hi_name h +:+ "_bucket") (hi_name h) (hi_help h) "histogram" ++ Histogram_lines h)%list.

(** What the registry holds, in the order of the text. *)
Definition Registry_samples (r : Registry D) : list Sample :=
  ((Counter_sample <$> counters_ r) ++ (Gauge_sample <$> gauges_ r) ++
   concat (Histogram_samples <$> histograms_ r))%list.

Definition Registry_lines (r : Registry D) : list string :=
  (concat (Counter_lines <$> counters_ r) ++ concat (Gauge_lines <$> gauges_ r) ++
   concat (Histogram_all_lines <$> histograms_ r))%list.

Definition Registry_ok (r : Registry D) : Prop :=
  Forall Counter_ok (counters_ r) /\ Forall Gauge_ok (gauges_ r) /\ Forall Histogram_ok (histograms_ r).

Lemma name_ok_suffix name suffix :
  name_ok name -> string_all is_name_char suffix = true -> name_ok (name +:+ suffix).
Proof.
  intros [Hne Hn] Hs. split; [by destruct name|]. by rewrite string_all_app, Hn.
Qed.

Lemma buckets_read h les ns :
  name_ok (hi_name h) -> labels_ok (hi_labels h) -> Forall (fun le => plain le = true) les ->
  reads (zip_with (bucket_line h) les ns) (zip_with (bucket_sample h) les ns).
Proof.
  intros Hn Hl Hles. revert ns. induction Hles as [|le les Hle _ IH]; intros [|n ns]; [done..|]. cbn [zip_with].
  apply (reads_app [_] _ [_]); [|apply IH]. unfold bucket_line, bucket_sample. rewrite bucket_labels_render by done.
  apply reads_sample; [by apply name_ok_suffix| |apply pretty_no_newline].
  constructor; [split; [done|by vm_compute]|done].
Qed.

Lemma Histogram_reads h : Histogram_ok h -> reads (Histogram_all_lines h) (Histogram_samples h).
Proof.
  intros [[Hn Hh Hl] _]. unfold Histogram_all_lines. rewrite <- (app_nil_l (Histogram_samples h)).
  pose proof (name_no_newline _ (proj2 Hn)) as Hnn.
  apply reads_app; [apply reads_header; rewrite ?no_newline_app, ?Hnn; done|].
  unfold Histogram_lines, Histogram_samples. apply reads_app.
  - apply buckets_read; [done..|]. apply Forall_app. split; [|by repeat constructor].
    apply Forall_fmap, Forall_true. exact show_bound_plain.
  - apply (reads_app [_] [_] [_] [_]); (apply reads_sample; [by apply name_ok_suffix|done|]);
      [apply show_sum_no_newline|apply pretty_no_newline].
Qed.

Lemma Registry_reads r : Registry_ok r -> reads (Registry_lines r) (Registry_samples r).
Proof.
  intros (Hc & Hg & Hh). unfold Registry_lines, Registry_samples.
  assert (Hone : forall A (f : A -> Sample) xs, f <$> xs = concat ((fun x => [f x]) <$> xs)).
  { intros A f xs. induction xs as [|x xs IH]; [done|]. cbn. by rewrite <- IH. }
  rewrite (Hone _ Counter_sample), (Hone _ Gauge_sample).
  repeat apply reads_app; apply reads_concat; eapply Forall_impl; try eassumption.
  - intros c Hok. by apply simple_reads.
  - intros g Hok. by apply simple_reads.
  - intros h Hok. by apply Histogram_reads.
Qed.

Lemma lines_header metric name help kind rest :
  lines (header_lines metric name help kind ++ rest)%list =
  "# HELP " +:+ metric +:+ " " +:+ help +:+ nl +:+ "# TYPE " +:+ name +:+ " " +:+ kind +:+ nl +:+ lines rest.
Proof. rewrite lines_app. unfold header_lines. cbn [lines]. by rewrite <- !string_app_assoc. Qed.

Lemma concat_lines {A} (f : A -> string) (g : A -> list string) xs rest :
  (forall x, f x = lines (g x)) ->
  String.concat "" ((f <$> xs) ++ rest)%list = lines (concat (g <$> xs)) +:+ String.concat "" rest.
Proof.
  intros Hf. induction xs as [|x xs IH]; [done|]. cbn [fmap list_fmap concat app].
  rewrite lines_app, <- string_app_assoc, <- IH, <- Hf. cbn [String.concat].
  destruct ((f <$> xs) ++ rest)%list as [|y ys]; [|done]. cbn. by rewrite string_app_nil_r.
Qed.

Lemma Registry_Render_lines r : Registry_Render r = lines (Registry_lines r).
Proof.
  unfold Registry_Render, Registry_lines.
  rewrite (concat_lines _ Counter_lines), (concat_lines _ Gauge_lines).
  - rewrite <- (app_nil_r (Histogram_Render <$> _)), (concat_lines _ Histogram_all_lines).
    + rewrite !lines_app. cbn [String.concat]. by rewrite string_app_nil_r.
    + intros h. unfold Histogram_Render, Histogram_all_lines. rewrite lines_header. by rewrite <- ?string_app_assoc.
  - intros g. unfold Gauge_Render, Gauge_lines, simple_lines, header. rewrite lines_header.
    cbn [lines]. rewrite <- ?string_app_assoc. by rewrite string_app_nil_r.
  - intros c. unfold Counter_Render, Counter_lines, simple_lines, header. rewrite lines_header.
    cbn [lines]. rewrite <- ?string_app_assoc. by rewrite string_app_nil_r.
Qed.

(** The text of a registry reads back as what the registry holds. *)
Lemma parse_Registry_Render r : Registry_ok r -> parse_exposition (Registry_Render r) = Some (Registry_samples r).
Proof.
  intros Hok. destruct (Registry_reads _ Hok) as [Hl Hr]. unfold parse_exposition.
  rewrite Registry_Render_lines, split_on_lines, List.filter_app by done. cbn. by rewrite app_nil_r.
Qed.
End scrape.

(** ** Objects found by key in a growing list *)

Section keyed.
Context {K A : Type} `{EqDecision K}.
Implicit Types (refs : K -> option nat) (xs : list A).

Definition keyed_get refs xs (k : K) : option A := refs k ≫= fun i => xs !! i.

(** Each key has its own object. *)
Definition keyed_inv refs xs : Prop :=
  (forall k i, refs k = Some i -> (i < length xs)%nat) /\
  (forall k k' i, refs k = Some i -> refs k' = Some i -> k = k').

(** [f] on the object of [k], created as [new] when there is none. *)
Definition touched refs xs (k : K) (new : A) (f : A -> A) refs' xs' : Prop :=
  (exists i, refs k = Some i /\ (forall k', refs' k' = refs k') /\ xs' = alter f i xs) \/
  (refs k = None /\ (forall k', refs' k' = if decide (k' = k) then Some (length xs) else refs k') /\
   xs' = alter f (length xs) (xs ++ [new])%list).

Lemma touched_inv refs xs k new f refs' xs' :
  keyed_inv refs xs -> touched refs xs k new f refs' xs' -> keyed_inv refs' xs'.
Proof.
  intros [Hlt Hinj] [(i & Hi & Href & ->)|(Hk & Href & ->)]; split.
  - intros k' j. rewrite Href, length_alter. apply Hlt.
  - intros k' k'' j. rewrite !Href. apply Hinj.
  - intros k' j. rewrite Href, length_alter, length_app. cbn. case_decide; [intros [= <-]; lia|].
    intros Hj. apply Hlt in Hj. lia.
  - intros k' k'' j. rewrite !Href. repeat case_decide; subst; intros H1 H2; try congruence.
    + injection H1 as <-. apply Hlt in H2. lia.
    + injection H2 as <-. apply Hlt in H1. lia.
    + eauto.
Qed.

(** Every object has a key, and its keys are those of [Q]. *)
Definition keyed_onto (Q : K -> Prop) refs xs : Prop :=
  forall i, (i < length xs)%nat -> exists k, refs k = Some i /\ Q k.

Lemma touched_onto (Q Q' : K -> Prop) refs xs k new f refs' xs' :
  keyed_onto Q refs xs -> (forall k', Q k' -> Q' k') -> Q' k -> touched refs xs k new f refs' xs' ->
  keyed_onto Q' refs' xs'.
Proof.
  intros Hon HQ Hk [(i & Hi & Href & ->)|(Hnone & Href & ->)] j.
  - rewrite length_alter. intros Hj. destruct (Hon j Hj) as (k' & Hk' & HQk). exists k'. rewrite Href. auto.
  - rewrite length_alter, length_app. cbn. intros Hj. destruct (decide (j = length xs)) as [->|Hne].
    + exists k. rewrite Href. by rewrite decide_True.
    + destruct (Hon j ltac:(lia)) as (k' & Hk' & HQk). exists k'. rewrite Href, decide_False; [auto|]. congruence.
Qed.

Lemma touched_get refs xs k new f refs' xs' k' :
  keyed_inv refs xs -> touched refs xs k new f refs' xs' ->
  keyed_get refs' xs' k' =
  if decide (k' = k) then Some (f (default new (keyed_get refs xs k))) else keyed_get refs xs k'.
Proof.
  intros [Hlt Hinj] [(i & Hi & Href & ->)|(Hk & Href & ->)]; unfold keyed_get; rewrite Href.
  - case_decide as Hd; [subst|].
    + rewrite Hi. cbn. rewrite list_lookup_alter_eq.
      destruct (lookup_lt_is_Some_2 xs i (Hlt _ _ Hi)) as [x ->]. done.
    + destruct (refs k') as [j|] eqn:Hj; [|done]. cbn. rewrite list_lookup_alter_ne; [done|].
      intros ->. by apply Hd, (Hinj _ _ j).
  - case_decide as Hd; [subst|].
    + rewrite Hk. cbn. rewrite list_lookup_alter_eq. by rewrite list_lookup_middle.
    + destruct (refs k') as [j|] eqn:Hj; [|done]. cbn. pose proof (Hlt _ _ Hj).
      rewrite list_lookup_alter_ne by lia. by apply lookup_app_l.
Qed.
End keyed.

(** ** What was recorded is what is read *)

Section recorded.
Context {D : Type} `{Observation D} (kDefaultLatencyBuckets : list D).

(** The calls into the two recording methods. *)
Inductive rpc_op :=
  | OpRecord (rpc : string) (code : StatusCode) (latency : D)
  | OpAuthz (rpc outcome : string).

Definition apply_op (m : RpcMetrics (D := D)) (op : rpc_op) : RpcMetrics :=
  match op with
  | OpRecord rpc code latency => Record_ kDefaultLatencyBuckets rpc code latency m
  | OpAuthz rpc outcome => RecordAuthz rpc outcome m
  end.

Definition apply_ops (m : RpcMetrics) (ops : list rpc_op) : RpcMetrics := foldl apply_op m ops.

Definition is_call (rpc : string) (code : StatusCode) (op : rpc_op) : bool :=
  match op with OpRecord r c _ => bool_decide (r = rpc /\ c = code) | OpAuthz _ _ => false end.
Definition is_latency (rpc : string) (P : D -> bool) (op : rpc_op) : bool :=
  match op with OpRecord r _ l => bool_decide (r = rpc) && P l | OpAuthz _ _ => false end.

(** How many of [ops], as a 64-bit counter counts. *)
Definition count64 (P : rpc_op -> bool) (ops : list rpc_op) : Z := zlen (List.filter P ops) mod 2 ^ 64.

(** The registry's counters, by the two maps of [RpcMetrics]. *)
Definition ctr_refs (m : RpcMetrics (D := D)) (k : bool * string) : option nat :=
  if k.1 then call_counters_ m !! k.2 else authz_counters_ m !! k.2.
Definition hist_refs (m : RpcMetrics (D := D)) (k : string) : option nat := latency_hists_ m !! k.

Definition call_key (rpc : string) (code : StatusCode) : bool * string :=
  (true, rpc +:+ "/" +:+ StatusCodeToString code).

Definition ctr_get (m : RpcMetrics (D := D)) k := keyed_get (ctr_refs m) (counters_ (rm_registry m)) k.
Definition hist_get (m : RpcMetrics (D := D)) k := keyed_get (hist_refs m) (histograms_ (rm_registry m)) k.

Definition metrics_inv (m : RpcMetrics (D := D)) : Prop :=
  keyed_inv (ctr_refs m) (counters_ (rm_registry m)) /\ keyed_inv (hist_refs m) (histograms_ (rm_registry m)).

Definition new_call_counter (rpc : string) (code : StatusCode) : Counter :=
  mkCounter "osw_rpc_calls_total" "Total gRPC RPC calls by method and status code"
    (call_labels rpc (StatusCodeToString code)) 0.
Definition new_authz_counter (rpc outcome : string) : Counter :=
  mkCounter "osw_rpc_authz_decisions_total" "Total gRPC authz decisions by RPC and outcome"
    [mkLabel "rpc" rpc; mkLabel "outcome" outcome] 0.
Definition new_latency (rpc : string) : Histogram :=
  Histogram_new "osw_rpc_latency_seconds" "gRPC RPC latency in seconds" [mkLabel "rpc" rpc] kDefaultLatencyBuckets.

(** A new key is a new slot of the list. *)
Lemma insert_refs (mp : gmap string nat) key n (k' : string) :
  (<[key := n]> mp : gmap string nat) !! k' = if decide (k' = key) then Some n else mp !! k'.
Proof. case_decide; subst; [by rewrite lookup_insert_eq|by rewrite lookup_insert_ne]. Qed.

Lemma Record_touches rpc code l m :
  let m' := Record_ kDefaultLatencyBuckets rpc code l m in
  touched (ctr_refs m) (counters_ (rm_registry m)) (call_key rpc code) (new_call_counter rpc code) (Counter_Inc 1)
    (ctr_refs m') (counters_ (rm_registry m')) /\
  touched (hist_refs m) (histograms_ (rm_registry m)) rpc (new_latency rpc) (Observe l)
    (hist_refs m') (histograms_ (rm_registry m')) /\
  gauges_ (rm_registry m') = gauges_ (rm_registry m).
Proof.
  unfold Record_, GetOrCreateCallCounter, GetOrCreateLatencyHistogram.
  destruct (call_counters_ m !! (rpc +:+ "/" +:+ StatusCodeToString code)) as [i|] eqn:Hi; cbn;
    destruct (latency_hists_ m !! rpc) as [j|] eqn:Hj; cbn; (split; [|split; [|done]]);
    first [by left; eexists | right; split; [done|]; split; [|done]];
    intros k; unfold ctr_refs, hist_refs; cbn; rewrite ?insert_refs; try done;
    destruct k as [[] k]; cbn; rewrite ?insert_refs; unfold call_key in *; repeat case_decide; simplify_eq; done.
Qed.

Lemma RecordAuthz_touches rpc outcome m :
  let m' := RecordAuthz rpc outcome m in
  touched (ctr_refs m) (counters_ (rm_registry m)) (false, rpc +:+ "/" +:+ outcome) (new_authz_counter rpc outcome)
    (Counter_Inc 1) (ctr_refs m') (counters_ (rm_registry m')) /\
  hist_refs m' = hist_refs m /\ histograms_ (rm_registry m') = histograms_ (rm_registry m) /\
  gauges_ (rm_registry m') = gauges_ (rm_registry m).
Proof.
  unfold RecordAuthz, GetOrCreateAuthzCounter.
  destruct (authz_counters_ m !! (rpc +:+ "/" +:+ outcome)) as [i|] eqn:Hi; cbn; (split; [|done]).
  - by left; eexists.
  - right; split; [done|]; split; [|done]. intros [[] k]; unfold ctr_refs; cbn; [by case_decide|].
    rewrite insert_refs. repeat case_decide; simplify_eq; done.
Qed.

(** The key of a call tells the method from the code: no code's name has a slash. *)
Lemma slash_inj a b x y :
  string_all (is_not "/") x = true -> string_all (is_not "/") y = true ->
  a +:+ String "/" x = b +:+ String "/" y -> a = b /\ x = y.
Proof.
  assert (Hend : forall c t z, string_all (is_not "/") z = true -> z <> c +:+ String "/" t).
  { intros c t z Hz ->. rewrite string_all_app in Hz. cbn in Hz. by rewrite andb_false_r in Hz. }
  intros Hx Hy. revert b. induction a as [|c a IH]; intros [|d b]; sapp.
  - by intros [= ->].
  - intros [= <- E]. by apply Hend in E.
  - intros [= -> E]. symmetry in E. by apply Hend in E.
  - intros [= -> E]. by destruct (IH _ E) as [-> ->].
Qed.

Lemma call_key_inj rpc code rpc' code' : call_key rpc code = call_key rpc' code' -> rpc = rpc' /\ code = code'.
Proof.
  unfold call_key. sapp. intros [= E]. apply slash_inj in E as [-> E]; [|by destruct code|by destruct code'].
  split; [done|]. by destruct code, code'.
Qed.

Lemma RecordAuthz_inv rpc outcome m : metrics_inv m -> metrics_inv (RecordAuthz rpc outcome m).
Proof.
  intros [Hc Hh]. destruct (RecordAuthz_touches rpc outcome m) as (Tc & Eh & El & _).
  split; [by eapply touched_inv|]. by rewrite Eh, El.
Qed.

Lemma Record_inv rpc code l m : metrics_inv m -> metrics_inv (Record_ kDefaultLatencyBuckets rpc code l m).
Proof. intros [Hc Hh]. destruct (Record_touches rpc code l m) as (Tc & Th & _). split; by eapply touched_inv. Qed.

Lemma apply_ops_snoc m ops op : apply_ops m (ops ++ [op])%list = apply_op (apply_ops m ops) op.
Proof. unfold apply_ops. by rewrite foldl_app. Qed.

Lemma apply_ops_inv r ops : metrics_inv (apply_ops (RpcMetrics_new r) ops).
Proof.
  induction ops as [|op ops IH] using rev_ind.
  - split; split; intros ?; intros; unfold ctr_refs, hist_refs in *; repeat case_match; done.
  - rewrite apply_ops_snoc. destruct op; [by apply Record_inv|by apply RecordAuthz_inv].
Qed.

Lemma count64_app P ops op : count64 P (ops ++ [op])%list = if P op then u64 (count64 P ops + 1) else count64 P ops.
Proof.
  unfold count64, u64. rewrite List.filter_app. cbn [List.filter]. destruct (P op); [|by rewrite app_nil_r].
  rewrite Zplus_mod_idemp_l. f_equal. rewrite length_app. cbn [length]. lia.
Qed.

Lemma count64_none P ops : existsb P ops = false -> count64 P ops = 0.
Proof.
  intros HP. unfold count64. assert (List.filter P ops = []) as ->; [|done].
  induction ops as [|op ops IH]; [done|]. cbn in *. by destruct (P op); [|apply IH].
Qed.

(** The counter of a method and a code. *)
Definition call_counter (rpc : string) (code : StatusCode) (ops : list rpc_op) : option Counter :=
  if existsb (is_call rpc code) ops
  then Some (mkCounter "osw_rpc_calls_total" "Total gRPC RPC calls by method and status code"
               (call_labels rpc (StatusCodeToString code)) (count64 (is_call rpc code) ops))
  else None.

Definition latency_ns (rpc : string) (op : rpc_op) : Z :=
  match op with OpRecord r _ l => if bool_decide (r = rpc) then to_ns l else 0 | OpAuthz _ _ => 0 end.

Definition total_ns (rpc : string) (ops : list rpc_op) : Z := foldl (fun s op => s + latency_ns rpc op) 0 ops.

(** The latency histogram of a method: what each bucket counts. *)
Definition latency_histogram (rpc : string) (ops : list rpc_op) : option Histogram :=
  if existsb (is_latency rpc (fun _ => true)) ops
  then Some (mkHistogram "osw_rpc_latency_seconds" "gRPC RPC latency in seconds" [mkLabel "rpc" rpc]
               kDefaultLatencyBuckets
               (((fun b => count64 (is_latency rpc (fun l => dle l b)) ops) <$> kDefaultLatencyBuckets) ++
                [count64 (is_latency rpc (fun _ => true)) ops])%list
               (count64 (is_latency rpc (fun _ => true)) ops)
               (u64 (total_ns rpc ops)))
  else None.

Lemma calls_counted r ops rpc code :
  ctr_get (apply_ops (RpcMetrics_new r) ops) (call_key rpc code) = call_counter rpc code ops.
Proof.
  induction ops as [|op ops IH] using rev_ind; [done|].
  pose proof (apply_ops_inv r ops) as [Hc _]. rewrite apply_ops_snoc. unfold ctr_get in *.
  unfold call_counter in *. rewrite existsb_app, count64_app. cbn [existsb]. rewrite orb_false_r.
  destruct op as [rpc' code' l|rpc' outcome].
  - destruct (Record_touches rpc' code' l (apply_ops (RpcMetrics_new r) ops)) as (Tc & _).
    cbn [apply_op is_call]. rewrite (touched_get _ _ _ _ _ _ _ _ Hc Tc).
    case_decide as Hk.
    + apply call_key_inj in Hk as [-> ->]. rewrite IH. rewrite bool_decide_true, orb_true_r by done.
      destruct (existsb _ _) eqn:E; [done|]. cbn. by rewrite (count64_none _ _ E).
    + rewrite IH, bool_decide_false, orb_false_r; [done|]. intros [-> ->]. done.
  - destruct (RecordAuthz_touches rpc' outcome (apply_ops (RpcMetrics_new r) ops)) as (Tc & _).
    cbn [apply_op is_call]. rewrite (touched_get _ _ _ _ _ _ _ _ Hc Tc), IH, orb_false_r.
    by rewrite decide_False by done.
Qed.

Lemma observe_buckets_fmap v (f : D -> Z) bounds n :
  observe_buckets v bounds ((f <$> bounds) ++ [n])%list =
  (((fun b => if dle v b then f b +u64 1 else f b) <$> bounds) ++ [n +u64 1])%list.
Proof. induction bounds as [|b bounds IH]; [done|]. cbn. by rewrite IH. Qed.

Lemma existsb_latency rpc ops b :
  existsb (is_latency rpc (fun _ => true)) ops = false -> existsb (is_latency rpc (fun l => dle l b)) ops = false.
Proof.
  induction ops as [|[rpc' code l|rpc' outcome] ops IH]; [done| |done]. cbn. case_bool_decide; done.
Qed.

Lemma sum_none rpc ops :
  existsb (is_latency rpc (fun _ => true)) ops = false -> total_ns rpc ops = 0.
Proof.
  unfold total_ns.
  induction ops as [|[rpc' code l|rpc' outcome] ops IH]; [done| |done]. cbn. case_bool_decide; done.
Qed.

(** One more latency of the method is observed. *)
Lemma latency_histogram_observe rpc code l ops :
  latency_histogram rpc (ops ++ [OpRecord rpc code l])%list =
  Some (Observe l (default (new_latency rpc) (latency_histogram rpc ops))).
Proof.
  assert (Hop : forall P, is_latency rpc P (OpRecord rpc code l) = P l).
  { intros P. cbn. by rewrite bool_decide_true. }
  unfold latency_histogram, total_ns. rewrite existsb_app, !count64_app, foldl_app. cbn [existsb foldl].
  rewrite !Hop, orb_true_r. fold (total_ns rpc ops).
  assert (latency_ns rpc (OpRecord rpc code l) = to_ns l) as -> by (cbn; by rewrite bool_decide_true).
  f_equal. unfold Observe.
  destruct (existsb _ ops) eqn:E; cbn [default from_option id new_latency Histogram_new hi_name hi_help hi_labels
    bounds_ bucket_counts_ count_ sum_ns_].
  - rewrite observe_buckets_fmap, u64_add_l. do 2 f_equal. apply list_fmap_ext. intros i b _.
    by rewrite count64_app, Hop.
  - assert (replicate (S (length kDefaultLatencyBuckets)) 0 =
            (((fun _ => 0) <$> kDefaultLatencyBuckets) ++ [0])%list) as Hz.
    { clear. induction kDefaultLatencyBuckets as [|b bs IHb]; [done|]. cbn. f_equal. exact IHb. }
    rewrite Hz, observe_buckets_fmap, (count64_none _ _ E), (sum_none _ _ E). do 2 f_equal.
    apply list_fmap_ext. intros i b _. by rewrite count64_app, Hop, (count64_none _ _ (existsb_latency _ _ b E)).
Qed.

(** Nothing else changes it. *)
Lemma latency_histogram_other rpc op ops :
  is_latency rpc (fun _ => true) op = false ->
  latency_histogram rpc (ops ++ [op])%list = latency_histogram rpc ops.
Proof.
  intros Hop. assert (Hall : forall P, is_latency rpc P op = false).
  { intros P. destruct op as [rpc' code l|]; [|done]. cbn in *. by case_bool_decide. }
  assert (Hns : latency_ns rpc op = 0).
  { destruct op as [rpc' code l|]; [|done]. cbn in *. by case_bool_decide. }
  unfold latency_histogram, total_ns. rewrite existsb_app, !count64_app, foldl_app. cbn [existsb foldl].
  rewrite !Hall, orb_false_r, Hns, Z.add_0_r. destruct (existsb _ ops); [|done]. do 3 f_equal.
  apply list_fmap_ext. intros i b _. by rewrite count64_app, Hall.
Qed.

Lemma latencies_counted r ops rpc :
  hist_get (apply_ops (RpcMetrics_new r) ops) rpc = latency_histogram rpc ops.
Proof.
  induction ops as [|op ops IH] using rev_ind; [done|].
  pose proof (apply_ops_inv r ops) as [_ Hh]. rewrite apply_ops_snoc. unfold hist_get in *.
  destruct op as [rpc' code' l|rpc' outcome]; cbn [apply_op].
  - destruct (Record_touches rpc' code' l (apply_ops (RpcMetrics_new r) ops)) as (_ & Th & _).
    rewrite (touched_get _ _ _ _ _ _ _ _ Hh Th). case_decide as Hk.
    + subst rpc'. by rewrite IH, latency_histogram_observe.
    + rewrite IH, latency_histogram_other; [done|]. cbn. by rewrite bool_decide_false.
  - destruct (RecordAuthz_touches rpc' outcome (apply_ops (RpcMetrics_new r) ops)) as (_ & -> & -> & _).
    by rewrite IH, latency_histogram_other.
Qed.

(** ** Everything recorded can be scraped *)

Lemma touched_Forall {K A : Type} `{EqDecision K} (P : A -> Prop) (refs : K -> option nat) xs k new f refs' xs' :
  touched refs xs k new f refs' xs' -> P new -> (forall x, P x -> P (f x)) -> Forall P xs -> Forall P xs'.
Proof.
  intros Ht Hnew Hf Hxs.
  destruct Ht as [(i & _ & _ & ->)|(_ & _ & ->)]; apply Forall_alter; auto. apply Forall_app. auto.
Qed.

Lemma observe_buckets_length v bounds counts : length (observe_buckets v bounds counts) = length counts.
Proof.
  revert counts. induction bounds as [|b bounds IH]; intros [|n counts]; [done|by destruct counts|done|].
  cbn. f_equal. apply IH.
Qed.

Lemma Observe_ok l h : Histogram_ok h -> Histogram_ok (Observe l h).
Proof. intros [Hm Hl]. split; [done|]. cbn. by rewrite observe_buckets_length. Qed.

Ltac name := split; [done|by vm_compute].

Lemma new_counter_ok name help rest v w :
  name_ok name -> no_newline help = true -> name_ok rest ->
  metric_ok name help [mkLabel "rpc" v; mkLabel rest w].
Proof. intros Hn Hh Hr. split; [done..|]. constructor; [name|by constructor]. Qed.

Lemma apply_op_ok m op : Registry_ok (rm_registry m) -> Registry_ok (rm_registry (apply_op m op)).
Proof.
  intros (Hc & Hg & Hh). destruct op as [rpc code l|rpc outcome]; cbn [apply_op].
  - destruct (Record_touches rpc code l m) as (Tc & Th & Eg). split; [|split].
    + eapply touched_Forall; [exact Tc| |done|done]. apply new_counter_ok; first [done | name].
    + by rewrite Eg.
    + eapply touched_Forall; [exact Th| |apply Observe_ok|done]. split; [|cbn; by rewrite length_replicate].
      split; [name|done|]. constructor; [name|constructor].
  - destruct (RecordAuthz_touches rpc outcome m) as (Tc & _ & Eh & Eg). split; [|split; [by rewrite Eg|by rewrite Eh]].
    eapply touched_Forall; [exact Tc| |done|done]. apply new_counter_ok; first [done | name].
Qed.

Lemma apply_ops_ok m ops : Registry_ok (rm_registry m) -> Registry_ok (rm_registry (apply_ops m ops)).
Proof.
  intros Hm. induction ops as [|op ops IH] using rev_ind; [done|]. rewrite apply_ops_snoc. by apply apply_op_ok.
Qed.

Lemma apply_ops_gauges m ops : gauges_ (rm_registry (apply_ops m ops)) = gauges_ (rm_registry m).
Proof.
  induction ops as [|op ops IH] using rev_ind; [done|]. rewrite apply_ops_snoc, <- IH.
  destruct op as [rpc code l|rpc outcome].
  - by destruct (Record_touches rpc code l (apply_ops m ops)) as (_ & _ & Eg).
  - by destruct (RecordAuthz_touches rpc outcome (apply_ops m ops)) as (_ & _ & _ & Eg).
Qed.

(** The module's gauges after a refresh. *)
Definition health_gauges (s : HealthSnapshot) : list Sample :=
  let '(d1, d2, d3) := hs_dropped_total s in
  let drops tier v := mkSample "osw_events_tier_ring_drops_total" [mkLabel "tier" tier] (pretty (i64 v)) in
  [mkSample "osw_events_subscribers" [] (pretty (i64 (hs_subscriber_count s)));
   drops "1" d1; drops "2" d2; drops "3" d3;
   mkSample "osw_events_audit_emit_total" [] (pretty (i64 (hs_events_emitted_total s)))].

(** The registry of a loaded module, at any scrape. *)
Definition module_metrics (ops : list rpc_op) : RpcMetrics :=
  apply_ops (RpcMetrics_new (snd (HealthMetrics_new Registry_empty))) ops.
Definition module_scrape (ops : list rpc_op) (s : HealthSnapshot) : string * Registry D :=
  render_fn (fst (HealthMetrics_new (D := D) Registry_empty)) s (rm_registry (module_metrics ops)).

Lemma scrape_gauges ops s : Gauge_sample <$> gauges_ (snd (module_scrape ops s)) = health_gauges s.
Proof.
  unfold module_scrape, render_fn, Refresh, health_gauges. destruct (hs_dropped_total s) as [[d1 d2] d3].
  cbn [fst snd]. unfold on_gauge. cbn [gauges_]. unfold module_metrics. rewrite apply_ops_gauges. reflexivity.
Qed.

Lemma scrape_others ops s :
  counters_ (snd (module_scrape ops s)) = counters_ (rm_registry (module_metrics ops)) /\
  histograms_ (snd (module_scrape ops s)) = histograms_ (rm_registry (module_metrics ops)).
Proof. unfold module_scrape, render_fn, Refresh. by destruct (hs_dropped_total s) as [[d1 d2] d3]. Qed.

Lemma fresh_ok : Registry_ok (snd (HealthMetrics_new (D := D) Registry_empty)).
Proof.
  split; [constructor|split; [|constructor]]. cbn. repeat constructor; try (by vm_compute); done.
Qed.

Lemma scrape_ok ops s : Registry_ok (snd (module_scrape ops s)).
Proof.
  destruct (scrape_others ops s) as [Ec Eh].
  destruct (apply_ops_ok _ ops (fresh_ok : Registry_ok (rm_registry (RpcMetrics_new _)))) as (Hc & Hg & Hh).
  split; [by rewrite Ec|split; [|by rewrite Eh]].
  unfold module_scrape, render_fn, Refresh. destruct (hs_dropped_total s) as [[d1 d2] d3]. cbn [fst snd].
  unfold on_gauge. cbn [gauges_]. by repeat apply Forall_alter.
Qed.

Lemma keyed_get_elem {K A : Type} (refs : K -> option nat) (xs : list A) k x : keyed_get refs xs k = Some x -> x ∈ xs.
Proof. unfold keyed_get. intros (i & _ & Hi)%bind_Some. by eapply list_elem_of_lookup_2. Qed.

(** The registry holds nothing else: each counter is that of a call recorded or
    of an authorisation, each histogram a latency histogram. *)
Definition recorded_key (ops : list rpc_op) (k : bool * string) : Prop :=
  k.1 = false \/ exists rpc code, k = call_key rpc code /\ existsb (is_call rpc code) ops = true.

Lemma recorded_keys ops :
  keyed_onto (recorded_key ops) (ctr_refs (module_metrics ops)) (counters_ (rm_registry (module_metrics ops))).
Proof.
  unfold module_metrics. induction ops as [|op ops IH] using rev_ind; [intros i; cbn; lia|].
  assert (Hmono : forall k, recorded_key ops k -> recorded_key (ops ++ [op])%list k).
  { intros k [Hk|(rpc & code & -> & Hc)]; [by left|right]. exists rpc, code. by rewrite existsb_app, Hc. }
  rewrite apply_ops_snoc. destruct op as [rpc code l|rpc outcome]; cbn [apply_op].
  - eapply touched_onto; [exact IH|exact Hmono| |apply Record_touches]. right. exists rpc, code. split; [done|].
    rewrite existsb_app. cbn. rewrite bool_decide_true by done. by rewrite orb_true_r.
  - eapply touched_onto; [exact IH|exact Hmono| |apply RecordAuthz_touches]. by left.
Qed.

Lemma authz_name ops key c :
  ctr_get (module_metrics ops) (false, key) = Some c -> ct_name c = "osw_rpc_authz_decisions_total".
Proof.
  unfold module_metrics. revert c. induction ops as [|op ops IH] using rev_ind; intros c; [done|].
  pose proof (apply_ops_inv (snd (HealthMetrics_new (D := D) Registry_empty)) ops) as [Hc _].
  rewrite apply_ops_snoc. unfold ctr_get in *. destruct op as [rpc code l|rpc outcome]; cbn [apply_op].
  - rewrite (touched_get _ _ _ _ _ _ _ _ Hc (proj1 (Record_touches rpc code l _))), decide_False by done. apply IH.
  - rewrite (touched_get _ _ _ _ _ _ _ _ Hc (proj1 (RecordAuthz_touches rpc outcome _))).
    case_decide as Hk; [|apply IH]. intros [= <-]. rewrite <- Hk. cbn [Counter_Inc ct_name].
    destruct (keyed_get _ _ _) as [c0|] eqn:E; [by apply IH|done].
Qed.

Lemma latency_names ops :
  Forall (fun h => hi_name h = "osw_rpc_latency_seconds") (histograms_ (rm_registry (module_metrics ops))).
Proof.
  unfold module_metrics. induction ops as [|op ops IH] using rev_ind; [constructor|].
  rewrite apply_ops_snoc. destruct op as [rpc code l|rpc outcome]; cbn [apply_op].
  - eapply touched_Forall; [apply Record_touches|done|done|exact IH].
  - by destruct (RecordAuthz_touches rpc outcome (apply_ops (RpcMetrics_new
      (snd (HealthMetrics_new (D := D) Registry_empty))) ops)) as (_ & _ & -> & _).
Qed.

Lemma counter_is_recorded ops c :
  c ∈ counters_ (rm_registry (module_metrics ops)) -> ct_name c = "osw_rpc_calls_total" ->
  exists rpc code, existsb (is_call rpc code) ops = true /\ call_counter rpc code ops = Some c.
Proof.
  intros [i Hi]%list_elem_of_lookup_1 Hn.
  destruct (recorded_keys ops i) as ([b key] & Hk & HQ); [by eapply lookup_lt_Some|].
  assert (Hg : ctr_get (module_metrics ops) (b, key) = Some c).
  { unfold ctr_get, keyed_get. rewrite Hk. exact Hi. }
  destruct HQ as [Hb|(rpc & code & Hkey & Hc)].
  - cbn in Hb. subst b. apply authz_name in Hg. congruence.
  - exists rpc, code. split; [done|]. rewrite Hkey in Hg. unfold module_metrics in Hg. by rewrite calls_counted in Hg.
Qed.

Lemma elem_of_concat {A : Type} (x : A) (ls : list (list A)) : x ∈ concat ls <-> exists l, x ∈ l /\ l ∈ ls.
Proof. rewrite list_elem_of_In, in_concat. setoid_rewrite list_elem_of_In. naive_solver. Qed.

Lemma health_gauge_names s x : x ∈ health_gauges s -> sm_name x <> "osw_rpc_calls_total".
Proof.
  unfold health_gauges. destruct (hs_dropped_total s) as [[d1 d2] d3]. rewrite !elem_of_cons.
  intros [->|[->|[->|[->|[->|Hx]]]]]; try done. by apply not_elem_of_nil in Hx.
Qed.

Lemma latency_sample_names ops x :
  x ∈ concat (Histogram_samples <$> histograms_ (rm_registry (module_metrics ops))) ->
  sm_name x <> "osw_rpc_calls_total".
Proof.
  intros (xs & Hx & (h & -> & Hh)%list_elem_of_fmap)%elem_of_concat.
  pose proof (proj1 (Forall_forall _ _) (latency_names ops) h Hh) as Hn. unfold Histogram_samples in Hx.
  apply elem_of_app in Hx as [Hx|Hx].
  - apply list_elem_of_lookup_1 in Hx as [i Hi]. apply lookup_zip_with_Some in Hi as (le & n & -> & _).
    unfold bucket_sample. cbn. by rewrite Hn.
  - rewrite !elem_of_cons in Hx. destruct Hx as [->|[->|Hx]]; [cbn; by rewrite Hn..|by apply not_elem_of_nil in Hx].
Qed.

Section read_back.
Hypothesis show_bound_plain : forall b, plain (show_bound b) = true.
Hypothesis show_sum_no_newline : forall z, no_newline (show_sum z) = true.

(** C23. What a scraper reads is what was recorded: whatever the names of the
    methods called, the text of a scrape parses; the call counters it holds are
    exactly those of the methods and codes recorded, each with the number of such
    calls (as a 64-bit counter); for every method called it holds the buckets of
    its latencies, each counting the latencies at or below its bound, their sum
    and their count; and it holds the health gauges of the snapshot. *)
Theorem scrape_reads_recorded ops s :
  exists samples,
    parse_exposition (fst (module_scrape ops s)) = Some samples /\
    (forall x, sm_name x = "osw_rpc_calls_total" ->
       x ∈ samples <->
       exists rpc code, existsb (is_call rpc code) ops = true /\
         x = mkSample "osw_rpc_calls_total" (call_labels rpc (StatusCodeToString code))
               (pretty (count64 (is_call rpc code) ops))) /\
    (forall rpc h, latency_histogram rpc ops = Some h -> forall x, x ∈ Histogram_samples h -> x ∈ samples) /\
    (forall x, x ∈ health_gauges s -> x ∈ samples).
Proof.
  exists (Registry_samples (snd (module_scrape ops s))). destruct (scrape_others ops s) as [Ec Eh].
  split; [exact (parse_Registry_Render show_bound_plain show_sum_no_newline _ (scrape_ok ops s))|].
  unfold Registry_samples. rewrite Ec, Eh, scrape_gauges. split; [|split].
  - intros x Hx. rewrite !elem_of_app. split.
    + intros [Hin|[Hin|Hin]].
      * apply list_elem_of_fmap in Hin as (c & -> & Hin).
        destruct (counter_is_recorded ops c Hin Hx) as (rpc & code & Hc & E). exists rpc, code. split; [done|].
        unfold call_counter in E. rewrite Hc in E. by injection E as <-.
      * exfalso. revert Hin Hx. by apply health_gauge_names.
      * exfalso. revert Hin Hx. by apply latency_sample_names.
    + intros (rpc & code & Hc & ->). left. pose proof (calls_counted _ ops rpc code : ctr_get (module_metrics ops) _ = _) as E.
      unfold call_counter in E. rewrite Hc in E. apply keyed_get_elem in E.
      apply list_elem_of_fmap. eexists. split; [|exact E]. reflexivity.
  - intros rpc h Hh x Hx. rewrite <- (latencies_counted (snd (HealthMetrics_new Registry_empty))) in Hh.
    apply keyed_get_elem in Hh. do 2 (apply elem_of_app; right). apply elem_of_concat.
    exists (Histogram_samples h). split; [done|]. apply list_elem_of_fmap. by exists h.
  - intros x Hx. apply elem_of_app. right. apply elem_of_app. by left.
Qed.
End read_back.
End recorded.

(** Latencies in nanoseconds, printed as such. *)
Module Ns.
#[export] Instance ns : Observation Z :=
  {| dle := Z.leb; to_ns := fun z => z; show_bound := pretty; show_sum := pretty |}.
Definition ops : list rpc_op :=
  [OpRecord "Health" OK 3; OpRecord "a\b" UNAVAILABLE 12; OpAuthz "Health" "allow"; OpRecord "Health" OK 70].
Definition snapshot : HealthSnapshot :=
  mkHealthSnapshot HServing "1.0" "1.10" 2 1 17 4 (0, 0, 0) (5, 0, 2 ^ 63).
End Ns.

Lemma scrape_reads_recorded_witness :
  exists samples,
    parse_exposition (fst (module_scrape (H := Ns.ns) [10; 50] Ns.ops Ns.snapshot)) = Some samples /\
    mkSample "osw_rpc_calls_total" [mkLabel "rpc" "Health"; mkLabel "code" "OK"] "2" ∈ samples /\
    mkSample "osw_events_subscribers" [] "4" ∈ samples.
Proof.
  destruct (scrape_reads_recorded (H := Ns.ns) [10; 50] pretty_plain pretty_no_newline Ns.ops Ns.snapshot)
    as (samples & Hp & Hc & _ & Hg).
  exists samples. split; [exact Hp|]. split.
  - apply Hc; [reflexivity|]. exists "Health", OK. split; vm_compute; reflexivity.
  - apply Hg. vm_compute. left.
Defined.

(** The text of that scrape, read back. *)
Example scrape_example :
  parse_exposition (fst (module_scrape (H := Ns.ns) [10; 50] Ns.ops Ns.snapshot)) =
  Some [mkSample "osw_rpc_calls_total" [mkLabel "rpc" "Health"; mkLabel "code" "OK"] "2";
        mkSample "osw_rpc_calls_total" [mkLabel "rpc" "a\b"; mkLabel "code" "UNAVAILABLE"] "1";
        mkSample "osw_rpc_authz_decisions_total" [mkLabel "rpc" "Health"; mkLabel "outcome" "allow"] "1";
        mkSample "osw_events_subscribers" [] "4";
        mkSample "osw_events_tier_ring_drops_total" [mkLabel "tier" "1"] "5";
        mkSample "osw_events_tier_ring_drops_total" [mkLabel "tier" "2"] "0";
        mkSample "osw_events_tier_ring_drops_total" [mkLabel "tier" "3"] "-9223372036854775808";
        mkSample "osw_events_audit_emit_total" [] "17";
        mkSample "osw_rpc_latency_seconds_bucket" [mkLabel "le" "10"; mkLabel "rpc" "Health"] "1";
        mkSample "osw_rpc_latency_seconds_bucket" [mkLabel "le" "50"; mkLabel "rpc" "Health"] "1";
        mkSample "osw_rpc_latency_seconds_bucket" [mkLabel "le" "+Inf"; mkLabel "rpc" "Health"] "2";
        mkSample "osw_rpc_latency_seconds_sum" [mkLabel "rpc" "Health"] "73";
        mkSample "osw_rpc_latency_seconds_count" [mkLabel "rpc" "Health"] "2";
        mkSample "osw_rpc_latency_seconds_bucket" [mkLabel "le" "10"; mkLabel "rpc" "a\b"] "0";
        mkSample "osw_rpc_latency_seconds_bucket" [mkLabel "le" "50"; mkLabel "rpc" "a\b"] "1";
        mkSample "osw_rpc_latency_seconds_bucket" [mkLabel "le" "+Inf"; mkLabel "rpc" "a\b"] "1";
        mkSample "osw_rpc_latency_seconds_sum" [mkLabel "rpc" "a\b"] "12";
        mkSample "osw_rpc_latency_seconds_count" [mkLabel "rpc" "a\b"] "1"].
Proof. by vm_compute. Qed.

(** The type of a metric is announced once per labelled series, not once per
    metric: the text format allows one TYPE line for a metric's name. *)
Lemma duplicate_type_lines :
  zlen (List.filter (fun l => String.eqb l "# TYPE osw_events_tier_ring_drops_total gauge")
          (split_on newline (fst (module_scrape (H := Ns.ns) [10; 50] [] Ns.snapshot)))) = 3.
Proof. by vm_compute. Qed.

(** The interceptor does not know the status that ends the call: a method that
    failed is counted as OK. *)
Lemma interceptor_records_ok (kBuckets : list Z) rpc start now m :
  snd (Intercept (H := Ns.ns) kBuckets Z.sub false true now (mkInterceptor rpc (Some start)) m) =
  Record_ (H := Ns.ns) kBuckets rpc OK (start - now) m.
Proof. done. Qed.

(** ** The server's answers *)

Definition cr : ascii := char_of 13.

Lemma find_str_cr pat a b :
  string_all (is_not cr) a = true ->
  find_str (String cr pat) (a +:+ b) = match find_str (String cr pat) b with Some (x, y) => Some (a +:+ x, y) | None => None end.
Proof.
  induction a as [|d a IH]; intros Ha; [sapp; by destruct (find_str _ b) as [[x y]|]|].
  cbn [string_all] in Ha. apply andb_prop in Ha as [Hd Ha]. sapp. cbn [find_str string_starts_with].
  unfold is_not in Hd. apply negb_true_iff in Hd. rewrite Ascii.eqb_sym, Hd. cbn [andb]. rewrite IH by done.
  by destruct (find_str _ b) as [[x y]|].
Qed.

(** A scrape: any query, any headers. *)
Lemma HandleRequest_serves query headers body :
  (query = "" \/ exists q, query = String "?" q) ->
  string_all (fun c => is_not cr c && is_not " " c) query = true ->
  HandleRequest ("GET /metrics" +:+ query +:+ " HTTP/1.1" +:+ crlf +:+ headers) body =
  (200, kOkHeader +:+ "Content-Length: " +:+ pretty (slen body) +:+ crlf +:+ crlf +:+ body).
Proof.
  intros Hq Hall. unfold HandleRequest.
  assert (Hcr : string_all (is_not cr) query = true).
  { revert Hall. apply string_all_impl. by intros c [? _]%andb_prop. }
  assert (Hsp : string_all (is_not " ") query = true).
  { revert Hall. apply string_all_impl. by intros c [_ ?]%andb_prop. }
  assert (before crlf ("GET /metrics" +:+ query +:+ " HTTP/1.1" +:+ crlf +:+ headers) =
          "GET /metrics" +:+ query +:+ " HTTP/1.1") as ->.
  { unfold before, crlf. rewrite !string_app_assoc. rewrite <- (string_app_assoc _ (String _ _) headers).
    fold cr. rewrite find_str_cr by (rewrite !string_all_app, Hcr; by vm_compute).
    sapp. cbn [find_str string_starts_with]. rewrite !Ascii.eqb_refl. cbn [andb].
    rewrite string_starts_with_app, string_app_nil_r. by sapp. }
  change ("GET /metrics" +:+ ?r) with ("GET" +:+ String " " ("/metrics" +:+ r)).
  rewrite find_str_first by done. change (string_empty ("GET" +:+ ?r)) with false. cbn match.
  assert (before " " ("/metrics" +:+ query +:+ " HTTP/1.1") = "/metrics" +:+ query) as ->.
  { unfold before. rewrite string_app_assoc. change " HTTP/1.1" with (String " " "HTTP/1.1").
    rewrite find_str_first; [done|]. by rewrite string_all_app, Hsp. }
  assert (before "?" ("/metrics" +:+ query) = "/metrics") as ->; [|done].
  unfold before. destruct Hq as [->|[q ->]]; [by vm_compute|]. by rewrite find_str_first.
Qed.

(** The time-out of the socket is per [recv]: a client that sends a byte at a
    time holds the server's only thread for as many waits as the buffer has
    bytes. *)
Lemma slow_client_holds_the_thread n buf recvs :
  string_all (is_not cr) buf = true -> slen buf + Z.of_nat n = kMaxRequestBytes ->
  snd (recv_loop buf (replicate n "x") recvs) = (recvs + n)%nat.
Proof.
  unfold kMaxRequestBytes. revert buf recvs. induction n as [|n IH]; intros buf recvs Hcr Hn.
  - cbn [replicate recv_loop]. unfold kMaxRequestBytes. destruct (Z.leb_spec 8192 (slen buf)); cbn; lia.
  - cbn [replicate recv_loop]. unfold kMaxRequestBytes. destruct (Z.leb_spec 8192 (slen buf)); [lia|].
    replace (Z.to_nat (8192 - slen buf)) with (S n) by lia.
    assert (string_take (S n) "x" = "x") as -> by (by destruct n). cbn [string_empty].
    assert (Hx : string_all (is_not cr) (buf +:+ "x") = true) by (rewrite string_all_app, Hcr; by vm_compute).
    assert (find_str (crlf +:+ crlf) (buf +:+ "x") = None) as ->.
    { rewrite <- (string_app_nil_r (buf +:+ "x")). unfold crlf, nl. sapp. fold cr. by rewrite find_str_cr. }
    change (string_empty "x") with false. cbn match. rewrite IH; [lia|done|]. unfold slen in *. rewrite string_length_app. cbn [String.length]. lia.
Qed.

(** For a unary method the library sends the initial metadata and the status
    together: the start is then read with the end, and the latency is what the
    two readings differ by, not what the handler took. *)
Lemma unary_latency_is_zero (kBuckets : list Z) rpc now m :
  snd (Intercept (H := Ns.ns) kBuckets Z.sub true true now (mkInterceptor rpc None) m) =
  Record_ (H := Ns.ns) kBuckets rpc OK 0 m.
Proof. cbn [Intercept rpc_name_ start_ snd]. by rewrite Z.sub_diag. Qed.

(** The health a handler answers with, and what it takes from the aggregator. *)
Lemma HandleHealth_overrides mv fv s r :
  HandleHealth mv fv (Some s) = (Status_OK, Some r) ->
  hr_module_version r = (if string_empty mv then hs_module_version s else mv) /\
  hr_status r = MapStatus (hs_status s) /\ hr_subscriber_count r = hs_subscriber_count s /\
  hr_dropped_total r = hs_dropped_total s.
Proof. unfold HandleHealth. by intros [= <-]. Qed.

(** ** Connections, and the server's socket *)

Inductive send_result := Sent (n : nat) | SendInterrupted | SendFails.

(** What was written, and whether all of it was; [None] while [send] has not
    answered. *)
Fixpoint WriteAll (data : string) (answers : list send_result) : string * option bool :=
  if string_empty data then ("", Some true)
  else match answers with
  | [] => ("", None)
  | SendFails :: _ => ("", Some false)
  | SendInterrupted :: answers => WriteAll data answers
  | Sent n :: answers =>
      let '(rest, done) := WriteAll (string_skip n data) answers in (string_take n data +:+ rest, done)
  end.

(** The bytes of the request, [body] from the render callback, the answer. *)
Definition HandleConnection (body : string) (chunks : list string) (sends : list send_result) : Z * (string * option bool) :=
  let '(status, response) := HandleRequest (fst (recv_loop "" chunks 0)) body in (status, WriteAll response sends).

(** One turn of [Run]: the flag at the head of the loop, [accept], and the flag
    read again after it failed. *)
Inductive accept_result := Accepted (body : string) (chunks : list string) (sends : list send_result) | AcceptFails.
Record turn := mkTurn { tn_running : bool; tn_accept : accept_result; tn_still_running : bool }.

(** The answers given, and whether the loop ended. *)
Fixpoint Run (turns : list turn) : list (Z * (string * option bool)) * bool :=
  match turns with
  | [] => ([], false)
  | t :: turns =>
      if negb (tn_running t) then ([], true)
      else match tn_accept t with
      | AcceptFails => if negb (tn_still_running t) then ([], true) else Run turns
      | Accepted body chunks sends =>
          let '(answers, ended) := Run turns in (HandleConnection body chunks sends :: answers, ended)
      end
  end.

(** [Start] and [Stop]: the calls on the listening socket and the thread. *)
Inductive socket_call := OpenSocket (fd : Z) | CloseSocket (fd : Z) | ShutdownSocket (fd : Z) | SpawnRun | JoinRun.

Record MetricsServer := mkMetricsServer { ms_running : bool; ms_loop : bool; listen_fd_ : Z }.

Definition MetricsServer_new : MetricsServer := mkMetricsServer false false (-1).

(** What the system answers to [socket], [inet_pton], [bind] and [listen]. *)
Record socket_answers := mkSocketAnswers { sk_socket : option Z; sk_pton : bool; sk_bind : bool; sk_listen : bool }.

Definition MetricsServer_Start (a : socket_answers) (m : MetricsServer) : bool * MetricsServer * list socket_call :=
  if ms_running m then (true, m, [])
  else match sk_socket a with
  | None => (false, m, [])
  | Some fd =>
      if sk_pton a && sk_bind a && sk_listen a
      then (true, mkMetricsServer true true fd, [OpenSocket fd; SpawnRun])
      else (false, m, [OpenSocket fd; CloseSocket fd])
  end.

Definition MetricsServer_Stop (m : MetricsServer) : MetricsServer * list socket_call :=
  if negb (ms_running m) then (m, [])
  else (mkMetricsServer false false (-1),
        ((if 0 <=? listen_fd_ m then [ShutdownSocket (listen_fd_ m)] else []) ++
         (if ms_loop m then [JoinRun] else []) ++
         (if 0 <=? listen_fd_ m then [CloseSocket (listen_fd_ m)] else []))%list).

Lemma string_take_skip n s : string_take n s +:+ string_skip n s = s.
Proof.
  revert n. induction s as [|c s IH]; intros [|n]; try done. cbn. change (string_take (S n) (String c s)) with (String c (string_take n s)).
  sapp. by rewrite IH.
Qed.

(** What is written is a part of the response, all of it when the call says so. *)
Lemma WriteAll_prefix data answers :
  exists rest, data = fst (WriteAll data answers) +:+ rest /\ (snd (WriteAll data answers) = Some true -> rest = "").
Proof.
  revert data. induction answers as [|a answers IH]; intros data; cbn [WriteAll].
  - destruct data; [by exists ""|]. cbn. by eexists.
  - destruct (string_empty data) eqn:E; [destruct data; [by exists ""|done]|].
    destruct a as [n| |]; [|apply IH|by exists data].
    destruct (IH (string_skip n data)) as (rest & Hd & Hr). destruct (WriteAll (string_skip n data) answers) as [out ok].
    exists rest. cbn in *. split; [|done]. rewrite <- string_app_assoc, <- Hd. symmetry. apply string_take_skip.
Qed.

(** The loop answers each connection in turn and ends only when it was stopped. *)
Lemma Run_answers turns :
  Forall (fun t => tn_running t = true /\ tn_still_running t = true) turns ->
  Run turns = (omap (fun t => match tn_accept t with
                              | Accepted body chunks sends => Some (HandleConnection body chunks sends)
                              | AcceptFails => None end) turns, false).
Proof.
  induction 1 as [|[r a s] turns [Hr Hs] _ IH]; [done|]. cbn in Hr, Hs. subst. cbn. rewrite IH.
  by destruct a.
Qed.

(** After a stop no socket is open and the thread is joined, and a start that
    fails leaves nothing behind. *)
Lemma MetricsServer_balanced a m ok calls :
  MetricsServer_Start a MetricsServer_new = (ok, m, calls) -> (forall fd, sk_socket a = Some fd -> 0 <= fd) ->
  (if ok then exists fd, sk_socket a = Some fd /\ calls = [OpenSocket fd; SpawnRun] /\
                         MetricsServer_Stop m = (MetricsServer_new, [ShutdownSocket fd; JoinRun; CloseSocket fd])
   else m = MetricsServer_new /\ (calls = [] \/ exists fd, calls = [OpenSocket fd; CloseSocket fd])).
Proof.
  intros E Hfd. unfold MetricsServer_Start in E. cbn in E. destruct (sk_socket a) as [fd|]; [|by simplify_eq; auto].
  destruct (sk_pton a && sk_bind a && sk_listen a); simplify_eq; [|eauto].
  exists fd. split; [done|]. split; [done|]. unfold MetricsServer_Stop. cbn.
  rewrite (proj2 (Z.leb_le 0 fd)) by auto. done.
Qed.
