(* ===== verification/Server.v ===== *)
(** * Server: credentials, the gRPC server, the certificate watcher

    [src/control/tls.cc], [config_tls.cc], [tls_reloader.cc], [server.cc] and the
    members of [control_service_skeleton.h].  The file system is a function from
    paths to contents, gRPC's builder and the system calls are arguments (what
    each call returned), a pointer is an identity or null.  What inotify reports
    is read as the bytes of [struct inotify_event]. *)

From S2P Require Import Prelude Config.

#[local] Open Scope string_scope.
#[local] Open Scope Z_scope.

(** ** Credentials *)

Record TlsConfig := mkTlsConfig {
  cert_path : string; key_path : string; ca_path : string; require_client_cert : bool }.

Definition enabled (cfg : TlsConfig) : bool := negb (string_empty (cert_path cfg)).

(** [grpc_ssl_client_certificate_request_type], the two values used. *)
Inductive client_cert_request := DONT_REQUEST_CLIENT_CERTIFICATE | REQUEST_AND_REQUIRE_AND_VERIFY.

Inductive ServerCredentials :=
  | InsecureServerCredentials
  | SslServerCredentials (cert_req : client_cert_request) (pem_root_certs key cert : string).

(** What can be read at each path. *)
Definition files := string -> option string.

Definition SlurpFile (fs : files) (path : string) : string := default "" (fs path).

Definition LooksLikePem (s : string) : bool := match find_str "-----BEGIN" s with Some _ => true | None => false end.

Definition BuildServerCredentials (fs : files) (cfg : TlsConfig) : option ServerCredentials :=
  if negb (enabled cfg) then Some InsecureServerCredentials
  else
    let cert := SlurpFile fs (cert_path cfg) in
    if string_empty cert then None
    else if negb (LooksLikePem cert) then None
    else
      let key := SlurpFile fs (key_path cfg) in
      if string_empty key then None
      else if negb (LooksLikePem key) then None
      else
        let cert_req := if require_client_cert cfg then REQUEST_AND_REQUIRE_AND_VERIFY
                        else DONT_REQUEST_CLIENT_CERTIFICATE in
        if negb (string_empty (ca_path cfg)) then
          let ca := SlurpFile fs (ca_path cfg) in
          if string_empty ca then None
          else if negb (LooksLikePem ca) then None
          else Some (SslServerCredentials cert_req ca key cert)
        else Some (SslServerCredentials cert_req "" key cert).

Definition TlsConfigFromConfig (config : Config) : TlsConfig :=
  mkTlsConfig (grpc_tls_cert_path config) (grpc_tls_key_path config) (grpc_tls_ca_path config)
    (grpc_tls_require_client_cert config || negb (string_empty (grpc_tls_ca_path config))).

Definition MakeServerCreds (fs : files) (config : Config) : option ServerCredentials :=
  let cfg := mkTlsConfig (grpc_tls_cert_path config) (grpc_tls_key_path config) (grpc_tls_ca_path config)
               (grpc_tls_require_client_cert config || negb (string_empty (grpc_tls_ca_path config))) in
  BuildServerCredentials fs cfg.

(** ** The service and the server *)

Definition ptr := option nat.

(** The members of [ControlServiceSkeleton]. *)
Record Skeleton := mkSkeleton {
  sk_module_version : string;
  sk_freeswitch_version : string;
  sk_broadcaster : ptr;
  sk_rings : ptr;
  sk_max_subscribers : Z;
  sk_send_queue_capacity : Z;
  sk_idempotency_cache : ptr;
  sk_bug_mgr : ptr;
  sk_active_media_streams : ptr;
  sk_active_bots : ptr;
  sk_config : ptr }.

Definition Skeleton_new : Skeleton := mkSkeleton "" "" None None 0 4096 None None None None None.

Definition Skeleton_SetVersions (mv fv : string) (s : Skeleton) : Skeleton :=
  mkSkeleton mv fv (sk_broadcaster s) (sk_rings s) (sk_max_subscribers s) (sk_send_queue_capacity s)
    (sk_idempotency_cache s) (sk_bug_mgr s) (sk_active_media_streams s) (sk_active_bots s) (sk_config s).

(** The injected pointers, and which member each one is. *)
Inductive dependency := DepCache | DepBugMgr | DepStreams | DepBots | DepConfig.

#[export] Instance dependency_eq_dec : EqDecision dependency.
Proof. solve_decision. Defined.

(** [SetIdempotencyCache], [SetMediaBugManager], [SetActiveMediaStreams],
    [SetActiveBots], [SetConfig]. *)
Definition Skeleton_Set (d : dependency) (p : ptr) (s : Skeleton) : Skeleton :=
  mkSkeleton (sk_module_version s) (sk_freeswitch_version s) (sk_broadcaster s) (sk_rings s) (sk_max_subscribers s)
    (sk_send_queue_capacity s)
    (match d with DepCache => p | _ => sk_idempotency_cache s end)
    (match d with DepBugMgr => p | _ => sk_bug_mgr s end)
    (match d with DepStreams => p | _ => sk_active_media_streams s end)
    (match d with DepBots => p | _ => sk_active_bots s end)
    (match d with DepConfig => p | _ => sk_config s end).

Definition Skeleton_get (d : dependency) (s : Skeleton) : ptr :=
  match d with
  | DepCache => sk_idempotency_cache s | DepBugMgr => sk_bug_mgr s | DepStreams => sk_active_media_streams s
  | DepBots => sk_active_bots s | DepConfig => sk_config s
  end.

Record event_plane := mkPlane { ep_broadcaster : ptr; ep_rings : ptr; ep_max : Z; ep_capacity : Z }.

Definition Skeleton_SetEventPlane (e : event_plane) (s : Skeleton) : Skeleton :=
  mkSkeleton (sk_module_version s) (sk_freeswitch_version s) (ep_broadcaster e) (ep_rings e) (ep_max e)
    (ep_capacity e) (sk_idempotency_cache s) (sk_bug_mgr s) (sk_active_media_streams s) (sk_active_bots s)
    (sk_config s).

(** [server_] is the credentials and interceptor it was built with; [worker_]
    is whether the thread is joinable. *)
Record built_server := mkBuilt { bs_creds : ServerCredentials; bs_metrics : bool; bs_shut_down : bool }.

Record GrpcServer := mkGrpcServer {
  creds_ : option ServerCredentials;
  service_ : option Skeleton;
  server_ : option built_server;
  worker_ : bool;
  drained_ : bool;
  bound_address_ : string;
  bound_port_ : Z;
  gs_versions : string * string;
  gs_rpc_metrics : ptr;
  pending_ : dependency -> ptr }.

Definition GrpcServer_new : GrpcServer :=
  mkGrpcServer None None None false false "" (-1) ("", "") None (fun _ => None).

Definition SetVersions (mv fv : string) (g : GrpcServer) : GrpcServer :=
  mkGrpcServer (creds_ g) (service_ g) (server_ g) (worker_ g) (drained_ g) (bound_address_ g) (bound_port_ g)
    (mv, fv) (gs_rpc_metrics g) (pending_ g).

Definition SetRpcMetrics (p : ptr) (g : GrpcServer) : GrpcServer :=
  mkGrpcServer (creds_ g) (service_ g) (server_ g) (worker_ g) (drained_ g) (bound_address_ g) (bound_port_ g)
    (gs_versions g) p (pending_ g).

Definition set_service (s : option Skeleton) (g : GrpcServer) : GrpcServer :=
  mkGrpcServer (creds_ g) s (server_ g) (worker_ g) (drained_ g) (bound_address_ g) (bound_port_ g)
    (gs_versions g) (gs_rpc_metrics g) (pending_ g).

(** The five setters that stage their pointer. *)
Definition SetDependency (d : dependency) (p : ptr) (g : GrpcServer) : GrpcServer :=
  mkGrpcServer (creds_ g) (Skeleton_Set d p <$> service_ g) (server_ g) (worker_ g) (drained_ g) (bound_address_ g)
    (bound_port_ g) (gs_versions g) (gs_rpc_metrics g) (fun d' => if decide (d' = d) then p else pending_ g d').

(** Without a service the call is logged and dropped. *)
Definition SetEventPlane (e : event_plane) (g : GrpcServer) : GrpcServer :=
  match service_ g with
  | None => g
  | Some s => set_service (Some (Skeleton_SetEventPlane e s)) g
  end.

(** [if (pending_x_) service_->SetX(pending_x_)]. *)
Definition apply_pending (g : GrpcServer) (d : dependency) (s : Skeleton) : Skeleton :=
  match pending_ g d with Some p => Skeleton_Set d (Some p) s | None => s end.

(** What a call does to the threads: [Terminates] is [std::terminate], called
    when a joinable thread is assigned to or destroyed. *)
Inductive outcome (A : Type) := Returns (a : A) | Terminates.
Arguments Returns {_} _.
Arguments Terminates {_}.

(** [built] is the port [BuildAndStart] bound, if it succeeded. *)
Definition Start (fs : files) (config : Config) (built : option Z) (g : GrpcServer) : outcome (bool * GrpcServer) :=
  match MakeServerCreds fs config with
  | None =>
      Returns (false, mkGrpcServer None (service_ g) (server_ g) (worker_ g) (drained_ g) (bound_address_ g)
                        (bound_port_ g) (gs_versions g) (gs_rpc_metrics g) (pending_ g))
  | Some creds =>
      let s := Skeleton_SetVersions (fst (gs_versions g)) (snd (gs_versions g)) Skeleton_new in
      let s := apply_pending g DepConfig (apply_pending g DepBots (apply_pending g DepStreams
                 (apply_pending g DepBugMgr (apply_pending g DepCache s)))) in
      match built with
      | None =>
          Returns (false, mkGrpcServer None None None (worker_ g) (drained_ g) (bound_address_ g) (bound_port_ g)
                            (gs_versions g) (gs_rpc_metrics g) (pending_ g))
      | Some bound_port =>
          let server := mkBuilt creds (bool_decide (gs_rpc_metrics g <> None)) false in
          if worker_ g then Terminates
          else Returns (true, mkGrpcServer (Some creds) (Some s) (Some server) true (drained_ g)
                                (grpc_listen_address config) bound_port (gs_versions g) (gs_rpc_metrics g)
                                (pending_ g))
      end
  end.

(** The channel argument of the builder. *)
Definition max_concurrent_streams_arg (config : Config) : option Z :=
  if 0 <? grpc_max_concurrent_streams config then Some (i32 (grpc_max_concurrent_streams config)) else None.

(** [Drain], whose deadline only bounds the wait. *)
Definition Drain (g : GrpcServer) : GrpcServer :=
  if drained_ g then g
  else mkGrpcServer (creds_ g) (service_ g)
         ((fun b => mkBuilt (bs_creds b) (bs_metrics b) true) <$> server_ g)
         false true (bound_address_ g) (bound_port_ g) (gs_versions g) (gs_rpc_metrics g) (pending_ g).

(** The destructor: [Drain], then the members. *)
Definition GrpcServer_destroy (g : GrpcServer) : outcome unit :=
  if worker_ (Drain g) then Terminates else Returns tt.

(** ** The certificate watcher *)

Fixpoint rfind_char (c : ascii) (s : string) : option nat :=
  match s with
  | EmptyString => None
  | String a s =>
      match rfind_char c s with
      | Some i => Some (S i)
      | None => if Ascii.eqb a c then Some O else None
      end
  end.

Definition DirOf (path : string) : string :=
  match rfind_char "/" path with
  | None => "."
  | Some O => "/"
  | Some pos => string_take pos path
  end.

Definition BaseOf (path : string) : string :=
  match rfind_char "/" path with None => path | Some pos => string_skip (S pos) path end.

(** The calls into the system. *)
Inductive os_call :=
  | OpenPipe (r w : Z)
  | OpenInotify (fd : Z)
  | AddWatch (fd : Z) (dir : string) (ok : bool)
  | CloseFd (fd : Z)
  | SpawnWorker
  | WakeWorker (fd : Z)
  | JoinWorker.

Record TlsReloader := mkReloader {
  tr_cfg : TlsConfig;
  inotify_fd_ : Z; pipe_r_ : Z; pipe_w_ : Z;
  tr_worker : bool;          (** joinable *)
  stop_ : bool;
  running_ : bool }.

Definition TlsReloader_new (cfg : TlsConfig) : TlsReloader := mkReloader cfg (-1) (-1) (-1) false false false.

(** What the system answers to one [Start]: the two ends of the pipe, the
    inotify descriptor, and which directories can be watched. *)
Record start_os := mkStartOs { so_pipe : option (Z * Z); so_inotify : option Z; so_watch : string -> bool }.

Definition watch (os : start_os) (fd : Z) (dir : string) : os_call := AddWatch fd dir (so_watch os dir).

Definition optional_watches (os : start_os) (fd : Z) (cfg : TlsConfig) : list os_call :=
  let cert_dir := DirOf (cert_path cfg) in
  ((if string_empty (key_path cfg) then []
   else if String.eqb (DirOf (key_path cfg)) cert_dir then [] else [watch os fd (DirOf (key_path cfg))]) ++
  (if string_empty (ca_path cfg) then []
   else if String.eqb (DirOf (ca_path cfg)) cert_dir || String.eqb (DirOf (ca_path cfg)) (DirOf (key_path cfg)) then []
   else [watch os fd (DirOf (ca_path cfg))]))%list.

Definition Reloader_Start (os : start_os) (t : TlsReloader) : TlsReloader * list os_call :=
  if running_ t then (t, [])
  else if negb (enabled (tr_cfg t)) then (t, [])
  else match so_pipe os with
  | None => (t, [])
  | Some (r, w) =>
      match so_inotify os with
      | None =>
          (mkReloader (tr_cfg t) (-1) (-1) (-1) (tr_worker t) (stop_ t) (running_ t),
           [OpenPipe r w; CloseFd r; CloseFd w])
      | Some fd =>
          let cert_dir := DirOf (cert_path (tr_cfg t)) in
          if negb (so_watch os cert_dir) then
            (mkReloader (tr_cfg t) (-1) (-1) (-1) (tr_worker t) (stop_ t) (running_ t),
             [OpenPipe r w; OpenInotify fd; watch os fd cert_dir; CloseFd fd; CloseFd r; CloseFd w])
          else
            (mkReloader (tr_cfg t) fd r w true false true,
             ([OpenPipe r w; OpenInotify fd; watch os fd cert_dir] ++ optional_watches os fd (tr_cfg t) ++ [SpawnWorker])%list)
      end
  end.

Definition close_fd (fd : Z) : list os_call := if 0 <=? fd then [CloseFd fd] else [].

Definition Reloader_Stop (t : TlsReloader) : TlsReloader * list os_call :=
  if negb (running_ t) then (t, [])
  else (mkReloader (tr_cfg t) (-1) (-1) (-1) false true false,
        ((if 0 <=? pipe_w_ t then [WakeWorker (pipe_w_ t)] else []) ++
        (if tr_worker t then [JoinWorker] else []) ++
        close_fd (inotify_fd_ t) ++ close_fd (pipe_r_ t) ++ close_fd (pipe_w_ t))%list).

Definition IsRunning (t : TlsReloader) : bool := running_ t.

(** *** The events read *)

(** Four bytes, little-endian. *)
Definition get_u32 (s : string) : Z :=
  match s with
  | String a (String b (String c (String d _))) =>
      byte_of a + 2 ^ 8 * byte_of b + 2 ^ 16 * byte_of c + 2 ^ 24 * byte_of d
  | _ => 0
  end.

(** Up to the first NUL. *)
Fixpoint c_string (s : string) : string :=
  match s with
  | EmptyString => ""
  | String c s => if Ascii.eqb c (char_of 0) then "" else String c (c_string s)
  end.

Definition kEventSize : nat := 16.

Definition is_relevant (cfg : TlsConfig) (name : string) : bool :=
  String.eqb name (BaseOf (cert_path cfg)) ||
  negb (string_empty (BaseOf (key_path cfg))) && String.eqb name (BaseOf (key_path cfg)) ||
  negb (string_empty (BaseOf (ca_path cfg))) && String.eqb name (BaseOf (ca_path cfg)).

(** The walk over the buffer; [None] when an event reaches past the bytes read.
    Each event takes a byte of fuel at least. *)
Fixpoint any_relevant (fuel : nat) (cfg : TlsConfig) (p : string) (relevant : bool) : option bool :=
  match p, fuel with
  | EmptyString, _ => Some relevant
  | _, O => None
  | _, S fuel =>
      let len := Z.to_nat (get_u32 (string_skip 12 p)) in
      if (String.length p <? kEventSize + len)%nat then None
      else
        let name := c_string (string_take len (string_skip kEventSize p)) in
        any_relevant fuel cfg (string_skip (kEventSize + len) p)
          (relevant || (negb (len =? 0)%nat && is_relevant cfg name))
  end.

(** *** The loop *)

Inductive read_result := ReadFails (again : bool) | ReadBytes (buf : string).

(** What [poll] returned, and what [read] does if it is called. *)
Inductive poll_result :=
  | PollFails (eintr : bool)
  | PollTimeout
  | PollReady (inotify_in pipe_in : bool) (r : read_result).

(** One iteration: the flag at its head, [poll], the files when it rebuilds. *)
Record iteration := mkIteration { it_stop : bool; it_poll : poll_result; it_files : files }.

(** A rebuild: refused, or audited and handed to the callback. *)
Inductive reload := KeptPrevious | Reloaded (creds : ServerCredentials).

Inductive loop_step := Continue (r : list reload) | Break | Overrun.

Definition RunLoop_step (cfg : TlsConfig) (i : iteration) : loop_step :=
  if it_stop i then Break
  else match it_poll i with
  | PollFails eintr => if eintr then Continue [] else Break
  | PollTimeout => Continue []
  | PollReady inotify_in pipe_in r =>
      if pipe_in then Break
      else if negb inotify_in then Continue []
      else match r with
      | ReadFails again => if again then Continue [] else Break
      | ReadBytes buf =>
          match any_relevant (String.length buf) cfg buf false with
          | None => Overrun
          | Some false => Continue []
          | Some true =>
              Continue [match BuildServerCredentials (it_files i) cfg with
                        | None => KeptPrevious
                        | Some creds => Reloaded creds
                        end]
          end
      end
  end.

(** The reloads of a run, and how it ended ([Continue []]: not yet). *)
Fixpoint RunLoop (cfg : TlsConfig) (its : list iteration) : list reload * loop_step :=
  match its with
  | [] => ([], Continue [])
  | i :: its =>
      match RunLoop_step cfg i with
      | Continue r => let '(rs, e) := RunLoop cfg its in ((r ++ rs)%list, e)
      | e => ([], e)
      end
  end.

(** ** Credentials: what the server listens with *)

(** A file that can be read and holds a PEM block. *)
Definition pem_at (fs : files) (path content : string) : Prop :=
  fs path = Some content /\ LooksLikePem content = true.

Lemma SlurpFile_pem fs path :
  (string_empty (SlurpFile fs path) = false /\ LooksLikePem (SlurpFile fs path) = true) <->
  pem_at fs path (SlurpFile fs path).
Proof.
  unfold pem_at, SlurpFile. destruct (fs path) as [s|]; cbn.
  - split; [by intros [_ H]|]. intros [_ H]. split; [|done]. by destruct s.
  - by split; intros [H _].
Qed.

(** The credentials of a configuration: insecure exactly without a certificate;
    otherwise made of the files, every one of them readable. *)
Lemma BuildServerCredentials_spec fs cfg c :
  BuildServerCredentials fs cfg = Some c <->
  if string_empty (cert_path cfg) then c = InsecureServerCredentials
  else exists cert key root,
    pem_at fs (cert_path cfg) cert /\ pem_at fs (key_path cfg) key /\
    (if string_empty (ca_path cfg) then root = "" else pem_at fs (ca_path cfg) root) /\
    c = SslServerCredentials
          (if require_client_cert cfg then REQUEST_AND_REQUIRE_AND_VERIFY else DONT_REQUEST_CLIENT_CERTIFICATE)
          root key cert.
Proof.
  unfold BuildServerCredentials, enabled. destruct (string_empty (cert_path cfg)); cbn [negb]; [split; congruence|].
  assert (Hpem : forall path content, pem_at fs path content -> SlurpFile fs path = content /\
            string_empty content = false /\ LooksLikePem content = true).
  { intros path content [Hf Hp]. unfold SlurpFile. rewrite Hf. cbn. split; [done|]. split; [by destruct content|done]. }
  split.
  - intros E. destruct (string_empty (SlurpFile fs (cert_path cfg))) eqn:E1; [done|].
    destruct (LooksLikePem (SlurpFile fs (cert_path cfg))) eqn:E2; [|done].
    destruct (string_empty (SlurpFile fs (key_path cfg))) eqn:E3; [done|].
    destruct (LooksLikePem (SlurpFile fs (key_path cfg))) eqn:E4; [|done]. cbn [negb] in E.
    exists (SlurpFile fs (cert_path cfg)), (SlurpFile fs (key_path cfg)).
    destruct (string_empty (ca_path cfg)); cbn [negb] in E; [|destruct (string_empty (SlurpFile fs (ca_path cfg))) eqn:E5; [done|];
      destruct (LooksLikePem (SlurpFile fs (ca_path cfg))) eqn:E6; [|done]; cbn [negb] in E].
    + exists "". repeat split; try congruence; by apply SlurpFile_pem.
    + exists (SlurpFile fs (ca_path cfg)). repeat split; try congruence; by apply SlurpFile_pem.
  - intros (cert & key & root & (-> & -> & ->)%Hpem & (-> & -> & ->)%Hpem & Hroot & ->). cbn [negb].
    destruct (string_empty (ca_path cfg)); cbn [negb]; [by subst|]. by apply Hpem in Hroot as (-> & -> & ->).
Qed.

(** ** The server under any sequence of calls *)

Inductive server_op :=
  | OpVersions (mv fv : string)
  | OpMetrics (p : ptr)
  | OpSet (d : dependency) (p : ptr)
  | OpPlane (e : event_plane)
  | OpStart (fs : files) (config : Config) (built : option Z)
  | OpDrain.

Definition exec_op (op : server_op) (g : GrpcServer) : outcome GrpcServer :=
  match op with
  | OpVersions mv fv => Returns (SetVersions mv fv g)
  | OpMetrics p => Returns (SetRpcMetrics p g)
  | OpSet d p => Returns (SetDependency d p g)
  | OpPlane e => Returns (SetEventPlane e g)
  | OpStart fs config built =>
      match Start fs config built g with Returns (_, g) => Returns g | Terminates => Terminates end
  | OpDrain => Returns (Drain g)
  end.

Fixpoint exec_ops (ops : list server_op) (g : GrpcServer) : outcome GrpcServer :=
  match ops with
  | [] => Returns g
  | op :: ops => match exec_op op g with Returns g => exec_ops ops g | Terminates => Terminates end
  end.

(** What was last injected. *)
Fixpoint last_set (d : dependency) (ops : list server_op) (p : ptr) : ptr :=
  match ops with
  | [] => p
  | OpSet d' p' :: ops => last_set d ops (if decide (d = d') then p' else p)
  | _ :: ops => last_set d ops p
  end.

(** The service mirrors the staged pointers, whenever it was made. *)
Definition wired (g : GrpcServer) : Prop := forall s d, service_ g = Some s -> Skeleton_get d s = pending_ g d.

Lemma Skeleton_get_Set d d' p s : Skeleton_get d (Skeleton_Set d' p s) = if decide (d = d') then p else Skeleton_get d s.
Proof. by destruct d, d'. Qed.

Lemma apply_pending_get g d d' s :
  Skeleton_get d (apply_pending g d' s) = if decide (d = d') then from_option Some (Skeleton_get d s) (pending_ g d) else Skeleton_get d s.
Proof.
  unfold apply_pending. case_decide as Hd; [subst|]; destruct (pending_ g d') eqn:E; rewrite ?Skeleton_get_Set; cbn; try done.
  - by rewrite decide_True.
  - by rewrite decide_False.
Qed.

Lemma exec_op_wired op g g' : wired g -> exec_op op g = Returns g' -> wired g'.
Proof.
  intros Hw. destruct op as [mv fv|p|d p|e|fs config built|]; cbn [exec_op].
  - intros [= <-]. exact Hw.
  - intros [= <-]. exact Hw.
  - intros [= <-] s d'. cbn. intros (s0 & Hs0 & ->)%fmap_Some. rewrite Skeleton_get_Set. case_decide; [done|]. by apply Hw.
  - intros [= <-] s d'. unfold SetEventPlane. destruct (service_ g) as [s0|] eqn:E; [|congruence].
    cbn. intros [= <-]. by rewrite <- (Hw s0 d' E); destruct d'.
  - unfold Start. destruct (MakeServerCreds fs config) as [c|]; [|intros [= <-]; exact Hw].
    destruct built as [port|]; [|by intros [= <-]]. destruct (worker_ g); [done|]. intros [= <-] s d'. cbn.
    intros [= <-]. rewrite !apply_pending_get. repeat case_decide; subst; cbn; try done;
      destruct (pending_ g _) eqn:E; try done; by destruct d'.
  - intros [= <-]. unfold Drain. destruct (drained_ g); exact Hw.
Qed.

Lemma exec_op_pending op g g' d :
  exec_op op g = Returns g' -> pending_ g' d = last_set d [op] (pending_ g d).
Proof.
  destruct op as [mv fv|p|d' p|e|fs config built|]; cbn [exec_op last_set]; try (by intros [= <-]).
  - intros [= <-]. unfold SetEventPlane. by destruct (service_ g).
  - unfold Start. destruct (MakeServerCreds fs config); [|by intros [= <-]].
    destruct built; [|by intros [= <-]]. destruct (worker_ g); [done|]. by intros [= <-].
  - intros [= <-]. unfold Drain. by destruct (drained_ g).
Qed.

Lemma exec_ops_pending ops g g' d : exec_ops ops g = Returns g' -> pending_ g' d = last_set d ops (pending_ g d).
Proof.
  revert g. induction ops as [|op ops IH]; intros g; cbn [exec_ops]; [by intros [= <-]|].
  destruct (exec_op op g) as [g1|] eqn:E; [|done]. intros Hrun. rewrite (IH _ Hrun), (exec_op_pending _ _ _ d E).
  by destruct op.
Qed.

Lemma exec_ops_wired ops g g' : wired g -> exec_ops ops g = Returns g' -> wired g'.
Proof.
  revert g. induction ops as [|op ops IH]; intros g Hw; cbn [exec_ops]; [by intros [= <-]|].
  destruct (exec_op op g) as [g1|] eqn:E; [|done]. apply IH. by eapply exec_op_wired.
Qed.

(** The use the class allows: one [Start], and not after a [Drain]. *)
Fixpoint disciplined (may_start : bool) (ops : list server_op) : bool :=
  match ops with
  | [] => true
  | OpStart _ _ _ :: ops => may_start && disciplined false ops
  | OpDrain :: ops => disciplined false ops
  | _ :: ops => disciplined may_start ops
  end.

Definition is_shut (g : GrpcServer) : Prop := forall b, server_ g = Some b -> bs_shut_down b = true.

(** A joinable worker comes from the one start; after a drain there is none, and
    no server left running. *)
Definition server_inv (may_start : bool) (g : GrpcServer) : Prop :=
  (may_start = true -> worker_ g = false /\ drained_ g = false) /\ (drained_ g = true -> worker_ g = false /\ is_shut g).

Lemma server_inv_stop may_start g : server_inv may_start g -> server_inv false g.
Proof. by intros [_ H]. Qed.

Lemma Drain_inv may_start g : server_inv may_start g -> worker_ (Drain g) = false /\ is_shut (Drain g).
Proof.
  intros [_ H]. unfold Drain. destruct (drained_ g); [by apply H|]. split; [done|]. intros b. cbn.
  by intros (b0 & _ & ->)%fmap_Some.
Qed.

Lemma exec_ops_returns ops may_start g :
  disciplined may_start ops = true -> server_inv may_start g ->
  exists g', exec_ops ops g = Returns g' /\ server_inv false g'.
Proof.
  revert may_start g. induction ops as [|op ops IH]; intros may_start g Hd Hinv; cbn [exec_ops].
  { exists g. split; [done|]. by apply server_inv_stop in Hinv. }
  destruct op as [mv fv|p|d' p|e|fs config built|]; cbn [exec_op] in *; cbn in Hd; try (by apply (IH may_start)).
  - apply (IH may_start); [done|]. unfold SetEventPlane. by destruct (service_ g).
  - apply andb_prop in Hd as [-> Hd]. destruct Hinv as [Hw Hdr]. destruct (Hw eq_refl) as [Hw1 Hw2]. unfold Start.
    destruct (MakeServerCreds fs config) as [c|]; [|by apply (IH false)].
    destruct built as [port|]; [rewrite Hw1|]; apply (IH false); try done; (split; [by intros [=]|]); cbn; congruence.
  - apply (IH false); [done|]. apply Drain_inv in Hinv. split; [by intros [=]|]. by intros _.
Qed.

(** The server is used as intended: for any sequence of calls with at most one
    [Start], before any [Drain], nothing terminates the process, not even the
    destructor, which leaves no server running; and a service, whenever it was
    made, has the pointers last injected, whether before or after the start. *)
Theorem GrpcServer_wired ops :
  disciplined true ops = true ->
  exists g, exec_ops ops GrpcServer_new = Returns g /\ GrpcServer_destroy g = Returns tt /\ is_shut (Drain g) /\
    (forall s d, service_ g = Some s -> Skeleton_get d s = last_set d ops None).
Proof.
  intros Hd. destruct (exec_ops_returns ops true GrpcServer_new Hd) as (g & Hrun & Hinv).
  { by split. }
  exists g. destruct (Drain_inv _ _ Hinv) as [Hw Hs]. split; [done|]. split; [|split; [done|]].
  - unfold GrpcServer_destroy. by rewrite Hw.
  - intros s d Hsv. assert (Hw0 : wired GrpcServer_new) by (by intros s' d').
    rewrite (exec_ops_wired _ _ _ Hw0 Hrun s d Hsv). exact (exec_ops_pending _ _ _ d Hrun).
Qed.

(** Requiring client certificates without a certificate does not validate. *)
Lemma Validate_client_cert regex_error cfg :
  Validate regex_error cfg = None -> string_empty (grpc_tls_cert_path cfg) = true ->
  grpc_tls_require_client_cert cfg = false.
Proof.
  unfold Validate, all_checks. rewrite first_failure_none, !Forall_app. intros Hall He.
  assert (Hr : Forall (fun c : bool * string => c.1 = false) (tls_checks cfg)) by tauto.
  unfold tls_checks in Hr. rewrite !Forall_cons in Hr. destruct Hr as (_ & _ & Hr & _). cbn in Hr.
  by rewrite He, andb_true_r in Hr.
Qed.

(** The default, with the given TLS files. *)
Definition tls_config (cert key ca : string) : Config :=
  let c := Config_default in
  mkConfig (grpc_listen_address c) (grpc_max_concurrent_streams c) (grpc_drain_deadline_seconds c) cert
    key ca (grpc_tls_require_client_cert c) (event_ring_capacity_tier1 c)
    (event_ring_capacity_tier2 c) (event_ring_capacity_tier3 c) (subscriber_send_queue_capacity c)
    (max_subscribers c) (idempotency_ttl_seconds c) (idempotency_cache_capacity c)
    (idempotency_in_flight_max_wait_seconds c) (drain_timeout_seconds c) (event_drain_timeout_seconds c)
    (osw_panic_on_unhandled c) (osw_install_signal_handlers c) (pii_redaction_patterns c)
    (tenant_allowed_contexts c) (eavesdrop_policy c) (tenant_eavesdrop_policies c) (log_level c)
    (metrics_enabled c) (metrics_bind_address c) (metrics_port c) (tts_jitter_buffer_ms c) (tts_preroll_ms c)
    (tts_high_water_ms c) (tts_max_jitter_buffer_ms c) (tts_underrun_policy c) (recording_send_ring_ms c)
    (stereo_desync_warn_ms c) (stereo_desync_timeout_ms c) (recording_default_rate_hz c)
    (warn_record_before_inject c) (cfg_silence_driver_enabled c) (cfg_max_silence_drivers c)
    (bot_max_targets c) (bot_target_queue_ms c) (bot_drain_timeout_ms c) (max_bots_per_channel c).

(** The credentials a configuration stands for, when its files can be read:
    none without a certificate; else the certificate and key, and the CA if one
    is named, which then makes client certificates required. *)
Definition configured_credentials (fs : files) (config : Config) (c : ServerCredentials) : Prop :=
  if string_empty (grpc_tls_cert_path config) then c = InsecureServerCredentials
  else exists cert key root,
    pem_at fs (grpc_tls_cert_path config) cert /\ pem_at fs (grpc_tls_key_path config) key /\
    (if string_empty (grpc_tls_ca_path config) then root = "" else pem_at fs (grpc_tls_ca_path config) root) /\
    c = SslServerCredentials
          (if grpc_tls_require_client_cert config || negb (string_empty (grpc_tls_ca_path config))
           then REQUEST_AND_REQUIRE_AND_VERIFY else DONT_REQUEST_CLIENT_CERTIFICATE) root key cert.

Lemma MakeServerCreds_spec fs config c :
  MakeServerCreds fs config = Some c <-> configured_credentials fs config c.
Proof. unfold MakeServerCreds. by rewrite BuildServerCredentials_spec. Qed.

(** C19. A server runs with the credentials of its configuration or not at all.
    The first start of a server (no thread and no server yet) succeeds exactly
    when gRPC binds and the configuration's credentials can be made: with a
    certificate configured, when certificate, key and the CA, if named, are
    readable PEM files.  The server built then has those credentials, so it is
    never insecure when a certificate is configured, and it verifies client
    certificates against the CA when one is named; a start that fails leaves no
    server.  A validated configuration that requires client certificates has a
    certificate.  One that names a key and a CA but no certificate also
    validates, against config.h, and starts insecure
    ([ca_without_cert_insecure]). *)
Theorem Start_credentials fs config built g :
  worker_ g = false -> server_ g = None ->
  exists ok g', Start fs config built g = Returns (ok, g') /\
    (ok = true <-> is_Some built /\ exists c, configured_credentials fs config c) /\
    (ok = true -> exists b, server_ g' = Some b /\ configured_credentials fs config (bs_creds b)) /\
    (ok = false -> server_ g' = None) /\
    (forall regex_error, Validate regex_error config = None -> grpc_tls_require_client_cert config = true ->
       string_empty (grpc_tls_cert_path config) = false).
Proof.
  intros Hw Hs.
  assert (Hreq : forall regex_error, Validate regex_error config = None ->
    grpc_tls_require_client_cert config = true -> string_empty (grpc_tls_cert_path config) = false).
  { intros re Hv Hr. destruct (string_empty _) eqn:He; [|done]. by rewrite (Validate_client_cert re config Hv He) in Hr. }
  unfold Start. destruct (MakeServerCreds fs config) as [c|] eqn:Hc.
  - apply MakeServerCreds_spec in Hc. destruct built as [port|]; [rewrite Hw|]; eexists _, _.
    + split; [done|]. split; [by split; eauto|]. split; [|done]. intros _. by eexists.
    + split; [done|]. split; [by split; [|intros [[? [=]] _]]|]. done.
  - exists false. eexists. split; [done|]. split; [|done]. split; [done|].
    intros [_ [c Hcc]]. apply MakeServerCreds_spec in Hcc. congruence.
Qed.

Definition tls_files (p : string) : option string :=
  if String.eqb p "/tls/cert" then Some "-----BEGIN CERTIFICATE"
  else if String.eqb p "/tls/key" then Some "-----BEGIN KEY"
  else if String.eqb p "/tls/ca" then Some "-----BEGIN CA" else None.

Definition tls_start (config : Config) : bool * option built_server :=
  match Start tls_files config (Some 50061) GrpcServer_new with
  | Returns (ok, g) => (ok, server_ g)
  | Terminates => (false, None)
  end.

Lemma Start_credentials_witness :
  exists b, tls_start (tls_config "/tls/cert" "/tls/key" "/tls/ca") = (true, Some b) /\
    bs_creds b = SslServerCredentials REQUEST_AND_REQUIRE_AND_VERIFY "-----BEGIN CA" "-----BEGIN KEY"
                   "-----BEGIN CERTIFICATE".
Proof.
  destruct (Start_credentials tls_files (tls_config "/tls/cert" "/tls/key" "/tls/ca") (Some 50061) GrpcServer_new
              eq_refl eq_refl) as (ok & g' & E & _ & Hok & _).
  assert (ok = true) as -> by (vm_compute in E; congruence).
  destruct (Hok eq_refl) as (b & Hb & cert & key & root & [Hc _] & [Hk _] & [Hr _] & Hcreds). exists b.
  split; [unfold tls_start; rewrite E, Hb; reflexivity|].
  rewrite Hcreds. vm_compute in Hc, Hk, Hr. injection Hc as <-. injection Hk as <-. injection Hr as <-. reflexivity.
Defined.

(** A key and a CA without a certificate: the configuration validates, and the
    server starts without TLS. *)
Example ca_without_cert_insecure :
  Validate (fun _ => None) (tls_config "" "/tls/key" "/tls/ca") = None /\
  tls_start (tls_config "" "/tls/key" "/tls/ca") = (true, Some (mkBuilt InsecureServerCredentials false false)).
Proof. by vm_compute. Qed.

(** Started again while it runs, the process ends; started again after a drain,
    it ends in the destructor. *)
Lemma second_start_terminates fs config port g g' :
  Start fs config (Some port) g = Returns (true, g') -> Start fs config (Some port) g' = Terminates.
Proof.
  unfold Start. destruct (MakeServerCreds fs config); [|done]. destruct (worker_ g); [done|]. by intros [= <-].
Qed.

Lemma restart_after_drain_terminates fs config port g g' :
  drained_ g = true -> Start fs config (Some port) g = Returns (true, g') -> GrpcServer_destroy g' = Terminates.
Proof.
  intros Hd. unfold Start. destruct (MakeServerCreds fs config); [|done]. destruct (worker_ g); [done|].
  intros [= <-]. unfold GrpcServer_destroy, Drain. cbn. by rewrite Hd.
Qed.

(** An event plane given before the start is lost, unlike the other pointers. *)
Lemma early_event_plane_lost e : SetEventPlane e GrpcServer_new = GrpcServer_new.
Proof. done. Qed.

(** ** Paths *)

Lemma rfind_char_none c s : rfind_char c s = None -> string_all (is_not c) s = true.
Proof.
  induction s as [|a s IH]; cbn [rfind_char string_all]; [done|]. destruct (rfind_char c s); [done|].
  unfold is_not at 1. destruct (Ascii.eqb a c); [done|]. intros _. by rewrite IH.
Qed.

Lemma rfind_char_some c s pos :
  rfind_char c s = Some pos ->
  s = string_take pos s +:+ String c (string_skip (S pos) s) /\ string_all (is_not c) (string_skip (S pos) s) = true.
Proof.
  revert pos. induction s as [|a s IH]; intros pos; cbn; [done|].
  destruct (rfind_char c s) as [i|] eqn:E.
  - intros [= <-]. destruct (IH i eq_refl) as [H1 H2]. cbn [string_skip].
    change (string_take (S i) (String a s)) with (String a (string_take i s)). sapp. split; [|done]. by f_equal.
  - destruct (Ascii.eqb_spec a c) as [->|]; [|done]. intros [= <-].
    change (string_take 0 (String c s)) with "". change (string_skip 1 (String c s)) with s. sapp.
    split; [done|]. by apply rfind_char_none.
Qed.

(** A path is its directory and its name; the directory "." stands for none. *)
Lemma path_parts p :
  (DirOf p = "." /\ BaseOf p = p /\ rfind_char "/" p = None) \/
  (p = (if String.eqb (DirOf p) "/" then "" else DirOf p) +:+ String "/" (BaseOf p)) /\
   string_all (is_not "/") (BaseOf p) = true \/
  (exists d, p = "/" +:+ String "/" d).
Proof.
  unfold DirOf, BaseOf. destruct (rfind_char "/" p) as [[|pos]|] eqn:E; [| |by left].
  - right; left. destruct (rfind_char_some _ _ _ E) as [H1 H2]. by split.
  - right. destruct (rfind_char_some _ _ _ E) as [H1 H2].
    destruct (String.eqb_spec (string_take (S pos) p) "/") as [Ed|Ed].
    + right. exists (string_skip (S (S pos)) p). by rewrite <- Ed.
    + left. by split.
Qed.

(** ** What inotify reports *)

Definition put_u32 (v : Z) : string :=
  String (char_of (v mod 2 ^ 8)) (String (char_of (v / 2 ^ 8 mod 2 ^ 8))
    (String (char_of (v / 2 ^ 16 mod 2 ^ 8)) (String (char_of (v / 2 ^ 24 mod 2 ^ 8)) ""))).

Fixpoint nuls (n : nat) : string := match n with O => "" | S n => String (char_of 0) (nuls n) end.

(** An event with its name, padded with NULs. *)
Record inotify_event := mkEvent { ie_wd : Z; ie_mask : Z; ie_cookie : Z; ie_name : string; ie_pad : nat }.

Definition ie_len (e : inotify_event) : nat := (String.length (ie_name e) + ie_pad e)%nat.

Definition encode_event (e : inotify_event) : string :=
  put_u32 (ie_wd e) +:+ put_u32 (ie_mask e) +:+ put_u32 (ie_cookie e) +:+ put_u32 (Z.of_nat (ie_len e)) +:+
  ie_name e +:+ nuls (ie_pad e).

Fixpoint encode_events (es : list inotify_event) : string :=
  match es with [] => "" | e :: es => encode_event e +:+ encode_events es end.

(** What the kernel reports: a name has no NUL, and fits. *)
Definition event_ok (e : inotify_event) : Prop :=
  string_all (is_not (char_of 0)) (ie_name e) = true /\ Z.of_nat (ie_len e) < 2 ^ 32.

Definition event_relevant (cfg : TlsConfig) (e : inotify_event) : bool :=
  negb (ie_len e =? 0)%nat && is_relevant cfg (ie_name e).

Lemma get_put_u32 v r : 0 <= v < 2 ^ 32 -> get_u32 (put_u32 v +:+ r) = v.
Proof.
  intros Hv. unfold put_u32. sapp. cbn [get_u32].
  rewrite !byte_of_char_of by (apply Z.mod_pos_bound; lia).
  pose proof (Z.div_mod v (2 ^ 8) ltac:(lia)) as H1.
  pose proof (Z.div_mod (v / 2 ^ 8) (2 ^ 8) ltac:(lia)) as H2.
  pose proof (Z.div_mod (v / 2 ^ 16) (2 ^ 8) ltac:(lia)) as H3.
  rewrite Zdiv_Zdiv in H2, H3 by lia. change (2 ^ 8 * 2 ^ 8) with (2 ^ 16) in H2. change (2 ^ 16 * 2 ^ 8) with (2 ^ 24) in H3.
  assert (v / 2 ^ 24 mod 2 ^ 8 = v / 2 ^ 24) as H4.
  { apply Z.mod_small. split; [apply Z.div_pos; lia|]. apply Z.div_lt_upper_bound; lia. }
  lia.
Qed.

Lemma string_skip_len n a b : String.length a = n -> string_skip n (a +:+ b) = b.
Proof. intros <-. apply string_skip_app. Qed.

Lemma c_string_padded name n :
  string_all (is_not (char_of 0)) name = true -> c_string (name +:+ nuls n) = name.
Proof.
  induction name as [|c name IH]; intros Hn; [by destruct n|]. cbn [string_all] in Hn.
  apply andb_prop in Hn as [Hc Hn]. sapp. cbn [c_string]. unfold is_not in Hc. apply negb_true_iff in Hc.
  by rewrite Hc, IH.
Qed.

Lemma nuls_length n : String.length (nuls n) = n.
Proof. induction n; cbn; congruence. Qed.

Lemma encode_event_length e : String.length (encode_event e) = (kEventSize + ie_len e)%nat.
Proof. unfold encode_event. rewrite !string_length_app, nuls_length. cbn. unfold ie_len. lia. Qed.

Lemma any_relevant_step fuel cfg p relevant :
  p <> "" ->
  any_relevant (S fuel) cfg p relevant =
  let len := Z.to_nat (get_u32 (string_skip 12 p)) in
  if (String.length p <? kEventSize + len)%nat then None
  else any_relevant fuel cfg (string_skip (kEventSize + len) p)
         (relevant || (negb (len =? 0)%nat && is_relevant cfg (c_string (string_take len (string_skip kEventSize p))))).
Proof. by destruct p. Qed.

(** The walk reads an event back. *)
Lemma any_relevant_event fuel cfg e rest relevant :
  event_ok e ->
  any_relevant (S fuel) cfg (encode_event e +:+ rest) relevant =
  any_relevant fuel cfg rest (relevant || event_relevant cfg e).
Proof.
  intros [Hnul Hlen]. rewrite any_relevant_step by done. cbv zeta.
  assert (Z.to_nat (get_u32 (string_skip 12 (encode_event e +:+ rest))) = ie_len e) as ->.
  { unfold encode_event. rewrite !string_app_assoc. do 3 rewrite <- string_app_assoc.
    rewrite (string_skip_len 12) by done. rewrite get_put_u32 by lia. lia. }
  assert (string_take (ie_len e) (string_skip kEventSize (encode_event e +:+ rest)) = ie_name e +:+ nuls (ie_pad e)) as ->.
  { unfold encode_event. rewrite !string_app_assoc. do 2 rewrite <- string_app_assoc.
    rewrite (string_skip_len kEventSize) by done. rewrite string_app_assoc.
    replace (ie_len e) with (String.length (ie_name e +:+ nuls (ie_pad e)))
      by (rewrite string_length_app, nuls_length; done).
    apply string_take_app. }
  rewrite (string_skip_len (kEventSize + ie_len e)) by apply encode_event_length.
  rewrite c_string_padded by done.
  destruct (Nat.ltb_spec (String.length (encode_event e +:+ rest)) (kEventSize + ie_len e)); [|done].
  rewrite string_length_app, encode_event_length in *. lia.
Qed.

Lemma any_relevant_events cfg es fuel relevant :
  Forall event_ok es -> (length es <= fuel)%nat ->
  any_relevant fuel cfg (encode_events es) relevant = Some (relevant || existsb (event_relevant cfg) es).
Proof.
  intros Hok. revert fuel relevant. induction Hok as [|e es He _ IH]; intros fuel relevant Hf.
  - destruct fuel; cbn; by rewrite orb_false_r.
  - destruct fuel as [|fuel]; [cbn in Hf; lia|]. cbn [encode_events]. rewrite any_relevant_event by done.
    rewrite IH by (cbn in Hf; lia). cbn. by rewrite orb_assoc.
Qed.

Lemma encode_events_length es : (length es <= String.length (encode_events es))%nat.
Proof.
  induction es as [|e es IH]; [done|]. cbn [encode_events length]. rewrite string_length_app, encode_event_length.
  unfold kEventSize. lia.
Qed.

(** ** A watcher at work *)

(** The directories [Start] watches. *)
Definition watched (calls : list os_call) : list string :=
  omap (fun c => match c with AddWatch _ d true => Some d | _ => None end) calls.

(** A file written or moved into place, with the other fields of its event. *)
Record change := mkChange { ch_dir : string; ch_event : inotify_event }.

(** What one iteration of the loop meets. *)
Inductive happening :=
  | Interrupted
  | Quiet
  | Spurious
  | Drained
  | Changed (chs : list change).

Definition reported (dirs : list string) (chs : list change) : list inotify_event :=
  ch_event <$> List.filter (fun c => bool_decide (ch_dir c ∈ dirs)) chs.

Definition iteration_of (dirs : list string) (h : happening * files) : iteration :=
  mkIteration false
    match fst h with
    | Interrupted => PollFails true
    | Quiet => PollTimeout
    | Spurious => PollReady false false (ReadFails true)
    | Drained => PollReady true false (ReadFails true)
    | Changed chs => PollReady true false (ReadBytes (encode_events (reported dirs chs)))
    end (snd h).

Definition touches (cfg : TlsConfig) (dirs : list string) (h : happening) : bool :=
  match h with
  | Changed chs => existsb (fun c => bool_decide (ch_dir c ∈ dirs) && event_relevant cfg (ch_event c)) chs
  | _ => false
  end.

(** The reload of one happening. *)
Definition expected (cfg : TlsConfig) (dirs : list string) (h : happening * files) : list reload :=
  if touches cfg dirs (fst h)
  then [match BuildServerCredentials (snd h) cfg with None => KeptPrevious | Some c => Reloaded c end] else [].

Definition happening_ok (h : happening * files) : Prop :=
  match fst h with Changed chs => Forall (fun c => event_ok (ch_event c)) chs | _ => True end.

Lemma reported_relevant cfg dirs chs :
  existsb (event_relevant cfg) (reported dirs chs) =
  existsb (fun c => bool_decide (ch_dir c ∈ dirs) && event_relevant cfg (ch_event c)) chs.
Proof.
  unfold reported. induction chs as [|c chs IH]; [done|]. cbn. case_bool_decide; cbn; by rewrite IH.
Qed.

Lemma RunLoop_step_expected cfg dirs h :
  happening_ok h -> RunLoop_step cfg (iteration_of dirs h) = Continue (expected cfg dirs h).
Proof.
  destruct h as [[| | | |chs] fs]; intros Hok; try done.
  unfold RunLoop_step, expected, iteration_of. cbn [it_stop it_poll it_files fst snd negb touches].
  rewrite any_relevant_events.
  - rewrite reported_relevant. cbn [orb]. by destruct (existsb _ chs).
  - unfold reported. apply Forall_fmap, Forall_forall. intros c Hc.
    apply list_elem_of_In, List.filter_In in Hc as [Hc _].
    apply list_elem_of_In in Hc. exact (proj1 (Forall_forall _ _) Hok c Hc).
  - apply encode_events_length.
Qed.

Lemma RunLoop_expected cfg dirs hs :
  Forall happening_ok hs ->
  RunLoop cfg (iteration_of dirs <$> hs) = (concat (expected cfg dirs <$> hs), Continue []).
Proof.
  induction 1 as [|h hs Hh _ IH]; [done|]. rewrite !fmap_cons. cbn [RunLoop].
  rewrite RunLoop_step_expected by done. by rewrite IH.
Qed.

(** The configured files, where their directories are watched. *)
Definition configured (cfg : TlsConfig) : list string :=
  cert_path cfg :: List.filter (fun p => negb (string_empty p)) [key_path cfg; ca_path cfg].

Lemma optional_watches_spec os fd cfg p :
  key_path cfg <> "" -> p ∈ configured cfg -> so_watch os (DirOf p) = true ->
  DirOf p = DirOf (cert_path cfg) \/ DirOf p ∈ watched (optional_watches os fd cfg).
Proof.
  intros Hkey Hp Hw. unfold configured in Hp. apply elem_of_cons in Hp as [->|Hp]; [by left|].
  apply list_elem_of_In, List.filter_In in Hp as [Hp Hne]. unfold watched, optional_watches. rewrite omap_app.
  assert (string_empty (key_path cfg) = false) as -> by (by destruct (key_path cfg)).
  destruct Hp as [<-|[<-|[]]].
  - destruct (String.eqb_spec (DirOf (key_path cfg)) (DirOf (cert_path cfg))) as [->|]; [by left|right].
    apply elem_of_app. left. unfold watch. cbn. rewrite Hw. by left.
  - apply negb_true_iff in Hne. rewrite Hne.
    destruct (String.eqb_spec (DirOf (ca_path cfg)) (DirOf (cert_path cfg))) as [->|Hc]; [by left|right].
    apply elem_of_app. destruct (String.eqb_spec (DirOf (ca_path cfg)) (DirOf (key_path cfg))) as [Hk|Hk].
    + left. rewrite Hk in *. destruct (String.eqb_spec (DirOf (key_path cfg)) (DirOf (cert_path cfg))); [done|].
      unfold watch. cbn. rewrite Hw. by left.
    + right. cbn. unfold watch. rewrite Hw. by left.
Qed.

Lemma Start_watches os t t' calls p :
  Reloader_Start os t = (t', calls) -> running_ t = false -> running_ t' = true -> key_path (tr_cfg t) <> "" ->
  p ∈ configured (tr_cfg t) -> so_watch os (DirOf p) = true -> DirOf p ∈ watched calls.
Proof.
  unfold Reloader_Start. intros E Hr Hr' Hk Hp Hw. rewrite Hr in E.
  destruct (enabled (tr_cfg t)); cbn [negb] in E; [|congruence].
  destruct (so_pipe os) as [[r w]|]; [|congruence]. destruct (so_inotify os) as [fd|]; [|by simplify_eq].
  destruct (so_watch os (DirOf (cert_path (tr_cfg t)))) eqn:Hc; cbn [negb] in E; [|by simplify_eq].
  simplify_eq. unfold watched. rewrite !omap_app. apply elem_of_app.
  destruct (optional_watches_spec os fd _ p Hk Hp Hw) as [->|Hin].
  - left. unfold watch. cbn. rewrite Hc. by left.
  - right. apply elem_of_app. by left.
Qed.

Lemma configured_relevant cfg p : p ∈ configured cfg -> BaseOf p <> "" -> is_relevant cfg (BaseOf p) = true.
Proof.
  unfold configured, is_relevant. intros [->|Hp]%elem_of_cons Hne; [by rewrite String.eqb_refl|].
  apply list_elem_of_In, List.filter_In in Hp as [Hp _].
  assert (string_empty (BaseOf p) = false) as Hb by (by destruct (BaseOf p)).
  destruct Hp as [<-|[<-|[]]]; rewrite Hb, String.eqb_refl; cbn; by rewrite ?orb_true_r.
Qed.

(** A running watcher reloads when, and only when, it should. Once [Start]
    has succeeded on a configuration with a key, whatever happens afterwards
    (interrupted and empty polls, batches of changes in the watched directories
    as inotify reports them), the loop goes on and its reloads are exactly one
    per batch that names a configured file, with the credentials the files give
    at that time, or none in place of credentials that cannot be built; and every
    change to a configured certificate, key or CA whose directory can be watched
    is in such a batch. *)
Theorem TlsReloader_reloads os t t' calls hs :
  Reloader_Start os t = (t', calls) -> running_ t = false -> running_ t' = true -> key_path (tr_cfg t) <> "" ->
  Forall happening_ok hs ->
  RunLoop (tr_cfg t) (iteration_of (watched calls) <$> hs) =
    (concat (expected (tr_cfg t) (watched calls) <$> hs), Continue []) /\
  (forall p e chs, p ∈ configured (tr_cfg t) -> so_watch os (DirOf p) = true -> BaseOf p <> "" ->
     ie_name e = BaseOf p -> mkChange (DirOf p) e ∈ chs ->
     touches (tr_cfg t) (watched calls) (Changed chs) = true).
Proof.
  intros Hs Hr Hr' Hk Hok. split; [by apply RunLoop_expected|]. intros p e chs Hp Hw Hb He Hin.
  cbn [touches]. apply existsb_exists. exists (mkChange (DirOf p) e). split; [by apply list_elem_of_In|]. cbn.
  rewrite bool_decide_true by (by eapply Start_watches). unfold event_relevant.
  rewrite He, configured_relevant by done. rewrite andb_true_r. cbn. apply negb_true_iff, Nat.eqb_neq.
  unfold ie_len. rewrite He. destruct (BaseOf p); cbn; [done|lia].
Qed.

Definition demo_tls : TlsConfig := mkTlsConfig "/tls/cert" "/tls/key" "/ca/root" true.
Definition demo_os : start_os := mkStartOs (Some (3, 4)) (Some 5) (fun _ => true).
Definition demo_files : files :=
  fun p => if String.eqb p "/tls/cert" then Some "-----BEGIN CERT" else if String.eqb p "/tls/key" then Some "-----BEGIN KEY"
           else if String.eqb p "/ca/root" then Some "-----BEGIN CA" else None.
Definition demo_happenings : list (happening * files) :=
  [(Quiet, demo_files);
   (Changed [mkChange "/tls" (mkEvent 1 8 0 "other" 11); mkChange "/home" (mkEvent 9 8 0 "cert" 12)], demo_files);
   (Changed [mkChange "/ca" (mkEvent 2 8 0 "root" 12)], demo_files);
   (Changed [mkChange "/tls" (mkEvent 1 8 0 "key" 13)], fun _ => None)].

Lemma TlsReloader_reloads_witness :
  RunLoop demo_tls (iteration_of ["/tls"; "/ca"] <$> demo_happenings) =
    ([Reloaded (SslServerCredentials REQUEST_AND_REQUIRE_AND_VERIFY "-----BEGIN CA" "-----BEGIN KEY" "-----BEGIN CERT");
      KeptPrevious], Continue []).
Proof.
  exact (proj1 (TlsReloader_reloads demo_os (TlsReloader_new demo_tls) _ _ demo_happenings eq_refl eq_refl eq_refl
    ltac:(discriminate)
    ltac:(repeat (apply List.Forall_cons || apply List.Forall_nil || (split; [reflexivity|vm_compute; reflexivity]) || exact I)))).
Defined.

(** ** Descriptors and the worker thread *)

(** The open descriptors and whether the worker runs; [None] for a call on a
    descriptor that is not open, or a thread that is not there. *)
Definition os_step (c : os_call) (st : list Z * bool) : option (list Z * bool) :=
  let '(fds, worker) := st in
  match c with
  | OpenPipe r w => if decide (r ∈ fds \/ w ∈ fds \/ r = w) then None else Some (r :: w :: fds, worker)
  | OpenInotify fd => if decide (fd ∈ fds) then None else Some (fd :: fds, worker)
  | AddWatch fd _ _ | WakeWorker fd => if decide (fd ∈ fds) then Some st else None
  | CloseFd fd => if decide (fd ∈ fds) then Some (List.filter (fun x => negb (x =? fd)) fds, worker) else None
  | SpawnWorker => if worker then None else Some (fds, true)
  | JoinWorker => if worker then Some (fds, false) else None
  end.

Fixpoint os_run (cs : list os_call) (st : list Z * bool) : option (list Z * bool) :=
  match cs with
  | [] => Some st
  | c :: cs => match os_step c st with Some st => os_run cs st | None => None end
  end.

(** What the system hands out: distinct descriptors. *)
Definition os_ok (os : start_os) : Prop :=
  match so_pipe os, so_inotify os with
  | Some (r, w), Some fd => 0 <= r /\ 0 <= w /\ 0 <= fd /\ r <> w /\ fd <> r /\ fd <> w
  | Some (r, w), None => 0 <= r /\ 0 <= w /\ r <> w
  | _, _ => True
  end.

Definition fds_of (t : TlsReloader) : list Z :=
  if running_ t then [inotify_fd_ t; pipe_r_ t; pipe_w_ t] else [].

Definition reloader_inv (t : TlsReloader) (st : list Z * bool) : Prop :=
  st = (fds_of t, running_ t) /\
  if running_ t
  then tr_worker t = true /\ 0 <= inotify_fd_ t /\ 0 <= pipe_r_ t /\ 0 <= pipe_w_ t /\
       inotify_fd_ t <> pipe_r_ t /\ inotify_fd_ t <> pipe_w_ t /\ pipe_r_ t <> pipe_w_ t
  else tr_worker t = false /\ inotify_fd_ t = -1 /\ pipe_r_ t = -1 /\ pipe_w_ t = -1.

Lemma os_run_app a b st : os_run (a ++ b)%list st = match os_run a st with Some st => os_run b st | None => None end.
Proof. revert st. induction a as [|c a IH]; intros st; cbn; [done|]. destruct (os_step c st); [apply IH|done]. Qed.

(** Membership of a known list of descriptors, by arithmetic. *)
Ltac fd_mem := rewrite ?elem_of_cons, ?elem_of_nil; lia.
(** The system's steps, one at a time. *)
Ltac fd_steps :=
  cbn [os_run os_step app List.filter];
  repeat (first [rewrite decide_False by fd_mem | rewrite decide_True by fd_mem | rewrite Z.eqb_refl
                |rewrite (proj2 (Z.eqb_neq _ _)) by lia]; cbn [os_run os_step app List.filter negb]).

Lemma watches_run cs fd fds w :
  fd ∈ fds -> Forall (fun c => exists d b, c = AddWatch fd d b) cs -> os_run cs (fds, w) = Some (fds, w).
Proof. intros Hin. induction 1 as [|c cs (d & b & ->) _ IH]; [done|]. cbn. by rewrite decide_True. Qed.

Lemma optional_watches_run os fd cfg fds w :
  fd ∈ fds -> os_run (optional_watches os fd cfg) (fds, w) = Some (fds, w).
Proof.
  intros Hin. apply (watches_run _ fd); [done|]. unfold optional_watches, watch. apply Forall_app.
  split; repeat case_match; repeat constructor; eauto.
Qed.

Lemma Reloader_Start_inv os t st t' calls :
  os_ok os -> reloader_inv t st -> Reloader_Start os t = (t', calls) ->
  exists st', os_run calls st = Some st' /\ reloader_inv t' st'.
Proof.
  intros Hos [-> Hinv] E. unfold Reloader_Start, os_ok in *. destruct (running_ t) eqn:Hr.
  { injection E as <- <-. eexists. split; [done|]. split; by rewrite Hr. }
  destruct Hinv as (Hw & Hi & Hpr & Hpw). assert (Hsame : reloader_inv t ([], false)).
  { split; [unfold fds_of|]; by rewrite Hr. }
  unfold fds_of. rewrite Hr.
  destruct (enabled (tr_cfg t)); cbn [negb] in E; [|injection E as <- <-; by eexists].
  destruct (so_pipe os) as [[r w]|]; [|injection E as <- <-; by eexists].
  destruct (so_inotify os) as [fd|].
  - destruct (so_watch os _); cbn [negb] in E; injection E as <- <-.
    + exists ([fd; r; w], true). split; [|split; [done|]; cbn; lia]. unfold watch. fd_steps.
      rewrite os_run_app, optional_watches_run by fd_mem. done.
    + exists ([], false). split; [|split; [unfold fds_of; cbn|cbn]; by rewrite ?Hr]. unfold watch. fd_steps. done.
  - injection E as <- <-. exists ([], false). split; [|split; [unfold fds_of; cbn|cbn]; by rewrite ?Hr]. fd_steps. done.
Qed.

Lemma Reloader_Stop_inv t st t' calls :
  reloader_inv t st -> Reloader_Stop t = (t', calls) ->
  exists st', os_run calls st = Some st' /\ reloader_inv t' st'.
Proof.
  intros [-> Hinv] E. unfold Reloader_Stop in *. destruct (running_ t) eqn:Hr; cbn [negb] in E.
  2:{ injection E as <- <-. eexists. split; [done|]. split; by rewrite Hr. }
  destruct Hinv as (Hw & Hi & Hpr & Hpw & Hne). injection E as <- <-. exists ([], false). split; [|done].
  unfold fds_of, close_fd. rewrite Hr, Hw. rewrite !(proj2 (Z.leb_le 0 _)) by lia. fd_steps. done.
Qed.

Inductive reloader_op := OpReloaderStart (os : start_os) | OpReloaderStop.

Definition reloader_step (op : reloader_op) (t : TlsReloader) : TlsReloader * list os_call :=
  match op with OpReloaderStart os => Reloader_Start os t | OpReloaderStop => Reloader_Stop t end.

Fixpoint reloader_run (ops : list reloader_op) (t : TlsReloader) : TlsReloader * list os_call :=
  match ops with
  | [] => (t, [])
  | op :: ops =>
      let '(t, calls) := reloader_step op t in
      let '(t, calls') := reloader_run ops t in (t, (calls ++ calls')%list)
  end.

(** No call of the watcher uses a closed descriptor or closes one twice, none is
    left open and no thread unjoined once it is stopped, whatever fails and
    however often it is started and stopped. *)
Theorem TlsReloader_descriptors cfg ops t calls :
  Forall (fun op => match op with OpReloaderStart os => os_ok os | OpReloaderStop => True end) ops ->
  reloader_run ops (TlsReloader_new cfg) = (t, calls) ->
  os_run calls ([], false) = Some (fds_of t, running_ t) /\
  exists calls', os_run (calls ++ calls')%list ([], false) = Some ([], false) /\ Reloader_Stop t = (fst (Reloader_Stop t), calls').
Proof.
  assert (Hgen : forall ops t0 st0 t calls, reloader_inv t0 st0 ->
            Forall (fun op => match op with OpReloaderStart os => os_ok os | OpReloaderStop => True end) ops ->
            reloader_run ops t0 = (t, calls) -> exists st, os_run calls st0 = Some st /\ reloader_inv t st).
  { clear. intros ops. induction ops as [|op ops IH]; intros t0 st0 t calls Hinv Hok; cbn [reloader_run].
    - intros [= <- <-]. by exists st0.
    - apply Forall_cons in Hok as [Hop Hok]. destruct (reloader_step op t0) as [t1 c1] eqn:E1.
      destruct (reloader_run ops t1) as [t2 c2] eqn:E2. intros [= <- <-].
      assert (exists st1, os_run c1 st0 = Some st1 /\ reloader_inv t1 st1) as (st1 & Hr1 & Hi1).
      { destruct op; [by eapply Reloader_Start_inv|by eapply Reloader_Stop_inv]. }
      rewrite os_run_app, Hr1. by eapply IH. }
  intros Hok Hrun. assert (H0 : reloader_inv (TlsReloader_new cfg) ([], false)) by (by split).
  destruct (Hgen _ _ _ _ _ H0 Hok Hrun) as (st & Hr & Hi).
  pose proof Hi as [-> _]. split; [done|]. destruct (Reloader_Stop t) as [t' c'] eqn:Es.
  exists c'. split; [|done]. rewrite os_run_app, Hr. destruct (Reloader_Stop_inv _ _ _ _ Hi Es) as (st' & -> & [-> _]).
  assert (running_ t' = false) as Hf.
  { unfold Reloader_Stop in Es. destruct (running_ t) eqn:E; cbn [negb] in Es; injection Es as <- <-; done. }
  unfold fds_of. by rewrite Hf.
Qed.

(** A watcher whose loop has ended on an error still says that it runs. *)
Lemma dead_watcher_is_running :
  IsRunning (fst (Reloader_Start demo_os (TlsReloader_new demo_tls))) = true /\
  RunLoop demo_tls [mkIteration false (PollFails false) demo_files] = ([], Break).
Proof. done. Qed.
