(* ===== verification/Raii.v ===== *)
(** * Raii: the ownership wrappers over FreeSWITCH handles

    [include/osw/raii/event_guard.h], [media_bug_lease.h], [session_lock.h],
    [xml_node.h], [include/osw/control/session_guard.h], [media/bug_handle.cc] and
    the event that [control/originate_options.cc] owns.  A handle is an
    identity; a method returns the handles it released (to FreeSWITCH's destroy,
    remove, unlock or free) and those it gave away ([fire], [release]).  The class
    [Guard] says what a wrapper promises; the theorem on programs is proved
    against it, and each wrapper is an instance. *)

From S2P Require Import Prelude BugManager.

Definition handle := nat.

(** [if (h) Destroy(h)]. *)
Definition release_of (h : option handle) : list handle := match h with Some h => [h] | None => [] end.

(** ** EventGuard *)

Record EventGuard := mkEventGuard { event_ : option handle }.

(** [EventCreate] may fail; the guard is then empty. *)
Definition EventGuard_new (created : option handle) : EventGuard := mkEventGuard created.
Definition EventGuard_adopt (existing : option handle) : EventGuard := mkEventGuard existing.
Definition EventGuard_dtor (g : EventGuard) : list handle := release_of (event_ g).
Definition EventGuard_move (other : EventGuard) : EventGuard * EventGuard := (mkEventGuard (event_ other), mkEventGuard None).
Definition EventGuard_assign (g other : EventGuard) : EventGuard * EventGuard * list handle :=
  (mkEventGuard (event_ other), mkEventGuard None, release_of (event_ g)).

Inductive event_method := EventFire | EventRelease.

(** After [fire] FreeSWITCH owns the event, whether it succeeds or not. *)
Definition EventGuard_call (m : event_method) (g : EventGuard) : EventGuard * list handle * list handle :=
  (mkEventGuard None, [], release_of (event_ g)).

(** ** MediaBugLease *)

Record MediaBugLease := mkLease { ml_session : option nat; ml_bug : option handle }.

(** [added] is the bug [MediaBugAdd] returned, on success. *)
Definition MediaBugLease_new (session : option nat) (added : option handle) : MediaBugLease :=
  mkLease session (match session with Some _ => added | None => None end).

Definition MediaBugLease_remove (l : MediaBugLease) : MediaBugLease * list handle :=
  match ml_bug l, ml_session l with
  | Some b, Some _ => (mkLease (ml_session l) None, [b])
  | _, _ => (l, [])
  end.

Definition MediaBugLease_dtor (l : MediaBugLease) : list handle := snd (MediaBugLease_remove l).
Definition MediaBugLease_move (other : MediaBugLease) : MediaBugLease * MediaBugLease :=
  (mkLease (ml_session other) (ml_bug other), mkLease None None).
Definition MediaBugLease_assign (l other : MediaBugLease) : MediaBugLease * MediaBugLease * list handle :=
  (mkLease (ml_session other) (ml_bug other), mkLease None None, snd (MediaBugLease_remove l)).

(** ** SessionLock and SessionGuard *)

Record SessionLock := mkSessionLock { session_ : option handle }.

(** [SessionRwunlock] does nothing on null. *)
Definition SessionRwunlock (s : option handle) : list handle := release_of s.

Definition SessionLock_new (located : option handle) : SessionLock := mkSessionLock located.
Definition SessionLock_dtor (l : SessionLock) : list handle := SessionRwunlock (session_ l).
Definition SessionLock_move (other : SessionLock) : SessionLock * SessionLock :=
  (mkSessionLock (session_ other), mkSessionLock None).
Definition SessionLock_assign (l other : SessionLock) : SessionLock * SessionLock * list handle :=
  (mkSessionLock (session_ other), mkSessionLock None, SessionRwunlock (session_ l)).
Definition SessionLock_reset (l : SessionLock) : SessionLock * list handle :=
  match session_ l with Some _ => (mkSessionLock None, SessionRwunlock (session_ l)) | None => (l, []) end.

Record SessionGuard := mkSessionGuard { lock_ : SessionLock; channel_ : option nat }.

Definition SessionGuard_empty : SessionGuard := mkSessionGuard (SessionLock_new None) None.

(** [channel] is [SessionGetChannel] of the session located. *)
Definition SessionGuard_Locate (uuid : string) (located : option handle) (channel : handle -> nat) : SessionGuard :=
  if string_empty uuid then SessionGuard_empty
  else match located with
       | None => SessionGuard_empty
       | Some s => mkSessionGuard (fst (SessionLock_move (SessionLock_new (Some s)))) (Some (channel s))
       end.

Definition SessionGuard_dtor (g : SessionGuard) : list handle := SessionLock_dtor (lock_ g).
Definition SessionGuard_move (other : SessionGuard) : SessionGuard * SessionGuard :=
  let '(l, l') := SessionLock_move (lock_ other) in (mkSessionGuard l (channel_ other), mkSessionGuard l' None).
Definition SessionGuard_assign (g other : SessionGuard) : SessionGuard * SessionGuard * list handle :=
  let '(l, l', r) := SessionLock_assign (lock_ g) (lock_ other) in
  (mkSessionGuard l (channel_ other), mkSessionGuard l' None, r).
Definition SessionGuard_Reset (g : SessionGuard) : SessionGuard * list handle :=
  let '(l, r) := SessionLock_reset (lock_ g) in (mkSessionGuard l None, r).

Definition Valid (g : SessionGuard) : bool := bool_decide (session_ (lock_ g) <> None).

(** ** XmlNode *)

Record XmlNode := mkXmlNode { root_ : option handle; cfg_ : option nat }.

(** [XmlOpenCfg] returns the tree and sets the node of the configuration. *)
Definition XmlNode_new (opened : option (handle * option nat)) : XmlNode :=
  match opened with Some (root, cfg) => mkXmlNode (Some root) cfg | None => mkXmlNode None None end.
Definition XmlNode_adopt (root : option handle) : XmlNode := mkXmlNode root None.
Definition XmlNode_dtor (x : XmlNode) : list handle := release_of (root_ x).
Definition XmlNode_move (other : XmlNode) : XmlNode * XmlNode :=
  (mkXmlNode (root_ other) (cfg_ other), mkXmlNode None None).
Definition XmlNode_assign (x other : XmlNode) : XmlNode * XmlNode * list handle :=
  (mkXmlNode (root_ other) (cfg_ other), mkXmlNode None None, release_of (root_ x)).
Definition XmlNode_reset (x : XmlNode) : XmlNode * list handle :=
  match root_ x with Some r => (mkXmlNode None None, [r]) | None => (x, []) end.
Definition XmlNode_release (x : XmlNode) : option handle * XmlNode := (root_ x, mkXmlNode None None).

Inductive xml_method := XmlReset | XmlRelease.

(** ** BugHandle *)

(** The manager's address, the bug's id and what [Attach] said of it. *)
Record BugHandle := mkBugHandle {
  manager_ : option nat; bug_id_ : handle; purpose_ : Purpose; channel_uuid_ : string }.

Definition BugHandle_default : BugHandle := mkBugHandle None 0%nat kUnspecified "".

(** The constructor [Attach] uses. *)
Definition BugHandle_new (mgr : nat) (bug_id : handle) (purpose : Purpose) (channel_uuid : string) : BugHandle :=
  mkBugHandle (Some mgr) bug_id purpose channel_uuid.

(** [manager_->Detach(bug_id_)], when there is a manager. *)
Definition BugHandle_dtor (g : BugHandle) : list handle :=
  match manager_ g with Some _ => [bug_id_ g] | None => [] end.

(** A string that was moved from is empty in the standard libraries in use. *)
Definition BugHandle_move (other : BugHandle) : BugHandle * BugHandle :=
  (mkBugHandle (manager_ other) (bug_id_ other) (purpose_ other) (channel_uuid_ other), BugHandle_default).
Definition BugHandle_assign (g other : BugHandle) : BugHandle * BugHandle * list handle :=
  (mkBugHandle (manager_ other) (bug_id_ other) (purpose_ other) (channel_uuid_ other), BugHandle_default,
   BugHandle_dtor g).

(** [release] forgets the bug: detaching it is its caller's from then on. *)
Definition BugHandle_release (g : BugHandle) : BugHandle := BugHandle_default.

Definition attached (g : BugHandle) : bool :=
  match manager_ g with Some _ => negb (Nat.eqb (bug_id_ g) 0) | None => false end.

(** ** The event of OriginateOptions *)

Record OptionsEvent := mkOptionsEvent { valid_ : bool; timeout_sec_ : Z; ovars_ : option handle }.

Definition OriginateOptions_dtor (o : OptionsEvent) : list handle := release_of (ovars_ o).
Definition OriginateOptions_move (other : OptionsEvent) : OptionsEvent * OptionsEvent :=
  (mkOptionsEvent (valid_ other) (timeout_sec_ other) (ovars_ other), mkOptionsEvent false 0 None).
Definition OriginateOptions_assign (o other : OptionsEvent) : OptionsEvent * OptionsEvent * list handle :=
  (mkOptionsEvent (valid_ other) (timeout_sec_ other) (ovars_ other), mkOptionsEvent false 0 None,
   release_of (ovars_ o)).
Definition ReleaseOvars (o : OptionsEvent) : option handle * OptionsEvent :=
  (ovars_ o, mkOptionsEvent (valid_ o) (timeout_sec_ o) None).

(** ** What a wrapper promises *)

Class Guard (G M : Type) := {
  g_owned : G -> option handle;
  g_wf : G -> Prop;
  g_dtor : G -> list handle;
  g_move : G -> G * G;
  g_assign : G -> G -> G * G * list handle;
  g_call : M -> G -> G * list handle * list handle;
  (** Destruction releases what is owned, once. *)
  dtor_releases : forall g, g_wf g -> g_dtor g = release_of (g_owned g);
  (** A move transfers it; an assignment first releases the target's. *)
  move_transfers : forall g, g_wf g ->
    let '(g', o) := g_move g in g_wf g' /\ g_wf o /\ g_owned g' = g_owned g /\ g_owned o = None;
  assign_transfers : forall g o, g_wf g -> g_wf o ->
    let '(g', o', r) := g_assign g o in
    g_wf g' /\ g_wf o' /\ g_owned g' = g_owned o /\ g_owned o' = None /\ r = release_of (g_owned g);
  (** Any other method keeps it, releases it or gives it away. *)
  call_accounts : forall m g, g_wf g ->
    let '(g', r, gv) := g_call m g in g_wf g' /\ release_of (g_owned g') ++ r ++ gv = release_of (g_owned g) }.

(** The laws hold by cases on the members. *)
Ltac guard_law :=
  intros;
  repeat match goal with
    | g : EventGuard |- _ => destruct g as [[?|]]
    | g : MediaBugLease |- _ => destruct g as [[?|] [?|]]
    | g : SessionGuard |- _ => destruct g as [[[?|]] ?]
    | g : SessionLock |- _ => destruct g as [[?|]]
    | g : XmlNode |- _ => destruct g as [[?|] ?]
    | g : BugHandle |- _ => destruct g as [[?|] ? ? ?]
    | g : OptionsEvent |- _ => destruct g as [? ? [?|]]
    | m : event_method |- _ => destruct m
    | m : xml_method |- _ => destruct m
    end;
  naive_solver.

#[local] Obligation Tactic := idtac.

#[export] Program Instance EventGuard_guard : Guard EventGuard event_method := {|
  g_owned := event_; g_wf := fun _ => True; g_dtor := EventGuard_dtor; g_move := EventGuard_move;
  g_assign := EventGuard_assign; g_call := EventGuard_call |}.
Solve Obligations with guard_law.

#[export] Program Instance MediaBugLease_guard : Guard MediaBugLease unit := {|
  g_owned := ml_bug;
  g_wf := fun l => ml_session l = None -> ml_bug l = None;
  g_dtor := MediaBugLease_dtor; g_move := MediaBugLease_move; g_assign := MediaBugLease_assign;
  g_call := fun _ l => (fst (MediaBugLease_remove l), snd (MediaBugLease_remove l), []) |}.
Solve Obligations with guard_law.

#[export] Program Instance SessionLock_guard : Guard SessionLock unit := {|
  g_owned := session_; g_wf := fun _ => True; g_dtor := SessionLock_dtor; g_move := SessionLock_move;
  g_assign := SessionLock_assign;
  g_call := fun _ l => (fst (SessionLock_reset l), snd (SessionLock_reset l), []) |}.
Solve Obligations with guard_law.

(** A channel is cached only while its session is locked. *)
#[export] Program Instance SessionGuard_guard : Guard SessionGuard unit := {|
  g_owned := fun g => session_ (lock_ g);
  g_wf := fun g => Valid g = false -> channel_ g = None;
  g_dtor := SessionGuard_dtor; g_move := SessionGuard_move; g_assign := SessionGuard_assign;
  g_call := fun _ g => (fst (SessionGuard_Reset g), snd (SessionGuard_Reset g), []) |}.
Solve Obligations with guard_law.

#[export] Program Instance XmlNode_guard : Guard XmlNode xml_method := {|
  g_owned := root_; g_wf := fun _ => True; g_dtor := XmlNode_dtor; g_move := XmlNode_move;
  g_assign := XmlNode_assign;
  g_call := fun m x => match m with
                       | XmlReset => (fst (XmlNode_reset x), snd (XmlNode_reset x), [])
                       | XmlRelease => (snd (XmlNode_release x), [], release_of (fst (XmlNode_release x)))
                       end |}.
Solve Obligations with guard_law.

(** A handle with a manager has a bug's id: the ids the manager gives start at
    one. *)
#[export] Program Instance BugHandle_guard : Guard BugHandle unit := {|
  g_owned := fun g => match manager_ g with Some _ => Some (bug_id_ g) | None => None end;
  g_wf := fun g => manager_ g <> None -> bug_id_ g <> 0%nat;
  g_dtor := BugHandle_dtor; g_move := BugHandle_move; g_assign := BugHandle_assign;
  g_call := fun _ g => (BugHandle_release g, [], BugHandle_dtor g) |}.
Solve Obligations with guard_law.

#[export] Program Instance OriginateOptions_guard : Guard OptionsEvent unit := {|
  g_owned := ovars_; g_wf := fun _ => True; g_dtor := OriginateOptions_dtor; g_move := OriginateOptions_move;
  g_assign := OriginateOptions_assign;
  g_call := fun _ o => (snd (ReleaseOvars o), [], release_of (fst (ReleaseOvars o))) |}.
Solve Obligations with guard_law.

(** ** Programs with wrappers *)

Section programs.
Context {G M : Type} `{Guard G M}.

(** Statements on the wrappers of a scope, by position: a new one, constructed
    by its class; a move construction; a move assignment, which tests for
    self-assignment; a method. *)
Inductive stmt :=
  | SNew (g : G)
  | SMove (from : nat)
  | SAssign (to from : nat)
  | SCall (m : M) (v : nat).

(** The wrappers in scope, and the handles released and given away so far. *)
Record scope := mkScope { vars : list G; released : list handle; given : list handle }.

Definition run_stmt (s : stmt) (c : scope) : scope :=
  match s with
  | SNew g => mkScope (vars c ++ [g]) (released c) (given c)
  | SMove i =>
      match vars c !! i with
      | Some o => let '(g, o') := g_move o in mkScope (<[i := o']> (vars c) ++ [g]) (released c) (given c)
      | None => c
      end
  | SAssign i j =>
      if decide (i = j) then c
      else match vars c !! i, vars c !! j with
      | Some g, Some o =>
          let '(g', o', r) := g_assign g o in
          mkScope (<[j := o']> (<[i := g']> (vars c))) (released c ++ r) (given c)
      | _, _ => c
      end
  | SCall m i =>
      match vars c !! i with
      | Some g => let '(g', r, gv) := g_call m g in mkScope (<[i := g']> (vars c)) (released c ++ r) (given c ++ gv)
      | None => c
      end
  end.

(** The end of the scope destroys the wrappers, last first. *)
Definition end_scope (c : scope) : scope := mkScope [] (released c ++ concat (rev (g_dtor <$> vars c))) (given c).

Definition run_scope (ss : list stmt) : scope := end_scope (foldl (fun c s => run_stmt s c) (mkScope [] [] []) ss).

(** The handles the new wrappers own. *)
Definition acquired (ss : list stmt) : list handle :=
  concat ((fun s => match s with SNew g => release_of (g_owned g) | _ => [] end) <$> ss).

Definition stmt_wf (s : stmt) : Prop := match s with SNew g => g_wf g | _ => True end.

Definition owned_by (gs : list G) : list handle := concat ((fun g => release_of (g_owned g)) <$> gs).

Lemma owned_by_app a b : owned_by (a ++ b) = owned_by a ++ owned_by b.
Proof. unfold owned_by. by rewrite fmap_app, concat_app. Qed.

(** What the others own, and what one does. *)
Lemma owned_by_insert gs i g g' :
  gs !! i = Some g ->
  exists rest, owned_by gs ≡ₚ release_of (g_owned g) ++ rest /\
               owned_by (<[i := g']> gs) ≡ₚ release_of (g_owned g') ++ rest.
Proof.
  intros Hi. exists (owned_by (take i gs) ++ owned_by (drop (S i) gs)).
  assert (Hlen : (i < length gs)%nat) by (by eapply lookup_lt_Some).
  split.
  - assert (owned_by gs = owned_by (take i gs ++ g :: drop (S i) gs)) as -> by (by rewrite take_drop_middle).
    rewrite owned_by_app. unfold owned_by at 2. cbn. solve_Permutation.
  - rewrite insert_take_drop by done. rewrite owned_by_app. unfold owned_by at 2. cbn. solve_Permutation.
Qed.

(** Nothing is lost or duplicated. *)
Definition accounted (c : scope) (hs : list handle) : Prop :=
  Forall g_wf (vars c) /\ released c ++ given c ++ owned_by (vars c) ≡ₚ hs.

Lemma run_stmt_accounted s c hs :
  stmt_wf s -> accounted c hs -> accounted (run_stmt s c) (hs ++ acquired [s]).
Proof.
  intros Hs [Hwf Hacc]. unfold acquired. destruct s as [g|i|i j|m i]; cbn [run_stmt fmap list_fmap concat]; rewrite ?app_nil_r.
  - split; cbn [vars released given]; [by apply Forall_app; repeat constructor|]. rewrite owned_by_app, <- Hacc. unfold owned_by at 2. cbn.
    solve_Permutation.
  - destruct (vars c !! i) as [o|] eqn:Hi; [|done].
    pose proof (proj1 (Forall_lookup _ _) Hwf _ _ Hi) as Ho. pose proof (move_transfers o Ho) as Hmv.
    destruct (g_move o) as [g o']. destruct Hmv as (Hg & Ho' & Eg & Eo).
    destruct (owned_by_insert (vars c) i o o' Hi) as (rest & H1 & H2). split; cbn [vars released given].
    + apply Forall_app. split; [by apply Forall_insert|by repeat constructor].
    + rewrite owned_by_app, <- Hacc, H1, H2, Eo. unfold owned_by. cbn. rewrite Eg. solve_Permutation.
  - case_decide as Hij; [done|]. destruct (vars c !! i) as [g|] eqn:Hi; [|done].
    destruct (vars c !! j) as [o|] eqn:Hj; [|done].
    pose proof (proj1 (Forall_lookup _ _) Hwf _ _ Hi) as Hg. pose proof (proj1 (Forall_lookup _ _) Hwf _ _ Hj) as Ho.
    pose proof (assign_transfers g o Hg Ho) as Has. destruct (g_assign g o) as [[g' o'] r].
    destruct Has as (Hg' & Ho' & Eg & Eo & ->).
    destruct (owned_by_insert (vars c) i g g' Hi) as (rest & H1 & H2).
    assert (Hj' : <[i := g']> (vars c) !! j = Some o) by (by rewrite list_lookup_insert_ne).
    destruct (owned_by_insert _ j o o' Hj') as (rest' & H3 & H4). split; cbn [vars released given]; [by repeat apply Forall_insert|].
    rewrite H4, Eo. cbn. rewrite <- Hacc, H1.
    assert (Hr : rest' ≡ₚ rest).
    { rewrite H2 in H3. rewrite Eg in H3. by apply Permutation_app_inv_l in H3. }
    rewrite Hr. solve_Permutation.
  - destruct (vars c !! i) as [g|] eqn:Hi; [|done]. pose proof (proj1 (Forall_lookup _ _) Hwf _ _ Hi) as Hg.
    pose proof (call_accounts m g Hg) as Hc. destruct (g_call m g) as [[g' r] gv]. destruct Hc as [Hg' Hc].
    destruct (owned_by_insert (vars c) i g g' Hi) as (rest & H1 & H2). split; cbn [vars released given]; [by apply Forall_insert|].
    rewrite H2, <- Hacc, H1, <- Hc. solve_Permutation.
Qed.

Lemma run_accounted ss c hs :
  Forall stmt_wf ss -> accounted c hs -> accounted (foldl (fun c s => run_stmt s c) c ss) (hs ++ acquired ss).
Proof.
  intros Hss. revert c hs. induction Hss as [|s ss Hs _ IH]; intros c hs Hc; cbn [foldl].
  - by rewrite app_nil_r.
  - assert (hs ++ acquired (s :: ss) = (hs ++ acquired [s]) ++ acquired ss) as ->.
    { unfold acquired. cbn. by rewrite app_nil_r, app_assoc. }
    apply IH. by apply run_stmt_accounted.
Qed.

(** By its end a scope has released or given away what it acquired. *)
Definition released_once : Prop :=
  forall ss, Forall stmt_wf ss ->
    vars (run_scope ss) = [] /\ released (run_scope ss) ++ given (run_scope ss) ≡ₚ acquired ss.

Lemma scope_released_once : released_once.
Proof.
  intros ss Hss. split; [done|]. destruct (run_accounted ss (mkScope [] [] []) [] Hss) as [Hwf Hacc]; [by split|].
  unfold run_scope, end_scope. cbn [released given]. cbn in Hacc. rewrite <- Hacc.
  set (c := foldl _ _ ss) in *. clearbody c.
  assert (concat (rev (g_dtor <$> vars c)) ≡ₚ owned_by (vars c)) as ->.
  { rewrite <- (Permutation_rev (g_dtor <$> vars c)). unfold owned_by.
    clear Hacc. induction Hwf as [|g gs Hg _ IH]; [done|]. cbn. by rewrite IH, dtor_releases. }
  solve_Permutation.
Qed.
End programs.

Arguments stmt _ _ : clear implicits.
Arguments scope _ : clear implicits.
Arguments released_once _ _ {_}.

(** The constructors make well-formed wrappers. *)
Lemma constructors_wf session added uuid located channel :
  g_wf (MediaBugLease_new session added) /\ g_wf (SessionGuard_Locate uuid located channel).
Proof.
  split; [by destruct session|]. unfold SessionGuard_Locate. destruct (string_empty uuid); [done|]. by destruct located.
Qed.

(** C24. Handles are released exactly once. For each of the seven
    wrapper classes, whatever a scope does with its wrappers (constructing,
    moving, assigning, calling their methods), the handles it released by its end
    and those it gave away are together exactly those it acquired: none leaks,
    none is released twice, none is both released and given away. *)
Theorem handles_released_once :
  released_once EventGuard event_method /\ released_once MediaBugLease unit /\ released_once SessionLock unit /\
  released_once SessionGuard unit /\ released_once XmlNode xml_method /\ released_once BugHandle unit /\
  released_once OptionsEvent unit.
Proof. repeat split; apply scope_released_once; done. Qed.

(** An event moved, replaced and fired: the first is destroyed, the second given
    to FreeSWITCH. *)
Lemma handles_released_once_witness :
  released (run_scope [SNew (EventGuard_new (Some 1%nat)); SMove 0; SNew (EventGuard_adopt (Some 2%nat)); SAssign 1 2;
                       SCall EventFire 1]) ++
  given (run_scope [SNew (EventGuard_new (Some 1%nat)); SMove 0; SNew (EventGuard_adopt (Some 2%nat)); SAssign 1 2;
                    SCall EventFire 1]) ≡ₚ [1%nat; 2%nat].
Proof.
  exact (proj2 (proj1 handles_released_once
    [SNew (EventGuard_new (Some 1%nat)); SMove 0; SNew (EventGuard_adopt (Some 2%nat)); SAssign 1 2; SCall EventFire 1]
    ltac:(repeat (apply List.Forall_cons || apply List.Forall_nil || exact I)))).
Defined.

(** A session guard is valid exactly when a session was found for a non-empty
    name, and then it has its channel. *)
Lemma SessionGuard_Locate_spec uuid located channel :
  let g := SessionGuard_Locate uuid located channel in
  (Valid g = true <-> uuid <> ""%string /\ located <> None) /\
  channel_ g = (if string_empty uuid then None else channel <$> located).
Proof.
  unfold SessionGuard_Locate. destruct uuid as [|c uuid]; [by split; [split; [|intros [? _]]|]|].
  destruct located as [s|]; cbn; (split; [|done]); split; try done; by intros [_ ?].
Qed.

(** [attached] tells whether the handle will detach its bug. *)
Lemma attached_spec g : g_wf g -> attached g = bool_decide (g_owned g <> None).
Proof.
  destruct g as [[m|] b p u]; cbn; [|done]. intros Hwf. destruct b; [by destruct (Hwf ltac:(done))|done].
Qed.
