(* ===== verification/Logging.v ===== *)
(** * Logging: log lines, trace scopes, audit events

    [src/observability/log.cc], [log_default_sink.cc] and [audit.cc].  A regular
    expression is an abstract type and [std::regex_replace] an argument, which may
    throw; [text] is what [vsnprintf] formats, absent on an encoding error.  The
    slots (the sink, the patterns) are atomics and the traceparent is
    thread-local, so a run is any list of operations of any threads. *)

From S2P Require Import Prelude Raii.

#[local] Open Scope string_scope.
#[local] Open Scope Z_scope.

(** ** Formatting *)

Inductive Level := kTrace | kDebug | kInfo | kWarn | kError | kCritical.

Record SourceLocation := mkLocation { sl_file : option string; sl_function : option string; sl_line : Z }.

(** [vsnprintf(buf, size, fmt, ap)]: the result, and the characters stored
    before the terminating NUL. *)
Definition vsnprintf (text : option string) (size : nat) : Z * string :=
  match text with
  | None => (-1, "")
  | Some s => (Z.of_nat (String.length s), string_take (size - 1) s)
  end.

Definition kStackBuf : nat := 1024.

(** The stack buffer, or a heap string of the size the first call returned. *)
Definition format_line (text : option string) : option string :=
  let '(n, stack_buf) := vsnprintf text kStackBuf in
  if n <? 0 then None
  else if n <? Z.of_nat kStackBuf then Some (string_take (Z.to_nat n) stack_buf)
  else
    let '(n2, formatted) := vsnprintf text (Z.to_nat n + 1) in
    if n2 <? 0 then None else Some formatted.

Section redaction.
Context {Regex : Type}.
(** [std::regex_replace(s, re, with)]; [None] is a [std::regex_error]. *)
Context (regex_replace : string -> Regex -> string -> option string).

Fixpoint replace_all (out : string) (ps : list Regex) : option string :=
  match ps with
  | [] => Some out
  | re :: ps => match regex_replace out re "[REDACTED]" with Some out => replace_all out ps | None => None end
  end.

(** The slot always holds a list. *)
Definition ApplyPatterns (patterns : list Regex) (message : string) : option string :=
  match patterns with [] => Some message | _ => replace_all message patterns end.

(** ** The logger *)

(** A line as a sink gets it. *)
Record line := mkLine {
  ln_level : Level; ln_subsystem : string; ln_traceparent : string; ln_message : string; ln_location : SourceLocation }.

Inductive sink := NullSink | DefaultSink | TestSink.

(** [tls]: for each thread, its traceparent and the scopes in force, the inner
    first, each with the value it will restore. *)
Record logger := mkLogger {
  g_sink : sink;
  g_patterns : list Regex;
  tls : gmap nat (string * list string);
  lines_out : list (sink * line) }.

Definition logger_init : logger := mkLogger NullSink [] ∅ [].

Definition thread_state (t : nat) (l : logger) : string * list string := default ("", []) (tls l !! t).

Definition CurrentTraceparent (t : nat) (l : logger) : string := fst (thread_state t l).

Definition set_thread (t : nat) (s : string * list string) (l : logger) : logger :=
  mkLogger (g_sink l) (g_patterns l) (<[t := s]> (tls l)) (lines_out l).

(** The constructor saves the current value, the destructor restores it. *)
Definition TraceScope_new (t : nat) (traceparent : string) (l : logger) : logger :=
  let '(cur, scopes) := thread_state t l in set_thread t (traceparent, cur :: scopes) l.

Definition TraceScope_dtor (t : nat) (l : logger) : logger :=
  match thread_state t l with
  | (_, previous :: scopes) => set_thread t (previous, scopes) l
  | (_, []) => l
  end.

Definition SetSinkForTesting (new_sink : option sink) (l : logger) : sink * logger :=
  (g_sink l, mkLogger (default NullSink new_sink) (g_patterns l) (tls l) (lines_out l)).

Definition osw_log_install_default_sink (s : option sink) (l : logger) : logger :=
  match s with Some s => mkLogger s (g_patterns l) (tls l) (lines_out l) | None => l end.

Definition InstallDefaultSinkForModule (l : logger) : logger := osw_log_install_default_sink (Some DefaultSink) l.

Definition SetRedactionPatterns (ps : list Regex) (l : logger) : logger :=
  mkLogger (g_sink l) ps (tls l) (lines_out l).

(** [LogvAt] is [noexcept]: [None] is [std::terminate]. *)
Definition LogvAt (t : nat) (level : Level) (loc : SourceLocation) (subsystem : string) (text : option string)
    (l : logger) : option logger :=
  match format_line text with
  | None => Some l
  | Some formatted =>
      match ApplyPatterns (g_patterns l) formatted with
      | None => None
      | Some redacted =>
          Some (mkLogger (g_sink l) (g_patterns l) (tls l)
                  (lines_out l ++ [(g_sink l, mkLine level subsystem (CurrentTraceparent t l) redacted loc)])%list)
      end
  end.

Definition default_location : SourceLocation := mkLocation (Some "mod_open_switch") (Some "osw_log_emit") 0.

Definition Logv (t : nat) (level : Level) (subsystem : string) (text : option string) (l : logger) : option logger :=
  LogvAt t level default_location subsystem text l.
End redaction.

(** ** The default sink *)

Inductive switch_log_level := SWITCH_LOG_DEBUG | SWITCH_LOG_INFO | SWITCH_LOG_WARNING | SWITCH_LOG_ERROR | SWITCH_LOG_CRIT.

Definition MapLevel (lvl : Level) : switch_log_level :=
  match lvl with
  | kTrace | kDebug => SWITCH_LOG_DEBUG
  | kInfo => SWITCH_LOG_INFO
  | kWarn => SWITCH_LOG_WARNING
  | kError => SWITCH_LOG_ERROR
  | kCritical => SWITCH_LOG_CRIT
  end.

(** [%.*s]: at most the size given, and up to a NUL. *)
Fixpoint until_nul (s : string) : string :=
  match s with
  | EmptyString => ""
  | String c s => if Ascii.eqb c (char_of 0) then "" else String c (until_nul s)
  end.

Definition kLineBuf : nat := 2048.

(** The arguments of [switch_log_printf]. *)
Record printed := mkPrinted { pr_file : string; pr_function : string; pr_line : Z; pr_level : switch_log_level; pr_text : string }.

Definition DefaultSink_line (ln : line) : string :=
  if negb (string_empty (ln_traceparent ln))
  then "[osw:" +:+ until_nul (ln_subsystem ln) +:+ " tp=" +:+ until_nul (ln_traceparent ln) +:+ "] " +:+
       until_nul (ln_message ln)
  else "[osw:" +:+ until_nul (ln_subsystem ln) +:+ "] " +:+ until_nul (ln_message ln).

Definition DefaultSink_emit (ln : line) : printed :=
  mkPrinted (default "mod_open_switch" (sl_file (ln_location ln))) (default "osw_log_emit" (sl_function (ln_location ln)))
    (i32 (sl_line (ln_location ln))) (MapLevel (ln_level ln))
    (string_take (kLineBuf - 1) (DefaultSink_line ln) +:+ String (char_of 10) "").

(** ** Audit events *)

Record Header := mkHeader { h_name : string; h_value : string }.

Definition kSubclassPrefix : string := "osw.audit.".

(** The calls into FreeSWITCH on an event. *)
Inductive event_call :=
  | CreateSubclass (id : handle) (subclass : string)
  | AddHeader (id : handle) (name value : string) (ok : bool)
  | Fire (id : handle) (ok : bool)
  | Destroy (id : handle).

(** What FreeSWITCH answers: the event created, each header, the fire. *)
Record audit_answers := mkAnswers { aa_create : option handle; aa_header : nat -> bool; aa_fire : bool }.

Fixpoint add_headers (a : audit_answers) (id : handle) (i : nat) (hs : list Header) : list event_call :=
  match hs with
  | [] => []
  | h :: hs => AddHeader id (until_nul (h_name h)) (until_nul (h_value h)) (aa_header a i) :: add_headers a id (S i) hs
  end.

(** [fire] empties the guard, so its destructor destroys nothing. *)
Definition EmitFullSubclass (a : audit_answers) (subclass : string) (headers : list Header) : bool * list event_call :=
  if string_empty subclass then (false, [])
  else match aa_create a with
  | None => (false, [])
  | Some raw =>
      let guard := EventGuard_adopt (Some raw) in
      let calls := CreateSubclass raw (until_nul subclass) :: add_headers a raw 0 headers in
      let '(guard, _, fired) := EventGuard_call EventFire guard in
      let at_exit := Destroy <$> EventGuard_dtor guard in
      (aa_fire a, (calls ++ ((fun id => Fire id (aa_fire a)) <$> fired) ++ at_exit)%list)
  end.

Definition Emit (a : audit_answers) (name : string) (headers : list Header) : bool * list event_call :=
  if string_empty name then (false, []) else EmitFullSubclass a (kSubclassPrefix +:+ name) headers.

Definition EmitSubclass (a : audit_answers) (subclass : string) (headers : list Header) : bool * list event_call :=
  EmitFullSubclass a subclass headers.

(** ** Lines are formatted whole *)

Lemma string_take_all s n : (String.length s <= n)%nat -> string_take n s = s.
Proof.
  revert n. induction s as [|c s IH]; intros [|n] Hn; try done; cbn in Hn; [lia|].
  change (string_take (S n) (String c s)) with (String c (string_take n s)). rewrite IH by lia. done.
Qed.

(** Whichever buffer is used, the line is the whole text. *)
Lemma format_line_whole text : format_line text = text.
Proof.
  unfold format_line. destruct text as [s|]; [|done]. cbn [vsnprintf].
  destruct (Z.ltb_spec (Z.of_nat (String.length s)) 0); [lia|].
  destruct (Z.ltb_spec (Z.of_nat (String.length s)) (Z.of_nat kStackBuf)) as [Hs|Hs]; unfold kStackBuf in *.
  - rewrite Nat2Z.id. by rewrite !string_take_all by (rewrite ?string_take_all by lia; lia).
  - f_equal. apply string_take_all. lia.
Qed.

(** ** The logger against its specification *)

Section spec.
Context {Regex : Type} (regex_replace : string -> Regex -> string -> option string).

(** Operations of any threads. *)
Inductive log_op :=
  | OEnter (t : nat) (traceparent : string)
  | OLeave (t : nat)
  | OSink (s : option sink)
  | OPatterns (ps : list Regex)
  | OLog (t : nat) (level : Level) (loc : SourceLocation) (subsystem : string) (text : option string).

Definition exec_log (op : log_op) (l : logger (Regex := Regex)) : option logger :=
  match op with
  | OEnter t tp => Some (TraceScope_new t tp l)
  | OLeave t => Some (TraceScope_dtor t l)
  | OSink s => Some (snd (SetSinkForTesting s l))
  | OPatterns ps => Some (SetRedactionPatterns ps l)
  | OLog t level loc sub text => LogvAt regex_replace t level loc sub text l
  end.

Definition exec_logs (ops : list log_op) (l : logger) : option logger :=
  foldl (fun l op => l ≫= exec_log op) (Some l) ops.

(** What redaction promises, as a trace of texts: the first is the text, each
    pattern in turn takes one to the next by marking its matches, and the last is
    the message; or a pattern gives up on the text it got, and there is none. *)
Definition marks (re : Regex) (before after : string) : Prop :=
  regex_replace before re "[REDACTED]" = Some after.

Inductive redaction_trace : list string -> list Regex -> Prop :=
  | trace_start text : redaction_trace [text] []
  | trace_mark texts before re after ps :
      redaction_trace (texts ++ [before])%list ps -> marks re before after ->
      redaction_trace (texts ++ [before; after])%list (ps ++ [re])%list.

Definition redacted (ps : list Regex) (text message : string) : Prop :=
  exists texts, redaction_trace texts ps /\ head texts = Some text /\ last texts = Some message.

Definition redaction_fails (ps : list Regex) (text : string) : Prop :=
  exists ps1 re ps2 before, ps = (ps1 ++ re :: ps2)%list /\ redacted ps1 text before /\
    regex_replace before re "[REDACTED]" = None.

(** What a log promises: each thread has its stack of scopes, and a line carries
    the innermost one and the redacted text. *)
Record log_spec := mkLogSpec {
  sp_sink : sink; sp_patterns : list Regex; sp_scopes : nat -> list string; sp_out : list (sink * line) }.

Definition spec_init : log_spec := mkLogSpec NullSink [] (fun _ => []) [].

Definition upd {A} (f : nat -> A) (t : nat) (a : A) : nat -> A := fun t' => if decide (t' = t) then a else f t'.

(** [None] when the process ends. *)
Inductive spec_log (s : log_spec) : log_op -> option log_spec -> Prop :=
  | spec_enter t tp : spec_log s (OEnter t tp)
      (Some (mkLogSpec (sp_sink s) (sp_patterns s) (upd (sp_scopes s) t (tp :: sp_scopes s t)) (sp_out s)))
  | spec_leave t : spec_log s (OLeave t)
      (Some (mkLogSpec (sp_sink s) (sp_patterns s) (upd (sp_scopes s) t (tail (sp_scopes s t))) (sp_out s)))
  | spec_sink k : spec_log s (OSink k)
      (Some (mkLogSpec (default NullSink k) (sp_patterns s) (sp_scopes s) (sp_out s)))
  | spec_patterns ps : spec_log s (OPatterns ps) (Some (mkLogSpec (sp_sink s) ps (sp_scopes s) (sp_out s)))
  | spec_unformatted t level loc sub : spec_log s (OLog t level loc sub None) (Some s)
  | spec_line t level loc sub text message :
      redacted (sp_patterns s) text message ->
      spec_log s (OLog t level loc sub (Some text))
        (Some (mkLogSpec (sp_sink s) (sp_patterns s) (sp_scopes s)
           (sp_out s ++ [(sp_sink s, mkLine level sub (default "" (head (sp_scopes s t))) message loc)])%list))
  | spec_ends t level loc sub text :
      redaction_fails (sp_patterns s) text -> spec_log s (OLog t level loc sub (Some text)) None.

Inductive spec_logs (s : log_spec) : list log_op -> option log_spec -> Prop :=
  | spec_nothing : spec_logs s [] (Some s)
  | spec_stop op ops : spec_log s op None -> spec_logs s (op :: ops) None
  | spec_then op ops s' r : spec_log s op (Some s') -> spec_logs s' ops r -> spec_logs s (op :: ops) r.

(** The thread's value and those its scopes will restore are its stack, above
    the initial value. *)
Definition log_rel (l : logger (Regex := Regex)) (s : log_spec) : Prop :=
  g_sink l = sp_sink s /\ g_patterns l = sp_patterns s /\ lines_out l = sp_out s /\
  forall t, fst (thread_state t l) :: snd (thread_state t l) = (sp_scopes s t ++ [""])%list.

Lemma thread_state_set t t' st (l : logger (Regex := Regex)) :
  thread_state t' (set_thread t st l) = if decide (t' = t) then st else thread_state t' l.
Proof.
  unfold thread_state, set_thread. cbn. case_decide; [subst; by rewrite lookup_insert_eq|by rewrite lookup_insert_ne].
Qed.

(** The loop, from any point of the trace. *)
Lemma replace_all_trace ps : forall texts ps0 before,
  redaction_trace (texts ++ [before])%list ps0 ->
  match replace_all regex_replace before ps with
  | Some message => exists texts', redaction_trace (texts' ++ [message])%list (ps0 ++ ps)%list /\
      (texts ++ [before])%list `prefix_of` (texts' ++ [message])%list
  | None => exists ps1 re ps2 texts' m, ps = (ps1 ++ re :: ps2)%list /\
      redaction_trace (texts' ++ [m])%list (ps0 ++ ps1)%list /\
      (texts ++ [before])%list `prefix_of` (texts' ++ [m])%list /\ regex_replace m re "[REDACTED]" = None
  end.
Proof.
  induction ps as [|re ps IH]; intros texts ps0 before Ht; cbn [replace_all].
  { exists texts. by rewrite app_nil_r. }
  destruct (regex_replace before re "[REDACTED]") as [after|] eqn:E.
  2: { exists [], re, ps, texts, before. by rewrite app_nil_r. }
  pose proof (trace_mark _ _ _ _ _ Ht E) as Ht'.
  change [before; after] with ([before] ++ [after])%list in Ht'. rewrite app_assoc in Ht'.
  assert (Hpre : forall l, ((texts ++ [before]) ++ [after])%list `prefix_of` l -> (texts ++ [before])%list `prefix_of` l).
  { intros l Hl. etrans; [|exact Hl]. by exists [after]. }
  specialize (IH _ _ _ Ht'). destruct (replace_all regex_replace after ps) as [m|].
  - destruct IH as (texts' & H1 & H2). exists texts'. rewrite <- app_assoc in H1. auto.
  - destruct IH as (ps1 & re' & ps2 & texts' & m & -> & H1 & H2 & H3).
    exists (re :: ps1), re', ps2, texts', m. rewrite <- app_assoc in H1. auto.
Qed.

Lemma trace_ends text (l : list string) m :
  [text] `prefix_of` (l ++ [m])%list -> head (l ++ [m])%list = Some text /\ last (l ++ [m])%list = Some m.
Proof. intros [k Hk]. split; [by rewrite Hk|apply last_snoc]. Qed.

Lemma ApplyPatterns_redacts ps text :
  match ApplyPatterns regex_replace ps text with
  | Some message => redacted ps text message
  | None => redaction_fails ps text
  end.
Proof.
  assert (ApplyPatterns regex_replace ps text = replace_all regex_replace text ps) as -> by by destruct ps.
  pose proof (replace_all_trace ps [] [] text (trace_start text)) as H.
  destruct (replace_all _ _ _) as [m|].
  - destruct H as (l & Ht & Hp%trace_ends). by exists (l ++ [m])%list.
  - destruct H as (ps1 & re & ps2 & l & m & -> & Ht & Hp%trace_ends & Hn). exists ps1, re, ps2, m.
    split; [done|]. split; [by exists (l ++ [m])%list|done].
Qed.

(** The trace is the patterns' own: there is one message, or none. *)
Lemma redaction_trace_snoc texts ps re m :
  redaction_trace texts (ps ++ [re])%list -> last texts = Some m ->
  exists texts' before, texts = (texts' ++ [before; m])%list /\ redaction_trace (texts' ++ [before])%list ps /\
    marks re before m.
Proof.
  intros H Hl. inversion H as [t E1 E2|l b r a ps' Ht Hm E1 E2]; subst; [by destruct ps|].
  apply app_inj_tail in E2 as [-> ->]. exists l, b.
  change [b; a] with ([b] ++ [a])%list in Hl. rewrite app_assoc, last_snoc in Hl. by simplify_eq.
Qed.

Lemma redacted_functional ps text m1 m2 : redacted ps text m1 -> redacted ps text m2 -> m1 = m2.
Proof.
  revert m1 m2. induction ps as [|re ps IH] using rev_ind; intros m1 m2 (l1 & H1 & Hh1 & Hl1) (l2 & H2 & Hh2 & Hl2).
  - inversion H1 as [t1 E1 E1'|? ? ? ? ? ? ? E1 E1']; [|by destruct ps]. subst.
    inversion H2 as [t2 E2 E2'|? ? ? ? ? ? ? E2 E2']; [|by destruct ps]. subst. by simplify_eq/=.
  - apply (redaction_trace_snoc _ _ _ m1) in H1 as (k1 & b1 & -> & H1 & M1); [|done].
    apply (redaction_trace_snoc _ _ _ m2) in H2 as (k2 & b2 & -> & H2 & M2); [|done].
    assert (b1 = b2) as ->.
    { apply IH; [exists (k1 ++ [b1])%list|exists (k2 ++ [b2])%list]; (split; [done|]; split; [|apply last_snoc]);
        [destruct k1|destruct k2]; done. }
    unfold marks in *. congruence.
Qed.

(** Operations that end the process, or keep the relation. *)
Definition log_rel_opt (l : option (logger (Regex := Regex))) (s : option log_spec) : Prop :=
  match l, s with Some l, Some s => log_rel l s | None, None => True | _, _ => False end.

Lemma exec_log_refines op l s :
  log_rel l s -> exists r, spec_log s op r /\ log_rel_opt (exec_log op l) r.
Proof.
  intros (Hs & Hp & Ho & Ht). destruct op as [t tp|t|k|ps|t level loc sub [text|]]; cbn [exec_log].
  - eexists. split; [constructor|]. unfold TraceScope_new. pose proof (Ht t) as Htt.
    destruct (thread_state t l) as [cur scopes] eqn:E. cbn in Htt.
    repeat split; try done. intros t'. rewrite thread_state_set. cbn. unfold upd. case_decide; [|apply Ht].
    cbn. by rewrite Htt.
  - eexists. split; [constructor|]. unfold TraceScope_dtor. pose proof (Ht t) as Htt.
    destruct (thread_state t l) as [cur [|prev scopes]] eqn:E; cbn in Htt.
    + repeat split; try done. intros t'. cbn. unfold upd. case_decide as Hd; [subst|apply Ht]. rewrite E. cbn.
      destruct (sp_scopes s t) as [|x [|y ys]]; cbn in *; congruence.
    + repeat split; try done. intros t'. rewrite thread_state_set. cbn. unfold upd. case_decide; [|apply Ht]. cbn.
      destruct (sp_scopes s t) as [|x xs]; cbn in *; congruence.
  - eexists. split; [constructor|]. by repeat split.
  - eexists. split; [constructor|]. by repeat split.
  - unfold LogvAt. rewrite format_line_whole. pose proof (ApplyPatterns_redacts (g_patterns l) text) as Hr.
    rewrite Hp in *. destruct (ApplyPatterns regex_replace (sp_patterns s) text) as [m|].
    + eexists. split; [by apply spec_line|]. repeat split; try done. cbn. rewrite Ho, Hs. unfold CurrentTraceparent.
      pose proof (Ht t) as Htt. do 4 f_equal. destruct (sp_scopes s t); cbn in *; congruence.
    + exists None. split; [by apply spec_ends|done].
  - eexists. split; [constructor|]. unfold LogvAt. rewrite format_line_whole. by repeat split.
Qed.

Lemma exec_logs_none ops : foldl (fun l op => l ≫= exec_log op) None ops = None.
Proof. by induction ops. Qed.

(** C25. The logger does what it promises. For any sequence of operations of any
    threads (scopes entered and left, patterns and sinks replaced, lines logged),
    it goes the way of its specification: every line reached the sink then
    installed, with the thread's innermost traceparent and as its message the
    whole text after each of the patterns then published, in order, has replaced
    its matches; or the process ends, at the first line on which a pattern fails
    on the text the patterns before it left. *)
Theorem log_refines ops : exists r, spec_logs spec_init ops r /\ log_rel_opt (exec_logs ops logger_init) r.
Proof.
  assert (Hinit : log_rel logger_init spec_init) by by repeat split.
  unfold exec_logs. revert Hinit. generalize (logger_init (Regex := Regex)), spec_init.
  induction ops as [|op ops IH]; intros l s Hrel; cbn [foldl].
  { exists (Some s). split; [constructor|done]. }
  cbn [mbind option_bind]. destruct (exec_log_refines op l s Hrel) as ([s'|] & Hs & Hr).
  - destruct (exec_log op l) as [l'|]; [|done]. destruct (IH l' s' Hr) as (r & H1 & H2).
    exists r. split; [by eapply spec_then|done].
  - destruct (exec_log op l) as [l'|]; [done|]. exists None. split; [by apply spec_stop|]. by rewrite exec_logs_none.
Qed.
End spec.

(** Every occurrence of a word. *)
Fixpoint mark_word (skip : nat) (w mark s : string) : string :=
  match s with
  | EmptyString => EmptyString
  | String c s' =>
      match skip with
      | S n => mark_word n w mark s'
      | O => if string_starts_with w s then mark +:+ mark_word (pred (String.length w)) w mark s'
             else String c (mark_word 0 w mark s')
      end
  end.

Definition sample_replace (s w mark : string) : option string := Some (mark_word 0 w mark s).

Definition sample_log_ops : list log_op :=
  [OEnter 1 "a"; OEnter 2 "b"; OEnter 1 "c"; OPatterns ["hunter2"; "4111"];
   OLog 1 kInfo default_location "core" (Some "hunter2 pays with 4111, says hunter2"); OLeave 1;
   OLog 1 kWarn default_location "core" None; OSink (Some TestSink); OPatterns [];
   OLog 1 kWarn default_location "core" (Some "two")].

Lemma log_refines_witness :
  exists s, spec_logs sample_replace spec_init sample_log_ops (Some s) /\
  sp_out s = [(NullSink, mkLine kInfo "core" "c" "[REDACTED] pays with [REDACTED], says [REDACTED]" default_location);
              (TestSink, mkLine kWarn "core" "a" "two" default_location)].
Proof.
  destruct (log_refines sample_replace sample_log_ops) as ([s|] & Hs & Hr).
  - exists s. split; [exact Hs|]. destruct (exec_logs sample_replace sample_log_ops logger_init) as [l|] eqn:E; [|destruct Hr].
    destruct Hr as (_ & _ & <- & _). vm_compute in E. injection E as <-. reflexivity.
  - destruct (exec_logs sample_replace sample_log_ops logger_init) as [l|] eqn:E; [destruct Hr|]. by vm_compute in E.
Defined.

(** A pattern that the library gives up on ends the switch's process: the
    logger is [noexcept] and [std::regex_replace] throws. *)
Lemma redaction_can_terminate t level loc sub text :
  LogvAt (Regex := unit) (fun _ _ _ => None) t level loc sub (Some text) (SetRedactionPatterns [tt] logger_init) = None.
Proof. unfold LogvAt. by rewrite format_line_whole. Qed.

Fixpoint many (c : ascii) (n : nat) : string := match n with O => "" | S n => String c (many c n) end.

(** The default sink cuts a line at 2047 characters, silently. *)
Lemma default_sink_truncates :
  let ln := mkLine kInfo "core" "" (many "x" 3000) default_location in
  Z.of_nat (String.length (DefaultSink_line ln)) = 3011 /\
  Z.of_nat (String.length (pr_text (DefaultSink_emit ln))) = 2048.
Proof. by vm_compute. Qed.

(** ** The life of an audit event *)

(** The one event of a call: absent, being built, with FreeSWITCH, destroyed. *)
Inductive event_state :=
  | EvNone
  | EvOpen (id : handle) (subclass : string) (headers : list (string * string))
  | EvFired (subclass : string) (headers : list (string * string))
  | EvDead.

(** [None] for a call on an event that is not being built.  A fire that fails
    destroys the event. *)
Definition event_step (c : event_call) (st : event_state) : option event_state :=
  match c, st with
  | CreateSubclass id sub, EvNone => Some (EvOpen id sub [])
  | AddHeader id n v ok, EvOpen id' sub hs =>
      if decide (id = id') then Some (EvOpen id sub (if ok then hs ++ [(n, v)] else hs)%list) else None
  | Fire id ok, EvOpen id' sub hs =>
      if decide (id = id') then Some (if ok then EvFired sub hs else EvDead) else None
  | Destroy id, EvOpen id' _ _ => if decide (id = id') then Some EvDead else None
  | _, _ => None
  end.

Definition event_run (cs : list event_call) (st : event_state) : option event_state :=
  foldl (fun st c => st ≫= event_step c) (Some st) cs.

(** The headers FreeSWITCH accepted, in order. *)
Fixpoint accepted (a : audit_answers) (i : nat) (hs : list Header) : list (string * string) :=
  match hs with
  | [] => []
  | h :: hs =>
      ((if aa_header a i then [(until_nul (h_name h), until_nul (h_value h))] else []) ++ accepted a (S i) hs)%list
  end.

Lemma add_headers_run a id i hs sub hs0 :
  event_run (add_headers a id i hs) (EvOpen id sub hs0) = Some (EvOpen id sub (hs0 ++ accepted a i hs)%list).
Proof.
  unfold event_run. revert i hs0. induction hs as [|h hs IH]; intros i hs0; cbn; [by rewrite app_nil_r|].
  rewrite decide_True by done. cbn. destruct (aa_header a i).
  - rewrite IH. by rewrite <- app_assoc.
  - by rewrite IH.
Qed.

Lemma event_run_app a b st : event_run (a ++ b)%list st = event_run a st ≫= event_run b.
Proof.
  unfold event_run. rewrite foldl_app. destruct (foldl _ (Some st) a); [done|]. cbn. by induction b.
Qed.

(** The calls of one emission, under a full subclass. *)
Lemma EmitFullSubclass_settles a subclass headers :
  subclass <> "" ->
  event_run (snd (EmitFullSubclass a subclass headers)) EvNone =
    Some (match aa_create a with
          | None => EvNone
          | Some _ => if aa_fire a then EvFired (until_nul subclass) (accepted a 0 headers) else EvDead
          end) /\
  fst (EmitFullSubclass a subclass headers) = bool_decide (aa_create a <> None) && aa_fire a.
Proof.
  intros Hne. unfold EmitFullSubclass. assert (string_empty subclass = false) as -> by (by destruct subclass).
  destruct (aa_create a) as [raw|]; [|done]. cbn [EventGuard_adopt EventGuard_call EventGuard_dtor event_ release_of fmap
    list_fmap snd fst]. rewrite app_nil_r. change (?x :: ?y ++ ?z)%list with ([x] ++ y ++ z)%list.
  rewrite !event_run_app. cbn [event_run foldl mbind option_bind event_step].
  change (foldl (fun st c => st ≫= event_step c) (Some ?s)) with (fun cs => event_run cs s). cbv beta.
  rewrite add_headers_run. cbn. rewrite decide_True by done. by destruct (aa_fire a).
Qed.

(** An audit event is settled. Whatever FreeSWITCH answers, the event that
    [Emit] creates is only used while it is its own, and ends fired or destroyed,
    never leaked; the call succeeds exactly when it was fired, and then under the
    audit prefix and with exactly the headers that FreeSWITCH accepted, in the
    caller's order. *)
Theorem Emit_settles a name headers :
  event_run (snd (Emit a name headers)) EvNone =
    Some (if string_empty name then EvNone
          else match aa_create a with
               | None => EvNone
               | Some _ => if aa_fire a then EvFired (until_nul (kSubclassPrefix +:+ name)) (accepted a 0 headers)
                           else EvDead
               end) /\
  (fst (Emit a name headers) = true <->
   event_run (snd (Emit a name headers)) EvNone =
     Some (EvFired (until_nul (kSubclassPrefix +:+ name)) (accepted a 0 headers))).
Proof.
  unfold Emit. destruct (string_empty name); [done|].
  destruct (EmitFullSubclass_settles a (kSubclassPrefix +:+ name) headers) as [Hrun Hok]; [done|].
  rewrite Hrun, Hok. split; [done|]. destruct (aa_create a); cbn; [|done]. by destruct (aa_fire a).
Qed.

(** The audit of a certificate reload, documented as osw.control.tls.reload, is
    fired under the audit prefix. *)
Lemma reload_audit_subclass :
  exists hs, event_run (snd (Emit (mkAnswers (Some 1%nat) (fun _ => true) true) "control.tls.reload" [])) EvNone =
             Some (EvFired "osw.audit.control.tls.reload" hs).
Proof. by eexists. Qed.
