(* ===== verification/ChannelLocks.v ===== *)
(** * ChannelLocks: the per-channel lifecycle locks of the bug manager

    [ChannelLockFor] and [PruneExpiredChannelLock] of [media/bug_manager.cc] keep
    a map from channel names to weak pointers at mutexes; [Attach],
    [DetachInternal] and [DetachAll] take the mutex of their channel through a
    shared pointer, run their section, unlock, drop the pointer and prune the map.
    Threads interleave between the steps that are atomic in the code (the two
    map functions run under [mu_]; a lock, an unlock and the drop of a pointer are
    atomic in themselves).  The specification is a lock per channel name: it is
    what [BugManager]'s worlds keep, and what these locks are proved to be. *)

From S2P Require Import Prelude.

(** ** State *)

(** Where a thread is in one of the three operations, on channel [u]: it has a
    shared pointer at mutex [l] and is about to lock it; it is in its section; it
    has unlocked; it got no mutex and runs its section without one; it has dropped
    its pointer and is about to prune. *)
Inductive pc :=
  | Waiting (u : string) (l : nat)
  | Critical (u : string) (l : nat)
  | Unlocked (u : string) (l : nat)
  | Bare (prunes : bool) (u : string)
  | Pruning (u : string).

(** The shared pointer a thread holds. *)
Definition pc_lock (p : pc) : option (string * nat) :=
  match p with Waiting u l | Critical u l | Unlocked u l => Some (u, l) | Bare _ _ | Pruning _ => None end.

(** [channel_locks_]: an entry is an empty weak pointer or one at a mutex.  A
    mutex has the thread that locked it; its identity is that of its control
    block, which a weak pointer keeps from being reused. *)
Record cl_state := mkCl {
  channel_locks_ : gmap string (option nat);
  mutex_owner : gmap nat nat;
  next_lock : nat;
  threads : gmap nat pc }.

Definition cl_init : cl_state := mkCl ∅ ∅ 0 ∅.

(** A thread has a shared pointer at the mutex. *)
Definition points_at (l : nat) (p : pc) : bool :=
  match pc_lock p with Some (_, l') => Nat.eqb l l' | None => false end.

Definition pointed (ts : gmap nat pc) (l : nat) : bool := existsb (fun tp => points_at l tp.2) (map_to_list ts).

(** [weak_ptr::expired]. *)
Definition expired (ts : gmap nat pc) (w : option nat) : bool :=
  match w with Some l => negb (pointed ts l) | None => true end.

(** ** Operations *)

(** What the allocations of [ChannelLockFor] do: [channel_locks_[uuid]] may throw
    before it has made an entry, [make_shared] after. *)
Inductive alloc := AllocOk | NodeFails | MutexFails.

Definition ChannelLockFor (u : string) (a : alloc) (s : cl_state) : option nat * cl_state :=
  let fresh :=
    let locks := delete u (channel_locks_ s) in
    match a with
    | NodeFails => (None, mkCl locks (mutex_owner s) (next_lock s) (threads s))
    | MutexFails => (None, mkCl (<[u := None]> locks) (mutex_owner s) (next_lock s) (threads s))
    | AllocOk => (Some (next_lock s),
                  mkCl (<[u := Some (next_lock s)]> locks) (mutex_owner s) (S (next_lock s)) (threads s))
    end in
  match channel_locks_ s !! u with
  | Some (Some l) => if pointed (threads s) l then (Some l, s) else fresh
  | _ => fresh
  end.

Definition PruneExpiredChannelLock (u : string) (s : cl_state) : cl_state :=
  match channel_locks_ s !! u with
  | Some w => if expired (threads s) w
              then mkCl (delete u (channel_locks_ s)) (mutex_owner s) (next_lock s) (threads s) else s
  | None => s
  end.

(** The operation that asks for the lock: without one, [Attach] fails,
    [DetachInternal] and [DetachAll] go on; only [DetachAll] then prunes. *)
Inductive lock_client := ByAttach | ByDetach | ByDetachAll.

Definition on_null (c : lock_client) (u : string) : option pc :=
  match c with ByAttach => None | ByDetach => Some (Bare false u) | ByDetachAll => Some (Bare true u) end.

Inductive cl_label :=
  | LGet (t : nat) (c : lock_client) (u : string) (a : alloc)
  | LLock (t : nat)
  | LUnlock (t : nat)
  | LDrop (t : nat)
  | LBare (t : nat)
  | LPrune (t : nat).

(** What the sections see: a channel taken and given back by a thread. *)
Inductive cl_event := Taken (u : string) (t : nat) | Given (u : string) (t : nat).

(** A step may have to wait, be undefined behaviour (unlocking another's mutex,
    destroying a locked one) or be done. *)
Inductive outcome := Blocked | Undefined | Next (s : cl_state) (es : list cl_event).

Definition goto (t : nat) (p : pc) (s : cl_state) : cl_state :=
  mkCl (channel_locks_ s) (mutex_owner s) (next_lock s) (<[t := p]> (threads s)).
Definition leave (t : nat) (s : cl_state) : cl_state :=
  mkCl (channel_locks_ s) (mutex_owner s) (next_lock s) (delete t (threads s)).
Definition set_owner (o : gmap nat nat) (s : cl_state) : cl_state :=
  mkCl (channel_locks_ s) o (next_lock s) (threads s).

Definition cl_step (x : cl_label) (s : cl_state) : outcome :=
  match x with
  | LGet t c u a =>
      match threads s !! t with
      | Some _ => Blocked
      | None =>
          let '(got, s') := ChannelLockFor u a s in
          match got, on_null c u with
          | Some l, _ => Next (goto t (Waiting u l) s') []
          | None, Some p => Next (goto t p s') []
          | None, None => Next s' []
          end
      end
  | LLock t =>
      match threads s !! t with
      | Some (Waiting u l) =>
          match mutex_owner s !! l with
          | Some _ => Blocked
          | None => Next (goto t (Critical u l) (set_owner (<[l := t]> (mutex_owner s)) s)) [Taken u t]
          end
      | _ => Blocked
      end
  | LUnlock t =>
      match threads s !! t with
      | Some (Critical u l) =>
          if decide (mutex_owner s !! l = Some t)
          then Next (goto t (Unlocked u l) (set_owner (delete l (mutex_owner s)) s)) [Given u t]
          else Undefined
      | _ => Blocked
      end
  | LDrop t =>
      match threads s !! t with
      | Some (Unlocked u l) =>
          let s' := goto t (Pruning u) s in
          match mutex_owner s !! l with
          | Some _ => if pointed (threads s') l then Next s' [] else Undefined
          | None => Next s' []
          end
      | _ => Blocked
      end
  | LBare t =>
      match threads s !! t with
      | Some (Bare true u) => Next (goto t (Pruning u) s) []
      | Some (Bare false _) => Next (leave t s) []
      | _ => Blocked
      end
  | LPrune t =>
      match threads s !! t with
      | Some (Pruning u) => Next (leave t (PruneExpiredChannelLock u s)) []
      | _ => Blocked
      end
  end.

Fixpoint cl_run (s : cl_state) (xs : list cl_label) : outcome :=
  match xs with
  | [] => Next s []
  | x :: xs =>
      match cl_step x s with
      | Next s' es => match cl_run s' xs with Next s'' es' => Next s'' (es ++ es') | r => r end
      | r => r
      end
  end.

(** ** Specification: one lock per channel name *)

Definition keyed_step (k : gmap string nat) (e : cl_event) : option (gmap string nat) :=
  match e with
  | Taken u t => match k !! u with Some _ => None | None => Some (<[u := t]> k) end
  | Given u t => if decide (k !! u = Some t) then Some (delete u k) else None
  end.

Fixpoint keyed_run (k : gmap string nat) (es : list cl_event) : option (gmap string nat) :=
  match es with [] => Some k | e :: es => k' ← keyed_step k e; keyed_run k' es end.

(** The channel whose lock a thread holds. *)
Definition holder_of (tp : nat * pc) : option (string * nat) :=
  match tp.2 with Critical u _ => Some (u, tp.1) | _ => None end.

(** The abstraction: who holds the lock of which channel. *)
Definition owners (s : cl_state) : gmap string nat := list_to_map (omap holder_of (map_to_list (threads s))).

(** The threads in the section of a channel: with its lock, or without one when
    the allocation of the lock failed. *)
Definition in_section (u : string) (p : pc) : bool :=
  match p with Critical v _ | Bare _ v => String.eqb u v | _ => false end.

(** The channels a run failed to allocate an entry or a mutex for. *)
Definition unallocated (xs : list cl_label) : gset string :=
  list_to_set (omap (fun x => match x with LGet _ _ u (NodeFails | MutexFails) => Some u | _ => None end) xs).

(** The channels a run failed to allocate a mutex for after it had made their
    entry. *)
Definition failed_of (xs : list cl_label) : gset string :=
  list_to_set (omap (fun x => match x with LGet _ _ u MutexFails => Some u | _ => None end) xs).

(** ** The invariant *)

Record cl_inv (F : gset string) (s : cl_state) : Prop := {
  (** Every shared pointer is at the mutex the map has for its channel. *)
  inv_ptr : forall t p u l, threads s !! t = Some p -> pc_lock p = Some (u, l) -> channel_locks_ s !! u = Some (Some l);
  inv_inj : forall u u' l, channel_locks_ s !! u = Some (Some l) -> channel_locks_ s !! u' = Some (Some l) -> u = u';
  inv_fresh : forall u l, channel_locks_ s !! u = Some (Some l) -> (l < next_lock s)%nat;
  (** The locked mutexes are those of the sections. *)
  inv_owner : forall l t, mutex_owner s !! l = Some t <-> exists u, threads s !! t = Some (Critical u l);
  (** An entry is in use, or a thread is about to prune it. *)
  inv_entry : forall u l, channel_locks_ s !! u = Some (Some l) ->
    pointed (threads s) l = true \/ exists t, threads s !! t = Some (Pruning u);
  inv_null : forall u, channel_locks_ s !! u = Some None -> u ∈ F }.

Lemma pointed_spec ts l :
  pointed ts l = true <-> exists t p u, ts !! t = Some p /\ pc_lock p = Some (u, l).
Proof.
  unfold pointed, points_at. rewrite existsb_exists. split.
  - intros ([t p] & Hin & Hp). cbn in Hp. apply list_elem_of_In, elem_of_map_to_list in Hin.
    destruct (pc_lock p) as [[u l']|] eqn:E; [|done]. apply Nat.eqb_eq in Hp as ->. by exists t, p, u.
  - intros (t & p & u & Ht & Hp). exists (t, p). rewrite <- list_elem_of_In, elem_of_map_to_list. cbn.
    rewrite Hp. split; [done|apply Nat.eqb_refl].
Qed.

Lemma pointed_intro ts l t p u : ts !! t = Some p -> pc_lock p = Some (u, l) -> pointed ts l = true.
Proof. intros. apply pointed_spec. eauto. Qed.

Lemma holder_of_spec ts u t :
  (u, t) ∈ omap holder_of (map_to_list ts) <-> exists l, ts !! t = Some (Critical u l).
Proof.
  rewrite list_elem_of_omap. split.
  - intros ([t' p] & Hin & Hp). apply elem_of_map_to_list in Hin. unfold holder_of in Hp. cbn in Hp.
    destruct p; try done. simplify_eq. eauto.
  - intros [l Hl]. exists (t, Critical u l). by rewrite elem_of_map_to_list.
Qed.

(** The sections of a channel exclude each other. *)
Lemma sections_exclude F s u l l' t t' :
  cl_inv F s -> threads s !! t = Some (Critical u l) -> threads s !! t' = Some (Critical u l') -> t = t'.
Proof.
  intros I Ht Ht'. pose proof (inv_ptr _ _ I _ _ u l Ht eq_refl) as E. pose proof (inv_ptr _ _ I _ _ u l' Ht' eq_refl) as E'.
  rewrite E in E'. injection E' as <-. assert (mutex_owner s !! l = Some t) as E1 by (apply (inv_owner _ _ I); eauto).
  assert (mutex_owner s !! l = Some t') as E2 by (apply (inv_owner _ _ I); eauto). congruence.
Qed.

Lemma owners_spec F s u t : cl_inv F s -> owners s !! u = Some t <-> exists l, threads s !! t = Some (Critical u l).
Proof.
  intros I. rewrite <- holder_of_spec. unfold owners. split; [apply elem_of_list_to_map_2|].
  intros Ht. apply elem_of_list_to_map_1'; [|done]. intros t' Ht'.
  apply holder_of_spec in Ht as [l Hl]. apply holder_of_spec in Ht' as [l' Hl']. by eapply sections_exclude.
Qed.

(** Two maps with the same sections. *)
Lemma owners_eq F s k :
  cl_inv F s -> (forall u t, k !! u = Some t <-> exists l, threads s !! t = Some (Critical u l)) -> owners s = k.
Proof.
  intros I Hk. apply map_eq. intros u. apply option_eq. intros t. by rewrite (owners_spec F s u t I), Hk.
Qed.

Lemma cl_inv_init : cl_inv ∅ cl_init.
Proof. split; cbn; intros; simplify_map_eq; try done. split; [done|]. by intros [u ?]. Qed.

Lemma cl_inv_mono F F' s : F ⊆ F' -> cl_inv F s -> cl_inv F' s.
Proof. intros HF []. split; try done. intros u Hu. apply HF. eauto. Qed.

(** ** Preservation *)

(** A thread that moves between points at which it is in no section. *)
Lemma cl_inv_goto F s t p :
  cl_inv F s ->
  (forall u l, threads s !! t <> Some (Critical u l)) -> (forall u l, p <> Critical u l) ->
  (forall u l, pc_lock p = Some (u, l) -> channel_locks_ s !! u = Some (Some l)) ->
  (forall u, threads s !! t <> Some (Pruning u)) ->
  (forall q u l, threads s !! t = Some q -> pc_lock q = Some (u, l) -> pc_lock p = Some (u, l) \/ p = Pruning u) ->
  cl_inv F (goto t p s).
Proof.
  intros I Hold Hnew Hptr Hpr Hkeep. split; cbn [goto channel_locks_ mutex_owner next_lock threads].
  - intros t' q u l [[<- <-]|[_ Ht']]%lookup_insert_Some Hq; [by apply Hptr|by eapply inv_ptr].
  - apply (inv_inj _ _ I).
  - apply (inv_fresh _ _ I).
  - intros l t'. rewrite (inv_owner _ _ I). setoid_rewrite lookup_insert_Some. naive_solver.
  - intros u l Hl. destruct (inv_entry _ _ I u l Hl) as [(t' & q & u' & Ht' & Hq)%pointed_spec|[t' Ht']].
    + assert (u' = u) as -> by (eapply (inv_inj _ _ I); [by eapply inv_ptr|done]).
      destruct (decide (t = t')) as [<-|Hne].
      * destruct (Hkeep q u l Ht' Hq) as [Hp| ->]; [left|right].
        -- eapply pointed_intro; [by rewrite lookup_insert_eq|done].
        -- exists t. by rewrite lookup_insert_eq.
      * left. eapply pointed_intro; [by rewrite lookup_insert_ne|done].
    + right. exists t'. destruct (decide (t = t')) as [<-|Hne]; [by destruct (Hpr u)|by rewrite lookup_insert_ne].
  - apply (inv_null _ _ I).
Qed.

(** A new entry for a channel no thread has a pointer for. *)
Lemma cl_inv_entry F s u w n :
  cl_inv F s -> (forall t p l, threads s !! t = Some p -> pc_lock p <> Some (u, l)) -> (next_lock s <= n)%nat ->
  match w with
  | Some (Some l) => False
  | Some None => u ∈ F
  | None => True
  end ->
  cl_inv F (mkCl (partial_alter (fun _ => w) u (channel_locks_ s)) (mutex_owner s) n (threads s)).
Proof.
  intros I Hfree Hn Hw. split; cbn [channel_locks_ mutex_owner next_lock threads].
  - intros t p u' l Ht Hp. rewrite lookup_partial_alter_ne; [by eapply inv_ptr|]. intros ->. by destruct (Hfree t p l).
  - intros u1 u2 l H1 H2. apply lookup_partial_alter_Some in H1 as [[<- ->]|[_ H1]]; [done|].
    apply lookup_partial_alter_Some in H2 as [[<- ->]|[_ H2]]; [done|]. by eapply inv_inj.
  - intros u' l [[<- ->]|[_ H']]%lookup_partial_alter_Some; [done|]. pose proof (inv_fresh _ _ I _ _ H'). lia.
  - apply (inv_owner _ _ I).
  - intros u' l [[<- ->]|[_ H']]%lookup_partial_alter_Some; [done|]. by apply (inv_entry _ _ I).
  - intros u' [[<- ->]|[_ H']]%lookup_partial_alter_Some; [done|]. by apply (inv_null _ _ I).
Qed.

(** No thread points at the mutex of a channel whose entry is missing or
    expired. *)
Lemma expired_free F s u :
  cl_inv F s ->
  match channel_locks_ s !! u with Some w => expired (threads s) w = true | None => True end ->
  forall t p l, threads s !! t = Some p -> pc_lock p <> Some (u, l).
Proof.
  intros I He t p l Ht Hp. rewrite (inv_ptr _ _ I _ _ _ _ Ht Hp) in He. cbn in He.
  by rewrite (pointed_intro _ _ _ _ _ Ht Hp) in He.
Qed.

(** What [ChannelLockFor] does: it returns the mutex in use, or leaves a new
    entry for a channel no thread has a pointer for. *)
Lemma ChannelLockFor_cases F s u a :
  cl_inv F s ->
  (exists l, ChannelLockFor u a s = (Some l, s) /\ channel_locks_ s !! u = Some (Some l)) \/
  ((forall t p l, threads s !! t = Some p -> pc_lock p <> Some (u, l)) /\
   ChannelLockFor u a s =
     match a with
     | NodeFails => (None, mkCl (delete u (channel_locks_ s)) (mutex_owner s) (next_lock s) (threads s))
     | MutexFails => (None, mkCl (<[u := None]> (channel_locks_ s)) (mutex_owner s) (next_lock s) (threads s))
     | AllocOk => (Some (next_lock s),
                   mkCl (<[u := Some (next_lock s)]> (channel_locks_ s)) (mutex_owner s) (S (next_lock s)) (threads s))
     end).
Proof.
  intros I. pose proof (expired_free F s u I) as He. unfold ChannelLockFor. rewrite !insert_delete_eq.
  destruct (channel_locks_ s !! u) as [[l|]|]; [|right; split; [by apply He|by destruct a]..].
  cbn in He. destruct (pointed (threads s) l); [left; eauto|right; split; [by apply He|by destruct a]].
Qed.

(** A fresh mutex, with its first pointer. *)
Lemma cl_inv_fresh F s u t :
  cl_inv F s -> (forall t p l, threads s !! t = Some p -> pc_lock p <> Some (u, l)) -> threads s !! t = None ->
  cl_inv F (goto t (Waiting u (next_lock s))
    (mkCl (<[u := Some (next_lock s)]> (channel_locks_ s)) (mutex_owner s) (S (next_lock s)) (threads s))).
Proof.
  intros I Hfree Ht. split; cbn [goto channel_locks_ mutex_owner next_lock threads].
  - intros t' p u' l [[<- <-]|[Hne Ht']]%lookup_insert_Some Hp.
    + cbn in Hp. simplify_eq. by rewrite lookup_insert_eq.
    + rewrite lookup_insert_ne; [by eapply inv_ptr|]. intros ->. by destruct (Hfree t' p l).
  - intros u1 u2 l [[<- H1]|[N1 H1]]%lookup_insert_Some [[<- H2]|[N2 H2]]%lookup_insert_Some; simplify_eq; try done.
    + pose proof (inv_fresh _ _ I _ _ H2). lia.
    + pose proof (inv_fresh _ _ I _ _ H1). lia.
    + by eapply inv_inj.
  - intros u' l [[<- H1]|[N1 H1]]%lookup_insert_Some; simplify_eq; [lia|]. pose proof (inv_fresh _ _ I _ _ H1). lia.
  - intros l t'. rewrite (inv_owner _ _ I). setoid_rewrite lookup_insert_Some. naive_solver.
  - intros u' l [[<- H1]|[N1 H1]]%lookup_insert_Some.
    + simplify_eq. left. eapply pointed_intro; [by rewrite lookup_insert_eq|done].
    + destruct (inv_entry _ _ I _ _ H1) as [(t' & q & v & Ht' & Hq)%pointed_spec|[t' Ht']]; [left|right].
      * eapply pointed_intro; [|done]. rewrite lookup_insert_ne; [done|]. by intros ->; rewrite Ht' in Ht.
      * exists t'. rewrite lookup_insert_ne; [done|]. by intros ->; rewrite Ht' in Ht.
  - intros u' [[<- H1]|[N1 H1]]%lookup_insert_Some; [done|]. by apply (inv_null _ _ I).
Qed.

Lemma LGet_inv F s t c u a s' es :
  cl_inv F s -> cl_step (LGet t c u a) s = Next s' es -> cl_inv (F ∪ failed_of [LGet t c u a]) s'.
Proof.
  intros I. cbn [cl_step]. destruct (threads s !! t) eqn:Ht; [done|].
  assert (Hgo : forall G s0 p, cl_inv G s0 -> threads s0 = threads s -> (forall v l, p <> Critical v l) ->
    (forall v l, pc_lock p = Some (v, l) -> channel_locks_ s0 !! v = Some (Some l)) -> cl_inv G (goto t p s0)).
  { intros G s0 p I0 Hth Hp Hl. apply cl_inv_goto; rewrite ?Hth, ?Ht; done. }
  assert (Hnull : forall G s0, cl_inv G s0 -> threads s0 = threads s ->
    match on_null c u with Some p => Next (goto t p s0) [] | None => Next s0 [] end = Next s' es -> cl_inv G s').
  { intros G s0 I0 Hth. destruct c; cbn [on_null]; intros [= <- _]; [done|by apply Hgo..]. }
  destruct (ChannelLockFor_cases F s u a I) as [(l & -> & Hl)|[Hfree ->]].
  - intros [= <- _]. apply Hgo; [by eapply cl_inv_mono; [apply union_subseteq_l|]|done..|].
    intros v l' [= <- <-]. done.
  - assert (I' : cl_inv (F ∪ failed_of [LGet t c u a]) s) by (by eapply cl_inv_mono; [apply union_subseteq_l|]).
    destruct a.
    + intros [= <- _]. by apply cl_inv_fresh.
    + apply Hnull; [|done]. by apply (cl_inv_entry _ s u None).
    + apply Hnull; [|done]. apply (cl_inv_entry _ s u (Some None)); [done..|]. cbn. set_solver.
Qed.

(** A lock or an unlock: the thread keeps its pointer. *)
Lemma cl_inv_section F s t p q o :
  cl_inv F s -> threads s !! t = Some p -> pc_lock q = pc_lock p -> pc_lock p <> None ->
  (forall l t', o !! l = Some t' <-> exists u, <[t := q]> (threads s) !! t' = Some (Critical u l)) ->
  cl_inv F (goto t q (set_owner o s)).
Proof.
  intros I Ht Hq Hp Ho. split; cbn [goto set_owner channel_locks_ mutex_owner next_lock threads].
  - intros t' p' u l [[<- <-]|[_ Ht']]%lookup_insert_Some Hl; [rewrite Hq in Hl|]; by eapply inv_ptr.
  - apply (inv_inj _ _ I).
  - apply (inv_fresh _ _ I).
  - apply Ho.
  - intros u l Hl. destruct (inv_entry _ _ I _ _ Hl) as [(t' & p' & v & Ht' & Hp')%pointed_spec|[t' Ht']]; [left|right].
    + destruct (decide (t = t')) as [<-|Hne]; [|eapply pointed_intro; [by rewrite lookup_insert_ne|done]].
      eapply pointed_intro; [by rewrite lookup_insert_eq|]. rewrite Ht in Ht'. injection Ht' as <-. by rewrite Hq.
    + exists t'. rewrite lookup_insert_ne; [done|]. intros ->. rewrite Ht in Ht'. by injection Ht' as ->.
  - apply (inv_null _ _ I).
Qed.

Lemma LLock_inv F s t s' es : cl_inv F s -> cl_step (LLock t) s = Next s' es -> cl_inv F s'.
Proof.
  intros I. cbn [cl_step]. destruct (threads s !! t) as [[u l| | | | ]|] eqn:Ht; try done.
  destruct (mutex_owner s !! l) eqn:Ho; [done|]. intros [= <- _]. eapply cl_inv_section; [done..|].
  intros l' t'. setoid_rewrite lookup_insert_Some. rewrite (inv_owner _ _ I). split; [naive_solver|].
  intros (u' & [[<- [= <- <-]]|[Hne Ht']]); [by left|]. right. split; [|eauto]. intros <-.
  assert (mutex_owner s !! l = Some t') by (apply (inv_owner _ _ I); eauto). congruence.
Qed.

Lemma LUnlock_inv F s t s' es : cl_inv F s -> cl_step (LUnlock t) s = Next s' es -> cl_inv F s'.
Proof.
  intros I. cbn [cl_step]. destruct (threads s !! t) as [[ |u l| | | ]|] eqn:Ht; try done.
  case_decide as Ho; [|done]. intros [= <- _]. eapply cl_inv_section; [done..|].
  intros l' t'. setoid_rewrite lookup_insert_Some. rewrite lookup_delete_Some, (inv_owner _ _ I). split.
  - intros [Hne [u' Hu']]. exists u'. right. split; [|done]. intros <-. rewrite Ht in Hu'. by simplify_eq.
  - intros (u' & [[_ Hc]|[Hne Ht']]); [done|]. split; [|eauto]. intros <-.
    assert (mutex_owner s !! l = Some t') by (apply (inv_owner _ _ I); eauto). congruence.
Qed.

(** A locked mutex is pointed at by the thread in its section: dropping another
    pointer does not destroy it. *)
Lemma LDrop_pointed F s t u l t' :
  cl_inv F s -> threads s !! t = Some (Unlocked u l) -> mutex_owner s !! l = Some t' ->
  pointed (threads (goto t (Pruning u) s)) l = true.
Proof.
  intros I Ht Ho. apply (inv_owner _ _ I) in Ho as [v Hv]. apply (pointed_intro _ _ t' (Critical v l) v); [|done].
  cbn. rewrite lookup_insert_ne; [exact Hv|]. intros <-. by rewrite Ht in Hv.
Qed.

Lemma cl_inv_leave F s t p :
  cl_inv F s -> threads s !! t = Some p -> pc_lock p = None ->
  (forall u l, p = Pruning u -> channel_locks_ s !! u = Some (Some l) -> pointed (threads s) l = true) ->
  cl_inv F (leave t s).
Proof.
  intros I Ht Hp Hpr. split; cbn [leave channel_locks_ mutex_owner next_lock threads].
  - intros t' p' u l [_ Ht']%lookup_delete_Some Hl. by eapply inv_ptr.
  - apply (inv_inj _ _ I).
  - apply (inv_fresh _ _ I).
  - intros l t'. rewrite (inv_owner _ _ I). setoid_rewrite lookup_delete_Some. split; [|naive_solver].
    intros [u Hu]. exists u. split; [|done]. intros <-. rewrite Ht in Hu. by injection Hu as ->.
  - assert (Hkeep : forall l, pointed (threads s) l = true -> pointed (delete t (threads s)) l = true).
    { intros l (t' & q & v & Ht' & Hq)%pointed_spec. eapply pointed_intro; [|done]. rewrite lookup_delete_ne; [done|].
      intros <-. rewrite Ht in Ht'. injection Ht' as <-. by rewrite Hp in Hq. }
    intros u l Hl. destruct (inv_entry _ _ I _ _ Hl) as [H|[t' Ht']]; [left; auto|].
    destruct (decide (t = t')) as [<-|Hne]; [|right; exists t'; by rewrite lookup_delete_ne].
    left. rewrite Ht in Ht'. injection Ht' as ->. eauto.
  - apply (inv_null _ _ I).
Qed.

Lemma LPrune_inv F s t s' es : cl_inv F s -> cl_step (LPrune t) s = Next s' es -> cl_inv F s'.
Proof.
  intros I. cbn [cl_step]. destruct (threads s !! t) as [[ | | | |u]|] eqn:Ht; try done. intros [= <- _].
  unfold PruneExpiredChannelLock. pose proof (expired_free F s u I) as He.
  destruct (channel_locks_ s !! u) as [w|] eqn:Hu; [destruct (expired (threads s) w) eqn:Hw|].
  - eapply cl_inv_leave; [by apply (cl_inv_entry F s u None (next_lock s) I (He eq_refl))|exact Ht|done|].
    cbn. intros v l [= <-]. by rewrite lookup_delete_eq.
  - eapply cl_inv_leave; [done..|]. intros v l [= <-] Hl. rewrite Hu in Hl. injection Hl as ->. cbn in Hw.
    by destruct (pointed (threads s) l).
  - eapply cl_inv_leave; [done..|]. intros v l [= <-] Hl. by rewrite Hu in Hl.
Qed.

(** Every step preserves the invariant, and none is undefined. *)
Lemma cl_step_inv F s x s' es : cl_inv F s -> cl_step x s = Next s' es -> cl_inv (F ∪ failed_of [x]) s'.
Proof.
  intros I Hx. destruct x as [t c u a|t|t|t|t|t];
    [by eapply LGet_inv|eapply cl_inv_mono; [apply union_subseteq_l|]..].
  - by eapply LLock_inv.
  - by eapply LUnlock_inv.
  - cbn [cl_step] in Hx. destruct (threads s !! t) as [[ | |u l| | ]|] eqn:Ht; try done.
    assert (s' = goto t (Pruning u) s) as -> by (repeat case_match; by simplify_eq).
    apply cl_inv_goto; rewrite ?Ht; try done. intros q v l' [= <-] [= <- <-]. by right.
  - cbn [cl_step] in Hx. destruct (threads s !! t) as [[ | | |[] u| ]|] eqn:Ht; try done; injection Hx as <- _.
    + apply cl_inv_goto; rewrite ?Ht; try done. intros q v l' [= <-]. done.
    + by eapply cl_inv_leave.
  - by eapply LPrune_inv.
Qed.

Lemma cl_step_defined F s x : cl_inv F s -> cl_step x s <> Undefined.
Proof.
  intros I. destruct x as [t c u a|t|t|t|t|t]; cbn [cl_step]; [repeat case_match; done| | | | |].
  - destruct (threads s !! t) as [[]|]; by repeat case_match.
  - destruct (threads s !! t) as [[]|] eqn:Ht; try done. case_decide as Ho; [done|]. destruct Ho.
    apply (inv_owner _ _ I). eauto.
  - destruct (threads s !! t) as [[]|] eqn:Ht; try done. destruct (mutex_owner s !! l) eqn:Ho; [|done].
    by rewrite (LDrop_pointed F s t u l n).
  - by destruct (threads s !! t) as [[ | | |[]| ]|].
  - by destruct (threads s !! t) as [[]|].
Qed.

(** ** Refinement *)

Lemma owners_same F F' s s' :
  cl_inv F s -> cl_inv F' s' ->
  (forall t u l, threads s' !! t = Some (Critical u l) <-> threads s !! t = Some (Critical u l)) -> owners s' = owners s.
Proof.
  intros I I' Heq. eapply owners_eq; [exact I'|]. intros u t. rewrite (owners_spec F s u t I). by setoid_rewrite Heq.
Qed.

(** A thread that changes its point outside the sections. *)
Lemma quiet_goto s t p :
  (forall u l, threads s !! t <> Some (Critical u l)) -> (forall u l, p <> Critical u l) ->
  forall t' u l, threads (goto t p s) !! t' = Some (Critical u l) <-> threads s !! t' = Some (Critical u l).
Proof. intros Ht Hp t' u l. cbn. rewrite lookup_insert_Some. naive_solver. Qed.

Lemma quiet_leave s t :
  (forall u l, threads s !! t <> Some (Critical u l)) ->
  forall t' u l, threads (leave t s) !! t' = Some (Critical u l) <-> threads s !! t' = Some (Critical u l).
Proof. intros Ht t' u l. cbn. rewrite lookup_delete_Some. naive_solver. Qed.

Lemma ChannelLockFor_threads u a s : threads (ChannelLockFor u a s).2 = threads s.
Proof. unfold ChannelLockFor. destruct a; by repeat case_match. Qed.

Lemma PruneExpiredChannelLock_threads u s : threads (PruneExpiredChannelLock u s) = threads s.
Proof. unfold PruneExpiredChannelLock. by repeat case_match. Qed.

(** The steps that show nothing change no section. *)
Lemma silent_step s x s' :
  cl_step x s = Next s' [] ->
  forall t u l, threads s' !! t = Some (Critical u l) <-> threads s !! t = Some (Critical u l).
Proof.
  destruct x as [t c u a|t|t|t|t|t]; cbn [cl_step]; destruct (threads s !! t) as [p|] eqn:Ht; try done.
  - pose proof (ChannelLockFor_threads u a s) as Hth. destruct (ChannelLockFor u a s) as [got s0]. cbn in Hth.
    assert (Hgo : forall p, (forall v l, p <> Critical v l) -> forall t' v l,
      threads (goto t p s0) !! t' = Some (Critical v l) <-> threads s !! t' = Some (Critical v l)).
    { intros p Hp t' v l. rewrite quiet_goto; [by rewrite Hth|rewrite Hth; by rewrite Ht|done]. }
    destruct got; [|destruct c]; cbn [on_null]; intros [= <-]; [by apply Hgo|by rewrite Hth|by apply Hgo..].
  - destruct p; try done. by repeat case_match.
  - destruct p; try done. by repeat case_match.
  - destruct p as [| |u l| |]; try done.
    intros Hs. assert (s' = goto t (Pruning u) s) as -> by (repeat case_match; by simplify_eq).
    apply quiet_goto; [by rewrite Ht|done].
  - destruct p as [| | |[] u|]; try done; intros [= <-]; [apply quiet_goto; [by rewrite Ht|done]|apply quiet_leave; by rewrite Ht].
  - destruct p as [| | | |u]; try done. intros [= <-] t' v l.
    rewrite quiet_leave; rewrite PruneExpiredChannelLock_threads; [done|by rewrite Ht].
Qed.

(** A step of the locks is a step of the specification, or none. *)
Lemma cl_step_refines F s x s' es :
  cl_inv F s -> cl_step x s = Next s' es -> keyed_run (owners s) es = Some (owners s').
Proof.
  intros I Hx. pose proof (cl_step_inv _ _ _ _ _ I Hx) as I'. destruct es as [|e es].
  { cbn. f_equal. symmetry. eapply owners_same; [done..|]. by apply (silent_step s x). }
  destruct x as [t c u a|t|t|t|t|t]; cbn [cl_step] in Hx; destruct (threads s !! t) as [p|] eqn:Ht; try done.
  - destruct (ChannelLockFor u a s) as [[] ?]; [done|]. by destruct (on_null c u).
  - destruct p as [u l| | | |]; try done. destruct (mutex_owner s !! l) eqn:Ho; [done|]. injection Hx as <- <- <-.
    cbn [keyed_run keyed_step]. destruct (owners s !! u) as [t'|] eqn:E.
    { apply (owners_spec F s u t' I) in E as [l' Hl']. pose proof (inv_ptr _ _ I _ _ u l Ht eq_refl) as E1.
      pose proof (inv_ptr _ _ I _ _ u l' Hl' eq_refl) as E2. rewrite E1 in E2. injection E2 as <-.
      assert (mutex_owner s !! l = Some t') by (apply (inv_owner _ _ I); eauto). congruence. }
    cbn. f_equal. symmetry. eapply owners_eq; [exact I'|]. intros v t'. cbn [goto set_owner threads].
    rewrite lookup_insert_Some, (owners_spec F s v t' I). setoid_rewrite lookup_insert_Some. split; [naive_solver|].
    intros (l' & [[<- [= <- <-]]|[Hne Hl']]); [by left|right]. split; [|eauto]. intros <-.
    assert (owners s !! u = Some t') by (apply (owners_spec F s u t' I); eauto). congruence.
  - destruct p as [|u l| | |]; try done. case_decide as Ho; [|done]. injection Hx as <- <- <-.
    assert (E : owners s !! u = Some t) by (apply (owners_spec F s u t I); eauto).
    cbn [keyed_run keyed_step]. rewrite decide_True by done. cbn. f_equal. symmetry. eapply owners_eq; [exact I'|].
    intros v t'. cbn [goto set_owner threads]. rewrite lookup_delete_Some, (owners_spec F s v t' I). setoid_rewrite lookup_insert_Some. split.
    + intros [Hne [l' Hl']]. exists l'. right. split; [|done]. intros <-. rewrite Ht in Hl'. by injection Hl' as ->.
    + intros (l' & [[_ ?]|[Hne Hl']]); [done|]. split; [|eauto]. intros <-.
      destruct Hne. exact (sections_exclude F s u l l' t t' I Ht Hl').
  - destruct p as [| |u l| |]; try done. by repeat case_match.
  - by destruct p as [| | |[] u|].
  - by destruct p.
Qed.

(** A waiting thread is blocked exactly while its channel is taken. *)
Lemma blocked_spec F s t u l :
  cl_inv F s -> threads s !! t = Some (Waiting u l) -> (cl_step (LLock t) s = Blocked <-> owners s !! u <> None).
Proof.
  intros I Ht. pose proof (inv_ptr _ _ I _ _ u l Ht eq_refl) as El. cbn [cl_step]. rewrite Ht.
  destruct (mutex_owner s !! l) as [t'|] eqn:Ho.
  - apply (inv_owner _ _ I) in Ho as [v Hv]. pose proof (inv_ptr _ _ I _ _ v l Hv eq_refl) as Ev.
    assert (v = u) as -> by (by eapply (inv_inj _ _ I)).
    assert (owners s !! u = Some t') as -> by (apply (owners_spec F s u t' I); eauto). done.
  - split; [done|]. intros Hu. destruct (owners s !! u) as [t'|] eqn:E; [|done].
    apply (owners_spec F s u t' I) in E as [l' Hl']. pose proof (inv_ptr _ _ I _ _ u l' Hl' eq_refl) as E2.
    rewrite El in E2. injection E2 as <-. assert (mutex_owner s !! l = Some t') by (apply (inv_owner _ _ I); eauto). congruence.
Qed.

(** ** Progress *)

(** The steps a thread has left, at most. *)
Definition steps_left (p : pc) : nat :=
  match p with Waiting _ _ => 4 | Critical _ _ => 3 | Unlocked _ _ => 2 | Bare true _ => 2 | Bare false _ => 1 | Pruning _ => 1 end.

Definition work (ts : gmap nat pc) : nat := sum_list (steps_left ∘ snd <$> map_to_list ts).

Lemma work_delete ts t p : ts !! t = Some p -> work ts = (steps_left p + work (delete t ts))%nat.
Proof. intros Ht. unfold work. by rewrite <- (map_to_list_delete ts t p Ht). Qed.

Lemma work_insert ts t p q : ts !! t = Some p -> (steps_left q < steps_left p)%nat -> (work (<[t := q]> ts) < work ts)%nat.
Proof.
  intros Ht Hlt. rewrite (work_delete ts t p Ht), (work_delete (<[t := q]> ts) t q) by (by rewrite lookup_insert_eq).
  rewrite delete_insert_eq. lia.
Qed.

Lemma work_leave ts t p : ts !! t = Some p -> (work (delete t ts) < work ts)%nat.
Proof. intros Ht. rewrite (work_delete ts t p Ht). destruct p as [| | |[]|]; cbn; lia. Qed.

(** The labels that end operations under way. *)
Definition continues (x : cl_label) : Prop := match x with LGet _ _ _ _ => False | _ => True end.

(** The threads do not deadlock: while an operation is under way, one of them has
    a step. *)
Lemma cl_progress F s :
  cl_inv F s -> threads s <> ∅ ->
  exists x s' es, continues x /\ cl_step x s = Next s' es /\ (work (threads s') < work (threads s))%nat.
Proof.
  intros I (t & p & Ht)%map_choose.
  assert (Hunlock : forall t' u l, threads s !! t' = Some (Critical u l) -> exists x s' es,
    continues x /\ cl_step x s = Next s' es /\ (work (threads s') < work (threads s))%nat).
  { intros t' u l Ht'. exists (LUnlock t'). cbn [cl_step]. rewrite Ht'.
    rewrite decide_True by (apply (inv_owner _ _ I); eauto). do 2 eexists.
    split; [done|]. split; [done|]. eapply work_insert; [eassumption|cbn; lia]. }
  destruct p as [u l|u l|u l|b u|u].
  - destruct (mutex_owner s !! l) as [t'|] eqn:Ho.
    + apply (inv_owner _ _ I) in Ho as [v Hv]. eauto.
    + exists (LLock t). cbn [cl_step]. rewrite Ht, Ho. do 2 eexists. split; [done|]. split; [done|].
      eapply work_insert; [eassumption|cbn; lia].
  - eauto.
  - exists (LDrop t), (goto t (Pruning u) s), []. split; [done|]. split; [|eapply work_insert; [eassumption|cbn; lia]].
    cbn [cl_step]. rewrite Ht. destruct (mutex_owner s !! l) eqn:Ho; [|done]. by rewrite (LDrop_pointed F s t u l n).
  - exists (LBare t). cbn [cl_step]. rewrite Ht. destruct b; do 2 eexists; (split; [done|]); (split; [done|]).
    + eapply work_insert; [eassumption|cbn; lia].
    + by eapply work_leave.
  - exists (LPrune t). cbn [cl_step]. rewrite Ht. do 2 eexists. split; [done|]. split; [done|]. cbn [leave threads].
    rewrite PruneExpiredChannelLock_threads. by eapply work_leave.
Qed.

(** ** Runs *)

Lemma cl_run_inv xs : forall F s s' es,
  cl_inv F s -> cl_run s xs = Next s' es ->
  cl_inv (F ∪ failed_of xs) s' /\ keyed_run (owners s) es = Some (owners s').
Proof.
  induction xs as [|x xs IH]; intros F s s' es I; cbn [cl_run].
  { intros [= <- <-]. split; [|done]. eapply cl_inv_mono; [apply union_subseteq_l|done]. }
  destruct (cl_step x s) as [| |s1 es1] eqn:Hx; [done..|]. destruct (cl_run s1 xs) as [| |s2 es2] eqn:Hr; [done..|].
  intros [= <- <-]. pose proof (cl_step_inv _ _ _ _ _ I Hx) as I1. pose proof (cl_step_refines _ _ _ _ _ I Hx) as R1.
  destruct (IH _ _ _ _ I1 Hr) as [I2 R2]. split.
  - eapply cl_inv_mono; [|exact I2]. unfold failed_of. cbn. destruct x as [? ? ? []| | | | |]; cbn; set_solver.
  - clear - R1 R2. revert R1. generalize (owners s). induction es1 as [|e es1 IHe]; intros k; cbn [keyed_run app].
    + intros [= ->]. exact R2.
    + destruct (keyed_step k e); cbn; [apply IHe|done].
Qed.

Lemma cl_run_defined xs : forall F s, cl_inv F s -> cl_run s xs <> Undefined.
Proof.
  induction xs as [|x xs IH]; intros F s I; cbn [cl_run]; [done|].
  destruct (cl_step x s) as [| |s1 es1] eqn:Hx; [done|by destruct (cl_step_defined F s x)|].
  pose proof (IH _ s1 (cl_step_inv _ _ _ _ _ I Hx)). by destruct (cl_run s1 xs).
Qed.

Lemma failed_continues xs : Forall continues xs -> failed_of xs = ∅.
Proof. unfold failed_of. induction 1 as [|x xs Hx _ IH]; [done|]. by destruct x. Qed.

(** The operations under way can all be ended. *)
Lemma cl_drains F s :
  cl_inv F s -> exists ys s' es, Forall continues ys /\ cl_run s ys = Next s' es /\ threads s' = ∅.
Proof.
  remember (work (threads s)) as n eqn:Hn. revert F s Hn. induction (lt_wf n) as [n _ IH]. intros F s -> I.
  destruct (decide (threads s = ∅)) as [He|Hne]; [by exists [], s, []|].
  destruct (cl_progress F s I Hne) as (x & s1 & es1 & Hc & Hx & Hlt).
  destruct (IH _ Hlt _ s1 eq_refl (cl_step_inv _ _ _ _ _ I Hx)) as (ys & s' & es & Hys & Hr & He).
  exists (x :: ys), s', (es1 ++ es). split; [by constructor|]. split; [|done]. cbn [cl_run]. by rewrite Hx, Hr.
Qed.

(** With no operation under way, the entries left are those of failed
    allocations. *)
Lemma quiescent_entries F s u w :
  cl_inv F s -> threads s = ∅ -> channel_locks_ s !! u = Some w -> w = None /\ u ∈ F.
Proof.
  intros I He Hu. destruct w as [l|]; [exfalso|by split; [|apply (inv_null _ _ I)]].
  destruct (inv_entry _ _ I _ _ Hu) as [(t & p & v & Ht & _)%pointed_spec|[t Ht]]; by rewrite He, lookup_empty in Ht.
Qed.

(** ** Sections without a lock *)

Definition bare_inv (G : gset string) (s : cl_state) : Prop :=
  forall t b u, threads s !! t = Some (Bare b u) -> u ∈ G.

Lemma bare_goto G s t p : bare_inv G s -> (forall b u, p = Bare b u -> u ∈ G) -> bare_inv G (goto t p s).
Proof. intros I Hp t' b u. cbn. intros [[_ ?]|[_ ?]]%lookup_insert_Some; [by eapply Hp|by eapply I]. Qed.

Lemma bare_leave G s t : bare_inv G s -> bare_inv G (leave t s).
Proof. intros I t' b u. cbn. intros [_ ?]%lookup_delete_Some. by eapply I. Qed.

(** [ChannelLockFor] gives no lock only when it could not allocate one. *)
Lemma ChannelLockFor_null u a s s' : ChannelLockFor u a s = (None, s') -> a <> AllocOk.
Proof. unfold ChannelLockFor. intros H ->. by repeat case_match. Qed.

Lemma bare_step G s x s' es : bare_inv G s -> cl_step x s = Next s' es -> bare_inv (G ∪ unallocated [x]) s'.
Proof.
  intros I. assert (I' : bare_inv (G ∪ unallocated [x]) s) by (intros ????; apply elem_of_union_l; by eapply I).
  destruct x as [t c u a|t|t|t|t|t]; cbn [cl_step]; destruct (threads s !! t) as [p|] eqn:Ht; try done.
  - pose proof (ChannelLockFor_threads u a s) as Hth. pose proof (ChannelLockFor_null u a s) as Hn.
    destruct (ChannelLockFor u a s) as [[l|] s0]; cbn [snd] in Hth;
      (assert (I0 : bare_inv (G ∪ unallocated [LGet t c u a]) s0) by (intros ???; rewrite Hth; apply I')).
    + intros [= <- _]. by apply bare_goto.
    + specialize (Hn s0 eq_refl). assert (Hu : u ∈ G ∪ unallocated [LGet t c u a]) by (destruct a; [done|set_solver..]).
      destruct c; cbn [on_null]; intros [= <- _]; [done|apply bare_goto; [done|]; by intros ?? [= _ <-]..].
  - destruct p; try done. destruct (mutex_owner s !! l); [done|]. intros [= <- _]. by apply bare_goto.
  - destruct p; try done. case_decide; [|done]. intros [= <- _]. by apply bare_goto.
  - destruct p as [| |u l| |]; try done. intros H. assert (s' = goto t (Pruning u) s) as -> by (repeat case_match; by simplify_eq).
    by apply bare_goto.
  - destruct p as [| | |[] u|]; try done; intros [= <- _]; [by apply bare_goto|by apply bare_leave].
  - destruct p as [| | | |u]; try done. intros [= <- _]. apply bare_leave. intros ???. rewrite PruneExpiredChannelLock_threads. apply I'.
Qed.

Lemma bare_run xs : forall G s s' es, bare_inv G s -> cl_run s xs = Next s' es -> bare_inv (G ∪ unallocated xs) s'.
Proof.
  induction xs as [|x xs IH]; intros G s s' es I; cbn [cl_run].
  { intros [= <- <-] ????. apply elem_of_union_l. by eapply I. }
  destruct (cl_step x s) as [| |s1 es1] eqn:Hx; [done..|]. destruct (cl_run s1 xs) as [| |s2 es2] eqn:Hr; [done..|].
  intros [= <- <-]. pose proof (IH _ _ _ _ (bare_step _ _ _ _ _ I Hx) Hr) as I2.
  intros t b u Ht. specialize (I2 t b u Ht). unfold unallocated in *. cbn in *.
  destruct x as [? ? ? []| | | | |]; cbn in *; set_solver.
Qed.

(** Two threads in the section of a channel whose locks could be allocated are
    one. *)
Lemma sections_exclude_allocated F G s u t t' p p' :
  cl_inv F s -> bare_inv G s -> u ∉ G ->
  threads s !! t = Some p -> threads s !! t' = Some p' -> in_section u p = true -> in_section u p' = true -> t = t'.
Proof.
  intros I B Hu Ht Ht' Hp Hp'.
  destruct p as [|v l| |b v|]; try done; cbn in Hp; apply String.eqb_eq in Hp as <-; [|by destruct Hu; eapply B].
  destruct p' as [|v l'| |b v|]; try done; cbn in Hp'; apply String.eqb_eq in Hp' as <-; [|by destruct Hu; eapply B].
  by eapply sections_exclude.
Qed.

(** C4. The map of weak pointers at mutexes is a lock per channel name. Whatever
    the schedule of the threads and whichever allocations fail, no mutex is
    unlocked by a thread that did not lock it and none is destroyed locked; the
    mutexes are locked and unlocked as one lock per channel name allows. Two threads are
    never in the section of one channel, unless the run failed to allocate that channel's lock: a
    detach goes on without a lock then, and only then. A thread waits only while its
    own channel's lock is held; and the operations under way can always be ended,
    which leaves the map without entries but for channels whose mutex could not be
    allocated. *)
Theorem channel_locks_refine xs :
  cl_run cl_init xs <> Undefined /\
  forall s es, cl_run cl_init xs = Next s es ->
    keyed_run ∅ es = Some (owners s) /\
    (forall u t t' p p', u ∉ unallocated xs -> threads s !! t = Some p -> threads s !! t' = Some p' ->
       in_section u p = true -> in_section u p' = true -> t = t') /\
    (forall t b u, threads s !! t = Some (Bare b u) -> u ∈ unallocated xs) /\
    (forall t u l, threads s !! t = Some (Waiting u l) -> (cl_step (LLock t) s = Blocked <-> owners s !! u <> None)) /\
    exists ys s' es', Forall continues ys /\ cl_run s ys = Next s' es' /\ threads s' = ∅ /\
      forall u w, channel_locks_ s' !! u = Some w -> w = None /\ u ∈ failed_of xs.
Proof.
  split; [eapply cl_run_defined, cl_inv_init|]. intros s es Hr.
  destruct (cl_run_inv _ _ _ _ _ cl_inv_init Hr) as [I R].
  assert (B : bare_inv (unallocated xs) s).
  { rewrite <- (union_empty_l_L (unallocated xs)). eapply bare_run; [|exact Hr]. by intros ????. }
  split; [exact R|]. split; [|split; [exact B|]].
  { intros u t t' p p' Hu. by eapply sections_exclude_allocated. }
  split.
  { intros t u l. by apply (blocked_spec _ s t u l I). }
  destruct (cl_drains _ s I) as (ys & s' & es' & Hys & Hr' & He). exists ys, s', es'. split; [done|]. split; [done|].
  split; [done|]. intros u w Hu. destruct (cl_run_inv _ _ _ _ _ I Hr') as [I' _].
  rewrite (failed_continues ys Hys) in I'. destruct (quiescent_entries _ s' u w I' He Hu). set_solver.
Qed.

(** An attach in its section, a detach waiting on the same channel with the same
    mutex, a channel destroy on another whose mutex cannot be allocated. *)
Definition sample_cl_labels : list cl_label :=
  [LGet 1 ByAttach "a" AllocOk; LLock 1; LGet 2 ByDetach "a" AllocOk; LGet 3 ByDetachAll "b" MutexFails].

Definition sample_cl_state : cl_state :=
  match cl_run cl_init sample_cl_labels with Next s _ => s | _ => cl_init end.

Lemma channel_locks_refine_witness :
  cl_step (LLock 2) sample_cl_state = Blocked /\ owners sample_cl_state = {[ "a" := 1%nat ]} /\
  (cl_step (LLock 2) sample_cl_state = Blocked <-> owners sample_cl_state !! "a" <> None).
Proof.
  split; [by vm_compute|]. split; [by vm_compute|].
  destruct (channel_locks_refine sample_cl_labels) as [_ H].
  destruct (H sample_cl_state [Taken "a" 1] ltac:(by vm_compute)) as (_ & _ & _ & Hb & _).
  apply (Hb 2%nat "a" 0%nat). by vm_compute.
Defined.

(** An entry made before [make_shared] failed stays until the channel's name is
    used again: [Attach] returns without pruning it, as does [DetachInternal]. *)
Lemma failed_attach_leaves_entry :
  cl_run cl_init [LGet 1 ByAttach "a" MutexFails] = Next (mkCl {[ "a" := None ]} ∅ 0 ∅) [].
Proof. by vm_compute. Qed.

(** A detach that gets no mutex does not wait for the section of another detach of
    the channel that gets none either: both are in it. *)
Lemma bare_sections_overlap :
  exists s, cl_run cl_init [LGet 1 ByDetach "a" NodeFails; LGet 2 ByDetachAll "a" MutexFails] = Next s [] /\
    (in_section "a" <$> threads s !! 1%nat) = Some true /\ (in_section "a" <$> threads s !! 2%nat) = Some true.
Proof. eexists. split; [reflexivity|]. by vm_compute. Qed.
