(* ===== verification/TtsDump.v ===== *)
(** * The debug capture of the TTS playout buffer

    [InitDebugDumpLocked], [DebugCaptureSamples] and [DebugFlushDumpsLocked] of
    [src/media/tts_playout_buffer.cc], with the calls [Push], [Pop],
    [SetStreamId] and the destructor make to them.  The environment variable, the
    allocations, the results of [open] and of each [write] are arguments. *)

From S2P Require Import Prelude AudioFrame TtsPlayout.

(** ** The path *)

Definition path_char_safe (ch : ascii) : bool :=
  let n := N_of_ascii ch in
  ((97 <=? n) && (n <=? 122) || (65 <=? n) && (n <=? 90) || (48 <=? n) && (n <=? 57) || (n =? 45) || (n =? 95))%N.

Fixpoint sanitize_loop (value : string) : string :=
  match value with
  | EmptyString => EmptyString
  | String ch value => String (if path_char_safe ch then ch else "_"%char) (sanitize_loop value)
  end.

Definition SanitizePathComponent (value : string) : string :=
  match sanitize_loop value with EmptyString => "unknown"%string | out => out end.

(** ** Writing *)

(** What one call of [write] returns: a count, or an error that is [EINTR] or
    not. *)
Inductive write_result := Wrote (n : nat) | WriteError (eintr : bool).

(** What reached the file and the result; [None] while the calls that have
    returned do not settle it. *)
Fixpoint WriteAll (data : list Z) (rs : list write_result) : option (list Z * bool) :=
  match data, rs with
  | [], _ => Some ([], true)
  | _, [] => None
  | _, WriteError true :: rs => WriteAll data rs
  | _, WriteError false :: _ => Some ([], false)
  | _, Wrote O :: _ => Some ([], false)
  | _, Wrote n :: rs =>
      let k := Nat.min n (length data) in
      '(w, ok) ← WriteAll (drop k data) rs; Some (take k data ++ w, ok)
  end.

(** ** The capture *)

Record Dump := mkDump {
  debug_audio_enabled_ : bool;
  debug_audio_checked_ : bool;
  debug_audio_flushed_ : bool;
  debug_audio_max_samples_ : nat;
  debug_audio_dir_ : string;
  debug_push_samples_ : list Z;
  debug_pop_samples_ : list Z }.

Definition Dump_new : Dump := mkDump false false false 0 "" [] [].

Definition kDefaultDebugDumpSeconds : Z := 90.

(** The channel's rate and number of channels, of the buffer's configuration. *)
Record dump_cfg := mkDumpCfg { channel_sample_rate_hz : Z; dump_channels : Z }.

Definition max_samples (c : dump_cfg) : nat :=
  Z.to_nat ((channel_sample_rate_hz c *u64 dump_channels c) *u64 kDefaultDebugDumpSeconds).

(** [dir] is the environment's [OSW_TTS_DUMP_DIR]; the reservations may throw. *)
Definition InitDebugDumpLocked (c : dump_cfg) (dir : option string) (reserve_ok : bool) (d : Dump) : Dump :=
  if debug_audio_checked_ d then d
  else
    let set en mx dir :=
      mkDump en true (debug_audio_flushed_ d) mx dir (debug_push_samples_ d) (debug_pop_samples_ d) in
    match dir with
    | None | Some EmptyString => set (debug_audio_enabled_ d) (debug_audio_max_samples_ d) (debug_audio_dir_ d)
    | Some dir =>
        if (max_samples c =? 0)%nat then set (debug_audio_enabled_ d) (max_samples c) dir
        else set reserve_ok (max_samples c) dir
    end.

(** [DebugCaptureSamples] on the vector [dst]: the vector, and whether the capture
    is still on. *)
Definition DebugCaptureSamples (append_ok : bool) (samples dst : list Z) (d : Dump) : list Z * bool :=
  let mx := debug_audio_max_samples_ d in
  if negb (debug_audio_enabled_ d) || (length samples =? 0)%nat || (mx <=? length dst)%nat
  then (dst, debug_audio_enabled_ d)
  else if append_ok then (dst ++ take (Nat.min (mx - length dst) (length samples)) samples, true)
  else (dst, false).

Definition capture_push (append_ok : bool) (samples : list Z) (d : Dump) : Dump :=
  let '(v, en) := DebugCaptureSamples append_ok samples (debug_push_samples_ d) d in
  mkDump en (debug_audio_checked_ d) (debug_audio_flushed_ d) (debug_audio_max_samples_ d) (debug_audio_dir_ d)
    v (debug_pop_samples_ d).

Definition capture_pop (append_ok : bool) (samples : list Z) (d : Dump) : Dump :=
  let '(v, en) := DebugCaptureSamples append_ok samples (debug_pop_samples_ d) d in
  mkDump en (debug_audio_checked_ d) (debug_audio_flushed_ d) (debug_audio_max_samples_ d) (debug_audio_dir_ d)
    (debug_push_samples_ d) v.

(** The results of [open] and of the [write] calls for one file. *)
Record file_io := mkFileIo { open_ok : bool; writes : list write_result }.

(** A file truncated and written: its stage and path, its bytes, and whether all
    writes succeeded. *)
Record dump_file := mkDumpFile { df_stage : string; df_path : string; df_bytes : list Z; df_ok : bool }.

Definition dump_path (c : dump_cfg) (dir stream_id stage : string) : string :=
  (dir +:+ "/osw-tts-" +:+ SanitizePathComponent stream_id +:+ "." +:+ stage +:+
   ".rate" +:+ pretty (channel_sample_rate_hz c) +:+ ".s16le")%string.

Definition write_stage (path stage : string) (samples : list Z) (io : file_io) : option (list dump_file) :=
  if (length samples =? 0)%nat then Some []
  else if negb (open_ok io) then Some []
  else '(w, ok) ← WriteAll (bytes_of_samples samples) (writes io); Some [mkDumpFile stage path w ok].

Definition DebugFlushDumpsLocked (c : dump_cfg) (stream_id : string) (push_io pop_io : file_io) (d : Dump)
  : option (Dump * list dump_file) :=
  if negb (debug_audio_enabled_ d) || debug_audio_flushed_ d then Some (d, [])
  else
    f1 ← write_stage (dump_path c (debug_audio_dir_ d) stream_id "push") "push" (debug_push_samples_ d) push_io;
    f2 ← write_stage (dump_path c (debug_audio_dir_ d) stream_id "pop") "pop" (debug_pop_samples_ d) pop_io;
    Some (mkDump (debug_audio_enabled_ d) (debug_audio_checked_ d) true (debug_audio_max_samples_ d)
            (debug_audio_dir_ d) (debug_push_samples_ d) (debug_pop_samples_ d), f1 ++ f2).

(** ** The buffer with its capture *)

Record tts_dump := mkTtsDump { td_buf : TtsPlayoutBuffer; td_stream_id : string; td_dump : Dump }.

(** A run: the labels set, the buffer's operations, its destruction. *)
Inductive dump_op :=
  | DSetStreamId (id : string) (dir : option string) (reserve_ok : bool)
  | DTts (o : tts_op) (append_ok : bool) (push_io pop_io : file_io)
  | DDestroy (push_io pop_io : file_io).

(** [Pop] finds the stream ended and drained. *)
Definition drained (b : TtsPlayoutBuffer) (o : tts_op) : bool :=
  match o with OpPop (S _) _ => eos_ b && (length (tts_queue b) =? 0)%nat | _ => false end.

Definition dump_step (c : dump_cfg) (o : dump_op) (s : tts_dump) : option (tts_dump * list dump_file) :=
  match o with
  | DSetStreamId id dir ok => Some (mkTtsDump (td_buf s) id (InitDebugDumpLocked c dir ok (td_dump s)), [])
  | DTts o ok push_io pop_io =>
      let '(outs, b') := tts_step o (td_buf s) in
      match o with
      | OpPush f _ => Some (mkTtsDump b' (td_stream_id s)
                              (capture_push ok (take (usamples f) (samples_ f)) (td_dump s)), [])
      | OpPop _ _ =>
          if drained (td_buf s) o
          then '(d, fs) ← DebugFlushDumpsLocked c (td_stream_id s) push_io pop_io (td_dump s);
               Some (mkTtsDump b' (td_stream_id s) d, fs)
          else Some (mkTtsDump b' (td_stream_id s) (capture_pop ok (outs ≫= snd) (td_dump s)), [])
      | OpEos => Some (mkTtsDump b' (td_stream_id s) (td_dump s), [])
      end
  | DDestroy push_io pop_io =>
      '(d, fs) ← DebugFlushDumpsLocked c (td_stream_id s) push_io pop_io (td_dump s);
      Some (mkTtsDump (td_buf s) (td_stream_id s) d, fs)
  end.

Fixpoint dump_run (c : dump_cfg) (os : list dump_op) (s : tts_dump) : option (tts_dump * list dump_file) :=
  match os with
  | [] => Some (s, [])
  | o :: os => '(s1, f1) ← dump_step c o s; '(s2, f2) ← dump_run c os s1; Some (s2, f1 ++ f2)
  end.

(** ** What the files hold *)

Lemma sanitize_loop_safe value : forall c, c ∈ list_ascii_of_string (sanitize_loop value) -> path_char_safe c = true.
Proof.
  induction value as [|ch value IH]; cbn; [intros c Hc; by apply elem_of_nil in Hc|].
  intros c [->|Hc]%elem_of_cons; [|by apply IH]. by destruct (path_char_safe ch) eqn:E.
Qed.

(** The component the stream's id becomes has letters, digits, hyphens and
    underscores only, so no separator and no dot, and is not empty. *)
Lemma SanitizePathComponent_safe value :
  SanitizePathComponent value <> ""%string /\
  forall c, c ∈ list_ascii_of_string (SanitizePathComponent value) -> path_char_safe c = true.
Proof.
  unfold SanitizePathComponent. pose proof (sanitize_loop_safe value) as H.
  destruct (sanitize_loop value) as [|ch out]; [|split; [done|exact H]]. split; [done|].
  intros c Hc. cbn in Hc. rewrite !elem_of_cons, elem_of_nil in Hc. by destruct_or!; subst.
Qed.

(** An id that is clean already is its own component. *)
Lemma SanitizePathComponent_clean value :
  value <> ""%string -> (forall c, c ∈ list_ascii_of_string value -> path_char_safe c = true) ->
  SanitizePathComponent value = value.
Proof.
  intros Hne Hsafe. assert (E : sanitize_loop value = value).
  { clear Hne. induction value as [|ch value IH]; cbn; [done|]. rewrite Hsafe by (cbn; constructor). f_equal. apply IH.
    intros c Hc. apply Hsafe. cbn. by constructor. }
  unfold SanitizePathComponent. rewrite E. by destruct value.
Qed.

(** What was written is a prefix of the data, all of it on success. *)
Lemma dump_write_prefix rs : forall data w ok,
  WriteAll data rs = Some (w, ok) -> w `prefix_of` data /\ (ok = true -> w = data).
Proof.
  induction rs as [|r rs IH]; intros [|x data] w ok; cbn [WriteAll]; try by intros [= <- <-].
  destruct r as [[|n]|[]]; [by intros [= <- <-]; split; [apply prefix_nil|]| |apply IH|
    by intros [= <- <-]; split; [apply prefix_nil|]].
  set (k := Nat.min (S n) (length (x :: data))). destruct (WriteAll (drop k (x :: data)) rs) as [[w' ok']|] eqn:E; [|done].
  cbn [mbind option_bind]. intros Hw. injection Hw as Hw <-. change (take k (x :: data) ++ w' = w) in Hw. subst w.
  destruct (IH _ _ _ E) as [Hp Hok]. split.
  - destruct Hp as [z Hz]. exists z. rewrite <- app_assoc, <- Hz. symmetry. apply take_drop.
  - intros Ht. rewrite (Hok Ht). apply take_drop.
Qed.

Definition settles (r : write_result) : bool := match r with WriteError true => false | _ => true end.

(** Interrupted calls apart, a call for each byte is enough. *)
Lemma dump_write_returns rs : forall data,
  (length data <= length (filter settles rs))%nat -> is_Some (WriteAll data rs).
Proof.
  induction rs as [|r rs IH]; intros [|x data] Hlen; cbn [WriteAll]; try (by eexists); [cbn in Hlen; lia|].
  destruct r as [[|n]|[]]; try by eexists.
  - set (k := Nat.min (S n) (length (x :: data))).
    destruct (IH (drop k (x :: data))) as [[w ok] E]; [|rewrite E; by eexists].
    rewrite length_drop. rewrite filter_cons_True in Hlen by done. cbn [length] in *. lia.
  - apply IH. by rewrite filter_cons_False in Hlen by (by intros []).
Qed.

(** Appending under the limit keeps the first samples of the stream. *)
Lemma capture_first d samples pre :
  debug_audio_enabled_ d = true ->
  DebugCaptureSamples true samples (take (debug_audio_max_samples_ d) pre) d =
  (take (debug_audio_max_samples_ d) (pre ++ samples), true).
Proof.
  intros He. unfold DebugCaptureSamples. rewrite He. set (mx := debug_audio_max_samples_ d). cbn [negb orb].
  rewrite take_app. destruct (length samples =? 0)%nat eqn:E1; cbn [orb].
  { apply Nat.eqb_eq, nil_length_inv in E1 as ->. by rewrite take_nil, app_nil_r. }
  destruct (mx <=? length (take mx pre))%nat eqn:E2.
  - apply Nat.leb_le in E2. rewrite length_take in E2. assert (mx - length pre = 0)%nat as -> by lia. by rewrite app_nil_r.
  - apply Nat.leb_gt in E2. rewrite length_take in *. f_equal. f_equal.
    destruct (Nat.le_gt_cases (length samples) (mx - length pre)).
    + rewrite !take_ge; [done|lia..].
    + f_equal. lia.
Qed.

(** The samples a run of the buffer is given and gives. *)
Definition captured_in (os : list tts_op) : list Z :=
  os ≫= fun o => match o with OpPush f _ => take (usamples f) (samples_ f) | _ => [] end.
Definition captured_out (os : list tts_op) (b : TtsPlayoutBuffer) : list Z := (tts_run os b).1 ≫= snd.

(** The file of a stage: its path, and the bytes of the first samples. *)
Definition records (c : dump_cfg) (dir id : string) (f : dump_file) (samples : list Z) : Prop :=
  df_path f = dump_path c dir id (df_stage f) /\
  df_bytes f `prefix_of` bytes_of_samples (take (max_samples c) samples) /\
  (df_ok f = true -> df_bytes f = bytes_of_samples (take (max_samples c) samples)).

Definition dumped (c : dump_cfg) (dir id : string) (ins outs : list Z) (fs : list dump_file) : Prop :=
  df_stage <$> fs `sublist_of` ["push"; "pop"]%string /\
  forall f, f ∈ fs -> records c dir id f (if String.eqb (df_stage f) "push" then ins else outs).

Lemma write_stage_records c dir id stage samples io fs :
  write_stage (dump_path c dir id stage) stage (take (max_samples c) samples) io = Some fs ->
  df_stage <$> fs `sublist_of` [stage] /\ forall f, f ∈ fs -> df_stage f = stage /\ records c dir id f samples.
Proof.
  assert (Hnil : df_stage <$> [] `sublist_of` [stage] /\
                 forall f, f ∈ ([] : list dump_file) -> df_stage f = stage /\ records c dir id f samples).
  { split; [apply sublist_nil_l|]. by intros f Hf%elem_of_nil. }
  unfold write_stage. case_match; [by intros [= <-]|]. case_match; [by intros [= <-]|].
  destruct (WriteAll _ _) as [[w ok]|] eqn:E; [|done]. intros [= <-]. split; [done|].
  intros f ->%list_elem_of_singleton. split; [done|]. destruct (dump_write_prefix _ _ _ _ E). by repeat split.
Qed.

(** The state of a capture under way. *)
Record capturing (c : dump_cfg) (dir : string) (ins outs : list Z) (d : Dump) : Prop := {
  cap_enabled : debug_audio_enabled_ d = true;
  cap_unflushed : debug_audio_flushed_ d = false;
  cap_max : debug_audio_max_samples_ d = max_samples c;
  cap_dir : debug_audio_dir_ d = dir;
  cap_in : debug_push_samples_ d = take (max_samples c) ins;
  cap_out : debug_pop_samples_ d = take (max_samples c) outs }.

Lemma capture_push_capturing c dir ins outs samples d :
  capturing c dir ins outs d -> capturing c dir (ins ++ samples) outs (capture_push true samples d).
Proof.
  intros []. unfold capture_push. rewrite cap_in0, <- cap_max0, capture_first by done. split; cbn; congruence.
Qed.

Lemma capture_pop_capturing c dir ins outs samples d :
  capturing c dir ins outs d -> capturing c dir ins (outs ++ samples) (capture_pop true samples d).
Proof.
  intros []. unfold capture_pop. rewrite cap_out0, <- cap_max0, capture_first by done. split; cbn; congruence.
Qed.

Lemma flush_dumps c dir id ins outs push_io pop_io d d' fs :
  capturing c dir ins outs d -> DebugFlushDumpsLocked c id push_io pop_io d = Some (d', fs) ->
  debug_audio_flushed_ d' = true /\ dumped c dir id ins outs fs.
Proof.
  intros []. unfold DebugFlushDumpsLocked. rewrite cap_enabled0, cap_unflushed0, cap_dir0, cap_in0, cap_out0. cbn [negb orb].
  destruct (write_stage _ "push" _ _) as [f1|] eqn:E1; [|done]. cbn [mbind option_bind].
  destruct (write_stage _ "pop" _ _) as [f2|] eqn:E2; [|done]. cbn [mbind option_bind]. intros [= <- <-].
  destruct (write_stage_records _ _ _ _ _ _ _ E1) as [S1 R1]. destruct (write_stage_records _ _ _ _ _ _ _ E2) as [S2 R2].
  split; [done|]. split.
  - rewrite fmap_app. by apply (sublist_app _ ["push"%string] _ ["pop"%string]).
  - intros f [Hf|Hf]%elem_of_app; [destruct (R1 f Hf) as [E R]|destruct (R2 f Hf) as [E R]]; by rewrite E.
Qed.

(** Once flushed, nothing is written again. *)
Lemma flushed_step c o s s' fs :
  debug_audio_flushed_ (td_dump s) = true -> dump_step c o s = Some (s', fs) ->
  debug_audio_flushed_ (td_dump s') = true /\ fs = [].
Proof.
  intros Hf. assert (Hflush : forall p q, DebugFlushDumpsLocked c (td_stream_id s) p q (td_dump s) = Some (td_dump s, [])).
  { intros p q. unfold DebugFlushDumpsLocked. by rewrite Hf, orb_true_r. }
  destruct o as [id dir ok|o ok p q|p q]; cbn [dump_step].
  - intros [= <- <-]. split; [|done]. cbn. unfold InitDebugDumpLocked. by repeat case_match.
  - destruct (tts_step o (td_buf s)) as [outs b']. destruct o as [f now|cap now|].
    + intros [= <- <-]. split; [|done]. cbn. unfold capture_push. by destruct (DebugCaptureSamples _ _ _ _).
    + destruct (drained (td_buf s) (OpPop cap now)).
      * rewrite Hflush. by intros [= <- <-].
      * intros [= <- <-]. split; [|done]. cbn. unfold capture_pop. by destruct (DebugCaptureSamples _ _ _ _).
    + by intros [= <- <-].
  - rewrite Hflush. by intros [= <- <-].
Qed.

Lemma flushed_run c os : forall s s' fs,
  debug_audio_flushed_ (td_dump s) = true -> dump_run c os s = Some (s', fs) -> fs = [].
Proof.
  induction os as [|o os IH]; intros s s' fs Hf; cbn [dump_run]; [by intros [= _ <-]|].
  destruct (dump_step c o s) as [[s1 f1]|] eqn:E; [|done]. cbn [mbind option_bind].
  destruct (dump_run c os s1) as [[s2 f2]|] eqn:E2; [|done]. intros [= _ <-].
  destruct (flushed_step _ _ _ _ _ Hf E) as [Hf1 ->]. by rewrite (IH _ _ _ Hf1 E2).
Qed.

(** The buffer's operations with the results of the files of each. *)
Definition dump_ops (os : list (tts_op * (file_io * file_io))) : list dump_op :=
  (fun o => DTts o.1 true o.2.1 o.2.2) <$> os.

(** The files are written after [n] operations: at the first [Pop] that finds the
    stream drained, or at the end. *)
Definition flushed_at (os : list tts_op) (b : TtsPlayoutBuffer) (n : nat) : Prop :=
  n = length os \/ exists o, os !! n = Some o /\ drained (tts_run (take n os) b).2 o = true.

(** One operation that does not flush. *)
Lemma capture_step c dir ins outs o p q s s1 f1 :
  capturing c dir ins outs (td_dump s) -> drained (td_buf s) o = false ->
  dump_step c (DTts o true p q) s = Some (s1, f1) ->
  f1 = [] /\ td_stream_id s1 = td_stream_id s /\ td_buf s1 = (tts_step o (td_buf s)).2 /\
  capturing c dir (ins ++ captured_in [o]) (outs ++ ((tts_step o (td_buf s)).1 ≫= snd)) (td_dump s1).
Proof.
  intros Hc Hd. cbn [dump_step]. destruct (tts_step o (td_buf s)) as [ro b'] eqn:Eo. cbn [fst snd].
  destruct o as [f now|cap now|].
  - cbn [tts_step] in Eo. injection Eo as <- _. intros [= <- <-]. unfold captured_in. cbn. rewrite !app_nil_r.
    split; [done|]. split; [done|]. split; [done|]. by apply capture_push_capturing.
  - rewrite Hd. intros [= <- <-]. unfold captured_in. cbn [mbind list_bind]. rewrite !app_nil_r.
    split; [done|]. split; [done|]. split; [done|]. by apply capture_pop_capturing.
  - cbn [tts_step] in Eo. injection Eo as <- _. intros [= <- <-]. unfold captured_in. cbn. by rewrite !app_nil_r.
Qed.

Lemma dump_run_records c dir id p q os : forall s s' fs ins outs,
  capturing c dir ins outs (td_dump s) -> td_stream_id s = id ->
  dump_run c (dump_ops os ++ [DDestroy p q]) s = Some (s', fs) ->
  exists n, flushed_at os.*1 (td_buf s) n /\
    dumped c dir id (ins ++ captured_in (take n os.*1)) (outs ++ captured_out (take n os.*1) (td_buf s)) fs.
Proof.
  induction os as [|[o [p' q']] os IH]; intros s s' fs ins outs Hc Hid; cbn [dump_ops fmap list_fmap app dump_run].
  - cbn [dump_step]. rewrite Hid. destruct (DebugFlushDumpsLocked _ _ _ _ _) as [[d f]|] eqn:E; [|done].
    cbn [mbind option_bind]. intros [= _ <-]. rewrite app_nil_r. exists 0%nat. split; [by left|].
    unfold captured_in, captured_out. cbn. rewrite !app_nil_r. by eapply flush_dumps.
  - cbn [fst snd]. destruct (dump_step c (DTts o true p' q') s) as [[s1 f1]|] eqn:E1; [|done]. cbn [mbind option_bind].
    destruct (dump_run c _ s1) as [[s2 f2]|] eqn:E2; [|done]. intros [= _ <-].
    destruct (drained (td_buf s) o) eqn:Hd.
    + cbn [dump_step] in E1. destruct (tts_step o (td_buf s)) as [ro b']. destruct o as [|cap now|]; [done| |done].
      rewrite Hd, Hid in E1. destruct (DebugFlushDumpsLocked _ _ _ _ _) as [[d f]|] eqn:E; [|done].
      cbn [mbind option_bind] in E1. injection E1 as <- <-. destruct (flush_dumps _ _ _ _ _ _ _ _ _ _ Hc E) as [Hf Hdump].
      rewrite (flushed_run _ _ (mkTtsDump b' id d) _ _ Hf E2), app_nil_r. exists 0%nat. split; [right; by eexists|].
      unfold captured_in, captured_out. cbn. by rewrite !app_nil_r.
    + destruct (capture_step _ _ _ _ _ _ _ _ _ _ Hc Hd E1) as (-> & Hid1 & Hb1 & Hc1). rewrite Hid in Hid1.
      destruct (IH _ _ _ _ _ Hc1 Hid1 E2) as (n & Hn & Hdump). rewrite Hb1 in Hn, Hdump. exists (S n). cbn [take].
      assert (Hrun : forall l, tts_run (o :: l) (td_buf s) =
        ((tts_step o (td_buf s)).1 ++ (tts_run l (tts_step o (td_buf s)).2).1, (tts_run l (tts_step o (td_buf s)).2).2)).
      { intros l. cbn [tts_run]. destruct (tts_step o (td_buf s)) as [r b1]. cbn. by destruct (tts_run l b1). }
      split.
      * destruct Hn as [->|(o' & Ho' & Hd')]; [by left|]. right. exists o'. split; [done|]. cbn [take]. by rewrite Hrun.
      * unfold captured_in, captured_out in *. rewrite Hrun. cbn [fst]. rewrite bind_app.
        cbn [mbind list_bind] in Hdump |- *. rewrite !app_nil_r in Hdump. by rewrite !app_assoc.
Qed.

(** The dump is a faithful record. A buffer with the capture on (the variable set
    before any audio, storage for it) writes at most one file of what it was given and one of
    what it gave, once, at the first [Pop] that finds the stream drained or else
    at its destruction; each is named for the stream inside the directory and
    holds the little-endian bytes of the first samples, up to the limit: all of
    them when its writes succeed, a prefix otherwise. *)
Theorem dump_faithful c cfg dir id os p q s fs :
  dir <> ""%string -> max_samples c <> 0%nat ->
  dump_run c (DSetStreamId id (Some dir) true :: dump_ops os ++ [DDestroy p q])
    (mkTtsDump (TtsPlayoutBuffer_new cfg) "" Dump_new) = Some (s, fs) ->
  exists n, flushed_at os.*1 (TtsPlayoutBuffer_new cfg) n /\
    dumped c dir id (captured_in (take n os.*1)) (captured_out (take n os.*1) (TtsPlayoutBuffer_new cfg)) fs.
Proof.
  intros Hdir Hmax. cbn [dump_run dump_step mbind option_bind td_buf td_dump].
  destruct (dump_run c (dump_ops os ++ _) _) as [[s2 f2]|] eqn:E; [|done]. intros [= _ <-].
  assert (Hc : capturing c dir [] [] (InitDebugDumpLocked c (Some dir) true Dump_new)).
  { unfold InitDebugDumpLocked. cbn. destruct dir as [|a dir]; [done|]. destruct (Nat.eqb_spec (max_samples c) 0); [done|].
    split; cbn; by rewrite ?take_nil. }
  exact (dump_run_records c dir id p q os (mkTtsDump _ id _) _ _ [] [] Hc eq_refl E).
Qed.

(** Two samples in, the second [Pop] after the end flushes: both files whole, the
    second after an interrupted and a short write. *)
Definition sample_dump_ops : list (tts_op * (file_io * file_io)) :=
  let none := mkFileIo false [] in
  [(OpPush (mkAudioFrame [1; -2]%Z 8000 1 0 0 0 "") 0, (none, none)); (OpEos, (none, none)); (OpPop 2 0, (none, none));
   (OpPop 2 0, (mkFileIo true [Wrote 4], mkFileIo true [WriteError true; Wrote 1; Wrote 3]))].

Example dump_faithful_example :
  snd <$> dump_run (mkDumpCfg 8000 1) (DSetStreamId "a/../b" (Some "/tmp/d"%string) true :: dump_ops sample_dump_ops)
    (mkTtsDump (TtsPlayoutBuffer_new (mkTtsConfig 0 1000 kSilence)) "" Dump_new) =
  Some [mkDumpFile "push" "/tmp/d/osw-tts-a____b.push.rate8000.s16le" [1; 0; 254; 255] true;
        mkDumpFile "pop" "/tmp/d/osw-tts-a____b.pop.rate8000.s16le" [1; 0; 254; 255] true].
Proof. vm_compute. reflexivity. Qed.
