(* ===== verification/EavesdropAudit.v ===== *)
(** * The audit trail of eavesdropping

    [src/security/eavesdrop_audit.cc]: the event that records a decision of the
    [osw_eavesdrop] application or of the detector.  The file composes three
    components: the decisions of [Eavesdrop], the events of [Logging] and the
    classifier of [Tier], which decides whether an event may be dropped.  A
    session is what FreeSWITCH says of it: its uuid and its channel. *)

From S2P Require Import Prelude Tier Eavesdrop Logging.

#[local] Open Scope string_scope.

Definition kDetectionLayer : string := "2_post_attach_detection".

Definition AuditName (policy : EavesdropPolicy) (layer : string) : string :=
  if String.eqb layer kDetectionLayer then "osw.eavesdrop.detected_post_attach"
  else match policy with
       | kAudit => "osw.eavesdrop.audit"
       | kAllow => "osw.eavesdrop.allowed"
       | kDeny => "osw.eavesdrop.denied"
       end.

(** [AddHeader]: a null or empty value adds nothing. *)
Definition add_header (name : string) (value : option string) (headers : list Header) : list Header :=
  match value with
  | None | Some EmptyString => headers
  | Some v => (headers ++ [mkHeader name v])%list
  end.

Section sessions.
Context {vars : Type}.
Context (ChannelGetVariable : vars -> string -> option string).

(** A session, or null. *)
Record session_view := mkSession { sv_uuid : option string; sv_channel : option vars }.

Definition SessionGetUuid (s : option session_view) : option string := s ≫= sv_uuid.
Definition SessionGetChannel (s : option session_view) : option vars := s ≫= sv_channel.

Definition eavesdrop_headers (supervisor target : option session_view) (policy : EavesdropPolicy)
    (layer decision : string) : list Header :=
  let h1 := add_header "target_uuid" (SessionGetUuid target) [] in
  let h2 := match SessionGetChannel target with
            | Some c => add_header "target_bot_purpose" (ChannelGetVariable c kBotPurposeVar)
                          (add_header "target_tenant" (ChannelGetVariable c kTenantVar) h1)
            | None => h1
            end in
  let h3 := add_header "layer" (Some layer)
              (add_header "decision" (Some decision)
                 (add_header "policy_applied" (Some (EavesdropPolicyName policy)) h2)) in
  match SessionGetChannel supervisor with
  | Some c => add_header "Unique-ID" (SessionGetUuid supervisor)
                (add_header "supervisor_ip" (ChannelGetVariable c "sip_network_ip")
                   (add_header "supervisor_identity" (ChannelGetVariable c "sip_from_uri") h3))
  | None => add_header "Unique-ID" (SessionGetUuid target) h3
  end.

(** [EmitEavesdropAudit]: its calls on the event. *)
Definition EmitEavesdropAudit_calls (a : audit_answers) (supervisor target : option session_view)
    (policy : EavesdropPolicy) (layer decision : string) : list event_call :=
  snd (EmitSubclass a (AuditName policy layer) (eavesdrop_headers supervisor target policy layer decision)).

(** The effects of the application and of the detector, with the audits carried
    out. *)
Definition audit_of (a : audit_answers) (supervisor target : option session_view) (e : eavesdrop_effect)
  : option event_state :=
  match e with
  | EmitEavesdropAudit policy layer decision =>
      event_run (EmitEavesdropAudit_calls a supervisor target policy layer decision) EvNone
  | _ => None
  end.

Definition audits (a : audit_answers) (supervisor target : option session_view) (es : list eavesdrop_effect)
  : list event_state := omap (audit_of a supervisor target) es.

(** The application on a supervisor's session: the target it audits is the
    session it located under the uuid it was given. *)
Definition app_effects (session : session_view) (uuid : string) (locate : string -> option session_view)
  : list eavesdrop_effect :=
  HandleOswEavesdropApp ChannelGetVariable true (Some uuid) (sv_channel <$> locate uuid).

Definition app_audits (a : audit_answers) (session : session_view) (uuid : string)
    (locate : string -> option session_view) : list event_state :=
  audits a (Some session) (locate uuid) (app_effects session uuid locate).

(** The detector on an event: it passes no supervisor, and the session it located
    under the event's [Unique-ID]. *)
Definition detector_effects (header : string -> option string) (locate : string -> option session_view)
  : list eavesdrop_effect :=
  OnMediaBugStart ChannelGetVariable (Some header) (fun uuid => sv_channel <$> locate uuid).

Definition detector_audits (a : audit_answers) (header : string -> option string)
    (locate : string -> option session_view) : list event_state :=
  audits a None (header "Unique-ID" ≫= locate) (detector_effects header locate).

(** ** What a record says *)

(** A table of fields; the ones without a value are left out. *)
Definition field_header (f : string * option string) : option Header :=
  match f.2 with None | Some EmptyString => None | Some v => Some (mkHeader f.1 v) end.
Definition record_of (fields : list (string * option string)) : list Header := omap field_header fields.

Lemma add_header_record name value fields :
  add_header name value (record_of fields) = record_of (fields ++ [(name, value)])%list.
Proof.
  unfold record_of. rewrite omap_app. destruct value as [[|c v]|]; cbn; by rewrite ?app_nil_r.
Qed.

Definition target_fields (t : session_view) (c : vars) : list (string * option string) :=
  [("target_uuid", sv_uuid t); ("target_tenant", ChannelGetVariable c kTenantVar);
   ("target_bot_purpose", ChannelGetVariable c kBotPurposeVar)].

Definition decision_fields (policy : EavesdropPolicy) (decision layer : string) : list (string * option string) :=
  [("policy_applied", Some (EavesdropPolicyName policy)); ("decision", Some decision); ("layer", Some layer)].

(** Who listened, when FreeSWITCH knows; else the record is filed under the target. *)
Definition supervisor_fields (supervisor : option session_view) (t : session_view) : list (string * option string) :=
  match SessionGetChannel supervisor with
  | Some c => [("supervisor_identity", ChannelGetVariable c "sip_from_uri");
               ("supervisor_ip", ChannelGetVariable c "sip_network_ip");
               ("Unique-ID", SessionGetUuid supervisor)]
  | None => [("Unique-ID", sv_uuid t)]
  end.

Lemma eavesdrop_headers_record supervisor t c policy layer decision :
  sv_channel t = Some c ->
  eavesdrop_headers supervisor (Some t) policy layer decision =
    record_of (target_fields t c ++ decision_fields policy decision layer ++ supervisor_fields supervisor t)%list.
Proof.
  intros Hc. unfold eavesdrop_headers, supervisor_fields.
  assert (SessionGetChannel (Some t) = Some c) as -> by done.
  assert (add_header "target_uuid" (SessionGetUuid (Some t)) [] = record_of [("target_uuid", sv_uuid t)]) as ->
    by exact (add_header_record _ _ []).
  rewrite !add_header_record. destruct (SessionGetChannel supervisor); by rewrite ?add_header_record.
Qed.

(** How the event ends: not created, destroyed unfired, or fired with the headers
    FreeSWITCH accepted. *)
Definition settled (a : audit_answers) (subclass : string) (headers : list Header) : event_state :=
  match aa_create a with
  | None => EvNone
  | Some _ => if aa_fire a then EvFired subclass (accepted a 0 headers) else EvDead
  end.

Lemma EmitEavesdropAudit_settles a supervisor target policy layer decision :
  event_run (EmitEavesdropAudit_calls a supervisor target policy layer decision) EvNone =
    Some (settled a (AuditName policy layer) (eavesdrop_headers supervisor target policy layer decision)).
Proof.
  assert (Hname : AuditName policy layer <> "" /\ until_nul (AuditName policy layer) = AuditName policy layer).
  { unfold AuditName. destruct (String.eqb layer kDetectionLayer); [by vm_compute|]. by destruct policy; vm_compute. }
  destruct Hname as (Hne & Hnul). unfold EmitEavesdropAudit_calls, EmitSubclass.
  destruct (EmitFullSubclass_settles a _ (eavesdrop_headers supervisor target policy layer decision) Hne) as [-> _].
  by rewrite Hnul.
Qed.

Lemma audits_one a supervisor target policy layer decision rest :
  Forall (fun e => match e with EmitEavesdropAudit _ _ _ => False | _ => True end) rest ->
  audits a supervisor target (EmitEavesdropAudit policy layer decision :: rest) =
    [settled a (AuditName policy layer) (eavesdrop_headers supervisor target policy layer decision)].
Proof.
  intros Hrest. unfold audits. cbn [omap list_omap audit_of]. rewrite EmitEavesdropAudit_settles. f_equal.
  induction Hrest as [|e rest He _ IH]; [done|]. by destruct e.
Qed.

(** ** Decisions are on record *)

(** C17. Every decision about a bot's call is on record, and the record says what
    was decided, about whom.  When a supervisor's session runs the application on
    the uuid of a marked call, and when the detector gets the event of an
    eavesdrop bug on one, the first effect is an audit, the only one: an event
    that is not created, or destroyed unfired, when FreeSWITCH refuses it, and
    else fired with exactly these fields, less those FreeSWITCH has no value for:
    the uuid, tenant and purpose of the call that was located, the policy marked
    on its channel, the decision taken under it and the layer, and the
    supervisor's identity, address and uuid (the detector knows no supervisor and
    files the record under the call).  The detector does nothing else without a
    record: with no such event it has no effect.  The default rules classify the
    four subclasses critical. *)
Theorem eavesdrop_on_record (a : audit_answers) (locate : string -> option session_view) :
  (forall session uuid t c, uuid <> "" -> locate uuid = Some t -> sv_channel t = Some c ->
     IsTrue (ChannelGetVariable c kBotSessionVar) = true ->
     let p := marked_policy ChannelGetVariable c in
     let decision := match p with kDeny => "hangup" | _ => "permitted" end in
     head (app_effects session uuid locate) = Some (EmitEavesdropAudit p "1_pre_attach" decision) /\
     app_audits a session uuid locate =
       [settled a match p with
                  | kAudit => "osw.eavesdrop.audit"
                  | kAllow => "osw.eavesdrop.allowed"
                  | kDeny => "osw.eavesdrop.denied"
                  end
          (record_of (target_fields t c ++ decision_fields p decision "1_pre_attach" ++
                      supervisor_fields (Some session) t)%list)]) /\
  (forall header,
     let acts uuid t c := header "Media-Bug-Function" = Some "eavesdrop" /\ header "Unique-ID" = Some uuid /\
       uuid <> "" /\ locate uuid = Some t /\ sv_channel t = Some c /\
       IsTrue (ChannelGetVariable c kBotSessionVar) = true in
     (forall uuid t c, acts uuid t c ->
        let p := marked_policy ChannelGetVariable c in
        let decision := match p with kDeny => "detected_hangup_target" | _ => "detected_only" end in
        head (detector_effects header locate) = Some (EmitEavesdropAudit p kDetectionLayer decision) /\
        detector_audits a header locate =
          [settled a "osw.eavesdrop.detected_post_attach"
             (record_of (target_fields t c ++ decision_fields p decision kDetectionLayer ++
                         [("Unique-ID", sv_uuid t)])%list)]) /\
     (detector_effects header locate <> [] -> exists uuid t c, acts uuid t c)) /\
  Forall (fun subclass => Classify (TierClassifier_new MakeDefaultRules) "CUSTOM" subclass = k1Critical)
    ["osw.eavesdrop.audit"; "osw.eavesdrop.allowed"; "osw.eavesdrop.denied"; "osw.eavesdrop.detected_post_attach"].
Proof.
  split_and!; [| |repeat constructor; by vm_compute].
  - intros session uuid t c Hu Hl Hc Hm p decision.
    assert (E : app_effects session uuid locate = EmitEavesdropAudit p "1_pre_attach" decision ::
              match p with kDeny => [HangupSupervisor] | _ => [IvrEavesdropSession uuid] end).
    { unfold app_effects, HandleOswEavesdropApp. rewrite Hl. cbn [fmap option_fmap option_map negb]. rewrite Hc, Hm.
      destruct uuid; [done|]. unfold decision, p. by destruct (marked_policy _ c). }
    unfold app_audits. rewrite E, Hl. split; [done|].
    rewrite audits_one by (destruct p; repeat constructor). rewrite (eavesdrop_headers_record _ t c) by done.
    by destruct p.
  - intros header acts. split.
    + intros uuid t c (Hf & Hh & Hu & Hl & Hc & Hm) p decision.
      assert (E : detector_effects header locate = EmitEavesdropAudit p kDetectionLayer decision ::
                match p with kDeny => [HangupTarget] | _ => [] end).
      { unfold detector_effects, OnMediaBugStart. rewrite Hf, Hh. cbn [bool_decide negb].
        destruct uuid; [done|]. rewrite Hl. cbn [fmap option_fmap option_map]. rewrite Hc, Hm.
        unfold decision, p. by destruct (marked_policy _ c). }
      unfold detector_audits. rewrite E, Hh. cbn [mbind option_bind]. rewrite Hl. split; [done|].
      rewrite audits_one by (destruct p; repeat constructor). by rewrite (eavesdrop_headers_record _ t c).
    + unfold detector_effects, OnMediaBugStart, acts. intros He.
      destruct (bool_decide _) eqn:Ef in He; [|done]. apply bool_decide_eq_true in Ef.
      destruct (header "Unique-ID") as [[|ch uuid]|]; [done| |done].
      destruct (locate _) as [t|] eqn:El in He; [|done]. cbn in He. destruct (sv_channel t) as [c|] eqn:Ec; [|done].
      destruct (IsTrue _) eqn:Em in He; [|done]. by exists (String ch uuid), t, c.
Qed.
End sessions.

(** A channel as a list of variables, a supervisor and a call that denies. *)
Definition list_get (c : list (string * string)) (name : string) : option string :=
  snd <$> List.find (fun v => String.eqb (fst v) name) c.
Definition demo_bot : list (string * string) :=
  [(kBotSessionVar, "true"); (kEavesdropPolicyVar, "deny"); (kTenantVar, "acme")].
Definition demo_supervisor : session_view := mkSession (Some "s-1") (Some [("sip_from_uri", "boss@pbx")]).
Definition demo_answers : audit_answers := mkAnswers (Some 1%nat) (fun _ => true) true.

Definition demo_target : session_view := mkSession (Some "b-7") (Some demo_bot).
Definition demo_locate (uuid : string) : option (@session_view (list (string * string))) :=
  if String.eqb uuid "b-7" then Some demo_target else None.

(** A denied attempt: the event that is fired. *)
Lemma eavesdrop_on_record_witness :
  app_audits list_get demo_answers demo_supervisor "b-7" demo_locate =
  [EvFired "osw.eavesdrop.denied"
     [("target_uuid", "b-7"); ("target_tenant", "acme"); ("policy_applied", "deny"); ("decision", "hangup");
      ("layer", "1_pre_attach"); ("supervisor_identity", "boss@pbx"); ("Unique-ID", "s-1")]].
Proof.
  destruct (eavesdrop_on_record list_get demo_answers demo_locate) as [H _].
  destruct (H demo_supervisor "b-7" demo_target demo_bot ltac:(discriminate) eq_refl eq_refl ltac:(vm_compute; reflexivity))
    as [_ ->].
  vm_compute. reflexivity.
Defined.
