(* ===== verification/Startup.v ===== *)
(** * From the configuration file to a serving module

    [src/mod_open_switch.cc] and the values in [Module::Load]
    ([src/core/module.cc]): what the file says, what [Validate] accepts, and what
    each component is constructed with and handed.  [Module] has the order of the
    steps and the threads that run beside them; here a load is one function, and
    [as_request] says which of [Module]'s scripts it is.  What the file, the
    system and FreeSWITCH answer is the environment; [compile] is
    [std::regex]'s constructor. *)

From S2P Require Import Prelude BoundedQueue Tier Ring RingSet Envelope Binder Broadcaster SilenceDriver BugManager MediaStreams Idempotency Eavesdrop Config BotRegistry Logging Server Module.

#[local] Open Scope string_scope.
#[local] Open Scope Z_scope.

Definition kConfigFileName : string := "open_switch.conf".
Definition kModuleVersion : string := "0.1.0".

(** [switch_version_full()], or null. *)
Definition FreeSwitchVersionString (v : option string) : string := default "unknown" v.

(** [gethostname(buf, 255)] into a zeroed buffer of 256 bytes; absent when it
    fails. *)
Definition ResolveNodeId (hostname : option string) : string :=
  match hostname with Some h => until_nul (string_take 255 h) | None => "unknown-node" end.

Section load.
Context {Regex : Type}.
(** A regular expression, or [e.what()]. *)
Context (compile : string -> Regex + string).

(** What [Validate] asks of [std::regex]. *)
Definition regex_error (p : string) : option string :=
  match compile p with inl _ => None | inr what => Some what end.

(** A pattern that does not compile is logged and skipped. *)
Definition CompilePatterns (src : list string) : list Regex :=
  omap (fun p => match compile p with inl r => Some r | inr _ => None end) src.

Record environment := mkEnvironment {
  env_xml : option XmlSettings;
  env_fs_version : option string;
  env_files : files;
  env_metrics_bind : bool;           (** [MetricsServer::Start] *)
  env_built : option Z;              (** the port [BuildAndStart] bound *)
  env_hostname : option string;
  env_slot_taken : bool;             (** another binder is published *)
  env_bind_ok : bool;                (** [switch_event_bind] for the binder *)
  env_detector_ok : bool;            (** and for the eavesdrop detector *)
  env_audit : audit_answers }.       (** to the audit of the load *)

(** Where the members are: the pointers handed to the server. *)
Definition address (d : dependency) : ptr :=
  Some (match d with DepCache => 1 | DepBugMgr => 2 | DepStreams => 3 | DepBots => 4 | DepConfig => 5 end)%nat.
Definition rpc_metrics_address : ptr := Some 6%nat.
Definition broadcaster_address : ptr := Some 7%nat.
Definition rings_address : ptr := Some 8%nat.

(** The module once it is loaded. *)
Record loaded_module := mkLoaded {
  lm_config : Config;
  lm_metrics : metrics_outcome;
  lm_grpc : GrpcServer;
  lm_cache : IdempotencyCache;
  lm_streams : ms_world;
  lm_bots : ActiveBots;
  lm_bugs : bm_world;
  lm_classifier : TierClassifier;
  lm_rings : RingSet;
  lm_node_id : string;
  lm_binder : Binder;
  lm_detector : bool;
  lm_broadcaster : Broadcaster;
  lm_lifecycle : Lifecycle;
  lm_health_versions : string * string;
  lm_audit : bool * list event_call }.  (** [audit::Emit]'s result and calls *)

(** Why [Load] returned false. *)
Inductive refusal := InvalidConfig (error : string) | ServerNotStarted | BinderNotBound.

Inductive load_result :=
  | AlreadyLoaded
  | Refused (why : refusal) (metrics : metrics_outcome)
  | Loaded (m : loaded_module)
  | LoadTerminates.

Definition metrics_of (config : Config) (env : environment) : metrics_outcome :=
  if negb (metrics_enabled config) then MetricsDisabled
  else if env_metrics_bind env then MetricsBound else MetricsBindFailed.

(** The server before [Start]: versions, metrics, then the staged pointers. *)
Definition staged_server (fs_ver : string) : GrpcServer :=
  let g := SetRpcMetrics rpc_metrics_address (SetVersions kModuleVersion fs_ver GrpcServer_new) in
  let g := SetDependency DepCache (address DepCache) g in
  let g := SetDependency DepBugMgr (address DepBugMgr) g in
  let g := SetDependency DepStreams (address DepStreams) g in
  let g := SetDependency DepBots (address DepBots) g in
  SetDependency DepConfig (address DepConfig) g.

Definition nanoseconds (s : Z) : Z := s * 1000000000.

Definition new_cache (config : Config) : IdempotencyCache :=
  IdempotencyCache_new (Z.to_nat (idempotency_cache_capacity config))
    (nanoseconds (idempotency_ttl_seconds config)) (nanoseconds (idempotency_in_flight_max_wait_seconds config)).

Definition new_silence (config : Config) : SilenceDriverRegistry :=
  mkSilenceDriverRegistry (cfg_silence_driver_enabled config) (Z.to_nat (cfg_max_silence_drivers config)) ∅.

Definition new_rings (config : Config) : RingSet :=
  RingSet_new (Z.to_nat (event_ring_capacity_tier1 config)) (Z.to_nat (event_ring_capacity_tier2 config))
    (Z.to_nat (event_ring_capacity_tier3 config)).

Definition module_loaded_headers (fs_ver node_id : string) : list Header :=
  [mkHeader "module_version" kModuleVersion; mkHeader "freeswitch_version" fs_ver; mkHeader "node_id" node_id].

(** What the module keeps from one load to the next: its [Health] (the binder's
    gauges and the number of subscribers), the lifecycle, and the process's logger. *)
Record kept := mkKept {
  kp_gauges : HealthGauges; kp_subscribers : Z; kp_lifecycle : Lifecycle; kp_logger : logger (Regex := Regex) }.

(** [Module::Load]: the logger and what happened. *)
Definition Load_values (loaded : bool) (env : environment) (k : kept) : logger (Regex := Regex) * load_result :=
  if loaded then (kp_logger k, AlreadyLoaded)
  else
    let l := InstallDefaultSinkForModule (kp_logger k) in
    let config := snd (LoadConfigFromFile (env_xml env)) in
    match Validate regex_error config with
    | Some error => (l, Refused (InvalidConfig error) MetricsDisabled)
    | None =>
        let l := SetRedactionPatterns (CompilePatterns (pii_redaction_patterns config)) l in
        let fs_ver := FreeSwitchVersionString (env_fs_version env) in
        let metrics := metrics_of config env in
        match Start (env_files env) config (env_built env) (staged_server fs_ver) with
        | Terminates => (l, LoadTerminates)
        | Returns (false, _) => (l, Refused ServerNotStarted metrics)
        | Returns (true, g) =>
            let '(ok, _, binder) := Binder_Init (env_slot_taken env) (env_bind_ok env) (Binder_new (Some (kp_gauges k))) in
            let node_id := ResolveNodeId (env_hostname env) in
            if negb ok then (l, Refused BinderNotBound metrics)
            else
              let plane := mkPlane broadcaster_address rings_address (max_subscribers config)
                             (subscriber_send_queue_capacity config) in
              (l, Loaded (mkLoaded config metrics (SetEventPlane plane g) (new_cache config) ms_init ActiveBots_new
                    (bm_init (Some (new_silence config))) (TierClassifier_new MakeDefaultRules) (new_rings config)
                    node_id binder (env_detector_ok env)
                    (Broadcaster_Start (Broadcaster_new (Some (kp_subscribers k)))) (TransitionToServing (kp_lifecycle k))
                    (kModuleVersion, fs_ver)
                    (Emit (env_audit env) "module_loaded" (module_loaded_headers fs_ver node_id))))
        end
    end.

(** ** The entry points *)

Inductive switch_status := SWITCH_STATUS_SUCCESS | SWITCH_STATUS_GENERR.

(** [iface]: [switch_loadable_module_create_module_interface] succeeded. *)
Definition mod_open_switch_load (iface loaded : bool) (env : environment) (k : kept)
  : switch_status * option (logger (Regex := Regex) * load_result) :=
  if negb iface then (SWITCH_STATUS_GENERR, None)
  else
    let '(l, r) := Load_values loaded env k in
    (match r with AlreadyLoaded | Loaded _ => SWITCH_STATUS_SUCCESS | _ => SWITCH_STATUS_GENERR end, Some (l, r)).

(** [Module::Shutdown] returns false only when a call threw. *)
Definition Shutdown_returns (loaded : bool) (throws_after : option nat) : bool :=
  negb loaded || bool_decide (throws_after = None).

Definition mod_open_switch_shutdown (loaded : bool) (throws_after : option nat) : switch_status :=
  if Shutdown_returns loaded throws_after then SWITCH_STATUS_SUCCESS else SWITCH_STATUS_GENERR.

(** What FreeSWITCH asked for, as [Module] has it: how far the steps came. *)
Definition opens (a : agent) (i : instr) : bool := match act i with Open b => bool_decide (a = b) | _ => false end.

Fixpoint steps_before (a : agent) (l : list instr) : nat :=
  match l with [] => O | i :: l => if opens a i then O else S (steps_before a l) end.

Definition as_request (r : load_result) : request :=
  match r with
  | AlreadyLoaded => Load MetricsDisabled None
  | Refused (InvalidConfig _) m => Load m (Some O)
  | Refused ServerNotStarted m => Load m (Some (steps_before Rpc (Load_steps m)))
  | Refused BinderNotBound m => Load m (Some (steps_before Dispatch (Load_steps m)))
  | Loaded m => Load (lm_metrics m) None
  | LoadTerminates => Load MetricsDisabled (Some O)
  end.

(** ** What a load promises *)

(** The environment lets the module load. *)
Definition loadable (env : environment) : Prop :=
  let config := snd (LoadConfigFromFile (env_xml env)) in
  Validate regex_error config = None /\ MakeServerCreds (env_files env) config <> None /\ env_built env <> None /\
  env_slot_taken env = false /\ env_bind_ok env = true.

(** What the reason for a refusal says of it. *)
Definition refused_because (env : environment) (why : refusal) : Prop :=
  let config := snd (LoadConfigFromFile (env_xml env)) in
  match why with
  | InvalidConfig error => Validate regex_error config = Some error
  | ServerNotStarted => Validate regex_error config = None /\ (MakeServerCreds (env_files env) config = None \/ env_built env = None)
  | BinderNotBound =>
      Validate regex_error config = None /\ MakeServerCreds (env_files env) config <> None /\ env_built env <> None /\
      (env_slot_taken env = true \/ env_bind_ok env = false)
  end.

(** An audit event ends fired with the headers FreeSWITCH accepted, destroyed, or
    was never made. *)
Definition audit_fate (a : audit_answers) (subclass : string) (headers : list Header) : event_state :=
  match aa_create a with
  | None => EvNone
  | Some _ => if aa_fire a then EvFired subclass (accepted a 0 headers) else EvDead
  end.

(** Each component as its own theorems take it. *)
Record components_ready (m : loaded_module) : Prop := {
  cr_cache : cache_wf (lm_cache m) /\ ic_capacity_ (lm_cache m) = Z.to_nat (idempotency_cache_capacity (lm_config m));
  cr_rings : forall t r, RingSet_Get (lm_rings m) t = Some r -> Ring_bounded r;
  cr_ring_capacities :
    capacity_ (tier1_ (lm_rings m)) = Z.to_nat (event_ring_capacity_tier1 (lm_config m)) /\
    capacity_ (tier2_ (lm_rings m)) = Z.to_nat (event_ring_capacity_tier2 (lm_config m)) /\
    capacity_ (tier3_ (lm_rings m)) = Z.to_nat (event_ring_capacity_tier3 (lm_config m));
  cr_bugs : bm_inv (lm_bugs m);
  cr_streams : exists pl, ms_inv (lm_streams m) pl;
  cr_bots : bots_inv (max_bots_per_channel (lm_config m)) (lm_bots m);
  cr_binder : active_ (lm_binder m) = true;
  cr_workers : Broadcaster.running_ (lm_broadcaster m) = true }.

(** The service the RPCs reach. *)
Record service_wired (m : loaded_module) (s : Skeleton) : Prop := {
  sw_service : service_ (lm_grpc m) = Some s;
  sw_pointers : forall d, Skeleton_get d s = address d;
  sw_plane : sk_broadcaster s = broadcaster_address /\ sk_rings s = rings_address;
  sw_versions : (sk_module_version s, sk_freeswitch_version s) = lm_health_versions m;
  sw_limits : sk_max_subscribers s = max_subscribers (lm_config m) /\
              sk_send_queue_capacity s = subscriber_send_queue_capacity (lm_config m) }.

Record serving (env : environment) (k : kept) (m : loaded_module) (l : logger (Regex := Regex)) : Prop := {
  sv_config : lm_config m = snd (LoadConfigFromFile (env_xml env));
  sv_redaction : g_sink l = DefaultSink /\ inl <$> g_patterns l = compile <$> pii_redaction_patterns (lm_config m);
  sv_components : components_ready m;
  sv_service : exists s, service_wired m s;
  sv_server : exists b, server_ (lm_grpc m) = Some b /\ bs_shut_down b = false /\
                MakeServerCreds (env_files env) (lm_config m) = Some (bs_creds b);
  sv_audit : lm_health_versions m = (kModuleVersion, FreeSwitchVersionString (env_fs_version env)) /\
             event_run (snd (lm_audit m)) EvNone = Some (audit_fate (env_audit env) "osw.audit.module_loaded"
               (module_loaded_headers (snd (lm_health_versions m)) (lm_node_id m)));
  sv_state : state_ (kp_lifecycle k) = kLoaded -> state_ (lm_lifecycle m) = kServing }.

Lemma CompilePatterns_all ps :
  Forall (fun p => regex_error p = None) ps -> inl <$> CompilePatterns ps = compile <$> ps.
Proof.
  induction 1 as [|p ps Hp _ IH]; [done|]. unfold CompilePatterns, regex_error in *. cbn.
  destruct (compile p) as [r|what] eqn:E; [|done]. cbn. by rewrite IH.
Qed.

(** A configuration that validates has no pattern that fails to compile. *)
Lemma Validate_patterns cfg :
  Validate regex_error cfg = None -> Forall (fun p => regex_error p = None) (pii_redaction_patterns cfg).
Proof.
  unfold Validate, all_checks. rewrite first_failure_none, !Forall_app. intros (_ & _ & _ & _ & _ & H & _).
  apply Forall_lookup. intros i p Hp. rewrite Forall_lookup in H.
  assert (Hi : imap (regex_check regex_error) (pii_redaction_patterns cfg) !! i = Some (regex_check regex_error i p))
    by (by rewrite list_lookup_imap, Hp).
  apply H in Hi. unfold regex_check in Hi. by destruct (regex_error p).
Qed.

Lemma Ring_new_capacity c : 256 <= c -> capacity_ (Ring_SetDrainNotifier (Ring_new (Z.to_nat c)) true) = Z.to_nat c.
Proof. intros Hc. cbn. destruct (Nat.eqb_spec (Z.to_nat c) 0); [lia|done]. Qed.
End load.

(** ** Loads *)

Lemma apply_action_loaded x m m' :
  apply_action x m = Some m' -> (forall b, x <> SetLoaded b) -> loaded_ m' = loaded_ m.
Proof. destruct x; cbn [apply_action]; intros H Hx; repeat case_match; simplify_eq; try done. by destruct (Hx b). Qed.

Lemma static_run_loaded l : forall m m',
  static_run l m = Some m' -> Forall (fun i => forall b, act i <> SetLoaded b) l -> loaded_ m' = loaded_ m.
Proof.
  induction l as [|i l IH]; intros m m' Hr Hl; [by injection Hr as <-|].
  rewrite static_run_cons in Hr. apply Forall_cons in Hl as [Hi Hl].
  destruct (static_step i m) as [m1|] eqn:E; [|done]. rewrite (IH m1 m' Hr Hl).
  unfold static_step in E. destruct (guard_holds i m); [|by injection E as <-].
  destruct (unreferenced (act i) m); [|done]. cbn in E. destruct (apply_action (act i) m) as [m2|] eqn:Ea; [|done].
  cbn in E. destruct (well_formed m2); [|done]. injection E as <-. by eapply apply_action_loaded.
Qed.

Lemma Load_steps_quiet m : Forall (fun i => forall b, act i <> SetLoaded b) (Load_steps m).
Proof. destruct m; repeat (apply Forall_cons; split; [done|]); by apply Forall_nil. Qed.

Lemma LoadGuard_quiet : Forall (fun i => forall b, act i <> SetLoaded b) LoadGuard.
Proof. repeat (apply Forall_cons; split; [done|]). by apply Forall_nil. Qed.

(** A load that fails after any of its steps leaves nothing behind. *)
Lemma failed_load_clean ms m n :
  ms ∈ stable -> loaded_ ms = false ->
  exists ms', static_run (script false (Load m (Some n))) ms = Some ms' /\ module_clean ms'.
Proof.
  intros Hms Hl. destruct (stable_script ms (Load m (Some n)) Hms) as (ms' & Hr & Hms'). rewrite Hl in Hr.
  exists ms'. split; [done|]. apply stable_unloaded; [done|]. rewrite <- Hl. eapply static_run_loaded; [exact Hr|].
  cbn. apply Forall_app. split; [apply Forall_take, Load_steps_quiet|apply LoadGuard_quiet].
Qed.

(** Every kind of thread is let in, scrapes only where the metrics server bound. *)
Definition all_serving (m : metrics_outcome) (ms : members) : Prop :=
  loaded_ ms = true /\ forall a, phase ms a = Opened <-> (a = Scrape -> m = MetricsBound).

#[local] Instance metrics_outcome_eq_dec : EqDecision metrics_outcome.
Proof. solve_decision. Defined.

Definition all_servingb (m : metrics_outcome) (ms : members) : bool :=
  loaded_ ms && forallb (fun a => bool_decide (phase ms a = Opened <-> (a = Scrape -> m = MetricsBound))) all_agents.

Lemma all_servingb_sound m ms : all_servingb m ms = true -> all_serving m ms.
Proof.
  intros [Hl Ha]%andb_prop. split; [done|]. intros a. rewrite forallb_forall in Ha.
  eapply bool_decide_eq_true, Ha. destruct a; cbn; tauto.
Qed.

(** A load that succeeds is complete. *)
Lemma load_commits ms m :
  ms ∈ stable -> loaded_ ms = false ->
  exists ms', static_run (script false (Load m None)) ms = Some ms' /\ all_serving m ms'.
Proof.
  intros Hms Hl.
  assert (H : forallb (fun ms => loaded_ ms || forallb (fun m => match static_run (script false (Load m None)) ms with
              Some ms' => all_servingb m ms' | None => false end) metrics_outcomes) stable = true) by (vm_compute; reflexivity).
  rewrite forallb_forall in H. apply list_elem_of_In, H in Hms. rewrite Hl in Hms. cbn [orb] in Hms.
  rewrite forallb_forall in Hms. specialize (Hms m ltac:(destruct m; cbn; tauto)).
  destruct (static_run _ ms) as [ms'|]; [|done]. exists ms'. split; [done|]. by apply all_servingb_sound.
Qed.

(** The main thread alone: the members follow the static execution, and the
    lifecycle the transitions of the script. *)
Definition lifecycle_run (l : list instr) (lc : Lifecycle) : Lifecycle :=
  fold_left (fun lc i => next_lifecycle (act i) lc) l lc.

Definition transitions_always (i : instr) : Prop := guard i = None \/ forall st, act i <> TransitionTo st.

Lemma script_transitions m o : Forall transitions_always (script false (Load m o)).
Proof.
  assert (HL : Forall transitions_always (Load_steps m)).
  { destruct m; repeat (apply Forall_cons; split; [by (left + right)|]); by apply Forall_nil. }
  destruct o; cbn [script]; apply Forall_app; (split; [done || by apply Forall_take|]);
    repeat (apply Forall_cons; split; [by (left + right)|]); by apply Forall_nil.
Qed.

Lemma main_step_run w i rest m1 :
  world_inv w -> no_calls w -> w_script w = i :: rest -> static_step i (w_members w) = Some m1 -> transitions_always i ->
  main_step true w = mkWorld m1 (next_lifecycle (act i) (w_lifecycle w)) (w_calls w) rest (w_error w).
Proof.
  intros Hi Hn Hs Hst Ht. unfold main_step. rewrite Hs. unfold static_step in Hst.
  destruct (guard_holds i (w_members w)) eqn:Hg; cbn [negb] in *.
  - assert (Hb : blocked true (act i) w = false) by (destruct (act i); cbn; try done; by rewrite Hn).
    rewrite Hb. destruct (unreferenced (act i) (w_members w)); [|done]. cbn in Hst.
    destruct (apply_action (act i) (w_members w)) as [m2|]; [|done]. destruct (well_formed m2); [|done]. by injection Hst as ->.
  - injection Hst as ->. destruct Ht as [Ht|Ht]; [by unfold guard_holds in Hg; rewrite Ht in Hg|].
    f_equal. unfold next_lifecycle. destruct (act i); try done. by destruct (Ht st).
Qed.

Lemma main_steps_run l : forall w m,
  world_inv w -> no_calls w -> w_script w = l -> static_run l (w_members w) = Some m -> Forall transitions_always l ->
  let w' := exec_all true (repeat Main (length l)) w in
  w_script w' = [] /\ w_members w' = m /\ w_lifecycle w' = lifecycle_run l (w_lifecycle w).
Proof.
  induction l as [|i l IH]; intros w m Hi Hn Hs Hr Ht; [by injection Hr as <-|].
  rewrite static_run_cons in Hr. apply Forall_cons in Ht as [Ht Hts].
  destruct (static_step i (w_members w)) as [m1|] eqn:E; [|done].
  pose proof (main_step_sound w Hi) as Hi'. cbn [length repeat exec_all fold_left exec].
  rewrite (main_step_run w i l m1) in * by done. exact (IH _ m Hi' Hn eq_refl Hr Hts).
Qed.

(** A module that is idle and not loaded, after any history. *)
Record idle_unloaded (w : world) : Prop := {
  iu_reached : exists es, w = exec_all true es world_init;
  iu_idle : w_script w = [];
  iu_unloaded : loaded_ (w_members w) = false }.

Lemma idle_unloaded_stable w :
  idle_unloaded w -> world_inv w /\ w_members w ∈ stable /\ no_calls w.
Proof.
  intros [[es Hes] Hs Hl]. assert (Hi : world_inv w) by (rewrite Hes; apply exec_all_sound, world_inv_init).
  destruct (wi_script w Hi) as (m & Hm & Hst). rewrite Hs in Hm. injection Hm as <-. split_and!; [done..|].
  intros a. apply closed_no_call; [done|]. by apply stable_unloaded.
Qed.

Lemma lifecycle_run_quiet l lc : Forall (fun i => forall st, act i <> TransitionTo st) l -> lifecycle_run l lc = lc.
Proof.
  revert lc. induction l as [|i l IH]; intros lc Hl; [done|]. apply Forall_cons in Hl as [Hi Hl].
  cbn [lifecycle_run fold_left]. unfold lifecycle_run in IH. rewrite IH by done.
  unfold next_lifecycle. destruct (act i); try done. by destruct (Hi st).
Qed.

Lemma lifecycle_run_failed m n lc : lifecycle_run (script false (Load m (Some n))) lc = lc.
Proof.
  apply lifecycle_run_quiet. cbn [script]. apply Forall_app. split; [apply Forall_take; destruct m|];
    repeat (apply Forall_cons; split; [done|]); by apply Forall_nil.
Qed.

Lemma lifecycle_run_commit m lc : lifecycle_run (script false (Load m None)) lc = TransitionToServing lc.
Proof. by destruct m. Qed.

(** The world after a load that nothing else runs beside. *)
Definition load_alone (r : request) (w : world) : world :=
  exec_all true (request_run r (length (script false r))) w.

Lemma load_alone_run w m o :
  idle_unloaded w ->
  let w' := load_alone (Load m o) w in
  w_script w' = [] /\ static_run (script false (Load m o)) (w_members w) = Some (w_members w') /\
  w_lifecycle w' = lifecycle_run (script false (Load m o)) (w_lifecycle w).
Proof.
  intros Hw w'. destruct (idle_unloaded_stable w Hw) as (Hi & Hst & Hn). destruct Hw as [_ Hs Hl].
  destruct (stable_script _ (Load m o) Hst) as (m' & Hr & _). rewrite Hl in Hr.
  unfold w', load_alone, request_run. cbn [exec_all fold_left].
  pose proof (exec_sound (Request (Load m o)) w Hi) as Hi1. set (w1 := exec true (Request (Load m o)) w) in *.
  assert (Hw1 : w_script w1 = script false (Load m o) /\ w_members w1 = w_members w /\ w_lifecycle w1 = w_lifecycle w)
    by (unfold w1; cbn [exec]; rewrite Hs, Hl; done).
  destruct Hw1 as (H1 & H2 & H3). rewrite <- H2 in Hr.
  assert (Hn1 : no_calls w1) by (unfold w1; cbn [exec]; by rewrite Hs).
  destruct (main_steps_run _ w1 m' Hi1 Hn1 H1 Hr (script_transitions m o)) as (HA & HB & HC).
  rewrite <- H2, <- H3. fold (exec_all true (repeat Main (length (script false (Load m o)))) w1). by rewrite HB.
Qed.

Section promise.
Context {Regex : Type} (compile : string -> Regex + string).

(** The server of a successful [Start], with the plane set. *)
Lemma Start_staged env config fs_ver g plane :
  Start (env_files env) config (env_built env) (staged_server fs_ver) = Returns (true, g) ->
  exists s b, service_ (SetEventPlane plane g) = Some (Skeleton_SetEventPlane plane s) /\
    (forall d, Skeleton_get d s = address d) /\ (sk_module_version s, sk_freeswitch_version s) = (kModuleVersion, fs_ver) /\
    server_ (SetEventPlane plane g) = Some b /\ bs_shut_down b = false /\
    MakeServerCreds (env_files env) config = Some (bs_creds b).
Proof.
  unfold Start. destruct (MakeServerCreds (env_files env) config) as [c|] eqn:Hc; [|done].
  destruct (env_built env) as [port|]; [|done]. cbn [staged_server worker_ SetDependency SetRpcMetrics SetVersions GrpcServer_new].
  intros [= <-]. eexists _, _. split; [done|]. split; [by intros []|]. split; [|done]. by destruct fs_ver.
Qed.

Lemma loaded_components config g metrics node k binder detector versions audit :
  ConfigBounds config -> active_ binder = true ->
  components_ready (mkLoaded config metrics g (new_cache config) ms_init ActiveBots_new
    (bm_init (Some (new_silence config))) (TierClassifier_new MakeDefaultRules) (new_rings config) node binder detector
    (Broadcaster_Start (Broadcaster_new (Some (kp_subscribers (Regex := Regex) k)))) (TransitionToServing (kp_lifecycle k)) versions audit).
Proof.
  intros Hcb Hbd. pose proof (cb_rings _ Hcb) as Hr. pose proof (cb_idempotency _ Hcb) as Hi. pose proof (cb_bots _ Hcb) as Hb.
  split; cbn [lm_cache lm_config lm_rings lm_bugs lm_streams lm_bots lm_binder lm_broadcaster].
  - split; [apply IdempotencyCache_new_wf; lia|done].
  - intros [] r [= <-]; apply Ring_new_bounded.
  - split_and!; apply Ring_new_capacity; lia.
  - apply bm_inv_init. by intros r [= <-].
  - eexists. apply ms_inv_init.
  - apply bots_inv_new. lia.
  - exact Hbd.
  - done.
Qed.
(** ** The composed promise *)

Lemma Load_values_cases env (k : kept (Regex := Regex)) :
  match Load_values compile false env k with
  | (l, Loaded m) => loadable compile env /\ serving compile env k m l
  | (l, Refused why _) => refused_because compile env why
  | (_, (AlreadyLoaded | LoadTerminates)) => False
  end.
Proof.
  unfold Load_values, refused_because, loadable. set (config := snd (LoadConfigFromFile (env_xml env))).
  destruct (Validate (regex_error compile) config) as [error|] eqn:HV; [done|].
  destruct (Start _ _ _ _) as [[ok g]|] eqn:HS.
  2: { unfold Start in HS. by repeat case_match. }
  destruct ok.
  2: { unfold Start in HS. split; [done|]. destruct (MakeServerCreds (env_files env) config) as [c|]; [|by left].
       destruct (env_built env); [|by right]. by injection HS as ?. }
  set (plane := mkPlane broadcaster_address rings_address (max_subscribers config) (subscriber_send_queue_capacity config)).
  destruct (Start_staged env config _ g plane HS) as (s & b & H1 & H2 & Hsv & H3 & H4 & H5).
  assert (Hb : env_built env <> None) by (intros E; unfold Start in HS; rewrite E in HS; by case_match).
  assert (Hc : MakeServerCreds (env_files env) config <> None) by (by rewrite H5).
  unfold Binder_Init. cbn [active_ Binder_new].
  destruct (env_slot_taken env); [by split_and!; [..|left]|].
  destruct (env_bind_ok env); [|by split_and!; [..|right]]. cbn [negb]. split; [by split_and!|].
  split; cbn [lm_config].
  - done.
  - split; [done|]. by apply CompilePatterns_all, Validate_patterns.
  - apply loaded_components; [by eapply Validate_bounds|done].
  - exists (Skeleton_SetEventPlane plane s). by split.
  - by exists b.
  - split; [done|]. apply Emit_settles.
  - intros E. cbn. by rewrite decide_True.
Qed.

Lemma refused_not_loadable env why : refused_because compile env why -> ~ loadable compile env.
Proof. unfold refused_because, loadable. destruct why; intuition congruence. Qed.

Lemma as_request_refused r why m : r = Refused why m -> exists n, as_request r = Load m (Some n).
Proof. intros ->. destruct why; cbn; eauto. Qed.

Lemma Loaded_lifecycle env (k : kept (Regex := Regex)) l m :
  Load_values compile false env k = (l, Loaded m) -> lm_lifecycle m = TransitionToServing (kp_lifecycle k).
Proof. unfold Load_values. intros H. repeat case_match; simplify_eq; done. Qed.

(** C8. A load goes from the configuration file to a module that serves requests, or leaves
    nothing. Take a module that is idle and not loaded after any history of
    loads, failed loads, shutdowns and calls, and any answers of the file, the
    credentials, FreeSWITCH and the operating system. The load succeeds exactly
    when the configuration validates, its credentials can be read, the server
    binds and the event binder binds. Then every component is constructed from
    that configuration within the bounds its own invariant needs, the service
    holds the pointer of every component and the subscription limits of the file,
    the redaction patterns in force are all the configured ones, the audit event
    of the load is settled and carries the versions and the node, every kind of
    thread is let in (scrapes only where the metrics port bound), and the
    lifecycle moves to serving if it was where the first load finds it; where an earlier
    shutdown has stopped or drained it, it stays there although the module serves. Otherwise the
    reason it reports is the true one, every member has been freed, no thread is inside, and
    the lifecycle has not moved. FreeSWITCH is told success in the first case only. *)
Theorem Load_serves (w : world) (env : environment) (k : kept (Regex := Regex)) :
  idle_unloaded w -> kp_lifecycle k = w_lifecycle w ->
  let '(l, r) := Load_values compile false env k in
  let w' := load_alone (as_request r) w in
  w_script w' = [] /\
  match r with
  | Loaded m => loadable compile env /\ serving compile env k m l /\ all_serving (lm_metrics m) (w_members w') /\
                w_lifecycle w' = lm_lifecycle m /\
                state_ (w_lifecycle w') =
                  (if decide (state_ (w_lifecycle w) = kLoaded) then kServing else state_ (w_lifecycle w))
  | Refused why _ => ~ loadable compile env /\ refused_because compile env why /\
                     module_clean (w_members w') /\ w_lifecycle w' = w_lifecycle w
  | AlreadyLoaded | LoadTerminates => False
  end /\
  forall iface, fst (mod_open_switch_load compile iface false env k) = SWITCH_STATUS_SUCCESS <->
                iface = true /\ loadable compile env.
Proof.
  intros Hw Hk. pose proof (Load_values_cases env k) as Hc.
  assert (Hm : forall iface, fst (mod_open_switch_load compile iface false env k) =
    if iface then match snd (Load_values compile false env k) with Loaded _ => SWITCH_STATUS_SUCCESS | _ => SWITCH_STATUS_GENERR end
    else SWITCH_STATUS_GENERR).
  { intros []; [|done]. unfold mod_open_switch_load. destruct (Load_values compile false env k) as [l []]; done. }
  destruct (Load_values compile false env k) as [l r] eqn:El. cbn [snd] in Hm.
  destruct (idle_unloaded_stable w Hw) as (_ & Hst & _). pose proof (iu_unloaded w Hw) as Hl.
  destruct r as [|why mo|m|]; [done| | |done].
  - assert (Hn : ~ loadable compile env) by (by apply refused_not_loadable with why).
    destruct (as_request_refused (Refused why mo) why mo eq_refl) as [n ->].
    destruct (load_alone_run w mo (Some n) Hw) as (H1 & H2 & H3).
    destruct (failed_load_clean (w_members w) mo n Hst Hl) as (ms & H4 & H5). rewrite H2 in H4. injection H4 as <-.
    rewrite lifecycle_run_failed in H3. split; [done|]. split; [by split_and!|]. intros iface. rewrite Hm.
    destruct iface; (split; [done|by intros []]).
  - destruct Hc as [Hld Hs]. cbn [as_request].
    destruct (load_alone_run w (lm_metrics m) None Hw) as (H1 & H2 & H3).
    destruct (load_commits (w_members w) (lm_metrics m) Hst Hl) as (ms & H4 & H5). rewrite H2 in H4. injection H4 as <-.
    rewrite lifecycle_run_commit in H3. pose proof (Loaded_lifecycle _ _ _ _ El) as HL. rewrite Hk in HL.
    assert (HL2 : w_lifecycle (load_alone (Load (lm_metrics m) None) w) = lm_lifecycle m) by congruence.
    split; [done|]. split; [split_and!; try done; by rewrite HL2, HL|]. intros iface. rewrite Hm.
    destruct iface; (split; [done|by intros []]).
Qed.
End promise.

(** ** A load *)

(** A file that sets the cache's size and two patterns, TLS off. *)
Definition site_xml : XmlSettings :=
  mkXmlSettings (fun key d _ => if String.eqb key "idempotency_cache_capacity" then 500 else d) (fun _ d => d)
    (fun key => if String.eqb key "pii_redaction_patterns" then Some "[0-9]+|token" else None).

Definition site_env (built : option Z) (slot_taken : bool) : environment :=
  mkEnvironment (Some site_xml) (Some "1.10.12") (fun _ => None) false built (Some "sw1") slot_taken true true (mkAnswers (Some 9%nat) (fun _ => true) true).

Definition site_compile (p : string) : string + string := if String.eqb p "(" then inr "unbalanced" else inl p.

Definition first_load : kept (Regex := string) := mkKept (mkHealthGauges 0 [] []) 0 Lifecycle_init logger_init.

Lemma world_init_idle : idle_unloaded world_init.
Proof. split; [by exists []|done|done]. Qed.

Lemma Load_serves_witness :
  exists m l, Load_values site_compile false (site_env (Some 50061) false) first_load = (l, Loaded m) /\
    loadable site_compile (site_env (Some 50061) false) /\ serving site_compile (site_env (Some 50061) false) first_load m l /\
    all_serving (lm_metrics m) (w_members (load_alone (as_request (Loaded m)) world_init)) /\
    g_patterns l = ["[0-9]+"; "token"] /\ ic_capacity_ (lm_cache m) = 500%nat /\ lm_node_id m = "sw1".
Proof.
  pose proof (Load_serves site_compile world_init (site_env (Some 50061) false) first_load world_init_idle eq_refl) as H.
  assert (Hv : let '(l, r) := Load_values site_compile false (site_env (Some 50061) false) first_load in
    match r with Loaded m => g_patterns l = ["[0-9]+"; "token"] /\ ic_capacity_ (lm_cache m) = 500%nat /\ lm_node_id m = "sw1"
    | _ => False end) by (vm_compute; repeat split; reflexivity).
  destruct (Load_values _ _ _ _) as [l r]. destruct r as [| |m|]; try (destruct Hv; fail).
  destruct H as (_ & (H1 & H2 & H3 & _) & _). exists m, l. exact (conj eq_refl (conj H1 (conj H2 (conj H3 Hv)))).
Defined.

(** A second binder in the process, a port in use: the load reports it and frees everything. *)
Example refused_loads :
  snd (Load_values site_compile false (site_env (Some 50061) true) first_load) = Refused BinderNotBound MetricsBindFailed /\
  snd (Load_values site_compile false (site_env None false) first_load) = Refused ServerNotStarted MetricsBindFailed /\
  fst (mod_open_switch_load site_compile true false (site_env None false) first_load) = SWITCH_STATUS_GENERR /\
  owned (w_members (load_alone (as_request (Refused BinderNotBound MetricsBindFailed)) world_init)) = [].
Proof. by vm_compute. Qed.
