(* ===== verification/Service.v ===== *)
(** * The media methods of the control service

    [src/control/control_service_skeleton.h] and the methods at the end of the
    handlers' files: each reads the pointers the server injected, wraps its
    handler in [RunIdempotent] and leaves an audit event when a stream or a bot
    starts or stops.  [MediaHandlers], [BotSession] and [MediaStreams] have the
    handlers; here they are put behind the pointers of [Server]'s service, with
    the audits of [Logging] and the cache of [Idempotency], as [Startup] wires
    them.  The registries a handler meets, FreeSWITCH and the upstream are in its
    payload; protobuf's serialisation is an argument. *)

From S2P Require Import Prelude BoundedQueue Tier Idempotency AudioFrame StreamClient BugManager MediaStreams Config BotRegistry BotSession MediaHandlers Module Metrics Logging Server Startup.

#[local] Open Scope string_scope.
#[local] Open Scope Z_scope.

(** ** Audits *)

Record audit_record := mkAudit { au_subclass : string; au_headers : list Header }.

(** [audit::Emit]; [audit::EmitSubclass] is [mkAudit]. *)
Definition emit_audit (name : string) (headers : list Header) : audit_record := mkAudit (kSubclassPrefix +:+ name) headers.

Definition warn_subclass : string := "osw.recording.warn_record_before_inject".

Definition warn_audit (channel_uuid tenant_id inject_purpose : string) (count : Z) : audit_record :=
  mkAudit warn_subclass
    [mkHeader "channel_uuid" channel_uuid; mkHeader "tenant_id" tenant_id; mkHeader "inject_purpose" inject_purpose;
     mkHeader "native_record_count" (pretty count);
     mkHeader "remediation" "Reorder dialplan: attach bot media before record_session, or use StartRecordingRelay"].

Definition start_purpose (r : start_rpc) : Purpose :=
  match r with
  | RpcTts => kTtsPlayback | RpcStt => kSttTranscribe | RpcVoicebot => kVoicebotDuplexRead
  | RpcRecordingRelay => kRecordingRelay
  end.

(** What a start that is registered leaves. *)
Definition start_audit (r : start_rpc) (req : StartRequest) (h : start_answers) : audit_record :=
  match r with
  | RpcRecordingRelay =>
      mkAudit "osw.recording.relay_started"
        [mkHeader "channel_uuid" (rq_channel_uuid req); mkHeader "stream_id" (sa_stream_id h);
         mkHeader "tenant_id" (rq_tenant_id req); mkHeader "stereo" (if rq_stereo req then "true" else "false")]
  | _ =>
      emit_audit "control.media.start"
        [mkHeader "channel_uuid" (rq_channel_uuid req); mkHeader "purpose" (PurposeName (start_purpose r));
         mkHeader "stream_id" (sa_stream_id h); mkHeader "tenant_id" (rq_tenant_id req)]
  end.

(** [RecordingRelay::EmitStopped], which the teardown of a relay calls. *)
Definition relay_stopped (channel_uuid stream_id tenant_id : string) : audit_record :=
  mkAudit "osw.recording.relay_stopped"
    [mkHeader "channel_uuid" channel_uuid; mkHeader "stream_id" stream_id; mkHeader "tenant_id" tenant_id].

Definition inject_label (r : start_rpc) : string := match r with RpcVoicebot => "voicebot" | _ => "tts" end.

(** The audit that goes with an effect of a start.  A relay whose stream is refused
    by the registry is torn down, and says so. *)
Definition effect_audits (r : start_rpc) (req : StartRequest) (h : start_answers) (e : h_effect) : list audit_record :=
  match e with
  | HWarnRecordBeforeInject n => [warn_audit (rq_channel_uuid req) (rq_tenant_id req) (inject_label r) n]
  | HInsert _ => [start_audit r req h]
  | HTear TEmitStopped => [relay_stopped (rq_channel_uuid req) (sa_stream_id h) (rq_tenant_id req)]
  | _ => []
  end.

(** [PurposeName] of [start_bot_handler.cc]. *)
Definition BotPurposeName (p : BotPurpose) : string :=
  match p with
  | TTS_BROADCAST => "tts_broadcast" | STT_LISTEN => "stt_listen" | BOT_VOICEBOT_DUPLEX => "voicebot_duplex"
  | WHISPER => "whisper" | BOT_PURPOSE_UNSPECIFIED => "unspecified"
  end.

Definition bot_started (req : StartBotRequest) (tenant_id bot_id : string) : audit_record :=
  mkAudit "osw.media.bot.started"
    [mkHeader "bot_id" bot_id; mkHeader "tenant_id" tenant_id; mkHeader "purpose" (BotPurposeName (sb_purpose req));
     mkHeader "target_count" (pretty (Z.of_nat (length (sb_target_channel_uuids req))))].

Definition bot_attach_failed (tenant_id bot_id error : string) : audit_record :=
  mkAudit "osw.media.bot.target_attach_failed"
    [mkHeader "bot_id" bot_id; mkHeader "tenant_id" tenant_id; mkHeader "error" error].

(** The marking loop's warnings; [counts] is [MediaBugCount] of each session. *)
Definition bot_warnings (config : Config) (req : StartBotRequest) (tenant_id : string) (h : start_bot_answers)
    (counts : string -> Z) : list audit_record :=
  sb_target_channel_uuids req ≫= fun uuid =>
    if ha_mark_lock h uuid && ShouldWriteTarget req uuid && warn_record_before_inject config && negb (counts uuid =? 0)
    then [warn_audit uuid tenant_id (BotPurposeName (sb_purpose req)) (counts uuid)] else [].

(** [HandleStartBot]'s audits, at the points where it emits them. *)
Definition bot_audits (config : Config) (req : StartBotRequest) (header : string * string)
    (start : string * gmap string string) (h : start_bot_answers) (counts : string -> Z) : list audit_record :=
  if negb (ha_planes h) then []
  else match ValidateStartBot req config with
  | inl _ => []
  | inr rate =>
      match check_channels config h req rate (sb_target_channel_uuids req) with
      | Some _ => []
      | None =>
          let s0 := BotSession_new (bot_config req header start rate config (ha_bot_id h)) true in
          let '(open_st, s1, _) := BotSession_Open (ha_open h) s0 in
          if negb (Status_ok open_st) then []
          else
            let '(attach_st, s2, _) := BotSession_Attach (ha_attach h) true true s1 in
            if negb (Status_ok attach_st) then [bot_attach_failed header.1 (ha_bot_id h) (st_message attach_st)]
            else
              let bot := mkActiveBot (ha_bot_id h) (bc_targets (bs_cfg s2)) [] true in
              (bot_warnings config req header.1 h counts ++
               match Bots_Insert bot (max_bots_per_channel config) (ha_bots_at_insert h) with
               | (kInserted, _) => [bot_started req header.1 (ha_bot_id h)]
               | _ => []
               end)%list
      end
  end.

(** ** The methods *)

Inductive media_rpc := RpcStart (r : start_rpc) | RpcStopMediaStream | RpcStopRecordingRelay | RpcStartBot | RpcStopBot.

Record StopRequest := mkStopRequest { sp_stream_id : string; sp_channel_uuid : string; sp_tenant_id : string }.

(** A request with what its handler meets: the registry at its turn, the order in
    which the registry's table is iterated, the tenant each relay was started with,
    and the audits that the components below emit while the handler runs (the
    silence drivers when a bug is attached or detached, the relays of a bot's
    streams); their places among the handler's own are not modelled. *)
Record start_payload := mkStartPayload {
  pl_start : StartRequest; pl_answers : start_answers; pl_start_below : list audit_record }.
Record stop_payload := mkStopPayload {
  pl_stop : StopRequest; pl_streams : StreamMap; pl_stream_of : stream_loc -> option ActiveMediaStream;
  pl_order : list string; pl_relay_tenant : stream_loc -> string; pl_stop_below : list audit_record }.
Record start_bot_payload := mkStartBotPayload {
  pl_start_bot : StartBotRequest; pl_header : string * string; pl_start_message : string * gmap string string;
  pl_bot_answers : start_bot_answers; pl_record_counts : string -> Z; pl_start_bot_below : list audit_record }.
Record stop_bot_payload := mkStopBotPayload {
  pl_bot_id : string; pl_tenant : string; pl_bots : ActiveBots; pl_stop_bot_below : list audit_record }.

Definition payload (m : media_rpc) : Type :=
  match m with
  | RpcStart _ => start_payload | RpcStopMediaStream | RpcStopRecordingRelay => stop_payload
  | RpcStartBot => start_bot_payload | RpcStopBot => stop_bot_payload
  end.

Record StartBotResponse := mkStartBotResponse { sbr_bot_id : string; sbr_negotiated_rate_hz : Z }.

(** The messages: [was_active], [streams_stopped] are plain values. *)
Definition response (m : media_rpc) : Type :=
  match m with
  | RpcStart _ => StartResponse | RpcStopMediaStream => bool | RpcStopRecordingRelay => Z
  | RpcStartBot => StartBotResponse | RpcStopBot => bool
  end.

Definition response_default (m : media_rpc) : response m :=
  match m with
  | RpcStart _ => StartResponse_default | RpcStopMediaStream => false | RpcStopRecordingRelay => 0
  | RpcStartBot => mkStartBotResponse "" 0 | RpcStopBot => false
  end.

Definition method_name (m : media_rpc) : string :=
  match m with
  | RpcStart r => rpc_name r | RpcStopMediaStream => "StopMediaStream" | RpcStopRecordingRelay => "StopRecordingRelay"
  | RpcStartBot => "StartBot" | RpcStopBot => "StopBot"
  end.

Definition tenant_of (m : media_rpc) : payload m -> string :=
  match m with
  | RpcStart _ => fun p => rq_tenant_id (pl_start p)
  | RpcStopMediaStream | RpcStopRecordingRelay => fun p => sp_tenant_id (pl_stop p)
  | RpcStartBot => fun p => (pl_header p).1
  | RpcStopBot => pl_tenant
  end.

(** What the methods have done: effects on streams, bots and registries, and the
    audits in the order they were emitted. *)
Inductive service_effect :=
  | EStream (e : h_effect)
  | EBot (e : bs_effect)
  | ETearDown (l : stream_loc)
  | EBotTearDown (e : bot_effect).

Record service_world := mkServiceWorld { sw_effects : list service_effect; sw_audits : list audit_record }.

Definition world_add (es : list service_effect) (audits : list audit_record) (w : service_world) : service_world :=
  mkServiceWorld (sw_effects w ++ es) (sw_audits w ++ audits).

Definition is_set (p : ptr) : bool := bool_decide (p <> None).

(** The registries the handler tests for null. *)
Definition planes (m : media_rpc) (s : Skeleton) : bool :=
  match m with
  | RpcStart _ => is_set (sk_bug_mgr s) && is_set (sk_active_media_streams s)
  | RpcStopMediaStream | RpcStopRecordingRelay => is_set (sk_active_media_streams s)
  | RpcStartBot => is_set (sk_bug_mgr s) && is_set (sk_active_bots s)
  | RpcStopBot => is_set (sk_active_bots s) && is_set (sk_active_media_streams s)
  end.

Definition with_planes (b : bool) (h : start_answers) : start_answers :=
  mkStartAnswers b (sa_first h) (sa_second h) (sa_has_inject h) (sa_stream_id h) (sa_open h) (sa_attach1 h) (sa_attach2 h)
    (sa_wired1 h) (sa_wired2 h) (sa_record_count h) (sa_insert h).

Definition with_bot_planes (b : bool) (h : start_bot_answers) : start_bot_answers :=
  mkStartBotAnswers b (ha_bots_at_check h) (ha_bots_at_insert h) (ha_lock h) (ha_read_rate h) (ha_write_rate h)
    (ha_bot_id h) (ha_open h) (ha_attach h) (ha_mark_lock h).

(** The handlers, with the pointers tested.  [bot_start_result] is the response's
    fields, which are set after the insertion. *)
Definition run_start (r : start_rpc) (ok : bool) (config : Config) (p : start_payload) (w : service_world)
  : Status * StartResponse * service_world :=
  let h := with_planes ok (pl_answers p) in
  let '(st, es) := run_handler (start_handler r config (pl_start p) h) in
  (st, if Status_ok st then start_response r config (pl_start p) h else StartResponse_default,
   world_add (EStream <$> es) ((if ok then pl_start_below p else []) ++ (es ≫= effect_audits r (pl_start p) h)) w).

Definition stop_audit (req : StopRequest) : audit_record :=
  emit_audit "control.media.stop"
    [mkHeader "channel_uuid" (sp_channel_uuid req); mkHeader "stream_id" (sp_stream_id req);
     mkHeader "tenant_id" (sp_tenant_id req)].

(** The audit of the teardown of a registered stream, when it is a relay. *)
Definition teardown_audits (p : stop_payload) (l : stream_loc) : list audit_record :=
  match pl_stream_of p l with
  | Some s => if ams_recording_ctx s then [relay_stopped (ams_channel_uuid s) (ams_stream_id s) (pl_relay_tenant p l)] else []
  | None => []
  end.

Definition run_stop (ok : bool) (p : stop_payload) (w : service_world) : Status * bool * service_world :=
  let '(st, was_active, _, vs) := HandleStopMediaStream ok (sp_stream_id (pl_stop p)) (pl_streams p) in
  (st, was_active,
   world_add (ETearDown <$> vs)
     ((if ok then pl_stop_below p else []) ++ (vs ≫= teardown_audits p) ++ (if was_active then [stop_audit (pl_stop p)] else [])) w).

Definition run_stop_relay (ok : bool) (p : stop_payload) (w : service_world) : Status * Z * service_world :=
  let '(st, stopped, _, vs) := HandleStopRecordingRelay (pl_stream_of p) ok (sp_stream_id (pl_stop p))
                                 (sp_channel_uuid (pl_stop p)) (pl_order p) (pl_streams p) in
  (st, stopped,
   world_add (ETearDown <$> vs) ((if ok then pl_stop_below p else []) ++ (vs ≫= teardown_audits p)) w).

Definition run_start_bot (ok : bool) (config : Config) (p : start_bot_payload) (w : service_world)
  : Status * StartBotResponse * service_world :=
  let h := with_bot_planes ok (pl_bot_answers p) in
  let '(st, _, es, _) := HandleStartBot config (pl_start_bot p) (pl_header p) (pl_start_message p) h in
  (st, match ValidateStartBot (pl_start_bot p) config with
       | inr rate => if Status_ok st then mkStartBotResponse (ha_bot_id h) rate else mkStartBotResponse "" 0
       | inl _ => mkStartBotResponse "" 0
       end,
   world_add (EBot <$> es)
     ((if ok then pl_start_bot_below p else []) ++
      bot_audits config (pl_start_bot p) (pl_header p) (pl_start_message p) h (pl_record_counts p)) w).

Definition bot_stopped (bot_id tenant_id : string) : audit_record :=
  mkAudit "osw.media.bot.stopped" [mkHeader "bot_id" bot_id; mkHeader "tenant_id" tenant_id].

Definition run_stop_bot (ok : bool) (p : stop_bot_payload) (w : service_world) : Status * bool * service_world :=
  let '(st, was_active, bot, _) := HandleStopBot ok (pl_bot_id p) (pl_bots p) in
  (st, was_active,
   world_add (EBotTearDown <$> from_option Bots_TearDown [] bot)
     ((if ok then pl_stop_bot_below p else []) ++
      (if was_active then [bot_stopped (pl_bot_id p) (pl_tenant p)] else [])) w).

Definition execute (m : media_rpc) (ok : bool) (config : Config)
  : payload m -> service_world -> Status * response m * service_world :=
  match m with
  | RpcStart r => run_start r ok config
  | RpcStopMediaStream => run_stop ok
  | RpcStopRecordingRelay => run_stop_relay ok
  | RpcStartBot => run_start_bot ok config
  | RpcStopBot => run_stop_bot ok
  end.

(** Only the starts read the configuration. *)
Definition needs_config (m : media_rpc) : bool := match m with RpcStart _ | RpcStartBot => true | _ => false end.

(** [config] and [c] are what the pointers point at. *)
Definition Service_call (SerializeToString : forall m, response m -> option string)
    (ParseFromString : forall m, string -> option (response m)) (m : media_rpc) (s : Skeleton) (config : Config)
    (c : IdempotencyCache) (p : payload m) (request_id : string) (now now' later : Z) (w : service_world) : RunOutcome :=
  let cache := if is_set (sk_idempotency_cache s) then Some c else None in
  if needs_config m && negb (is_set (sk_config s))
  then RunReturns cache (mkStatus UNAVAILABLE "media config not initialised") (response_default m) w
  else RunIdempotent (SerializeToString m) (ParseFromString m) cache (method_name m) (tenant_of m p) request_id true
         (execute m (planes m s) config p) now now' later w.

(** ** What the methods promise *)

(** The relays a stop asks for: the registered stream of that id, or those of the
    channel in the order of the table. *)
Definition registered_relay (p : stop_payload) (id : string) : option (stream_loc * ActiveMediaStream) :=
  l ← pl_streams p !! id; s ← pl_stream_of p l;
  if bool_decide (ams_purpose s = RECORDING_RELAY) then Some (l, s) else None.

Definition asked_relays (p : stop_payload) : list (stream_loc * ActiveMediaStream) :=
  if negb (string_empty (sp_stream_id (pl_stop p))) then option_list (registered_relay p (sp_stream_id (pl_stop p)))
  else filter (fun x => ams_channel_uuid x.2 = sp_channel_uuid (pl_stop p)) (omap (registered_relay p) (pl_order p)).

Definition relay_record (p : stop_payload) (x : stream_loc * ActiveMediaStream) : audit_record :=
  relay_stopped (ams_channel_uuid x.2) (ams_stream_id x.2) (pl_relay_tenant p x.1).

Definition relays_stopped (p : stop_payload) : list audit_record := relay_record p <$> asked_relays p.

(** The audit events of a call that did something: one, and one more for each relay
    that a stop tears down; [StopRecordingRelay] has no other. *)
Definition trail (m : media_rpc) : payload m -> list audit_record :=
  match m with
  | RpcStart r => fun p => [start_audit r (pl_start p) (pl_answers p)]
  | RpcStopMediaStream => fun p => (relays_stopped p ++ [stop_audit (pl_stop p)])%list
  | RpcStopRecordingRelay => relays_stopped
  | RpcStartBot => fun p => [bot_started (pl_start_bot p) (pl_header p).1 (ha_bot_id (pl_bot_answers p))]
  | RpcStopBot => fun p => [bot_stopped (pl_bot_id p) (pl_tenant p)]
  end.

(** The count [StopRecordingRelay] answers. *)
Definition counted (m : media_rpc) : response m -> payload m -> Prop :=
  match m with RpcStopRecordingRelay => fun n p => n = zlen (relays_stopped p) | _ => fun _ _ => True end.

(** It did something: a start that returned OK, a stop that found its stream. *)
Definition acted (m : media_rpc) (st : Status) : response m -> bool :=
  match m with
  | RpcStart _ => fun _ => Status_ok st
  | RpcStopMediaStream => fun was_active => was_active
  | RpcStopRecordingRelay => fun stopped => 0 <? stopped
  | RpcStartBot => fun _ => Status_ok st
  | RpcStopBot => fun was_active => was_active
  end.

Definition silence_subclasses : list string :=
  ["osw.audit.osw.media.silence_driver.started"; "osw.audit.osw.media.silence_driver.stopped";
   "osw.audit.osw.media.silence_driver.cap_reached"].

Definition relay_stopped_subclass : string := "osw.recording.relay_stopped".

(** Whether the method stops streams by itself. *)
Definition stops_streams (m : media_rpc) : bool :=
  match m with RpcStopMediaStream | RpcStopRecordingRelay => true | _ => false end.

(** What the components below may emit. *)
Definition below_audit (m : media_rpc) (a : audit_record) : bool :=
  bool_decide (au_subclass a ∈ silence_subclasses) ||
  (negb (stops_streams m) && bool_decide (au_subclass a = relay_stopped_subclass)).

(** What may stand beside the trail: a warning, a failed attach, and what comes from
    below. *)
Definition side_audit (m : media_rpc) (a : audit_record) : bool :=
  bool_decide (au_subclass a = warn_subclass) || bool_decide (au_subclass a = "osw.media.bot.target_attach_failed") ||
  below_audit m a.

Definition critical (a : audit_record) : Prop :=
  Classify (TierClassifier_new MakeDefaultRules) "CUSTOM" (au_subclass a) = k1Critical.

Lemma side_audit_start r req h m : side_audit m (start_audit r req h) = false.
Proof. by destruct r, m. Qed.

Lemma side_audit_warn uuid t p n m : side_audit m (warn_audit uuid t p n) = true.
Proof. done. Qed.

(** The audits of a list of effects, without the warnings. *)
Definition trail_of (m : media_rpc) (audits : list audit_record) : list audit_record :=
  filter (fun a => side_audit m a = false) audits.

Lemma trail_of_app m l k : trail_of m (l ++ k) = (trail_of m l ++ trail_of m k)%list.
Proof. apply filter_app. Qed.

(** Audits from below leave the trail as it is. *)
Lemma trail_of_below m l : Forall (fun a => below_audit m a = true) l -> trail_of m l = [].
Proof.
  induction 1 as [|a l Ha _ IH]; [done|]. unfold trail_of. rewrite filter_cons_False; [exact IH|].
  unfold side_audit. by rewrite Ha, orb_true_r.
Qed.

Section start_trail.
Context (r : start_rpc) (req : StartRequest) (h : start_answers).
Definition audits (es : list h_effect) : list audit_record := trail_of (RpcStart r) (es ≫= effect_audits r req h).

(** A step of a handler that registers nothing, on a scope without registrations. *)
Definition quiet {A} (m : H A) : Prop :=
  forall f, audits (fr_scope f) = [] ->
    audits (fr_out (m f).2) = audits (fr_out f) /\ audits (fr_scope (m f).2) = [] /\
    (forall st, (m f).1 = inl st -> Status_ok st = false).

Lemma audits_app es es' : audits (es ++ es')%list = (audits es ++ audits es')%list.
Proof. unfold audits. by rewrite bind_app, trail_of_app. Qed.

Lemma quiet_ret {A} (a : A) : quiet (h_ret a).
Proof. by intros f Hf. Qed.

Lemma quiet_return {A} st : Status_ok st = false -> quiet (A := A) (h_return st).
Proof. intros Hst f Hf. split_and!; [done..|]. by intros ? [= <-]. Qed.

Lemma quiet_bind {A B} (m : H A) (k : A -> H B) : quiet m -> (forall a, quiet (k a)) -> quiet (h_bind m k).
Proof.
  intros Hm Hk f Hf. unfold h_bind. destruct (Hm f Hf) as (H1 & H2 & H3). destruct (m f) as [[st|a] f'].
  - split_and!; [done..|]. intros ? [= <-]. by apply H3.
  - destruct (Hk a f' H2) as (H4 & H5 & H6). split_and!; [by etrans|done..].
Qed.

Lemma quiet_emit e : audits [e] = [] -> quiet (emit e).
Proof. intros He f Hf. cbn [emit fst snd fr_out fr_scope]. by rewrite audits_app, He, app_nil_r. Qed.

Lemma quiet_own d : audits [d] = [] -> quiet (own d).
Proof. intros He f Hf. split_and!; [done| |done]. cbn [own snd fr_scope]. change (d :: fr_scope f) with ([d] ++ fr_scope f)%list. by rewrite audits_app, He. Qed.

Lemma quiet_block {A} (m : H A) : quiet m -> quiet (block m).
Proof.
  intros Hm f Hf. unfold block. destruct (Hm (mkFrame (fr_out f) []) eq_refl) as (H1 & H2 & H3).
  destruct (m (mkFrame (fr_out f) [])) as [x f']. cbn [fst snd fr_out fr_scope] in *. rewrite audits_app, H2, app_nil_r. by split_and!.
Qed.

Lemma quiet_moved d : quiet (moved d).
Proof.
  intros f Hf. split_and!; [done| |done]. cbn [moved snd fr_scope]. revert Hf. generalize (fr_scope f) as l.
  induction l as [|x l IH]; [done|]. change (x :: l) with ([x] ++ l)%list at 1. rewrite audits_app. intros [Hx Hl]%app_nil.
  cbn [remove_first]. destruct (is_destructor d x); [done|].
  change (x :: remove_first (is_destructor d) l) with ([x] ++ remove_first (is_destructor d) l)%list.
  rewrite audits_app, Hx. by apply IH.
Qed.

Lemma quiet_move_all ds : quiet (move_all ds).
Proof. induction ds; cbn; [apply quiet_ret|]. apply quiet_bind; [apply quiet_moved|done]. Qed.

Lemma quiet_emit_all es : Forall (fun e => audits [e] = []) es -> quiet (emit_all es).
Proof. induction 1; cbn; [apply quiet_ret|]. apply quiet_bind; [by apply quiet_emit|done]. Qed.

Lemma quiet_unless_ok st cleanup : quiet cleanup -> quiet (unless_ok st cleanup).
Proof.
  intros Hc. unfold unless_ok. destruct (Status_ok st) eqn:E; [apply quiet_ret|].
  apply quiet_bind; [done|]. intros _. by apply quiet_return.
Qed.
(** The handlers' pieces. *)
Lemma quiet_when (c : bool) st : Status_ok st = false -> quiet (if c then h_return st else h_ret tt).
Proof. intros Hst. destruct c; [by apply quiet_return|apply quiet_ret]. Qed.

Lemma quiet_make o : quiet (make o).
Proof. apply quiet_bind; [by apply quiet_emit|]. intros _. by apply quiet_own. Qed.

Lemma quiet_wire id k b : quiet (wire id k b).
Proof. destruct b; [by apply quiet_emit|apply quiet_ret]. Qed.

Lemma quiet_attach a p flags : answer_ok a -> quiet (attach a p flags).
Proof.
  intros Ha. destruct a as [st|id]; cbn; apply quiet_bind; try (by apply quiet_emit); intros _.
  - apply quiet_return. by apply Ha.
  - apply quiet_bind; [by apply quiet_own|]. intros _. apply quiet_ret.
Qed.

Lemma quiet_locate o cleanup : quiet cleanup -> quiet (locate o cleanup).
Proof.
  intros Hc. destruct o; cbn; (apply quiet_bind; [done || by apply quiet_emit|intros _]); [|by apply quiet_return].
  apply quiet_bind; [by apply quiet_own|]. intros _. apply quiet_ret.
Qed.

Lemma quiet_relocate o cleanup : quiet cleanup -> quiet (relocate o cleanup).
Proof.
  intros Hc. destruct o; cbn; (apply quiet_bind; [done || by apply quiet_emit|intros _]); [|by apply quiet_return].
  intros f Hf. split_and!; [done| |done]. cbn [snd fr_scope]. by rewrite audits_app, Hf.
Qed.

Lemma quiet_warn config n : quiet (MaybeWarnRecordBeforeInject config n).
Proof.
  unfold MaybeWarnRecordBeforeInject. repeat case_match; try apply quiet_ret. by apply quiet_emit.
Qed.

Lemma quiet_buffer config rate : quiet (make_buffer config req rate).
Proof. unfold make_buffer. case_match; [apply quiet_make|by apply quiet_emit]. Qed.

Lemma quiet_open : quiet (open_client h).
Proof.
  apply quiet_bind; [|intros _; apply quiet_unless_ok, quiet_ret].
  destruct (Status_ok (sa_open h)); [by apply quiet_emit|apply quiet_ret].
Qed.

(** A handler that registers its stream exactly when it goes through. *)
Definition records (m : H unit) : Prop :=
  forall f, audits (fr_scope f) = [] ->
    let '(x, f') := m f in
    audits (fr_scope f') = [] /\
    match x with
    | inl st => Status_ok st = false /\ audits (fr_out f') = audits (fr_out f)
    | inr _ => audits (fr_out f') = (audits (fr_out f) ++ [start_audit r req h])%list
    end.

Lemma records_bind {A} (m : H A) (k : A -> H unit) : quiet m -> (forall a, records (k a)) -> records (h_bind m k).
Proof.
  intros Hm Hk f Hf. unfold h_bind. destruct (Hm f Hf) as (H1 & H2 & H3). destruct (m f) as [[st|a] f'].
  - split; [done|]. split; [by apply H3|done].
  - pose proof (Hk a f' H2) as Hr. destruct (k a f') as [[st|u] f'']; destruct Hr as [Hs Hr]; split; try done.
    + destruct Hr as [Hr1 Hr2]. split; [done|]. by etrans.
    + by rewrite Hr; f_equal.
Qed.

Lemma records_insert s : records (insert_stream h s).
Proof.
  intros f Hf. unfold insert_stream. destruct (sa_insert h).
  - split; [done|]. cbn [emit fst snd fr_out]. rewrite audits_app. f_equal. unfold audits, trail_of. cbn [effect_audits mbind list_bind app].
    by rewrite filter_cons_True by apply side_audit_start.
  - assert (Hq : quiet (emit_all (HTear <$> TearDown s) ;; h_return (A := unit) (mkStatus INTERNAL "stream_id collision"))%handler).
    { apply quiet_bind; [|intros _; by apply quiet_return]. apply quiet_emit_all, Forall_fmap, Forall_true. by intros []. }
    destruct (Hq f Hf) as (H1 & H2 & H3). destruct (h_bind _ _ f) as [[st|u] f'] eqn:E.
    + split; [done|]. split; [by apply H3|done].
    + exfalso. unfold h_bind in E. by destruct (emit_all _ f) as [[]].
Qed.
End start_trail.

(** A handler is a sequence of quiet steps that ends in the insertion. *)
Ltac quiet :=
  intros;
  lazymatch goal with
  | |- quiet _ _ _ (h_bind _ _) => apply quiet_bind; [quiet|intros; quiet]
  | |- quiet _ _ _ (h_ret _) => apply quiet_ret
  | |- quiet _ _ _ (block _) => apply quiet_block; quiet
  | |- quiet _ _ _ (unless_ok _ _) => apply quiet_unless_ok; quiet
  | |- quiet _ _ _ (locate _ _) => apply quiet_locate; quiet
  | |- quiet _ _ _ (relocate _ _) => apply quiet_relocate; quiet
  | |- quiet _ _ _ (attach _ _ _) => by apply quiet_attach
  | |- quiet _ _ _ (make _) => apply quiet_make
  | |- quiet _ _ _ (make_client _) => apply quiet_make
  | |- quiet _ _ _ (make_buffer _ _ _) => apply quiet_buffer
  | |- quiet _ _ _ (open_client _) => apply quiet_open
  | |- quiet _ _ _ (wire _ _ _) => apply quiet_wire
  | |- quiet _ _ _ (moved _) => apply quiet_moved
  | |- quiet _ _ _ (move_into_stream _) => apply quiet_move_all
  | |- quiet _ _ _ (MaybeWarnRecordBeforeInject _ _) => apply quiet_warn
  | |- quiet _ _ _ (emit_all _) => apply quiet_emit_all, Forall_fmap, Forall_true; by intros
  | |- quiet _ _ _ (emit _) => by apply quiet_emit
  | |- quiet _ _ _ (if _ then h_return _ else h_ret tt) => by apply quiet_when
  | |- quiet _ _ _ (if ?b then _ else _) => destruct b; quiet
  | |- quiet _ _ _ (check_request _ _) => unfold check_request; quiet
  | |- quiet _ _ _ (check_stream_rate _) => unfold check_stream_rate; quiet
  | |- quiet _ _ _ (check_planes _) => unfold check_planes; quiet
  | |- quiet _ _ _ (check_relay_rates _ _ _ _) => unfold check_relay_rates; quiet
  | |- quiet _ _ _ (mark_bot _ _ _) => unfold mark_bot; quiet
  | |- quiet _ _ _ unlock_session => unfold unlock_session; quiet
  end.

Ltac records := repeat (apply records_bind; [quiet|intros]); apply records_insert.

Lemma start_records r config req h :
  answer_ok (sa_attach1 h) -> answer_ok (sa_attach2 h) -> records r req h (start_handler r config req h).
Proof.
  intros H1 H2. destruct r; cbn [start_handler].
  - unfold HandleStartTts. records.
  - unfold HandleStartStt. records.
  - unfold HandleStartVoicebot. records.
  - unfold HandleStartRecordingRelay. records.
Qed.

Lemma run_start_trail r config req h :
  answer_ok (sa_attach1 h) -> answer_ok (sa_attach2 h) ->
  let '(st, es) := run_handler (start_handler r config req h) in
  audits r req h es = if Status_ok st then [start_audit r req h] else [].
Proof.
  intros H1 H2. pose proof (start_records r config req h H1 H2 (mkFrame [] []) eq_refl) as Hr.
  unfold run_handler, block. cbn [fr_out fr_scope]. destruct (start_handler r config req h (mkFrame [] [])) as [[st|u] f];
    destruct Hr as [Hs Hr]; cbn [fr_out]; rewrite audits_app, Hs, app_nil_r.
  - destruct Hr as [-> Hr]. exact Hr.
  - exact Hr.
Qed.

(** ** Bots *)

Lemma check_channels_not_ok config h req rate uuids st :
  check_channels config h req rate uuids = Some st -> Status_ok st = false.
Proof.
  induction uuids as [|u uuids IH]; [done|]. cbn [check_channels]. repeat case_match; intros [= <-] || intros Hc; b2p; try done. by apply IH.
Qed.

Lemma check_targets_not_ok uuids seen st : check_targets uuids seen = inl st -> Status_ok st = false.
Proof.
  revert seen. induction uuids as [|u uuids IH]; intros seen; [done|]. cbn [check_targets].
  repeat case_match; try (by intros [= <-]). apply IH.
Qed.

Lemma ValidateStartBot_not_ok req config st : ValidateStartBot req config = inl st -> Status_ok st = false.
Proof.
  unfold ValidateStartBot. intros Hv.
  repeat (case_match; simplify_eq; try done; try (by eapply check_targets_not_ok)).
Qed.

Lemma trail_of_warnings config req t h counts : trail_of RpcStartBot (bot_warnings config req t h counts) = [].
Proof.
  unfold bot_warnings. induction (sb_target_channel_uuids req) as [|u uuids IH]; [done|].
  cbn [mbind list_bind]. rewrite trail_of_app, IH, app_nil_r. by case_match.
Qed.

Lemma bot_trail config req header start h counts :
  let '(st, _, _, _) := HandleStartBot config req header start h in
  trail_of RpcStartBot (bot_audits config req header start h counts) =
  if Status_ok st then [bot_started req header.1 (ha_bot_id h)] else [].
Proof.
  unfold HandleStartBot, bot_audits. destruct (ha_planes h); cbn [negb]; [|done].
  destruct (ValidateStartBot req config) as [st|rate] eqn:Ev; [by rewrite (ValidateStartBot_not_ok _ _ _ Ev)|].
  destruct (check_channels _ _ _ _ _) as [st|] eqn:Ec; [by rewrite (check_channels_not_ok _ _ _ _ _ _ Ec)|].
  destruct (BotSession_Open _ _) as [[open_st s1] es1]. destruct (Status_ok open_st) eqn:Eo; cbn [negb]; [|by rewrite Eo].
  destruct (BotSession_Attach _ _ _ _) as [[attach_st s2] es2]. destruct (Status_ok attach_st) eqn:Ea; cbn [negb]; [|by rewrite Ea].
  destruct (Bots_Insert _ _ _) as [[] bots']; rewrite trail_of_app, trail_of_warnings; done.
Qed.

(** ** Every method *)

(** What the components below answer: the bug manager an error status for a failure,
    and audits of their own; a stream that records has the purpose of a relay, and
    the table is iterated once. *)
Definition payload_ok (m : media_rpc) : payload m -> Prop :=
  match m with
  | RpcStart _ => fun p => answer_ok (sa_attach1 (pl_answers p)) /\ answer_ok (sa_attach2 (pl_answers p)) /\
                           Forall (fun a => below_audit m a = true) (pl_start_below p)
  | RpcStopMediaStream | RpcStopRecordingRelay => fun p =>
      Forall (fun a => below_audit m a = true) (pl_stop_below p) /\
      (forall l s, pl_stream_of p l = Some s -> ams_recording_ctx s = bool_decide (ams_purpose s = RECORDING_RELAY)) /\
      (forall id l, pl_streams p !! id = Some l -> pl_stream_of p l <> None) /\
      NoDup (pl_order p) /\ zlen (pl_order p) < 2 ^ 32
  | RpcStartBot => fun p => Forall (fun a => below_audit m a = true) (pl_start_bot_below p)
  | RpcStopBot => fun p => Forall (fun a => below_audit m a = true) (pl_stop_bot_below p)
  end.

Lemma start_audit_planes r req h b : start_audit r req (with_planes b h) = start_audit r req h.
Proof. by destruct r. Qed.

Lemma relay_stopped_trail m c i t : stops_streams m = true -> trail_of m [relay_stopped c i t] = [relay_stopped c i t].
Proof. by destruct m. Qed.

(** Every relay in the trail of a stop. *)
Lemma trail_of_relays m p : stops_streams m = true -> trail_of m (relays_stopped p) = relays_stopped p.
Proof.
  intros Hm. unfold relays_stopped. induction (asked_relays p) as [|x xs IH]; [done|].
  change (relay_record p <$> x :: xs) with ([relay_record p x] ++ (relay_record p <$> xs))%list.
  rewrite trail_of_app, IH. f_equal. by apply relay_stopped_trail.
Qed.

Section relays.
Context (p : stop_payload).
Hypothesis Hctx : forall l s, pl_stream_of p l = Some s -> ams_recording_ctx s = bool_decide (ams_purpose s = RECORDING_RELAY).

(** The teardown of the stream with an id, when it is registered. *)
Lemma teardown_registered id l :
  pl_streams p !! id = Some l -> pl_stream_of p l <> None ->
  teardown_audits p l =
  relay_record p <$> option_list (registered_relay p id).
Proof.
  intros Hl Hs. unfold teardown_audits, registered_relay. rewrite Hl. cbn.
  destruct (pl_stream_of p l) as [s|] eqn:Es; [|done]. cbn. rewrite (Hctx l s Es). by case_bool_decide.
Qed.

(** The loop over the table takes the channel's relays out, in its order. *)
Lemma erase_relays uuid order : forall m m' vs,
  NoDup order -> (forall id, id ∈ order -> m !! id = pl_streams p !! id) ->
  erase_matching (pl_stream_of p) (fun s => String.eqb (ams_channel_uuid s) uuid && bool_decide (ams_purpose s = RECORDING_RELAY))
    order m = (m', vs) ->
  vs ≫= teardown_audits p =
  relay_record p <$>
    filter (fun x => ams_channel_uuid x.2 = uuid) (omap (registered_relay p) order) /\
  length vs = length (filter (fun x => ams_channel_uuid x.2 = uuid) (omap (registered_relay p) order)).
Proof.
  induction order as [|id order IH]; intros m m' vs Hnd Hm E; cbn [erase_matching] in E; [by injection E as <- <-|].
  apply NoDup_cons in Hnd as [Hid Hnd].
  assert (Hin : forall i, i ∈ order -> m !! i = pl_streams p !! i) by (intros i Hi; apply Hm; by right).
  cbn [omap list_omap].
  assert (Er : registered_relay p id = l ← m !! id; s ← pl_stream_of p l;
    if bool_decide (ams_purpose s = RECORDING_RELAY) then Some (l, s) else None) by (by rewrite Hm by (by left)).
  rewrite Er. clear Er.
  destruct (m !! id) as [l|] eqn:El; cbn in E |- *; [|by eapply IH].
  destruct (pl_stream_of p l) as [s|] eqn:Es; cbn in E |- *; [|by eapply IH].
  destruct (bool_decide (ams_purpose s = RECORDING_RELAY)) eqn:Ep; rewrite ?andb_true_r, ?andb_false_r in E; [|by eapply IH].
  rewrite !filter_cons. cbn [snd]. destruct (String.eqb_spec (ams_channel_uuid s) uuid) as [Eu|Nu].
  - destruct (erase_matching _ _ order (delete id m)) as [m1 v1] eqn:E1. injection E as <- <-.
    destruct (IH (delete id m) m1 v1 Hnd) as [H1 H2]; [|exact E1|].
    { intros i Hi. rewrite lookup_delete_ne; [by apply Hin|]. by intros ->. }
    rewrite decide_True by done. cbn [fmap list_fmap length mbind list_bind] in *. rewrite H1, H2. split; [|done].
    unfold teardown_audits at 1. by rewrite Es, (Hctx l s Es), Ep.
  - rewrite decide_False by done. by eapply IH.
Qed.
End relays.

Lemma length_omap_le {A B} (f : A -> option B) (l : list A) : (length (omap f l) <= length l)%nat.
Proof. induction l as [|x l IH]; [done|]. cbn [omap list_omap length]. destruct (f x); cbn [length]; lia. Qed.

Lemma stop_audits p st b m' vs :
  payload_ok RpcStopMediaStream p -> HandleStopMediaStream true (sp_stream_id (pl_stop p)) (pl_streams p) = (st, b, m', vs) ->
  vs ≫= teardown_audits p = if b then relays_stopped p else [].
Proof.
  intros (_ & Hctx & Hdom & _) H. unfold HandleStopMediaStream, Streams_Remove in H. unfold relays_stopped, asked_relays.
  destruct (string_empty (sp_stream_id (pl_stop p))); cbn [negb] in H |- *; [by injection H as <- <- <- <-|].
  destruct (pl_streams p !! sp_stream_id (pl_stop p)) as [l|] eqn:El; injection H as <- <- <- <-; [|done].
  cbn [mbind list_bind]. rewrite app_nil_r. by apply teardown_registered; [|done|eapply Hdom].
Qed.

Lemma stop_relay_audits p st n m' vs :
  payload_ok RpcStopRecordingRelay p ->
  HandleStopRecordingRelay (pl_stream_of p) true (sp_stream_id (pl_stop p)) (sp_channel_uuid (pl_stop p)) (pl_order p)
    (pl_streams p) = (st, n, m', vs) ->
  vs ≫= teardown_audits p = (if 0 <? n then relays_stopped p else []) /\
  (Status_ok st = true -> n = zlen (relays_stopped p)).
Proof.
  intros (_ & Hctx & Hdom & Hnd & Hlen) H. unfold HandleStopRecordingRelay in H. cbn [negb] in H.
  unfold relays_stopped, asked_relays.
  destruct (string_empty (sp_stream_id (pl_stop p))) eqn:Ei; cbn [negb andb] in H |- *.
  - destruct (string_empty (sp_channel_uuid (pl_stop p))); [by injection H as <- <- <- <-|].
    unfold Streams_RemovePurposeForChannel in H.
    destruct (erase_matching _ _ (pl_order p) (pl_streams p)) as [m1 v1] eqn:E. injection H as <- <- <- <-.
    destruct (erase_relays p Hctx _ _ (pl_streams p) m1 v1 Hnd (fun _ _ => eq_refl) E) as [H1 H2].
    assert (Hle : (length v1 <= length (pl_order p))%nat).
    { rewrite H2. etrans; [apply length_filter_le|apply length_omap_le]. }
    assert (Hu : u32 (zlen v1) = zlen v1) by (apply u32_small; lia). rewrite Hu, length_fmap, <- H2, H1. split; [|done].
    destruct (Z.ltb_spec 0 (zlen v1)) as [Hp|Hp]; [done|]. rewrite H2 in Hp. by destruct (filter _ _).
  - unfold Streams_RemoveIfPurpose in H.
    pose proof (teardown_registered p Hctx (sp_stream_id (pl_stop p))) as Ht. unfold registered_relay in *.
    destruct (pl_streams p !! sp_stream_id (pl_stop p)) as [l|] eqn:El; cbn in Ht |- *; [|by injection H as <- <- <- <-].
    destruct (pl_stream_of p l) as [s|] eqn:Es; cbn in Ht |- *; [|by injection H as <- <- <- <-].
    destruct (bool_decide _) eqn:Ep; injection H as <- <- <- <-; [|done]. cbn. rewrite app_nil_r. by rewrite (Ht l) by (done || congruence).
Qed.
Lemma execute_trail m config p w :
  payload_ok m p ->
  let '(st, resp, w1) := execute m true config p w in
  trail_of m (sw_audits w1) = (trail_of m (sw_audits w) ++ if acted m st resp then trail m p else [])%list /\
  (Status_ok st = true -> counted m resp p).
Proof.
  destruct m as [r| | | |]; cbn [execute acted trail counted].
  - intros (H1 & H2 & Hb). unfold run_start.
    pose proof (run_start_trail r config (pl_start p) (with_planes true (pl_answers p)) H1 H2) as Hr.
    destruct (run_handler _) as [st es]. cbn [world_add sw_audits]. split; [|done].
    rewrite !trail_of_app, (trail_of_below _ _ Hb), <- (start_audit_planes _ _ _ true). cbn [app]. f_equal. exact Hr.
  - intros Hp. pose proof (proj1 Hp) as Hb. unfold run_stop.
    destruct (HandleStopMediaStream _ _ _) as [[[st b] m'] vs] eqn:E. cbn [world_add sw_audits]. split; [|done].
    rewrite !trail_of_app, (trail_of_below _ _ Hb), (stop_audits _ _ _ _ _ Hp E). cbn [app]. f_equal.
    destruct b; [|done]. by rewrite trail_of_relays.
  - intros Hp. pose proof (proj1 Hp) as Hb. unfold run_stop_relay.
    destruct (HandleStopRecordingRelay _ _ _ _ _ _) as [[[st n] m'] vs] eqn:E. cbn [world_add sw_audits].
    destruct (stop_relay_audits _ _ _ _ _ Hp E) as [H1 H2]. split; [|exact H2].
    rewrite !trail_of_app, (trail_of_below _ _ Hb), H1. cbn [app]. f_equal. case_match; [|done]. by apply trail_of_relays.
  - intros Hbl. unfold run_start_bot.
    pose proof (bot_trail config (pl_start_bot p) (pl_header p) (pl_start_message p) (with_bot_planes true (pl_bot_answers p))
                  (pl_record_counts p)) as Hb.
    destruct (HandleStartBot _ _ _ _ _) as [[[st bots] es] o]. cbn [world_add sw_audits]. split; [|done].
    rewrite !trail_of_app, (trail_of_below _ _ Hbl). cbn [app]. f_equal. exact Hb.
  - intros Hbl. unfold run_stop_bot. destruct (HandleStopBot _ _ _) as [[[st b] bot] bots']. cbn [world_add sw_audits]. split; [|done].
    rewrite !trail_of_app, (trail_of_below _ _ Hbl). by destruct b.
Qed.

(** Every audit of the methods is critical. *)
Definition all_critical (audits : list audit_record) : Prop := Forall critical audits.

Lemma critical_start r req h : critical (start_audit r req h).
Proof. destruct r; vm_compute; reflexivity. Qed.

Lemma critical_warn uuid t l n : critical (warn_audit uuid t l n).
Proof. vm_compute. reflexivity. Qed.

Lemma critical_relay_stopped c i t : critical (relay_stopped c i t).
Proof. vm_compute. reflexivity. Qed.

Lemma critical_effects r req h es : all_critical (es ≫= effect_audits r req h).
Proof.
  induction es as [|e es IH]; [by apply Forall_nil|]. cbn [mbind list_bind]. apply Forall_app. split; [|exact IH].
  unfold effect_audits. repeat case_match; try (by apply Forall_nil); apply Forall_singleton;
    [apply critical_warn|apply critical_start|apply critical_relay_stopped].
Qed.

(** So is whatever may come from below. *)
Lemma critical_below m l : Forall (fun a => below_audit m a = true) l -> all_critical l.
Proof.
  intros H. eapply Forall_impl; [exact H|]. intros [sub hs] Ha. unfold below_audit, critical in *. cbn [au_subclass] in *.
  apply orb_true_iff in Ha as [Ha|[_ Ha]%andb_prop]; apply bool_decide_eq_true in Ha.
  - unfold silence_subclasses in Ha. rewrite !elem_of_cons, elem_of_nil in Ha.
    destruct Ha as [-> |[-> |[-> |[]]]]; by vm_compute.
  - subst sub. by vm_compute.
Qed.

Lemma critical_teardown p vs : all_critical (vs ≫= teardown_audits p).
Proof.
  induction vs as [|l vs IH]; [by apply Forall_nil|]. cbn [mbind list_bind]. apply Forall_app. split; [|exact IH].
  unfold teardown_audits. repeat case_match; try (by apply Forall_nil). apply Forall_singleton, critical_relay_stopped.
Qed.

Lemma critical_bot config req header start h counts : all_critical (bot_audits config req header start h counts).
Proof.
  assert (Hw : all_critical (bot_warnings config req header.1 h counts)).
  { unfold bot_warnings. induction (sb_target_channel_uuids req) as [|u uuids IH]; [by apply Forall_nil|].
    cbn [mbind list_bind]. apply Forall_app. split; [|exact IH].
    case_match; [apply Forall_singleton, critical_warn|by apply Forall_nil]. }
  unfold bot_audits. repeat case_match; try (by apply Forall_nil); try (apply Forall_singleton; by vm_compute);
    (apply Forall_app; split; [exact Hw|]); by (apply Forall_nil || (apply Forall_singleton; vm_compute)).
Qed.

Lemma execute_critical m config p w :
  payload_ok m p ->
  let '(_, _, w1) := execute m true config p w in
  exists new, sw_audits w1 = (sw_audits w ++ new)%list /\ all_critical new.
Proof.
  destruct m as [r| | | |]; cbn [execute].
  - intros (_ & _ & Hb). unfold run_start. destruct (run_handler _) as [st es]. eexists. split; [done|].
    apply Forall_app. split; [by eapply critical_below|apply critical_effects].
  - intros (Hb & _). unfold run_stop. destruct (HandleStopMediaStream _ _ _) as [[[st b] m'] vs]. eexists. split; [done|].
    apply Forall_app. split; [by eapply critical_below|]. apply Forall_app. split; [apply critical_teardown|].
    destruct b; [apply Forall_singleton; by vm_compute|by apply Forall_nil].
  - intros (Hb & _). unfold run_stop_relay. destruct (HandleStopRecordingRelay _ _ _ _ _ _) as [[[st n] m'] vs].
    eexists. split; [done|]. apply Forall_app. split; [by eapply critical_below|apply critical_teardown].
  - intros Hb. unfold run_start_bot. destruct (HandleStartBot _ _ _ _ _) as [[[st bots] es] o]. eexists. split; [done|].
    apply Forall_app. split; [by eapply critical_below|apply critical_bot].
  - intros Hb. unfold run_stop_bot. destruct (HandleStopBot _ _ _) as [[[st b] bot] bots']. eexists. split; [done|].
    apply Forall_app. split; [by eapply critical_below|].
    destruct b; [apply Forall_singleton; by vm_compute|by apply Forall_nil].
Qed.

(** On the service of a load every pointer is set. *)
Lemma wired_planes lm s m : service_wired lm s -> planes m s = true.
Proof.
  intros [_ Hp _ _ _]. pose proof (Hp DepBugMgr) as H1. pose proof (Hp DepStreams) as H2. pose proof (Hp DepBots) as H3.
  cbn in H1, H2, H3. unfold planes. rewrite H1, H2, H3. by destruct m.
Qed.

Lemma wired_config lm s : service_wired lm s -> is_set (sk_config s) = true /\ is_set (sk_idempotency_cache s) = true.
Proof.
  intros [_ Hp _ _ _]. pose proof (Hp DepConfig) as H1. pose proof (Hp DepCache) as H2. cbn in H1, H2. by rewrite H1, H2.
Qed.

(** A fresh key is executed, and stored when the response serialises. *)
Lemma RunIdempotent_first {R W} (ser : R -> option string) par c m t rid (ex : W -> Status * R * W) now now' later w st r w1 bytes :
  cache_wf c -> rid <> "" -> let key := MakeIdempotencyKey m t rid in
  index_ c !! key = None -> in_flight_ c !! key = None -> ex w = (st, r, w1) -> ser r = Some bytes ->
  exists c1, RunIdempotent ser par (Some c) m t rid true ex now now' later w = RunReturns (Some c1) st r w1 /\ cache_wf c1.
Proof.
  intros Hwf Hr key Hix Hfl Hex Hser.
  assert (Hk : key <> "").
  { unfold key, MakeIdempotencyKey. destruct (string_empty rid) eqn:E; [by apply string_empty_spec in E|by destruct m]. }
  assert (Hke : string_empty key = false) by (destruct (string_empty key) eqn:E; [by apply string_empty_spec in E|done]).
  pose proof (begin_refines c key now now' Hwf) as Hb.
  unfold RunIdempotent. fold key. unfold LookupOrReserve_begin in *. rewrite Hke, Hix, Hfl in Hb. destruct Hb as (Hwf0 & _).
  rewrite Hke, Hix, Hfl. cbn [orb negb lr_state Miss]. rewrite Hex, Hser.
  set (e := mkEntry _ _ _). destruct (Store_view _ key e Hwf0 Hk) as (c1 & -> & Hwf1 & _). by exists c1.
Qed.

Section once.
Context (SerializeToString : forall m, response m -> option string) (ParseFromString : forall m, string -> option (response m)).

End once.

(** ** A bot is stopped, and the stop is retried *)

Lemma site_wired : exists lm s, service_wired lm s.
Proof.
  pose proof (Load_values_cases site_compile (site_env (Some 50061) false) first_load) as H.
  assert (Hv : match snd (Load_values site_compile false (site_env (Some 50061) false) first_load) with Loaded _ => True | _ => False end)
    by (vm_compute; exact I).
  destruct (Load_values _ _ _ _) as [l [| |lm|]]; cbn in Hv; try done. destruct H as [_ H]. destruct (sv_service _ _ _ _ _ H) as [s Hs].
  by exists lm, s.
Qed.

Definition flag_serialize (m : media_rpc) : response m -> option string :=
  match m with RpcStopMediaStream | RpcStopBot => fun b => Some (if b : bool then "1" else "0") | _ => fun _ => None end.
Definition flag_parse (m : media_rpc) : string -> option (response m) :=
  match m with RpcStopMediaStream | RpcStopBot => fun s => Some (String.eqb s "1") | _ => fun _ => None end.

Definition one_bot : ActiveBots := (Bots_Insert (mkActiveBot "b-1" ["u"] [] true) 4 ActiveBots_new).2.
Definition stop_b1 (bots : ActiveBots) : payload RpcStopBot := mkStopBotPayload "b-1" "acme" bots [].
Definition stopped_world : service_world :=
  mkServiceWorld [EBotTearDown (BotSessionStop "b-1")] [bot_stopped "b-1" "acme"].


(** A start whose upstream fails leaves no audit. *)
Example failed_start_unaudited :
  let h := mkStartAnswers true (Some (mkSessionView 8000 8000)) None true "s-1" (mkStatus UNAVAILABLE "down") (inr 7) (inr 8) true true 0 true in
  let '(st, _, w) := execute (RpcStart RpcTts) true Config_default (mkStartPayload (MediaHandlers.demo_start false) h []) (mkServiceWorld [] []) in
  st_code st = UNAVAILABLE /\ sw_audits w = [].
Proof. vm_compute. done. Qed.

(** A relay stopped by its stream leaves the two events, and one stopped by its
    channel the relay's alone. *)
Definition relay_stop (stream channel : string) : stop_payload :=
  mkStopPayload (mkStopRequest stream channel "acme") {[ "s-1" := 0%nat ]}
    (fun _ => Some (mkActiveMediaStream "u" "s-1" RECORDING_RELAY [1] true false false false true)) ["s-1"] (fun _ => "acme") [].

Example relay_stop_trails :
  au_subclass <$> sw_audits (execute RpcStopMediaStream true Config_default (relay_stop "s-1" "") (mkServiceWorld [] [])).2 =
    ["osw.recording.relay_stopped"; "osw.audit.control.media.stop"] /\
  au_subclass <$> sw_audits (execute RpcStopRecordingRelay true Config_default (relay_stop "" "u") (mkServiceWorld [] [])).2 =
    ["osw.recording.relay_stopped"] /\
  payload_ok RpcStopMediaStream (relay_stop "s-1" "").
Proof.
  split; [by vm_compute|]. split; [by vm_compute|]. repeat split.
  - by apply Forall_nil.
  - by intros l s [= <-].
  - done.
  - apply NoDup_singleton.
Qed.
