(* ===== verification/FsMock.v ===== *)
(** * The test double of FreeSWITCH

    [include/osw/raii/fs_mock.h]: what the unit tests of the handlers, the bug
    manager and the wrappers run against.  It counts and records the calls and
    answers them with what the test has programmed.  The fields of [MockState]
    are indexed by their names: the counters, the programmed statuses and
    pointers, and the vectors of captured calls.  Atomic [int]s wrap.  Where a
    call waits for the test (a play until the break flag, a gated
    [MediaBugAdd]), it is in two parts, and the second only runs when the wait is
    over.

    The file shows what a test relies on: a counter is the number of captured
    calls, what was captured of an audit event is what [Logging] sent, and
    [MockReset] makes tests independent of what ran before them, but for one
    field. *)

From S2P Require Import Prelude BugManager Raii Logging.

#[local] Open Scope string_scope.
#[local] Open Scope Z_scope.

Definition SWITCH_STATUS_SUCCESS : Z := 0.
Definition SWITCH_STATUS_FALSE : Z := 1.
Definition SWITCH_EVENT_CUSTOM : Z := 78.
Definition SWITCH_CAUSE_NORMAL_CLEARING : Z := 16.
Definition CS_EXECUTE : Z := 4.
Definition CS_HANGUP : Z := 8.
Definition CF_BREAK : Z := 32.

(** ** The state *)

Inductive counter :=
  | session_locate_calls | session_rwunlock_calls | event_create_calls | event_create_subclass_calls
  | event_add_header_calls | event_destroy_calls | event_fire_calls | event_bind_calls | event_unbind_calls
  | media_bug_add_calls | media_bug_remove_calls | media_bug_count_calls | session_get_read_impl_calls
  | session_get_write_impl_calls | xml_open_cfg_calls | xml_free_calls | originate_calls | channel_hangup_calls
  | channel_set_variable_calls | channel_get_variable_calls | channel_test_flag_calls | channel_set_flag_calls
  | hold_uuid_calls | unhold_uuid_calls | ivr_play_file_calls | ivr_broadcast_calls | ivr_eavesdrop_session_calls
  | uuid_bridge_calls | execute_application_calls | session_transfer_calls | channel_get_state_calls
  | media_bug_get_write_replace_frame_calls | media_bug_set_write_replace_frame_calls
  | media_bug_get_read_replace_frame_calls | media_bug_read_calls | media_bug_remove_callback_calls.

#[export] Instance counter_eq_dec : EqDecision counter.
Proof. solve_decision. Defined.

(** The statuses, states and causes the next calls return. *)
Inductive status_field :=
  | next_event_create_status | next_event_create_subclass_status | next_event_fire_status | next_event_bind_status
  | next_bug_add_status | next_bug_remove_status | next_get_read_impl_status | next_get_write_impl_status
  | next_originate_status | next_originate_cause | next_channel_hangup_state | next_set_variable_status
  | next_ivr_play_file_status | next_ivr_broadcast_status | next_ivr_eavesdrop_session_status
  | next_hold_uuid_status | next_unhold_uuid_status | next_uuid_bridge_status | next_execute_application_status
  | next_session_transfer_status | next_channel_get_state | next_media_bug_read_status
  | next_media_bug_count | next_channel_flags.

#[export] Instance status_field_eq_dec : EqDecision status_field.
Proof. solve_decision. Defined.

(** The pointers they return or fill in. *)
Inductive pointer_field :=
  | next_session | next_channel | next_event | next_bug | next_xml_root | next_originate_bleg
  | next_write_replace_frame | next_read_replace_frame | next_media_bug_read_frame.

#[export] Instance pointer_field_eq_dec : EqDecision pointer_field.
Proof. solve_decision. Defined.

Record switch_codec_implementation := mkImpl {
  samples_per_second : Z; actual_samples_per_second : Z; number_of_channels : Z }.

Definition impl_default : switch_codec_implementation := mkImpl 16000 16000 1.

(** The [Captured...] structures.  A null string is captured as empty. *)
Inductive captured :=
  | CapturedUuidBridge (originator_uuid originatee_uuid : string)
  | CapturedExecuteApplication (session : option handle) (app args : string)
  | CapturedSessionTransfer (session : option handle) (extension dialplan context : string)
      (dialplan_was_null context_was_null : bool)
  | CapturedOriginate (dial_string : string) (timelimit_sec : Z) (cid_name cid_num : string)
  | CapturedHangup (channel : option handle) (cause : Z)
  | CapturedSetVariable (channel : option handle) (name value : string)
  | CapturedSetFlag (channel : option handle) (flag : Z)
  | CapturedIvrPlayFile (session : option handle) (file : string)
  | CapturedIvrBroadcast (uuid path : string) (flags : Z)
  | CapturedIvrEavesdropSession (session : option handle) (target_uuid : string)
  | CapturedHoldUuid (uuid message : string) (moh : Z)
  | CapturedUnholdUuid (uuid : string)
  | CapturedSetWriteReplaceFrame (bug frame : option handle)
  | CapturedMediaBugAdd (session : option handle) (function_name target : string) (callback user_data : option nat) (flags : Z)
  | CapturedMediaBugRemoveCallback (session : option handle) (callback : option nat)
  | CapturedMediaBugCount (session : option handle) (function : string).

Inductive capture_list :=
  | uuid_bridge_invocations | execute_application_invocations | session_transfer_invocations | originate_invocations
  | hangup_invocations | set_variable_invocations | set_flag_invocations | ivr_play_file_invocations
  | ivr_broadcast_invocations | ivr_eavesdrop_session_invocations | hold_uuid_invocations | unhold_uuid_invocations
  | set_write_replace_frame_invocations | media_bug_add_invocations | media_bug_remove_callback_invocations
  | media_bug_count_invocations.

#[export] Instance capture_list_eq_dec : EqDecision capture_list.
Proof. solve_decision. Defined.

Record CapturedEvent := mkCapturedEvent {
  ce_type : Z; ce_subclass_name : string; ce_headers : list (string * string); ce_fired : bool }.

Record CapturedBinding := mkCapturedBinding {
  cb_id : string; cb_event : Z; cb_subclass_name : string; cb_callback : option nat; cb_user_data : option nat; cb_active : bool }.

Record MockState := mkMock {
  calls : counter -> Z;
  statuses : status_field -> Z;
  pointers : pointer_field -> option handle;
  next_read_impl : switch_codec_implementation;
  next_write_impl : switch_codec_implementation;
  next_bleg_uuid : string;
  next_channel_variables : gmap string string;
  ivr_play_file_block_until_break : bool;
  channel_break_set : bool;
  media_bug_add_block_remaining : Z;
  media_bug_add_waiting : Z;
  media_bug_add_release : bool;
  invocations : capture_list -> list captured;
  events_by_ptr : gmap handle CapturedEvent;
  bindings : list CapturedBinding }.

(** The initialisers of the fields. *)
Definition status_default (f : status_field) : Z :=
  match f with
  | next_originate_cause => SWITCH_CAUSE_NORMAL_CLEARING
  | next_channel_hangup_state => CS_HANGUP
  | next_channel_get_state => CS_EXECUTE
  | next_media_bug_count | next_channel_flags => 0
  | _ => SWITCH_STATUS_SUCCESS
  end.

Definition Mock : MockState :=
  mkMock (fun _ => 0) status_default (fun _ => None) impl_default impl_default "" ∅ true false 0 0 false (fun _ => []) ∅ [].

(** ** MockReset *)

(** The fields it assigns, in its order. *)
Definition reset_counters : list counter :=
  [session_locate_calls; session_rwunlock_calls; event_create_calls; event_create_subclass_calls; event_add_header_calls;
   event_destroy_calls; event_fire_calls; event_bind_calls; event_unbind_calls; media_bug_add_calls; media_bug_remove_calls;
   media_bug_count_calls; session_get_read_impl_calls; session_get_write_impl_calls; xml_open_cfg_calls; xml_free_calls;
   originate_calls; channel_hangup_calls; uuid_bridge_calls; execute_application_calls; session_transfer_calls;
   channel_get_state_calls; channel_set_variable_calls; channel_get_variable_calls; channel_test_flag_calls;
   channel_set_flag_calls; hold_uuid_calls; unhold_uuid_calls; ivr_play_file_calls; ivr_broadcast_calls;
   ivr_eavesdrop_session_calls; media_bug_remove_callback_calls; media_bug_get_write_replace_frame_calls;
   media_bug_set_write_replace_frame_calls; media_bug_get_read_replace_frame_calls; media_bug_read_calls].

Definition reset_pointers : list pointer_field :=
  [next_session; next_channel; next_event; next_bug; next_xml_root; next_originate_bleg; next_write_replace_frame;
   next_read_replace_frame].

Definition reset_statuses : list (status_field * Z) :=
  [(next_event_create_status, SWITCH_STATUS_SUCCESS); (next_event_create_subclass_status, SWITCH_STATUS_SUCCESS);
   (next_event_fire_status, SWITCH_STATUS_SUCCESS); (next_event_bind_status, SWITCH_STATUS_SUCCESS);
   (next_bug_add_status, SWITCH_STATUS_SUCCESS); (next_bug_remove_status, SWITCH_STATUS_SUCCESS);
   (next_media_bug_count, 0); (next_get_read_impl_status, SWITCH_STATUS_SUCCESS);
   (next_get_write_impl_status, SWITCH_STATUS_SUCCESS); (next_originate_status, SWITCH_STATUS_SUCCESS);
   (next_originate_cause, SWITCH_CAUSE_NORMAL_CLEARING); (next_channel_hangup_state, CS_HANGUP);
   (next_uuid_bridge_status, SWITCH_STATUS_SUCCESS); (next_execute_application_status, SWITCH_STATUS_SUCCESS);
   (next_session_transfer_status, SWITCH_STATUS_SUCCESS); (next_channel_get_state, CS_EXECUTE);
   (next_set_variable_status, SWITCH_STATUS_SUCCESS); (next_channel_flags, 0);
   (next_ivr_play_file_status, SWITCH_STATUS_SUCCESS); (next_ivr_broadcast_status, SWITCH_STATUS_SUCCESS);
   (next_ivr_eavesdrop_session_status, SWITCH_STATUS_SUCCESS); (next_hold_uuid_status, SWITCH_STATUS_SUCCESS);
   (next_unhold_uuid_status, SWITCH_STATUS_SUCCESS); (next_media_bug_read_status, SWITCH_STATUS_SUCCESS)].

Definition reset_captures : list capture_list :=
  [originate_invocations; hangup_invocations; uuid_bridge_invocations; execute_application_invocations;
   session_transfer_invocations; set_variable_invocations; set_flag_invocations; ivr_play_file_invocations;
   ivr_broadcast_invocations; ivr_eavesdrop_session_invocations; hold_uuid_invocations; unhold_uuid_invocations;
   media_bug_add_invocations; media_bug_remove_callback_invocations; media_bug_count_invocations;
   set_write_replace_frame_invocations].

(** [field = value] for each row. *)
Definition assign_all {F V} `{EqDecision F} (rows : list (F * V)) (f : F -> V) : F -> V :=
  fold_left (fun f row x => if decide (x = row.1) then row.2 else f x) rows f.

Definition MockReset (m : MockState) : MockState :=
  mkMock (assign_all ((fun c => (c, 0)) <$> reset_counters) (calls m))
    (assign_all reset_statuses (statuses m))
    (assign_all ((fun p => (p, None)) <$> reset_pointers) (pointers m))
    impl_default impl_default "" ∅ true false 0 0 false
    (assign_all ((fun c => (c, [])) <$> reset_captures) (invocations m)) ∅ [].

(** ** The shims *)

(** [fetch_add(1)]. *)
Definition count (c : counter) (m : MockState) : MockState :=
  mkMock (fun x => if decide (x = c) then i32 (calls m x + 1) else calls m x) (statuses m) (pointers m) (next_read_impl m)
    (next_write_impl m) (next_bleg_uuid m) (next_channel_variables m) (ivr_play_file_block_until_break m)
    (channel_break_set m) (media_bug_add_block_remaining m) (media_bug_add_waiting m) (media_bug_add_release m)
    (invocations m) (events_by_ptr m) (bindings m).

(** [push_back] under [capture_mu]. *)
Definition capture (l : capture_list) (x : captured) (m : MockState) : MockState :=
  mkMock (calls m) (statuses m) (pointers m) (next_read_impl m) (next_write_impl m) (next_bleg_uuid m)
    (next_channel_variables m) (ivr_play_file_block_until_break m) (channel_break_set m) (media_bug_add_block_remaining m)
    (media_bug_add_waiting m) (media_bug_add_release m)
    (fun y => if decide (y = l) then (invocations m y ++ [x])%list else invocations m y) (events_by_ptr m) (bindings m).

Definition set_bleg_uuid (uuid : string) (m : MockState) : MockState :=
  mkMock (calls m) (statuses m) (pointers m) (next_read_impl m) (next_write_impl m) uuid
    (next_channel_variables m) (ivr_play_file_block_until_break m) (channel_break_set m) (media_bug_add_block_remaining m)
    (media_bug_add_waiting m) (media_bug_add_release m) (invocations m) (events_by_ptr m) (bindings m).

Definition set_break (m : MockState) : MockState :=
  mkMock (calls m) (statuses m) (pointers m) (next_read_impl m) (next_write_impl m) (next_bleg_uuid m)
    (next_channel_variables m) (ivr_play_file_block_until_break m) true (media_bug_add_block_remaining m)
    (media_bug_add_waiting m) (media_bug_add_release m) (invocations m) (events_by_ptr m) (bindings m).

Definition set_gate (remaining waiting : Z) (m : MockState) : MockState :=
  mkMock (calls m) (statuses m) (pointers m) (next_read_impl m) (next_write_impl m) (next_bleg_uuid m)
    (next_channel_variables m) (ivr_play_file_block_until_break m) (channel_break_set m) remaining waiting
    (media_bug_add_release m) (invocations m) (events_by_ptr m) (bindings m).

Definition set_events (es : gmap handle CapturedEvent) (m : MockState) : MockState :=
  mkMock (calls m) (statuses m) (pointers m) (next_read_impl m) (next_write_impl m) (next_bleg_uuid m)
    (next_channel_variables m) (ivr_play_file_block_until_break m) (channel_break_set m) (media_bug_add_block_remaining m)
    (media_bug_add_waiting m) (media_bug_add_release m) (invocations m) es (bindings m).

Definition set_bindings (bs : list CapturedBinding) (m : MockState) : MockState :=
  mkMock (calls m) (statuses m) (pointers m) (next_read_impl m) (next_write_impl m) (next_bleg_uuid m)
    (next_channel_variables m) (ivr_play_file_block_until_break m) (channel_break_set m) (media_bug_add_block_remaining m)
    (media_bug_add_waiting m) (media_bug_add_release m) (invocations m) (events_by_ptr m) bs.

(** [s ? s : ""] of a C string. *)
Definition c_str (s : option string) : string := default "" s.

Definition is_null {A} (p : option A) : bool := match p with None => true | Some _ => false end.

(** Sessions and channels. *)
Definition SessionLocate (uuid : option string) (m : MockState) : option handle * MockState :=
  match uuid with
  | None => (None, m)
  | Some uuid =>
      let m := count session_locate_calls m in
      match pointers m next_session with
      | Some s => (Some s, set_bleg_uuid uuid m)
      | None => (None, m)
      end
  end.

Definition SessionRwunlock (session : option handle) (m : MockState) : MockState :=
  if is_null session then m else count session_rwunlock_calls m.

Definition SessionGetChannel (session : option handle) (m : MockState) : option handle :=
  if is_null session then None else pointers m next_channel.

Definition SessionGetUuid (session : option handle) (m : MockState) : option string :=
  if is_null session then None else if string_empty (next_bleg_uuid m) then None else Some (next_bleg_uuid m).

(** The status, and what is written through a non-null [impp]. *)
Definition get_impl (c : counter) (f : status_field) (impl : switch_codec_implementation) (session : option handle)
    (impp : bool) (m : MockState) : Z * option switch_codec_implementation * MockState :=
  let m := count c m in
  if is_null session || negb impp then (SWITCH_STATUS_FALSE, None, m)
  else (statuses m f, if statuses m f =? SWITCH_STATUS_SUCCESS then Some impl else None, m).

Definition SessionGetReadImpl (session : option handle) (impp : bool) (m : MockState) :=
  get_impl session_get_read_impl_calls next_get_read_impl_status (next_read_impl m) session impp m.
Definition SessionGetWriteImpl (session : option handle) (impp : bool) (m : MockState) :=
  get_impl session_get_write_impl_calls next_get_write_impl_status (next_write_impl m) session impp m.

Definition ChannelGetState (channel : option handle) (m : MockState) : Z * MockState :=
  if is_null channel then (CS_HANGUP, m) else (statuses m next_channel_get_state, count channel_get_state_calls m).

Definition ChannelHangup (channel : option handle) (cause : Z) (m : MockState) : Z * MockState :=
  (statuses m next_channel_hangup_state,
   capture hangup_invocations (CapturedHangup channel cause) (count channel_hangup_calls m)).

Definition ChannelSetVariable (channel : option handle) (name value : option string) (m : MockState) : Z * MockState :=
  (statuses m next_set_variable_status,
   capture set_variable_invocations (CapturedSetVariable channel (c_str name) (c_str value))
     (count channel_set_variable_calls m)).

Definition ChannelGetVariable (channel : option handle) (name : option string) (m : MockState) : option string * MockState :=
  (name ≫= fun n => next_channel_variables m !! n, count channel_get_variable_calls m).

Definition ChannelTestFlag (channel : option handle) (flag : Z) (m : MockState) : Z * MockState :=
  (Z.land (statuses m next_channel_flags) (u32 flag), count channel_test_flag_calls m).

Definition ChannelSetFlag (channel : option handle) (flag : Z) (m : MockState) : MockState :=
  let m := capture set_flag_invocations (CapturedSetFlag channel flag) (count channel_set_flag_calls m) in
  if flag =? CF_BREAK then set_break m else m.

(** Events. *)
Definition event_default : CapturedEvent := mkCapturedEvent 0 "" [] false.

(** The status and [*out]; [subclass] is absent for [EventCreate]. *)
Definition create_event (c : counter) (f : status_field) (type : Z) (subclass : option string) (m : MockState)
  : Z * option handle * MockState :=
  let m := count c m in
  if statuses m f =? SWITCH_STATUS_SUCCESS then
    match pointers m next_event with
    | None => (statuses m f, None, m)
    | Some e =>
        let cap := default event_default (events_by_ptr m !! e) in
        let cap := match subclass with
                   | Some s => mkCapturedEvent type s (ce_headers cap ++ [("Event-Subclass", s)]) (ce_fired cap)
                   | None => mkCapturedEvent type (ce_subclass_name cap) (ce_headers cap) (ce_fired cap)
                   end in
        (statuses m f, Some e, set_events (<[e := cap]> (events_by_ptr m)) m)
    end
  else (statuses m f, None, m).

Definition EventCreate (type : Z) (m : MockState) := create_event event_create_calls next_event_create_status type None m.
Definition EventCreateSubclass (type : Z) (subclass_name : option string) (m : MockState) :=
  create_event event_create_subclass_calls next_event_create_subclass_status type subclass_name m.

Definition EventAddHeaderString (ev : option handle) (name value : option string) (m : MockState) : Z * MockState :=
  let m := count event_add_header_calls m in
  match ev, name with
  | Some e, Some n =>
      match events_by_ptr m !! e with
      | None => (SWITCH_STATUS_FALSE, m)
      | Some cap =>
          (SWITCH_STATUS_SUCCESS,
           set_events (<[e := mkCapturedEvent (ce_type cap) (ce_subclass_name cap) (ce_headers cap ++ [(n, c_str value)])
                               (ce_fired cap)]> (events_by_ptr m)) m)
      end
  | _, _ => (SWITCH_STATUS_FALSE, m)
  end.

(** The caller's pointer after the call, and the state. *)
Definition EventDestroy (ev : option handle) (m : MockState) : option handle * MockState :=
  if is_null ev then (ev, m) else (None, count event_destroy_calls m).

Definition EventFire (ev : option handle) (m : MockState) : Z * option handle * MockState :=
  match ev with
  | None => (SWITCH_STATUS_FALSE, None, m)
  | Some e =>
      let m := count event_fire_calls m in
      let st := statuses m next_event_fire_status in
      if st =? SWITCH_STATUS_SUCCESS then
        (st, None,
         match events_by_ptr m !! e with
         | Some cap => set_events (<[e := mkCapturedEvent (ce_type cap) (ce_subclass_name cap) (ce_headers cap) true]>
                                     (events_by_ptr m)) m
         | None => m
         end)
      else (st, Some e, m)
  end.

Definition EventBind (id : option string) (event : Z) (subclass_name : option string) (callback user_data : option nat)
    (m : MockState) : Z * MockState :=
  let m := count event_bind_calls m in
  let st := statuses m next_event_bind_status in
  if negb (st =? SWITCH_STATUS_SUCCESS) then (st, m)
  else (SWITCH_STATUS_SUCCESS,
        set_bindings (bindings m ++ [mkCapturedBinding (c_str id) event (c_str subclass_name) callback user_data true])%list m).

Definition matches (callback : option nat) (b : CapturedBinding) : bool :=
  cb_active b && bool_decide (cb_callback b = callback).

Definition EventUnbindCallback (callback : option nat) (m : MockState) : Z * MockState :=
  let m := count event_unbind_calls m in
  (if existsb (matches callback) (bindings m) then SWITCH_STATUS_SUCCESS else SWITCH_STATUS_FALSE,
   set_bindings ((fun b => if matches callback b
                           then mkCapturedBinding (cb_id b) (cb_event b) (cb_subclass_name b) (cb_callback b) (cb_user_data b) false
                           else b) <$> bindings m) m).

Fixpoint first_header (n : string) (hs : list (string * string)) : option string :=
  match hs with [] => None | (k, v) :: hs => if String.eqb k n then Some v else first_header n hs end.

Definition EventGetHeader (ev : option handle) (name : option string) (m : MockState) : option string :=
  match ev, name with
  | Some e, Some n => match events_by_ptr m !! e with Some cap => first_header n (ce_headers cap) | None => None end
  | _, _ => None
  end.

Definition EventGetBody (ev : option handle) (m : MockState) : option string := None.

(** Media bugs.  [MediaBugAdd] up to its wait: whether it has to wait. *)
Definition MediaBugAdd_begin (session : option handle) (function_name target : option string)
    (callback user_data : option nat) (flags : Z) (m : MockState) : bool * MockState :=
  let m := capture media_bug_add_invocations
             (CapturedMediaBugAdd session (c_str function_name) (c_str target) callback user_data flags)
             (count media_bug_add_calls m) in
  if 0 <? media_bug_add_block_remaining m
  then (true, set_gate (media_bug_add_block_remaining m - 1) (media_bug_add_waiting m + 1) m)
  else (false, m).

(** The rest, once [media_bug_add_release] if it waited: the status and [*bug_out]. *)
Definition MediaBugAdd_end (m : MockState) : Z * option handle :=
  let st := statuses m next_bug_add_status in
  (st, if st =? SWITCH_STATUS_SUCCESS then pointers m next_bug else None).

Definition MediaBugRemoveCallback (session : option handle) (callback : option nat) (m : MockState) : Z * MockState :=
  (statuses m next_bug_remove_status,
   capture media_bug_remove_callback_invocations (CapturedMediaBugRemoveCallback session callback)
     (count media_bug_remove_callback_calls (count media_bug_remove_calls m))).

Definition MediaBugCount (session : option handle) (function : option string) (m : MockState) : Z * MockState :=
  (if is_null session || is_null function then 0 else statuses m next_media_bug_count,
   capture media_bug_count_invocations (CapturedMediaBugCount session (c_str function)) (count media_bug_count_calls m)).

(** The status, the caller's pointer after the call. *)
Definition MediaBugRemove (bug : option handle) (m : MockState) : Z * option handle * MockState :=
  match bug with
  | None => (SWITCH_STATUS_FALSE, None, m)
  | Some b =>
      let m := count media_bug_remove_calls m in
      let st := statuses m next_bug_remove_status in
      (st, if st =? SWITCH_STATUS_SUCCESS then None else Some b, m)
  end.

Definition MediaBugGetWriteReplaceFrame (bug : option handle) (m : MockState) : option handle * MockState :=
  (pointers m next_write_replace_frame, count media_bug_get_write_replace_frame_calls m).
Definition MediaBugSetWriteReplaceFrame (bug frame : option handle) (m : MockState) : MockState :=
  capture set_write_replace_frame_invocations (CapturedSetWriteReplaceFrame bug frame)
    (count media_bug_set_write_replace_frame_calls m).
Definition MediaBugGetReadReplaceFrame (bug : option handle) (m : MockState) : option handle * MockState :=
  (pointers m next_read_replace_frame, count media_bug_get_read_replace_frame_calls m).

(** The status, and the frame that is copied into the caller's. *)
Definition MediaBugRead (bug : option handle) (frame : bool) (m : MockState) : Z * option handle * MockState :=
  let st := statuses m next_media_bug_read_status in
  (st, if (st =? SWITCH_STATUS_SUCCESS) && frame then pointers m next_media_bug_read_frame else None,
   count media_bug_read_calls m).

(** XML. *)
Definition XmlOpenCfg (m : MockState) : option handle * MockState := (pointers m next_xml_root, count xml_open_cfg_calls m).
Definition XmlFree (xml : option handle) (m : MockState) : MockState := if is_null xml then m else count xml_free_calls m.

(** Call control: the status, [*bleg] and [*cause]. *)
Definition OriginateSession (bridgeto : option string) (timelimit_sec : Z) (cid_name cid_num : option string) (m : MockState)
  : Z * option handle * Z * MockState :=
  let st := statuses m next_originate_status in
  (st, if st =? SWITCH_STATUS_SUCCESS then pointers m next_originate_bleg else None, statuses m next_originate_cause,
   capture originate_invocations (CapturedOriginate (c_str bridgeto) timelimit_sec (c_str cid_name) (c_str cid_num))
     (count originate_calls m)).

Definition UuidBridge (originator originatee : option string) (m : MockState) : Z * MockState :=
  (statuses m next_uuid_bridge_status,
   capture uuid_bridge_invocations (CapturedUuidBridge (c_str originator) (c_str originatee)) (count uuid_bridge_calls m)).

Definition ExecuteApplication (session : option handle) (app arg : option string) (m : MockState) : Z * MockState :=
  (statuses m next_execute_application_status,
   capture execute_application_invocations (CapturedExecuteApplication session (c_str app) (c_str arg))
     (count execute_application_calls m)).

Definition SessionTransfer (session : option handle) (extension dialplan context : option string) (m : MockState)
  : Z * MockState :=
  (statuses m next_session_transfer_status,
   capture session_transfer_invocations
     (CapturedSessionTransfer session (c_str extension) (c_str dialplan) (c_str context) (is_null dialplan) (is_null context))
     (count session_transfer_calls m)).

Definition HoldUuid (uuid message : option string) (moh : Z) (m : MockState) : Z * MockState :=
  (statuses m next_hold_uuid_status,
   capture hold_uuid_invocations (CapturedHoldUuid (c_str uuid) (c_str message) moh) (count hold_uuid_calls m)).

Definition UnholdUuid (uuid : option string) (m : MockState) : Z * MockState :=
  (statuses m next_unhold_uuid_status,
   capture unhold_uuid_invocations (CapturedUnholdUuid (c_str uuid)) (count unhold_uuid_calls m)).

Definition IvrBroadcast (uuid path : option string) (flags : Z) (m : MockState) : Z * MockState :=
  (statuses m next_ivr_broadcast_status,
   capture ivr_broadcast_invocations (CapturedIvrBroadcast (c_str uuid) (c_str path) flags) (count ivr_broadcast_calls m)).

Definition IvrEavesdropSession (session : option handle) (target_uuid : option string) (m : MockState) : Z * MockState :=
  (statuses m next_ivr_eavesdrop_session_status,
   capture ivr_eavesdrop_session_invocations (CapturedIvrEavesdropSession session (c_str target_uuid))
     (count ivr_eavesdrop_session_calls m)).

(** [IvrPlayFile] up to its wait for [channel_break_set], and the rest. *)
Definition IvrPlayFile_begin (session : option handle) (file : option string) (m : MockState) : bool * MockState :=
  (ivr_play_file_block_until_break m,
   capture ivr_play_file_invocations (CapturedIvrPlayFile session (c_str file)) (count ivr_play_file_calls m)).

Definition IvrPlayFile_end (m : MockState) : Z := statuses m next_ivr_play_file_status.

(** ** Runs *)

(** A call of a shim.  The calls that wait are two. *)
Inductive fs_call :=
  | FSessionLocate (uuid : option string)
  | FSessionRwunlock (session : option handle)
  | FSessionGetChannel (session : option handle)
  | FSessionGetUuid (session : option handle)
  | FSessionGetReadImpl (session : option handle) (impp : bool)
  | FSessionGetWriteImpl (session : option handle) (impp : bool)
  | FChannelGetState (channel : option handle)
  | FChannelHangup (channel : option handle) (cause : Z)
  | FChannelSetVariable (channel : option handle) (name value : option string)
  | FChannelGetVariable (channel : option handle) (name : option string)
  | FChannelTestFlag (channel : option handle) (flag : Z)
  | FChannelSetFlag (channel : option handle) (flag : Z)
  | FEventCreate (type : Z)
  | FEventCreateSubclass (type : Z) (subclass_name : option string)
  | FEventAddHeaderString (ev : option handle) (name value : option string)
  | FEventDestroy (ev : option handle)
  | FEventFire (ev : option handle)
  | FEventBind (id : option string) (event : Z) (subclass_name : option string) (callback user_data : option nat)
  | FEventUnbindCallback (callback : option nat)
  | FEventGetHeader (ev : option handle) (name : option string)
  | FEventGetBody (ev : option handle)
  | FMediaBugAdd_begin (session : option handle) (function_name target : option string) (callback user_data : option nat) (flags : Z)
  | FMediaBugAdd_end (waited : bool)
  | FMediaBugRemoveCallback (session : option handle) (callback : option nat)
  | FMediaBugCount (session : option handle) (function : option string)
  | FMediaBugRemove (bug : option handle)
  | FMediaBugGetWriteReplaceFrame (bug : option handle)
  | FMediaBugSetWriteReplaceFrame (bug frame : option handle)
  | FMediaBugGetReadReplaceFrame (bug : option handle)
  | FMediaBugRead (bug : option handle) (frame : bool)
  | FXmlOpenCfg
  | FXmlFree (xml : option handle)
  | FOriginateSession (bridgeto : option string) (timelimit_sec : Z) (cid_name cid_num : option string)
  | FUuidBridge (originator originatee : option string)
  | FExecuteApplication (session : option handle) (app arg : option string)
  | FSessionTransfer (session : option handle) (extension dialplan context : option string)
  | FHoldUuid (uuid message : option string) (moh : Z)
  | FUnholdUuid (uuid : option string)
  | FIvrBroadcast (uuid path : option string) (flags : Z)
  | FIvrEavesdropSession (session : option handle) (target_uuid : option string)
  | FIvrPlayFile_begin (session : option handle) (file : option string)
  | FIvrPlayFile_end (waited : bool).

(** What the caller sees. *)
Inductive answer :=
  | ADone | AWaits | AFlag (b : bool) | APtr (p : option handle) | AText (s : option string) | AStatus (st : Z)
  | AStatusPtr (st : Z) (p : option handle) | AImpl (st : Z) (impl : option switch_codec_implementation)
  | AOriginated (st : Z) (bleg : option handle) (cause : Z).

Definition with_ptr (r : option handle * MockState) : answer * MockState := (APtr r.1, r.2).
Definition with_status (r : Z * MockState) : answer * MockState := (AStatus r.1, r.2).
Definition with_both (r : Z * option handle * MockState) : answer * MockState := let '(st, p, m) := r in (AStatusPtr st p, m).
Definition with_impl (r : Z * option switch_codec_implementation * MockState) : answer * MockState :=
  let '(st, i, m) := r in (AImpl st i, m).

Definition exec_call (c : fs_call) (m : MockState) : answer * MockState :=
  match c with
  | FSessionLocate u => with_ptr (SessionLocate u m)
  | FSessionRwunlock s => (ADone, SessionRwunlock s m)
  | FSessionGetChannel s => (APtr (SessionGetChannel s m), m)
  | FSessionGetUuid s => (AText (SessionGetUuid s m), m)
  | FSessionGetReadImpl s i => with_impl (SessionGetReadImpl s i m)
  | FSessionGetWriteImpl s i => with_impl (SessionGetWriteImpl s i m)
  | FChannelGetState c => with_status (ChannelGetState c m)
  | FChannelHangup c cause => with_status (ChannelHangup c cause m)
  | FChannelSetVariable c n v => with_status (ChannelSetVariable c n v m)
  | FChannelGetVariable c n => let '(t, m') := ChannelGetVariable c n m in (AText t, m')
  | FChannelTestFlag c f => with_status (ChannelTestFlag c f m)
  | FChannelSetFlag c f => (ADone, ChannelSetFlag c f m)
  | FEventCreate t => with_both (EventCreate t m)
  | FEventCreateSubclass t s => with_both (EventCreateSubclass t s m)
  | FEventAddHeaderString e n v => with_status (EventAddHeaderString e n v m)
  | FEventDestroy e => with_ptr (EventDestroy e m)
  | FEventFire e => with_both (EventFire e m)
  | FEventBind i e s c d => with_status (EventBind i e s c d m)
  | FEventUnbindCallback c => with_status (EventUnbindCallback c m)
  | FEventGetHeader e n => (AText (EventGetHeader e n m), m)
  | FEventGetBody e => (AText (EventGetBody e m), m)
  | FMediaBugAdd_begin s f t c d fl => let '(w, m') := MediaBugAdd_begin s f t c d fl m in (AFlag w, m')
  | FMediaBugAdd_end waited =>
      if waited && negb (media_bug_add_release m) then (AWaits, m)
      else let '(st, p) := MediaBugAdd_end m in (AStatusPtr st p, m)
  | FMediaBugRemoveCallback s c => with_status (MediaBugRemoveCallback s c m)
  | FMediaBugCount s f => with_status (MediaBugCount s f m)
  | FMediaBugRemove b => with_both (MediaBugRemove b m)
  | FMediaBugGetWriteReplaceFrame b => with_ptr (MediaBugGetWriteReplaceFrame b m)
  | FMediaBugSetWriteReplaceFrame b f => (ADone, MediaBugSetWriteReplaceFrame b f m)
  | FMediaBugGetReadReplaceFrame b => with_ptr (MediaBugGetReadReplaceFrame b m)
  | FMediaBugRead b f => with_both (MediaBugRead b f m)
  | FXmlOpenCfg => with_ptr (XmlOpenCfg m)
  | FXmlFree x => (ADone, XmlFree x m)
  | FOriginateSession b t n i => let '(st, bleg, cause, m') := OriginateSession b t n i m in (AOriginated st bleg cause, m')
  | FUuidBridge a b => with_status (UuidBridge a b m)
  | FExecuteApplication s a b => with_status (ExecuteApplication s a b m)
  | FSessionTransfer s e d c => with_status (SessionTransfer s e d c m)
  | FHoldUuid u t moh => with_status (HoldUuid u t moh m)
  | FUnholdUuid u => with_status (UnholdUuid u m)
  | FIvrBroadcast u p f => with_status (IvrBroadcast u p f m)
  | FIvrEavesdropSession s t => with_status (IvrEavesdropSession s t m)
  | FIvrPlayFile_begin s f => let '(w, m') := IvrPlayFile_begin s f m in (AFlag w, m')
  | FIvrPlayFile_end waited =>
      if waited && negb (channel_break_set m) then (AWaits, m) else (AStatus (IvrPlayFile_end m), m)
  end.

Fixpoint exec_calls (cs : list fs_call) (m : MockState) : list answer * MockState :=
  match cs with
  | [] => ([], m)
  | c :: cs => let '(a, m1) := exec_call c m in let '(rest, m2) := exec_calls cs m1 in (a :: rest, m2)
  end.

(** ** Tests *)

(** What a test does: program an answer, open the gate of [MediaBugAdd], or let
    the code under test call. *)
Inductive test_op :=
  | TStatus (f : status_field) (v : Z)
  | TPointer (f : pointer_field) (v : option handle)
  | TImpls (read write : switch_codec_implementation)
  | TBlegUuid (uuid : string)
  | TVariables (vars : gmap string string)
  | TBlockPlay (b : bool)
  | TGate (remaining : Z) (release : bool)
  | TCall (c : fs_call).

Definition exec_op (o : test_op) (m : MockState) : option answer * MockState :=
  let mk st pt ri wi bu cv bp rem rel :=
    mkMock (calls m) st pt ri wi bu cv bp (channel_break_set m) rem (media_bug_add_waiting m) rel (invocations m)
      (events_by_ptr m) (bindings m) in
  let keep st pt := mk st pt (next_read_impl m) (next_write_impl m) (next_bleg_uuid m) (next_channel_variables m)
      (ivr_play_file_block_until_break m) (media_bug_add_block_remaining m) (media_bug_add_release m) in
  let st := statuses m in
  let pt := pointers m in
  match o with
  | TStatus f v => (None, keep (assign_all [(f, v)] st) pt)
  | TPointer f v => (None, keep st (assign_all [(f, v)] pt))
  | TImpls r w => (None, mk st pt r w (next_bleg_uuid m) (next_channel_variables m) (ivr_play_file_block_until_break m)
                           (media_bug_add_block_remaining m) (media_bug_add_release m))
  | TBlegUuid u => (None, mk st pt (next_read_impl m) (next_write_impl m) u (next_channel_variables m)
                            (ivr_play_file_block_until_break m) (media_bug_add_block_remaining m) (media_bug_add_release m))
  | TVariables v => (None, mk st pt (next_read_impl m) (next_write_impl m) (next_bleg_uuid m) v
                             (ivr_play_file_block_until_break m) (media_bug_add_block_remaining m) (media_bug_add_release m))
  | TBlockPlay b => (None, mk st pt (next_read_impl m) (next_write_impl m) (next_bleg_uuid m) (next_channel_variables m)
                             b (media_bug_add_block_remaining m) (media_bug_add_release m))
  | TGate n r => (None, mk st pt (next_read_impl m) (next_write_impl m) (next_bleg_uuid m) (next_channel_variables m)
                          (ivr_play_file_block_until_break m) n r)
  | TCall c => let '(a, m') := exec_call c m in (Some a, m')
  end.

Fixpoint exec_ops (os : list test_op) (m : MockState) : list (option answer) * MockState :=
  match os with
  | [] => ([], m)
  | o :: os => let '(a, m1) := exec_op o m in let '(rest, m2) := exec_ops os m1 in (a :: rest, m2)
  end.

(** Two states that no call can tell apart; [frame] says whether that includes
    the frame [MediaBugRead] copies. *)
Record agree (frame : bool) (m m' : MockState) : Prop := {
  ag_calls : forall c, calls m c = calls m' c;
  ag_statuses : forall f, statuses m f = statuses m' f;
  ag_pointers : forall p, frame = true \/ p <> next_media_bug_read_frame -> pointers m p = pointers m' p;
  ag_invocations : forall l, invocations m l = invocations m' l;
  ag_read_impl : next_read_impl m = next_read_impl m';
  ag_write_impl : next_write_impl m = next_write_impl m';
  ag_bleg_uuid : next_bleg_uuid m = next_bleg_uuid m';
  ag_variables : next_channel_variables m = next_channel_variables m';
  ag_block : ivr_play_file_block_until_break m = ivr_play_file_block_until_break m';
  ag_break : channel_break_set m = channel_break_set m';
  ag_remaining : media_bug_add_block_remaining m = media_bug_add_block_remaining m';
  ag_waiting : media_bug_add_waiting m = media_bug_add_waiting m';
  ag_release : media_bug_add_release m = media_bug_add_release m';
  ag_events : events_by_ptr m = events_by_ptr m';
  ag_bindings : bindings m = bindings m' }.

#[export] Instance agree_equivalence frame : Equivalence (agree frame).
Proof.
  split.
  - by intros m.
  - intros m m' []. split; intros; symmetry; auto.
  - intros m1 m2 m3 [] []. split; intros; (etrans; [match goal with E : _ |- _ => by apply E end|by auto]).
Qed.

(** Read the fields of the second state in the first. *)
Ltac agree_rewrite H :=
  rewrite <- ?(ag_statuses _ _ _ H), <- ?(ag_invocations _ _ _ H), <- ?(ag_calls _ _ _ H), <- ?(ag_read_impl _ _ _ H),
    <- ?(ag_write_impl _ _ _ H), <- ?(ag_bleg_uuid _ _ _ H), <- ?(ag_variables _ _ _ H), <- ?(ag_block _ _ _ H),
    <- ?(ag_break _ _ _ H), <- ?(ag_remaining _ _ _ H), <- ?(ag_waiting _ _ _ H), <- ?(ag_release _ _ _ H),
    <- ?(ag_events _ _ _ H), <- ?(ag_bindings _ _ _ H);
  rewrite <- ?(ag_pointers _ _ _ H) by (by right).

Ltac agree_close H :=
  split; intros; cbn; agree_rewrite H; try done; try (repeat case_decide; by agree_rewrite H);
  try (by apply (ag_pointers _ _ _ H)).

#[export] Instance count_agree frame c : Proper (agree frame ==> agree frame) (count c).
Proof. intros m m' H. agree_close H. Qed.
#[export] Instance capture_agree frame l x : Proper (agree frame ==> agree frame) (capture l x).
Proof. intros m m' H. agree_close H. Qed.
#[export] Instance set_bleg_uuid_agree frame u : Proper (agree frame ==> agree frame) (set_bleg_uuid u).
Proof. intros m m' H. agree_close H. Qed.
#[export] Instance set_break_agree frame : Proper (agree frame ==> agree frame) set_break.
Proof. intros m m' H. agree_close H. Qed.
#[export] Instance set_gate_agree frame r w : Proper (agree frame ==> agree frame) (set_gate r w).
Proof. intros m m' H. agree_close H. Qed.
#[export] Instance set_events_agree frame es : Proper (agree frame ==> agree frame) (set_events es).
Proof. intros m m' H. agree_close H. Qed.
#[export] Instance set_bindings_agree frame bs : Proper (agree frame ==> agree frame) (set_bindings bs).
Proof. intros m m' H. agree_close H. Qed.

(** A call that does not copy the frame cannot tell the states apart. *)
Definition reads_frame (c : fs_call) : bool := match c with FMediaBugRead _ true => true | _ => false end.

Ltac shim_unfold :=
  unfold SessionLocate, SessionRwunlock, SessionGetChannel, SessionGetUuid, SessionGetReadImpl, SessionGetWriteImpl, get_impl,
    ChannelGetState, ChannelHangup, ChannelSetVariable, ChannelGetVariable, ChannelTestFlag, ChannelSetFlag,
    EventCreate, EventCreateSubclass, create_event, EventAddHeaderString, EventDestroy, EventFire, EventBind,
    EventUnbindCallback, EventGetHeader, EventGetBody, MediaBugAdd_begin, MediaBugAdd_end, MediaBugRemoveCallback,
    MediaBugCount, MediaBugRemove, MediaBugGetWriteReplaceFrame, MediaBugSetWriteReplaceFrame,
    MediaBugGetReadReplaceFrame, MediaBugRead, XmlOpenCfg, XmlFree, OriginateSession, UuidBridge, ExecuteApplication,
    SessionTransfer, HoldUuid, UnholdUuid, IvrBroadcast, IvrEavesdropSession, IvrPlayFile_begin, IvrPlayFile_end,
    with_ptr, with_status, with_both, with_impl.

Lemma exec_call_agree frame c m m' :
  frame || negb (reads_frame c) = true -> agree frame m m' ->
  (exec_call c m).1 = (exec_call c m').1 /\ agree frame (exec_call c m).2 (exec_call c m').2.
Proof.
  intros Hf H. destruct c; cbn [exec_call]; shim_unfold;
    cbn [count capture set_bleg_uuid set_break set_gate set_events set_bindings calls statuses pointers next_read_impl next_write_impl
         next_bleg_uuid next_channel_variables ivr_play_file_block_until_break channel_break_set media_bug_add_block_remaining
         media_bug_add_waiting media_bug_add_release invocations events_by_ptr bindings fst snd] in *.
  all: agree_rewrite H.
  all: repeat (case_match; simplify_eq; cbn [fst snd]); (split; [try done|by repeat f_equiv]).
  apply andb_prop in H0 as [_ ->]. cbn in Hf. rewrite orb_false_r in Hf. subst. f_equal. apply (ag_pointers _ _ _ H). by left.
Qed.

(** A test reads the frame only after it has set it. *)
Fixpoint frame_set_first (frame : bool) (os : list test_op) : bool :=
  match os with
  | [] => true
  | TPointer next_media_bug_read_frame _ :: os => frame_set_first true os
  | TCall c :: os => (frame || negb (reads_frame c)) && frame_set_first frame os
  | _ :: os => frame_set_first frame os
  end.

Lemma exec_op_agree frame o m m' :
  (forall c, o = TCall c -> frame || negb (reads_frame c) = true) -> agree frame m m' ->
  (exec_op o m).1 = (exec_op o m').1 /\
  agree (frame || match o with TPointer next_media_bug_read_frame _ => true | _ => false end) (exec_op o m).2 (exec_op o m').2.
Proof.
  intros Hc H. destruct o as [f v|f v| | | | | |c].
  8: { pose proof (exec_call_agree frame c m m' (Hc c eq_refl) H) as [H1 H2]. cbn [exec_op].
       destruct (exec_call c m), (exec_call c m'). cbn in *. rewrite orb_false_r. by rewrite H1. }
  all: split; [done|]; rewrite ?orb_false_r; cbn [exec_op snd].
  - agree_close H.
  - split; intros; cbn; agree_rewrite H; try done. case_decide as E; [done|]. apply (ag_pointers _ _ _ H).
    destruct frame; [by left|]. cbn in *. destruct f; naive_solver.
  - agree_close H.
  - agree_close H.
  - agree_close H.
  - agree_close H.
  - agree_close H.
Qed.

Lemma exec_ops_agree os : forall frame m m',
  frame_set_first frame os = true -> agree frame m m' ->
  (exec_ops os m).1 = (exec_ops os m').1 /\ agree false (exec_ops os m).2 (exec_ops os m').2.
Proof.
  induction os as [|o os IH]; intros frame m m' Hf H; cbn [exec_ops].
  - split; [done|]. destruct H. split; intros; auto. apply ag_pointers0. right. naive_solver.
  - assert (Hop : (forall c, o = TCall c -> frame || negb (reads_frame c) = true) /\
                  frame_set_first (frame || match o with TPointer next_media_bug_read_frame _ => true | _ => false end) os = true).
    { destruct o as [|f| | | | | |c]; cbn in Hf; rewrite ?orb_false_r; try (split; [done|exact Hf]).
      - split; [done|]. destruct f; rewrite ?orb_false_r, ?orb_true_r; exact Hf.
      - apply andb_prop in Hf as [Hf1 Hf2]. split; [|exact Hf2]. by intros ? [= <-]. }
    destruct Hop as [Hc Hrest]. destruct (exec_op_agree frame o m m' Hc H) as [H1 H2].
    destruct (exec_op o m) as [a m1], (exec_op o m') as [a' m1']. cbn [fst snd] in *. subst a'.
    destruct (IH _ m1 m1' Hrest H2) as [H3 H4].
    destruct (exec_ops os m1) as [r m2], (exec_ops os m1') as [r' m2']. cbn [fst snd] in *. by subst.
Qed.

(** [MockReset] assigns every field but one. *)
Lemma MockReset_agree m : agree false (MockReset m) Mock.
Proof.
  split; cbn; try done.
  - by intros [].
  - by intros [].
  - intros p [?|Hp]; [done|]. by destruct p.
  - by intros [].
Qed.

(** ** Counters *)

(** The counter that goes with each vector. *)
Definition counter_of (l : capture_list) : counter :=
  match l with
  | uuid_bridge_invocations => uuid_bridge_calls
  | execute_application_invocations => execute_application_calls
  | session_transfer_invocations => session_transfer_calls
  | originate_invocations => originate_calls
  | hangup_invocations => channel_hangup_calls
  | set_variable_invocations => channel_set_variable_calls
  | set_flag_invocations => channel_set_flag_calls
  | ivr_play_file_invocations => ivr_play_file_calls
  | ivr_broadcast_invocations => ivr_broadcast_calls
  | ivr_eavesdrop_session_invocations => ivr_eavesdrop_session_calls
  | hold_uuid_invocations => hold_uuid_calls
  | unhold_uuid_invocations => unhold_uuid_calls
  | set_write_replace_frame_invocations => media_bug_set_write_replace_frame_calls
  | media_bug_add_invocations => media_bug_add_calls
  | media_bug_remove_callback_invocations => media_bug_remove_callback_calls
  | media_bug_count_invocations => media_bug_count_calls
  end.

#[export] Instance counter_of_inj : Inj (=) (=) counter_of.
Proof. by intros [] []. Qed.

(** Modulo the width of the counter. *)
Definition counted (m : MockState) : Prop :=
  forall l, calls m (counter_of l) = i32 (Z.of_nat (length (invocations m l))).

Lemma i32_succ z : i32 (i32 z + 1) = i32 (z + 1).
Proof.
  unfold i32. assert (E : forall a b, a mod 2 ^ 32 = b mod 2 ^ 32 -> (if a mod 2 ^ 32 <? 2 ^ 31 then a mod 2 ^ 32 else a mod 2 ^ 32 - 2 ^ 32) =
    (if b mod 2 ^ 32 <? 2 ^ 31 then b mod 2 ^ 32 else b mod 2 ^ 32 - 2 ^ 32)) by (by intros a b ->).
  apply E. destruct (z mod 2 ^ 32 <? 2 ^ 31).
  - by rewrite Zplus_mod_idemp_l.
  - replace (z mod 2 ^ 32 - 2 ^ 32 + 1) with (z mod 2 ^ 32 + 1 + (-1) * 2 ^ 32) by lia.
    by rewrite Z_mod_plus_full, Zplus_mod_idemp_l.
Qed.

Lemma counted_capture l x m : counted m -> counted (capture l x (count (counter_of l) m)).
Proof.
  intros Hm l'. cbn. destruct (decide (l' = l)) as [->|Hl].
  - rewrite !decide_True by done. rewrite Hm, i32_succ, length_app. cbn. do 2 f_equal. lia.
  - rewrite !decide_False by (done || by intros E%(inj counter_of)). apply Hm.
Qed.

(** The other counters belong to no vector. *)
Lemma counted_count c m : (forall l, counter_of l <> c) -> counted m -> counted (count c m).
Proof. intros Hc Hm l. cbn. rewrite decide_False by apply Hc. apply Hm. Qed.

Lemma counted_same m m' : calls m' = calls m -> invocations m' = invocations m -> counted m -> counted m'.
Proof. intros E1 E2 Hm l. by rewrite E1, E2. Qed.

Ltac counted_tac :=
  repeat first
    [ assumption
    | match goal with |- counted (capture ?l ?x (count ?c ?m)) => apply (counted_capture l x m) end
    | match goal with |- counted (count ?c ?m) => apply (counted_count c m); [by intros []|] end
    | match goal with |- counted (?f _ ?m) => apply (counted_same m); [done|done|] end
    | match goal with |- counted (?f _ _ ?m) => apply (counted_same m); [done|done|] end
    | match goal with |- counted (?f ?m) => apply (counted_same m); [done|done|] end ].

Lemma counted_exec_call c m : counted m -> counted (exec_call c m).2.
Proof.
  intros Hm. destruct c; cbn [exec_call]; shim_unfold; cbn [fst snd];
    repeat (case_match; simplify_eq; cbn [fst snd]); counted_tac.
Qed.

Lemma counted_exec_ops os : forall m, counted m -> counted (exec_ops os m).2.
Proof.
  induction os as [|o os IH]; intros m Hm; cbn [exec_ops]; [done|].
  assert (Ho : counted (exec_op o m).2).
  { destruct o as [| | | | | | |c]; try (by apply (counted_same m)).
    pose proof (counted_exec_call c m Hm) as Hc. cbn [exec_op]. by destruct (exec_call c m). }
  destruct (exec_op o m) as [a m1]. specialize (IH m1 Ho). by destruct (exec_ops os m1).
Qed.

Lemma counted_reset m : counted (MockReset m).
Proof. by intros []. Qed.

(** C40. Tests on the double do not depend on what ran before them. Whatever state
    earlier tests have left, a test that begins with [MockReset] and then programs
    answers and lets the code call, in any order, gets from every call the answer
    it would get in a fresh process, and ends in a state that differs from that one
    in no counter, capture, event, binding or answer, provided that it sets the
    frame for [MediaBugRead] before it is read (the one field that the reset does
    not assign). In that state every counter that goes with a vector of captured
    calls is its length, modulo the counter's width. *)
Theorem tests_isolated (m : MockState) (os : list test_op) :
  frame_set_first false os = true ->
  let '(seen, m') := exec_ops os (MockReset m) in
  seen = (exec_ops os Mock).1 /\ agree false m' (exec_ops os Mock).2 /\ counted m'.
Proof.
  intros Hf. destruct (exec_ops_agree os false (MockReset m) Mock Hf (MockReset_agree m)) as [H1 H2].
  pose proof (counted_exec_ops os (MockReset m) (counted_reset m)) as H3.
  by destruct (exec_ops os (MockReset m)) as [seen m'].
Qed.

(** A state that earlier tests have filled. *)
Definition used : MockState :=
  (exec_ops [TPointer next_session (Some 4%nat); TPointer next_media_bug_read_frame (Some 9%nat); TStatus next_originate_status 7;
             TCall (FOriginateSession (Some "user/1") 30 None None); TCall (FChannelSetFlag (Some 2%nat) CF_BREAK)] Mock).2.

Definition hangup_test : list test_op :=
  [TPointer next_session (Some 1%nat); TPointer next_channel (Some 2%nat); TCall (FSessionLocate (Some "u"));
   TCall (FSessionGetChannel (Some 1%nat)); TCall (FChannelHangup (Some 2%nat) 16); TCall (FSessionRwunlock (Some 1%nat));
   TCall (FIvrPlayFile_end true)].

Lemma tests_isolated_witness :
  let '(seen, m') := exec_ops hangup_test (MockReset used) in
  seen = [None; None; Some (APtr (Some 1%nat)); Some (APtr (Some 2%nat)); Some (AStatus CS_HANGUP); Some ADone; Some AWaits] /\
  calls m' channel_hangup_calls = 1 /\ calls m' originate_calls = 0.
Proof.
  pose proof (tests_isolated used hangup_test eq_refl) as H.
  destruct (exec_ops hangup_test (MockReset used)) as [seen m']. destruct H as (-> & H2 & H3). split; [reflexivity|].
  split; rewrite (ag_calls _ _ _ H2); reflexivity.
Defined.

(** The frame of an earlier test is copied into a later one's. *)
Example stale_frame_after_reset :
  (exec_call (FMediaBugRead None true) (MockReset used)).1 = AStatusPtr SWITCH_STATUS_SUCCESS (Some 9%nat) /\
  (exec_call (FMediaBugRead None true) Mock).1 = AStatusPtr SWITCH_STATUS_SUCCESS None.
Proof. done. Qed.

(** A break flag that was set once lets every later play return at once. *)
Example break_is_never_cleared :
  let m := (exec_ops [TCall (FChannelSetFlag (Some 2%nat) CF_BREAK); TCall (FIvrPlayFile_begin (Some 1%nat) (Some "f"))] Mock).2 in
  (exec_call (FIvrPlayFile_end true) m).1 = AStatus SWITCH_STATUS_SUCCESS.
Proof. done. Qed.

(** ** Audit events on the double *)

(** [Logging]'s calls, as calls of the shims. *)
Definition shim_call (c : event_call) : fs_call :=
  match c with
  | CreateSubclass _ sub => FEventCreateSubclass SWITCH_EVENT_CUSTOM (Some sub)
  | AddHeader id n v _ => FEventAddHeaderString (Some id) (Some n) (Some v)
  | Fire id _ => FEventFire (Some id)
  | Destroy id => FEventDestroy (Some id)
  end.

(** What FreeSWITCH answers, on the double. *)
Definition mock_answers (m : MockState) : audit_answers :=
  mkAnswers (if statuses m next_event_create_subclass_status =? SWITCH_STATUS_SUCCESS then pointers m next_event else None)
    (fun _ => true) (statuses m next_event_fire_status =? SWITCH_STATUS_SUCCESS).

(** The double gave the answer the caller went by. *)
Definition answered_as (c : event_call) (a : answer) : Prop :=
  match c, a with
  | CreateSubclass id _, AStatusPtr st p => st = SWITCH_STATUS_SUCCESS /\ p = Some id
  | AddHeader _ _ _ ok, AStatus st => st = if ok then SWITCH_STATUS_SUCCESS else SWITCH_STATUS_FALSE
  | Fire _ ok, AStatusPtr st _ => ok = (st =? SWITCH_STATUS_SUCCESS)
  | Destroy _, APtr p => p = None
  | _, _ => False
  end.

Definition header_pair (h : Header) : string * string := (until_nul (h_name h), until_nul (h_value h)).

Lemma exec_calls_app a b m :
  exec_calls (a ++ b)%list m =
  let '(r1, m1) := exec_calls a m in let '(r2, m2) := exec_calls b m1 in ((r1 ++ r2)%list, m2).
Proof.
  revert m. induction a as [|c a IH]; intros m; cbn [app exec_calls]; [by destruct (exec_calls b m)|].
  destruct (exec_call c m) as [x m1]. rewrite IH. destruct (exec_calls a m1) as [r1 m2]. by destruct (exec_calls b m2).
Qed.

Lemma headers_captured a e hs : forall i m cap,
  (forall i, aa_header a i = true) -> events_by_ptr m !! e = Some cap ->
  let '(r, m') := exec_calls (shim_call <$> add_headers a e i hs) m in
  Forall2 answered_as (add_headers a e i hs) r /\ statuses m' = statuses m /\
  events_by_ptr m' !! e = Some (mkCapturedEvent (ce_type cap) (ce_subclass_name cap) (ce_headers cap ++ (header_pair <$> hs)) (ce_fired cap)).
Proof.
  induction hs as [|h hs IH]; intros i m cap Ha He.
  - cbn. rewrite app_nil_r. split; [by apply Forall2_nil|]. split; [done|]. by destruct cap.
  - cbn [add_headers fmap list_fmap shim_call exec_calls exec_call]. unfold with_status, EventAddHeaderString.
    cbn [count events_by_ptr]. rewrite He. cbn [fst snd c_str from_option]. set (m1 := set_events _ _).
    assert (H1 : events_by_ptr m1 !! e = Some (mkCapturedEvent (ce_type cap) (ce_subclass_name cap)
                   (ce_headers cap ++ [header_pair h]) (ce_fired cap))) by apply lookup_insert_eq.
    pose proof (IH (S i) m1 _ Ha H1) as Hr. destruct (exec_calls _ m1) as [r m']. destruct Hr as (Hr1 & Hr2 & Hr3).
    split_and!; [apply Forall2_cons; split; [by cbn; rewrite Ha|done]|done|].
    rewrite Hr3. cbn. by rewrite <- app_assoc.
Qed.

(** What a test reads of an audit event is what the code sent: the double holds
    one event of the full subclass with every header in order, fired exactly when
    [Emit] returned true, and each of its answers is the one [Emit] went by. *)
Lemma Emit_captured m name headers e :
  name <> "" -> statuses m next_event_create_subclass_status = SWITCH_STATUS_SUCCESS ->
  pointers m next_event = Some e -> events_by_ptr m !! e = None ->
  let '(ok, cs) := Emit (mock_answers m) name headers in
  let '(r, m') := exec_calls (shim_call <$> cs) m in
  let sub := until_nul (kSubclassPrefix +:+ name) in
  Forall2 answered_as cs r /\
  events_by_ptr m' !! e =
    Some (mkCapturedEvent SWITCH_EVENT_CUSTOM sub (("Event-Subclass", sub) :: (header_pair <$> headers)) ok).
Proof.
  intros Hn Hs Hp He. unfold Emit. assert (string_empty name = false) as -> by (by destruct name).
  unfold EmitFullSubclass. change (string_empty (kSubclassPrefix +:+ name)) with false. cbv iota. set (a := mock_answers m).
  assert (aa_create a = Some e) as -> by (unfold a; cbn; by rewrite Hs). cbn [Z.eqb SWITCH_STATUS_SUCCESS EventGuard_adopt EventGuard_call EventGuard_dtor event_ release_of fmap list_fmap].
  set (sub := until_nul (kSubclassPrefix +:+ name)). rewrite app_nil_r.
  change (CreateSubclass e sub :: add_headers a e 0 headers) with ([CreateSubclass e sub] ++ add_headers a e 0 headers)%list.
  rewrite <- app_assoc, !fmap_app. cbn [fmap list_fmap shim_call]. rewrite !exec_calls_app. cbn [exec_calls exec_call].
  unfold EventCreateSubclass, create_event, with_both. cbn [count statuses pointers events_by_ptr]. rewrite Hs, Hp, He. cbn [Z.eqb SWITCH_STATUS_SUCCESS default].
  set (m1 := set_events _ _). rewrite exec_calls_app.
  pose proof (headers_captured a e headers 0 m1 (mkCapturedEvent SWITCH_EVENT_CUSTOM sub [("Event-Subclass", sub)] false)
    (fun _ => eq_refl) (lookup_insert_eq _ _ _)) as Hh.
  destruct (exec_calls (shim_call <$> add_headers a e 0 headers) m1) as [r m2]. destruct Hh as (H1 & H2 & H3).
  cbn [exec_calls exec_call]. unfold EventFire, with_both. cbn [count statuses events_by_ptr]. rewrite H2, H3. cbn [set_events statuses m1 count].
  change (aa_fire a) with (statuses m next_event_fire_status =? SWITCH_STATUS_SUCCESS).
  destruct (statuses m next_event_fire_status =? SWITCH_STATUS_SUCCESS) eqn:Ef; cbn [app].
  - split; [|by cbn [set_events events_by_ptr]; rewrite lookup_insert_eq]. apply Forall2_cons. split; [done|]. apply Forall2_app; [done|].
    apply Forall2_cons. split; [by cbn; rewrite Ef|by apply Forall2_nil].
  - split; [|done]. apply Forall2_cons. split; [done|]. apply Forall2_app; [done|].
    apply Forall2_cons. split; [by cbn; rewrite Ef|by apply Forall2_nil].
Qed.
