(* ===== verification/CallAudit.v ===== *)
(** * What the call handlers put on record

    The audit events of the handlers of [CallControl], and [RedactArgs] of
    [src/control/handlers/execute_handler.cc], which hides the secrets in the
    arguments of an executed application.  [RedactArgs] is a call of
    [std::regex_replace] with a fixed pattern: the pattern is a term here, and a
    match is the first of the ways a backtracking search goes, lazy and greedy
    repetitions in their order. *)

From S2P Require Import Prelude BoundedQueue Tier Eavesdrop Idempotency CallControl Logging Service.

#[local] Open Scope string_scope.
#[local] Open Scope Z_scope.

(** ** Regular expressions *)

(** What the pattern uses: a class of characters, concatenation, alternation, and
    repetitions of a class. *)
Inductive regex :=
  | Chr (p : ascii -> bool)
  | Cat (a b : regex)
  | Alt (a b : regex)
  | Star (greedy : bool) (p : ascii -> bool).

(** The rest of the string after each way a repetition goes, best first. *)
Fixpoint star_ends (greedy : bool) (p : ascii -> bool) (s : string) : list string :=
  let more := match s with String c s' => if p c then star_ends greedy p s' else [] | EmptyString => [] end in
  if greedy then (more ++ [s])%list else s :: more.

Fixpoint ends (r : regex) (s : string) : list string :=
  match r with
  | Chr p => match s with String c s' => if p c then [s'] else [] | EmptyString => [] end
  | Cat a b => ends a s ≫= ends b
  | Alt a b => (ends a s ++ ends b s)%list
  | Star greedy p => star_ends greedy p s
  end.

(** A word, whatever its case. *)
Fixpoint word (w : string) : regex :=
  match w with
  | String c EmptyString => Chr (fun x => Ascii.eqb (tolower x) (tolower c))
  | String c w' => Cat (Chr (fun x => Ascii.eqb (tolower x) (tolower c))) (word w')
  | EmptyString => Star true (fun _ => false)
  end.

(** ** RedactArgs *)

Definition nonspace (c : ascii) : bool := negb (isspace c).

Definition keyword : regex := Alt (word "password") (Alt (word "token") (word "secret")).

(** The first group, and what follows it: an equals sign and a value. *)
Definition key_group : regex := Cat (Star false nonspace) (Cat keyword (Star true nonspace)).
Definition value_part : regex := Cat (Chr (Ascii.eqb "=")) (Cat (Chr nonspace) (Star true nonspace)).

(** The match of [kRedactPattern] at the head of [s]: what is left after the
    first group, and after the whole match. *)
Definition kRedactPattern (s : string) : option (string * string) :=
  head (ends key_group s ≫= fun g => (fun rest => (g, rest)) <$> ends value_part g).

Definition redacted_value : string := "=[REDACTED]".

(** [std::regex_replace]: the leftmost match, then on from its end. *)
Fixpoint replace_loop (fuel : nat) (s : string) : string :=
  match fuel with
  | O => s
  | S fuel =>
      match kRedactPattern s with
      | Some (g, rest) =>
          string_take (String.length s - String.length g) s +:+ redacted_value +:+ replace_loop fuel rest
      | None => match s with EmptyString => EmptyString | String c s' => String c (replace_loop fuel s') end
      end
  end.

Definition RedactArgs (args : string) : string :=
  if string_empty args then args else replace_loop (S (String.length args)) args.

(** ** The audits *)

(** The audit of a handler that performs one call on FreeSWITCH: when the call was
    made and the status is OK. *)
Definition audit_done (st : Status) (es : list cc_effect) (a : audit_record) : list audit_record :=
  match st_code st, es with OK, _ :: _ => [a] | _, _ => [] end.

Definition execute_audit (uuid app args : string) : audit_record :=
  emit_audit "osw.control.execute" [mkHeader "uuid" uuid; mkHeader "app" app; mkHeader "args_redacted" (RedactArgs args)].

Definition hangup_audit (uuid : string) (cause : Z) : audit_record :=
  emit_audit "osw.control.hangup" [mkHeader "uuid" uuid; mkHeader "cause" (CallCause_ToString cause)].

Definition hangup_many_audit (cause : Z) (uuid : string) : audit_record :=
  emit_audit "osw.control.hangup"
    [mkHeader "uuid" uuid; mkHeader "cause" (CallCause_ToString cause); mkHeader "via" "hangup_many"].

Definition bridge_audit (a b : string) : audit_record :=
  emit_audit "osw.control.bridge" [mkHeader "a_uuid" a; mkHeader "b_uuid" b].

Definition originate_audit (uuid : string) (opts : OriginateOptions) : audit_record :=
  emit_audit "osw.control.originate"
    [mkHeader "uuid" uuid; mkHeader "dest" (oo_dial_string opts); mkHeader "cid_name" (oo_cid_name opts);
     mkHeader "cid_num" (oo_cid_num opts)].

Definition set_variables_audit (uuid : string) (vars : list (string * string)) : audit_record :=
  emit_audit "osw.control.set_variables" [mkHeader "uuid" uuid; mkHeader "var_count" (pretty (i32 (zlen vars)))].

Definition hold_audit (uuid : string) : audit_record :=
  emit_audit "osw.control.hold" [mkHeader "uuid" uuid; mkHeader "moh_class" ""].

Definition unhold_audit (uuid : string) : audit_record := emit_audit "osw.control.unhold" [mkHeader "uuid" uuid].

Definition or_default (s : string) : string := if string_empty s then "(default)" else s.

Definition blind_transfer_audit (uuid destination dialplan context : string) : audit_record :=
  emit_audit "osw.control.blind_transfer"
    [mkHeader "uuid" uuid; mkHeader "extension" destination; mkHeader "dialplan" (or_default dialplan);
     mkHeader "context" (or_default context)].

(** A call of the control service, with what FreeSWITCH answers. *)
Inductive call :=
  | CallSetVariables (uuid : string) (vars : list (string * string)) (found : option session_view)
  | CallHangup (uuid cause : string) (vars : list (string * string)) (found : option session_view)
  | CallHangupMany (uuids : list string) (cause : string) (found : nat -> option session_view)
  | CallExecute (l : lookup) (ser : bool) (uuid app args : string) (found : option session_view) (rc : Z)
  | CallBridge (l : lookup) (ser : bool) (a b : string) (found : string -> option session_view) (rc : Z)
  | CallOriginate (l : lookup) (ser event_ok : bool) (req : OriginateRequest) (o : originated)
  | CallHold (uuids : list string) (found : nat -> option session_view) (rc : nat -> Z)
  | CallUnhold (uuids : list string) (found : nat -> option session_view) (rc : nat -> Z)
  | CallBlindTransfer (uuid destination dialplan context : string) (found : option session_view) (rc : Z).

Section Calls.
Context (CS_ROUTING CS_EXECUTE CS_HANGUP SWITCH_STATUS_SUCCESS : Z).

(** The effects of a call and the audits it emits, in their order. *)
Definition run_call (c : call) : Status * list cc_effect * list audit_record :=
  match c with
  | CallSetVariables uuid vars found =>
      let '(st, es) := SetVariables uuid vars found in (st, es, audit_done st es (set_variables_audit uuid vars))
  | CallHangup uuid cause vars found =>
      let '(st, es) := Hangup CS_HANGUP uuid cause vars found in
      (st, es, audit_done st es (hangup_audit uuid (CallCause_FromString cause)))
  | CallHangupMany uuids cause found =>
      let '(hung, es) := HangupMany CS_HANGUP uuids cause found in
      (Status_OK, es, hangup_many_audit (CallCause_FromString cause) <$> hung)
  | CallExecute l ser uuid app args found rc =>
      let '(st, es, _) := Execute CS_HANGUP SWITCH_STATUS_SUCCESS l ser uuid app args found rc in
      (st, es, audit_done st es (execute_audit uuid app args))
  | CallBridge l ser a b found rc =>
      let '(st, es, _) := Bridge CS_ROUTING CS_EXECUTE SWITCH_STATUS_SUCCESS l ser a b found rc in
      (st, es, audit_done st es (bridge_audit a b))
  | CallOriginate l ser event_ok req o =>
      let '(st, es, _) := Originate l ser event_ok req o in
      (st, es, match es, o with
               | [CcOriginate opts], OrigSession (Some uuid) => audit_done st es (originate_audit uuid opts)
               | _, _ => []
               end)
  | CallHold uuids found rc =>
      let '(st, us, es) := Hold SWITCH_STATUS_SUCCESS uuids found rc in (st, es, hold_audit <$> us)
  | CallUnhold uuids found rc =>
      let '(st, us, es) := Unhold SWITCH_STATUS_SUCCESS uuids found rc in (st, es, unhold_audit <$> us)
  | CallBlindTransfer uuid destination dialplan context found rc =>
      let '(st, es) := BlindTransfer SWITCH_STATUS_SUCCESS uuid destination dialplan context found rc in
      (st, es, audit_done st es (blind_transfer_audit uuid destination dialplan context))
  end.
End Calls.

(** ** What the pattern matches *)

(** As words: a key and, when the word has an equals sign, a value.  A key is
    secret when it holds one of the three names, whatever its case. *)
Definition arg_word : Type := string * option string.

Fixpoint contains (w s : string) : bool :=
  string_starts_with w s || match s with EmptyString => false | String _ s' => contains w s' end.

Definition secret_names : list string := ["password"; "token"; "secret"].

Definition secret (key : string) : bool := existsb (fun w => contains w (string_map tolower key)) secret_names.

Definition render_word (w : arg_word) : string :=
  match w with (k, None) => k | (k, Some v) => k +:+ "=" +:+ v end.

Definition render (ws : list arg_word) : string := string_join " " (render_word <$> ws).

Definition hide (w : arg_word) : arg_word :=
  match w with
  | (k, Some v) => if secret k && negb (string_empty v) then (k, Some "[REDACTED]") else w
  | _ => w
  end.

(** No spaces, and no equals sign but the one between key and value. *)
Definition plain (c : ascii) : bool := nonspace c && is_not "=" c.

Definition word_ok (w : arg_word) : bool :=
  string_all plain w.1 && match w.2 with Some v => string_all plain v | None => true end.

(** A string cut at the end of a run of characters that are not spaces. *)
Definition stops (x : string) : bool := match x with EmptyString => true | String c _ => isspace c end.

Lemma star_ends_step greedy p s g :
  g ∈ star_ends greedy p s <-> g = s \/ exists c s', s = String c s' /\ p c = true /\ g ∈ star_ends greedy p s'.
Proof.
  assert (E : g ∈ star_ends greedy p s <->
    g = s \/ g ∈ match s with String c s' => if p c then star_ends greedy p s' else [] | EmptyString => [] end).
  { destruct s, greedy; cbn [star_ends]; set_solver. }
  rewrite E. clear E. destruct s as [|c s]; [|destruct (p c) eqn:Hc].
  - naive_solver (set_solver).
  - naive_solver.
  - rewrite elem_of_nil. naive_solver congruence.
Qed.

Lemma star_ends_spec greedy p s g :
  g ∈ star_ends greedy p s <-> exists u, s = u +:+ g /\ string_all p u = true.
Proof.
  induction s as [|c s IH]; rewrite star_ends_step; split.
  - intros [-> |(? & ? & ? & _)]; [by exists ""|done].
  - intros ([|d u] & E & ?); [by left|done].
  - intros [-> |(d & s' & [= <- <-] & Hc & H)]; [by exists ""|].
    apply IH in H as (u & -> & Hu). exists (String c u). cbn. by rewrite Hc.
  - intros ([|d u] & E & Hu); [by left|right]. cbn in E, Hu. apply andb_prop in Hu as [Hd Hu].
    injection E as -> ->. eexists _, _. split; [done|]. split; [done|]. apply IH. by exists u.
Qed.

Lemma word_ends w s g :
  string_map tolower w = w ->
  g ∈ ends (word w) s <-> exists m, s = m +:+ g /\ string_map tolower m = w.
Proof.
  revert s. induction w as [|c w IH]; intros s Hw.
  - cbn [word ends]. rewrite star_ends_spec. split.
    + intros ([|] & -> & Hu); [by exists ""|done].
    + intros ([|] & -> & Hm); [by exists ""|done].
  - injection Hw as Hc Hw.
    assert (E : forall x, ends (word (String c w)) x =
                match x with String d x' => if Ascii.eqb (tolower d) c then ends (word w) x' else [] | _ => [] end).
    { intros [|d x']; destruct w as [|e w]; cbn [word ends]; rewrite ?Hc; try done.
      - destruct (Ascii.eqb _ _); [|done]. cbn [star_ends]. by destruct x'.
      - destruct (Ascii.eqb _ _); [|done]. cbn. by rewrite app_nil_r. }
    rewrite E. destruct s as [|d s].
    + split; [by intros ?%elem_of_nil|]. intros ([|] & Es & Hm); done.
    + destruct (Ascii.eqb_spec (tolower d) c) as [<-|N].
      * rewrite IH by done. split.
        -- intros (m & -> & <-). by exists (String d m).
        -- intros ([|e m] & Es & Hm); [done|]. cbn in Es, Hm. injection Es as -> ->. injection Hm as Hm. by exists m.
      * split; [by intros ?%elem_of_nil|]. intros ([|e m] & Es & Hm); [done|]. cbn [string_map] in Hm.
        injection Es as -> ->. by injection Hm.
Qed.

Lemma string_map_app f s t : string_map f (s +:+ t) = string_map f s +:+ string_map f t.
Proof. induction s as [|c s IH]; [done|]. rewrite string_app_cons. cbn [string_map]. by rewrite IH. Qed.

Lemma contains_spec w s : contains w s = true <-> exists u t, s = u +:+ w +:+ t.
Proof.
  induction s as [|c s IH]; cbn [contains]; rewrite orb_true_iff, string_starts_with_spec.
  - split; [intros [[t ->]|]; [by exists "", t|done]|]. intros ([|] & t & E); [left; by exists t|done].
  - rewrite IH. split.
    + intros [[t ->]|(u & t & ->)]; [by exists "", t|by exists (String c u), t].
    + intros ([|d u] & t & E); [left; by exists t|]. injection E as -> ->. right. by exists u, t.
Qed.

(** Where a mapped string is cut, so is the string. *)
Lemma string_map_cut f k u t : string_map f k = u +:+ t -> exists k1 k2, k = k1 +:+ k2 /\ string_map f k1 = u /\ string_map f k2 = t.
Proof.
  revert u. induction k as [|c k IH]; intros [|d u] E; try (by exists "", ""); try done.
  - by exists "", (String c k).
  - rewrite string_app_cons in E. cbn [string_map] in E. injection E as Ec E.
    apply IH in E as (k1 & k2 & -> & <- & <-). exists (String c k1), k2. rewrite string_app_cons. cbn [string_map]. by rewrite Ec.
Qed.

Lemma keyword_ends s g :
  g ∈ ends keyword s <-> exists m, s = m +:+ g /\ string_map tolower m ∈ secret_names.
Proof.
  unfold keyword, secret_names. cbn [ends]. rewrite !elem_of_app, !word_ends by done.
  setoid_rewrite elem_of_cons. setoid_rewrite elem_of_cons. setoid_rewrite list_elem_of_singleton. naive_solver.
Qed.

Lemma secret_spec k :
  secret k = true <-> exists u m t, k = u +:+ m +:+ t /\ string_map tolower m ∈ secret_names.
Proof.
  unfold secret. rewrite existsb_exists. split.
  - intros (w & Hw & (u & t & E)%contains_spec).
    apply string_map_cut in E as (k1 & k2 & -> & _ & E). apply string_map_cut in E as (m & k3 & -> & <- & _).
    exists k1, m, k3. split; [done|]. by apply list_elem_of_In.
  - intros (u & m & t & -> & Hm). exists (string_map tolower m). split; [by apply list_elem_of_In|].
    apply contains_spec. exists (string_map tolower u), (string_map tolower t). by rewrite !string_map_app.
Qed.

Lemma key_group_ends s g :
  g ∈ ends key_group s <->
  exists u m t, s = u +:+ m +:+ t +:+ g /\ string_all nonspace u = true /\ string_all nonspace t = true /\
                string_map tolower m ∈ secret_names.
Proof.
  unfold key_group. cbn [ends]. setoid_rewrite list_elem_of_bind. setoid_rewrite list_elem_of_bind.
  setoid_rewrite keyword_ends. setoid_rewrite star_ends_spec. split.
  - intros (a & (b & (t & -> & Ht) & (m & -> & Hm)) & (u & -> & Hu)). by exists u, m, t.
  - intros (u & m & t & -> & Hu & Ht & Hm). exists (m +:+ t +:+ g). split; [|by exists u].
    exists (t +:+ g). split; [by exists t|by exists m].
Qed.

Lemma plain_tolower c : plain (tolower c) = true -> plain c = true.
Proof. destruct c as [[] [] [] [] [] [] [] []]; by vm_compute. Qed.

Lemma secret_name_plain m : string_map tolower m ∈ secret_names -> string_all plain m = true.
Proof.
  intros H. assert (Hw : string_all plain (string_map tolower m) = true).
  { unfold secret_names in H. rewrite !elem_of_cons, elem_of_nil in H. by destruct H as [-> |[-> |[-> |[]]]]. }
  clear H. induction m as [|c m IH]; [done|]. cbn [string_map string_all] in *.
  apply andb_prop in Hw as [Hc Hw]. by rewrite (plain_tolower _ Hc), IH.
Qed.

Lemma plain_nonspace s : string_all plain s = true -> string_all nonspace s = true.
Proof. apply string_all_impl. intros c H. by apply andb_prop in H as [? _]. Qed.

(** A run of characters that are not spaces ends before [x]. *)
Lemma run_cut u g w x :
  u +:+ g = w +:+ x -> string_all nonspace u = true -> stops x = true -> exists w', w = u +:+ w' /\ g = w' +:+ x.
Proof.
  revert w. induction u as [|c u IH]; intros w E Hu Hx; [by exists w|].
  cbn [string_all] in Hu. apply andb_prop in Hu as [Hc Hu]. rewrite string_app_cons in E. destruct w as [|d w].
  - rewrite string_app_nil_l in E. subst x. cbn in Hx. unfold nonspace in Hc. by rewrite Hx in Hc.
  - rewrite string_app_cons in E. injection E as -> E. apply IH in E as (w' & -> & ->); [|done..]. by exists w'.
Qed.

(** Every place a key may end lies in the word. *)
Lemma key_group_cut w x g :
  g ∈ ends key_group (w +:+ x) -> stops x = true ->
  exists u m t w', w = u +:+ m +:+ t +:+ w' /\ g = w' +:+ x /\ string_map tolower m ∈ secret_names.
Proof.
  rewrite key_group_ends. intros (u & m & t & E & Hu & Ht & Hm) Hx.
  assert (Hr : string_all nonspace (u +:+ m +:+ t) = true).
  { rewrite !string_all_app, Hu, Ht, (plain_nonspace m) by (by apply secret_name_plain). done. }
  assert (E' : (u +:+ m +:+ t) +:+ g = w +:+ x) by (by rewrite <- !string_app_assoc).
  apply run_cut in E' as (w' & -> & ->); [|done..]. exists u, m, t, w'. by rewrite <- !string_app_assoc.
Qed.

Lemma value_part_nil s : (forall t, s <> String "=" t) -> ends value_part s = [].
Proof.
  intros N. unfold value_part. cbn [ends]. destruct s as [|c s]; [done|].
  destruct (Ascii.eqb_spec "=" c) as [<-|]; [by destruct (N s)|done].
Qed.

(** The head of a bind whose parts are all empty but one. *)
Lemma head_bind {A B} (f : A -> list B) (l : list A) a0 b :
  (forall a, a ∈ l -> f a <> [] -> a = a0) -> a0 ∈ l -> head (f a0) = Some b -> head (l ≫= f) = Some b.
Proof.
  intros H Ha Hb. induction l as [|a l IH]; [by apply elem_of_nil in Ha|]. rewrite bind_cons.
  destruct (f a) as [|c r] eqn:Hf.
  - apply IH; [intros a' Ha'; apply H; by right|].
    apply elem_of_cons in Ha as [<- |]; [by rewrite Hf in Hb|done].
  - assert (a = a0) as <-; [|by rewrite Hf in Hb]. apply H; [by left|by rewrite Hf].
Qed.

Lemma bind_all_nil {A B} (f : A -> list B) (l : list A) : (forall a, a ∈ l -> f a = []) -> l ≫= f = [].
Proof.
  intros H. induction l as [|a l IH]; [done|]. rewrite bind_cons, (H a) by (by left). apply IH. intros a' Ha'. apply H. by right.
Qed.

Lemma stops_not_equals w x t : string_all plain w = true -> stops x = true -> w +:+ x <> String "=" t.
Proof. intros Hw Hx. destruct w as [|c w]; [destruct x; [done|]|]; rewrite ?string_app_nil_l, ?string_app_cons; by intros [= -> _]. Qed.

(** A word without an equals sign has no match. *)
Lemma pattern_bare w x : string_all plain w = true -> stops x = true -> kRedactPattern (w +:+ x) = None.
Proof.
  intros Hw Hx. unfold kRedactPattern. rewrite bind_all_nil; [done|]. intros g Hg.
  apply key_group_cut in Hg as (u & m & t & w' & -> & -> & _); [|done].
  rewrite !string_all_app in Hw. apply andb_prop in Hw as [_ [_ [_ Hw]%andb_prop]%andb_prop].
  rewrite value_part_nil; [done|]. intros ?. by apply stops_not_equals.
Qed.

Lemma equals_cut a b k v :
  a +:+ String "=" b = k +:+ String "=" v -> string_all plain k = true -> string_all plain v = true -> a = k /\ b = v.
Proof.
  revert k. induction a as [|c a IH]; intros [|d k] E Hk Hv; rewrite ?string_app_nil_l, ?string_app_cons in E.
  - by injection E.
  - injection E as <- _. done.
  - injection E as -> <-. rewrite string_all_app in Hv. by apply andb_prop in Hv as [_ Hv].
  - injection E as -> E. cbn in Hk. apply andb_prop in Hk as [_ Hk]. by destruct (IH k E Hk Hv) as [-> ->].
Qed.

Lemma greedy_head v x :
  string_all nonspace v = true -> stops x = true -> head (star_ends true nonspace (v +:+ x)) = Some x.
Proof.
  intros Hv Hx. induction v as [|c v IH].
  - rewrite string_app_nil_l. destruct x as [|c x]; [done|]. cbn in Hx |- *. unfold nonspace at 1. by rewrite Hx.
  - cbn in Hv. apply andb_prop in Hv as [Hc Hv]. rewrite string_app_cons. cbn [star_ends]. rewrite Hc.
    specialize (IH Hv). by destruct (star_ends true nonspace (v +:+ x)).
Qed.

(** An assignment matches when its key is secret and its value is not empty, and
    the match is the whole word. *)
Lemma pattern_assign k v x :
  string_all plain k = true -> string_all plain v = true -> stops x = true ->
  kRedactPattern (k +:+ String "=" (v +:+ x)) =
  if secret k && negb (string_empty v) then Some (String "=" (v +:+ x), x) else None.
Proof.
  intros Hk Hv Hx. unfold kRedactPattern.
  assert (Hg : forall g, g ∈ ends key_group (k +:+ String "=" (v +:+ x)) -> ends value_part g <> [] ->
                         g = String "=" (v +:+ x) /\ secret k = true).
  { intros g Hg Hp. rewrite <- (string_app_cons "=" v x), string_app_assoc in Hg.
    apply key_group_cut in Hg as (u & m & t & w' & E & -> & Hm); [|done].
    destruct w' as [|c w']; [destruct Hp; apply value_part_nil; intros; by apply (stops_not_equals "")|].
    destruct (Ascii.eqb_spec "=" c) as [<-|N];
      [|destruct Hp; apply value_part_nil; intros t'; rewrite string_app_cons; congruence].
    rewrite !string_app_assoc in E. symmetry in E. apply equals_cut in E as [<- <-]; [|done..].
    split; [done|]. apply secret_spec. exists u, m, t. by rewrite !string_app_assoc. }
  destruct (secret k && negb (string_empty v)) eqn:Hs.
  - apply andb_prop in Hs as [Hs Hne]. apply head_bind with (a0 := String "=" (v +:+ x)).
    + intros g Hin Hf. apply Hg; [done|]. intros E. by rewrite E in Hf.
    + apply secret_spec in Hs as (u & m & t & -> & Hm). apply key_group_ends. exists u, m, t.
      rewrite !string_all_app in Hk. apply andb_prop in Hk as [Hu [_ Ht]%andb_prop].
      rewrite <- !string_app_assoc. auto using plain_nonspace.
    + destruct v as [|c v]; [done|]. apply plain_nonspace in Hv. cbn in Hv. apply andb_prop in Hv as [Hc Hv].
      unfold value_part. cbn [ends]. rewrite Ascii.eqb_refl, string_app_cons. cbn. rewrite Hc. cbn.
      rewrite !app_nil_r. pose proof (greedy_head v x Hv Hx) as Hh.
      destruct (star_ends true nonspace (v +:+ x)); [done|]. cbn in *. by simplify_eq.
  - rewrite bind_all_nil; [done|]. intros g Hin. destruct (ends value_part g) eqn:E; [done|exfalso].
    destruct (Hg g Hin) as [-> Hs']; [by rewrite E|]. rewrite Hs' in Hs. cbn in Hs. destruct v; [|done].
    rewrite string_app_nil_l in E. unfold value_part in E. cbn in E.
    destruct x as [|c x]; [done|]. cbn in Hx, E. unfold nonspace in E. by rewrite Hx in E.
Qed.

Lemma replace_loop_skip fuel c s :
  kRedactPattern (String c s) = None -> replace_loop (S fuel) (String c s) = String c (replace_loop fuel s).
Proof. intros E. cbn [replace_loop]. by rewrite E. Qed.

Lemma loop_bare w x fuel :
  string_all plain w = true -> stops x = true -> (String.length (w +:+ x) < fuel)%nat ->
  exists fuel', (String.length x < fuel')%nat /\ replace_loop fuel (w +:+ x) = w +:+ replace_loop fuel' x.
Proof.
  revert fuel. induction w as [|c w IH]; intros fuel Hw Hx Hf; [by exists fuel|].
  pose proof (pattern_bare (String c w) x Hw Hx) as E.
  cbn in Hw. apply andb_prop in Hw as [_ Hw]. rewrite string_app_cons in E, Hf |- *. cbn in Hf.
  destruct fuel as [|fuel]; [lia|]. rewrite replace_loop_skip by done.
  destruct (IH fuel Hw Hx) as (fuel' & Hf' & ->); [lia|]. exists fuel'. by rewrite string_app_cons.
Qed.

Lemma secret_cons c k : secret k = true -> secret (String c k) = true.
Proof. rewrite !secret_spec. intros (u & m & t & -> & Hm). exists (String c u), m, t. by rewrite string_app_cons. Qed.

Lemma loop_shown k v x fuel :
  string_all plain k = true -> string_all plain v = true -> stops x = true ->
  secret k && negb (string_empty v) = false -> (String.length (k +:+ String "=" (v +:+ x)) < fuel)%nat ->
  exists fuel', (String.length x < fuel')%nat /\
    replace_loop fuel (k +:+ String "=" (v +:+ x)) = k +:+ String "=" v +:+ replace_loop fuel' x.
Proof.
  revert fuel. induction k as [|c k IH]; intros fuel Hk Hv Hx Hs Hf.
  all: pose proof (pattern_assign _ v x Hk Hv Hx) as E; rewrite Hs in E.
  all: rewrite ?string_app_nil_l, ?string_app_cons in E, Hf |- *; cbn in Hf; destruct fuel as [|fuel]; [lia|].
  all: rewrite replace_loop_skip by done.
  - destruct (loop_bare v x fuel Hv Hx) as (fuel' & Hf' & ->); [lia|]. by exists fuel'.
  - cbn in Hk. apply andb_prop in Hk as [_ Hk]. destruct (IH fuel Hk Hv Hx) as (fuel' & Hf' & ->); [|lia|].
    + apply andb_false_iff in Hs as [Hs|Hs]; [|by rewrite Hs, andb_false_r].
      destruct (secret k) eqn:Hs'; [|done]. by rewrite (secret_cons c k Hs') in Hs.
    + exists fuel'. by rewrite !string_app_cons.
Qed.

Lemma loop_hidden k v x fuel :
  string_all plain k = true -> string_all plain v = true -> stops x = true ->
  secret k && negb (string_empty v) = true -> (String.length (k +:+ String "=" (v +:+ x)) < fuel)%nat ->
  exists fuel', (String.length x < fuel')%nat /\
    replace_loop fuel (k +:+ String "=" (v +:+ x)) = k +:+ redacted_value +:+ replace_loop fuel' x.
Proof.
  intros Hk Hv Hx Hs Hf. destruct fuel as [|fuel]; [lia|]. exists fuel.
  rewrite string_length_app in Hf. cbn in Hf. rewrite string_length_app in Hf. split; [lia|].
  cbn [replace_loop]. rewrite pattern_assign, Hs by done.
  rewrite string_length_app, Nat.add_sub. by rewrite string_take_app.
Qed.

(** One word, up to the end of the string or a space. *)
Lemma loop_word w x fuel :
  word_ok w = true -> stops x = true -> (String.length (render_word w +:+ x) < fuel)%nat ->
  exists fuel', (String.length x < fuel')%nat /\
    replace_loop fuel (render_word w +:+ x) = render_word (hide w) +:+ replace_loop fuel' x.
Proof.
  destruct w as [k [v|]]; unfold word_ok; cbn [fst snd render_word hide]; intros [Hk Hv]%andb_prop Hx Hf.
  - assert (E : (k +:+ "=" +:+ v) +:+ x = k +:+ String "=" (v +:+ x))
      by (by rewrite <- !string_app_assoc, string_app_cons, string_app_nil_l).
    rewrite E in Hf |- *. destruct (secret k && negb (string_empty v)) eqn:Hs.
    + destruct (loop_hidden k v x fuel) as (fuel' & ? & ->); [done..|]. exists fuel'. split; [done|].
      cbn [render_word]. by rewrite <- !string_app_assoc.
    + destruct (loop_shown k v x fuel) as (fuel' & ? & ->); [done..|]. exists fuel'. split; [done|].
      cbn [render_word]. by rewrite <- !string_app_assoc.
  - by apply loop_bare.
Qed.

Lemma replace_loop_render ws fuel :
  Forall (fun w => word_ok w = true) ws -> (String.length (render ws) < fuel)%nat ->
  replace_loop fuel (render ws) = render (hide <$> ws).
Proof.
  intros H. revert fuel. induction H as [|w ws Hw H IH]; intros fuel Hf; [by destruct fuel|].
  destruct ws as [|w2 ws].
  - cbn in *. destruct (loop_word w "" fuel Hw) as (fuel' & Hf' & E); [done|by rewrite string_app_nil_r|].
    rewrite string_app_nil_r in E. rewrite E. destruct fuel' as [|fuel']; [lia|]. apply string_app_nil_r.
  - assert (E : forall v v2 vs, render (v :: v2 :: vs) = render_word v +:+ String " " (render (v2 :: vs))) by done.
    rewrite !fmap_cons, !E in *. rewrite <- fmap_cons.
    destruct (loop_word w (String " " (render (w2 :: ws))) fuel Hw) as (fuel' & Hf' & ->); [done..|].
    cbn in Hf'. destruct fuel' as [|fuel']; [lia|].
    rewrite replace_loop_skip by (by apply (pattern_bare "")). rewrite IH by (cbn in Hf' |- *; lia). done.
Qed.

Lemma RedactArgs_render ws :
  Forall (fun w => word_ok w = true) ws -> RedactArgs (render ws) = render (hide <$> ws).
Proof.
  intros H. unfold RedactArgs. rewrite <- (replace_loop_render ws (S (String.length (render ws)))) by (done || lia).
  destruct (string_empty (render ws)) eqn:E; [|done]. by apply string_empty_spec in E as ->.
Qed.

(** ** Secrets stay off the record *)

Lemma set_var_name_equals a t : string_all plain a = true -> set_var_name (a +:+ String "=" t) = a.
Proof.
  intros Ha. unfold set_var_name. rewrite find_char_app, string_take_app; [done|].
  revert Ha. apply string_all_impl. intros c H. by apply andb_prop in H as [_ ?].
Qed.

Lemma set_var_name_cons c t : is_not "=" c = true -> set_var_name (String c t) = String c (set_var_name t).
Proof.
  intros Hc. unfold set_var_name. cbn [find_char]. unfold is_not in Hc.
  rewrite Ascii.eqb_sym. destruct (Ascii.eqb _ _); [done|]. by destruct (find_char "=" t).
Qed.

Lemma set_var_name_app a t : string_all plain a = true -> set_var_name (a +:+ t) = a +:+ set_var_name t.
Proof.
  induction a as [|c a IH]; [done|]. cbn [string_all]. intros [Hc Ha]%andb_prop.
  rewrite !string_app_cons, set_var_name_cons, IH; [done..|]. by apply andb_prop in Hc as [_ ?].
Qed.

(** Hiding values leaves alone the name the [set] application would assign. *)
Lemma set_var_name_hide ws :
  Forall (fun w => word_ok w = true) ws -> set_var_name (render (hide <$> ws)) = set_var_name (render ws).
Proof.
  intros H. induction H as [|[k [v|]] ws Hw H IH]; [done|..].
  all: unfold word_ok in Hw; cbn [fst snd] in Hw; apply andb_prop in Hw as [Hk _].
  - assert (E : forall v' (vs : list arg_word), exists t, render (@cons arg_word (k, Some v') vs) = k +:+ String "=" t).
    { intros v' [|w2 vs]; cbn [render fmap list_fmap string_join render_word]; [by exists v'|].
      eexists. unfold render. cbn [fmap list_fmap string_join render_word].
      by rewrite <- !string_app_assoc, string_app_cons, string_app_nil_l. }
    rewrite fmap_cons. cbn [hide]. destruct (secret k && negb (string_empty v)).
    + destruct (E v ws) as [t ->], (E "[REDACTED]" (hide <$> ws)) as [t' ->]. by rewrite !set_var_name_equals.
    + destruct (E v ws) as [t ->], (E v (hide <$> ws)) as [t' ->]. by rewrite !set_var_name_equals.
  - destruct ws as [|w2 ws]; [done|]. rewrite !fmap_cons in *. cbn [hide].
    assert (E : forall (v : arg_word) vs, render (@cons arg_word (k, None) (v :: vs)) = k +:+ String " " (render (v :: vs))) by done.
    rewrite !E, !set_var_name_app by done. f_equal. by rewrite !set_var_name_cons, IH.
Qed.

Lemma render_empty_hide ws : string_empty (render (hide <$> ws)) = string_empty (render ws).
Proof.
  assert (E1 : forall w, string_empty (render_word (hide w)) = string_empty (render_word w)).
  { intros [[|c k] [v|]]; cbn [hide]; try destruct (_ && _); done. }
  destruct ws as [|w [|w2 ws]]; [done|apply E1|]. rewrite !fmap_cons. unfold render. cbn [fmap list_fmap string_join].
  assert (E2 : forall s t, string_empty (s +:+ String " " t) = false) by (by intros [|]). by rewrite !E2.
Qed.

(** The status depends on the arguments through the name they would assign. *)
Lemma Execute_same CS_HANGUP SUCCESS l ser uuid app args args' found rc :
  set_var_name args = set_var_name args' -> string_empty args = string_empty args' ->
  let '(st, es, _) := Execute CS_HANGUP SUCCESS l ser uuid app args found rc in
  let '(st', es', _) := Execute CS_HANGUP SUCCESS l ser uuid app args' found rc in
  st = st' /\ forall a, audit_done st es a = audit_done st' es' a.
Proof.
  intros Ev Ee. unfold Execute, cache_and_return, cancel_and_return. rewrite Ev, Ee. destruct found as [v|], l.
  all: repeat match goal with |- context [if ?b then _ else _] => destruct b; try done end; done.
Qed.

(** C22. What an executed application's secrets can influence.  Take two argument strings of words
    [key=value] and plain words, without other equals signs, that differ only in the non-empty values of keys
    naming a password, a token or a secret in any case.  [Execute] answers both with the same status and puts
    the same audit on record: none unless the application ran and succeeded, and else one whose [args_redacted]
    shows every word as it came, with [[REDACTED]] for each secret value. *)
Theorem execute_audit_hides_secrets CS_ROUTING CS_EXECUTE CS_HANGUP SUCCESS l ser uuid app found rc ws ws' :
  Forall (fun w => word_ok w = true) ws -> Forall (fun w => word_ok w = true) ws' -> hide <$> ws = hide <$> ws' ->
  let run args := run_call CS_ROUTING CS_EXECUTE CS_HANGUP SUCCESS (CallExecute l ser uuid app args found rc) in
  let '(st, es, audits) := run (render ws) in
  let '(st', es', audits') := run (render ws') in
  st = st' /\ audits = audits' /\
  audits = audit_done st es (emit_audit "osw.control.execute"
             [mkHeader "uuid" uuid; mkHeader "app" app; mkHeader "args_redacted" (render (hide <$> ws))]).
Proof.
  intros H H' E. cbn [run_call]. unfold execute_audit. rewrite !RedactArgs_render by done. rewrite <- E.
  pose proof (set_var_name_hide ws H) as Ev. rewrite E, (set_var_name_hide ws' H') in Ev.
  pose proof (render_empty_hide ws) as Ee. rewrite E, (render_empty_hide ws') in Ee.
  pose proof (Execute_same CS_HANGUP SUCCESS l ser uuid app _ _ found rc (eq_sym Ev) (eq_sym Ee)) as S.
  destruct (Execute _ _ _ _ _ _ (render ws) _ _) as [[st es] r], (Execute _ _ _ _ _ _ (render ws') _ _) as [[st' es'] r'].
  by destruct S as [<- ->].
Qed.

Definition demo_words (secret_value : string) : list arg_word :=
  [("greeting.wav", None); ("API_Token", Some secret_value); ("lang", Some "en")].

Lemma execute_audit_hides_secrets_witness :
  run_call 1 2 10 0 (CallExecute Miss true "u1" "playback" (render (demo_words "abc")) live_session 0) =
  (Status_OK, [CcExecute "u1" "playback" (Some "greeting.wav API_Token=abc lang=en")],
   [mkAudit "osw.audit.osw.control.execute"
      [mkHeader "uuid" "u1"; mkHeader "app" "playback";
       mkHeader "args_redacted" "greeting.wav API_Token=[REDACTED] lang=en"]]) /\
  (run_call 1 2 10 0 (CallExecute Miss true "u1" "playback" (render (demo_words "abc")) live_session 0)).2 =
  (run_call 1 2 10 0 (CallExecute Miss true "u1" "playback" (render (demo_words "hunter2")) live_session 0)).2.
Proof.
  split; [by vm_compute|].
  pose proof (execute_audit_hides_secrets 1 2 10 0 Miss true "u1" "playback" live_session 0 (demo_words "abc")
    (demo_words "hunter2")) as T.
  assert (R : forall v, string_all plain v = true -> Forall (fun w => word_ok w = true) (demo_words v)).
  { intros v Hv. repeat constructor. exact Hv. }
  by apply (T (R "abc" eq_refl) (R "hunter2" eq_refl) eq_refl).
Defined.

(** ** Calls and their record *)

Lemma audit_done_nil st a : audit_done st [] a = [].
Proof. unfold audit_done. by destruct (st_code st). Qed.

Lemma HangupMany_loop_record CS_HANGUP i uuids cause found :
  let '(hung, es) := HangupMany_loop CS_HANGUP i uuids cause found in es = (fun u => CcHangup u cause) <$> hung.
Proof.
  revert i. induction uuids as [|u uuids IH]; intros i; [done|]. cbn [HangupMany_loop]. specialize (IH (S i)).
  destruct (HangupMany_loop _ (S i) _ _ _) as [hung es]. unfold HangupOne.
  repeat case_match; simplify_eq; by rewrite ?fmap_app.
Qed.

(** A uuid that gets past [one] acted, and one that stops the loop fails it. *)
Lemma hold_loop_record one i uuids found rc :
  (forall u v r, match one u v r with (None, es) => es <> [] | (Some st, _) => st_code st <> OK end) ->
  let '(st, us, es) := hold_loop one i uuids found rc in
  (es = [] -> us = []) /\ (st_code st = OK -> es <> [] -> us <> []).
Proof.
  intros H. revert i. induction uuids as [|u uuids IH]; intros i; [done|]. cbn [hold_loop]. specialize (IH (S i)).
  specialize (H u (found i) (rc i)). destruct (one u (found i) (rc i)) as [[st|] es]; [done|].
  destruct (hold_loop one (S i) uuids found rc) as [[st us] es']. split; [|done]. by intros [? _]%app_nil.
Qed.

Lemma Hold_one_record SUCCESS u v r :
  match Hold_one SUCCESS u v r with (None, es) => es <> [] | (Some st, _) => st_code st <> OK end.
Proof. unfold Hold_one. by repeat case_match; simplify_eq. Qed.

Lemma Unhold_one_record SUCCESS u v r :
  match Unhold_one SUCCESS u v r with (None, es) => es <> [] | (Some st, _) => st_code st <> OK end.
Proof. unfold Unhold_one. by repeat case_match; simplify_eq. Qed.

Definition critical (a : audit_record) : Prop :=
  Classify (TierClassifier_new MakeDefaultRules) "CUSTOM" (au_subclass a) = k1Critical.

Definition recorded (r : Status * list cc_effect * list audit_record) : Prop :=
  let '(st, es, audits) := r in
  (es = [] -> audits = []) /\ (st_code st = OK -> es <> [] -> audits <> []) /\ Forall critical audits.

Lemma audit_done_recorded st es a : critical a -> recorded (st, es, audit_done st es a).
Proof. intros H. unfold recorded, audit_done. destruct (st_code st), es; repeat split; try done; by repeat constructor. Qed.

Lemma batch_recorded (st : Status) us es f :
  (es = [] -> us = []) -> (st_code st = OK -> es <> [] -> us <> []) -> (forall u : string, critical (f u)) ->
  recorded (st, es, f <$> us).
Proof.
  intros H1 H2 Hf. repeat split.
  - intros ->%H1. done.
  - intros Hs He. specialize (H2 Hs He). by destruct us.
  - apply Forall_fmap, Forall_true. apply Hf.
Qed.

(** The call service leaves no action off the record.  Whatever one of its nine methods is asked and
    whatever FreeSWITCH answers, a request that did nothing to a channel emits no audit, one that acted and
    answers OK emits at least one, and every audit is of a subclass the default tier table sends to the
    critical tier. *)
Theorem call_on_record CS_ROUTING CS_EXECUTE CS_HANGUP SUCCESS c :
  recorded (run_call CS_ROUTING CS_EXECUTE CS_HANGUP SUCCESS c).
Proof.
  destruct c; cbn [run_call].
  - destruct (SetVariables _ _ _) as [st es]. by apply audit_done_recorded.
  - destruct (Hangup _ _ _ _ _) as [st es]. by apply audit_done_recorded.
  - unfold HangupMany. pose proof (HangupMany_loop_record CS_HANGUP 0 uuids (CallCause_FromString cause) found) as E.
    destruct (HangupMany_loop _ _ _ _ _) as [hung es]. subst es. apply batch_recorded; [by intros ?%fmap_nil_inv|by destruct hung|done].
  - destruct (Execute _ _ _ _ _ _ _ _ _) as [[st es] r]. by apply audit_done_recorded.
  - destruct (Bridge _ _ _ _ _ _ _ _ _) as [[st es] r]. by apply audit_done_recorded.
  - unfold Originate, cache_and_return, cancel_and_return.
    destruct l, (OriginateOptions_Build event_ok req), o as [cause|[u|]]; try done.
    all: try (destruct (string_empty u)); unfold MapOriginateFailure; try (destruct (_ || _)).
    all: repeat split; try done; try by repeat constructor.
  - unfold Hold. case_bool_decide; [done|]. pose proof (hold_loop_record _ 0 uuids found rc (Hold_one_record SUCCESS)) as E.
    destruct (hold_loop _ _ _ _ _) as [[st us] es]. destruct E. by apply batch_recorded.
  - unfold Unhold. case_bool_decide; [done|]. pose proof (hold_loop_record _ 0 uuids found rc (Unhold_one_record SUCCESS)) as E.
    destruct (hold_loop _ _ _ _ _) as [[st us] es]. destruct E. by apply batch_recorded.
  - destruct (BlindTransfer _ _ _ _ _ _ _) as [st es]. by apply audit_done_recorded.
Qed.

(** ** What is and what is not hidden *)

Example redacts :
  RedactArgs "user=bob api_Token=abc x secret_key=9" = "user=bob api_Token=[REDACTED] x secret_key=[REDACTED]".
Proof. by vm_compute. Qed.

(** The key of the match runs to the last equals sign of its word: a value that
    holds one, as base64 padding does, is shown up to it, and so is a secret that
    another assignment follows without a space. *)
Example redaction_leaks :
  RedactArgs "password=c2VjcmV0==" = "password=c2VjcmV0=[REDACTED]" /\
  RedactArgs "{token=abc,lang=en}hi.wav" = "{token=abc,lang=[REDACTED]".
Proof. by vm_compute. Qed.
