(* ===== verification/Hooks.v ===== *)
(** * What FreeSWITCH calls back

    FreeSWITCH reaches the module through three C functions: the CS_DESTROY hook
    of [src/media/bug_manager.cc] over three file-static pointers, the event shim
    of [src/events/binder.cc] over a process-wide slot that [Binder::Init]
    publishes and [Binder::Stop] clears, and the detector that
    [src/security/eavesdrop_detector.cc] binds.  This file holds the functions, the
    slots, and the interleavings of [Init], [Stop], the destructor and dispatching
    threads.  Unbinding waits for the dispatches in flight, as
    [switch_event_unbind_callback] does by taking the lock for writing. *)

From S2P Require Import Prelude BugManager Eavesdrop.

(** ** The CS_DESTROY hook *)

(** The manager the hook works on: a registered one, or the singleton. *)
Inductive manager_ref := Registered (p : nat) | Instance_.

(** [g_state_hook_bug_manager_], [g_state_hook_active_streams_opaque_] and
    [g_state_hook_cleanup_fn_]. *)
Record state_hook := mkStateHook {
  sh_bug_manager : option nat; sh_active_streams : option nat; sh_cleanup_fn : option nat }.

Definition state_hook_init : state_hook := mkStateHook None None None.

Inductive handler_table_call := AddStateHandler | RemoveStateHandler.

Definition RegisterStateHandlers (this : nat) (active_streams cleanup_fn : option nat) (h : state_hook)
  : state_hook * list handler_table_call :=
  (mkStateHook (Some this) active_streams cleanup_fn, [AddStateHandler]).

Definition UnregisterStateHandlers (h : state_hook) : state_hook * list handler_table_call :=
  (mkStateHook None None None, [RemoveStateHandler]).

Inductive destroy_effect :=
  | Cleanup (fn streams : nat) (uuid : string)
  | CallDetachAll (m : manager_ref) (uuid : string)
  | CallRemoveSilence (m : manager_ref) (uuid : string).

(** A session as the hook sees it: the state of its channel, when it has one, and
    its uuid. *)
Record hook_session := mkHookSession { hs_state : option Z; hs_uuid : option string }.

Section Destroy.
Context (kCsDestroy : Z).

Definition ChannelDestroy_hook (session : option hook_session) (h : state_hook) : list destroy_effect :=
  match session with
  | None => []
  | Some s =>
      if match hs_state s with Some st => negb (st =? kCsDestroy) | None => false end then []
      else match hs_uuid s with
      | None | Some EmptyString => []
      | Some uuid =>
          let m := match sh_bug_manager h with Some p => Registered p | None => Instance_ end in
          match sh_cleanup_fn h, sh_active_streams h with
          | Some fn, Some streams => [Cleanup fn streams uuid]
          | _, _ => []
          end ++ [CallDetachAll m uuid; CallRemoveSilence m uuid]
      end
  end.
End Destroy.

Definition SetSilenceDriverRegistry (registry : option SilenceDriver.SilenceDriverRegistry) (m : MediaBugManager)
  : MediaBugManager :=
  mkMediaBugManager (next_id_ m) (by_id_ m) (by_channel_ m) registry.

(** ** The event shim *)

(** Where a [Binder] is in [Init] or [Stop]: published in the slot, bound in
    FreeSWITCH, [active_]; unbound, no longer [active_]. *)
Inductive binder_phase := Idle | Published | Bound | Active | Unbound | Inactive.

#[export] Instance binder_phase_eq_dec : EqDecision binder_phase.
Proof. solve_decision. Defined.

(** A dispatching thread in the shim: before it loads the slot, or with what it
    loaded. *)
Inductive dispatch := Entered | Loaded (b : option nat).

#[export] Instance dispatch_eq_dec : EqDecision dispatch.
Proof. solve_decision. Defined.

(** The [Binder] objects that exist, the slot, whether FreeSWITCH has the shim
    bound, the threads in it, and the calls of [HandleEvent] so far, each with
    whether its object existed. *)
Record shim_world := mkShimWorld {
  binders : gmap nat binder_phase;
  instance_slot : option nat;
  shim_bound : bool;
  in_shim : list dispatch;
  handled : list (nat * bool) }.

Definition shim_init : shim_world := mkShimWorld ∅ None false [] [].

Inductive shim_label :=
  | BinderNew (b : nat)
  | InitPublish (b : nat)
  | InitBind (b : nat) (ok : bool)
  | InitActivate (b : nat)
  | StopUnbind (b : nat)
  | StopDeactivate (b : nat)
  | StopClear (b : nat)
  | BinderDelete (b : nat)
  | DispatchBegin
  | DispatchLoad (i : nat)
  | DispatchHandle (i : nat).

Definition set_phase (b : nat) (p : binder_phase) (w : shim_world) : shim_world :=
  mkShimWorld (<[b := p]> (binders w)) (instance_slot w) (shim_bound w) (in_shim w) (handled w).
Definition set_slot (o : option nat) (w : shim_world) : shim_world :=
  mkShimWorld (binders w) o (shim_bound w) (in_shim w) (handled w).
Definition set_bound (x : bool) (w : shim_world) : shim_world :=
  mkShimWorld (binders w) (instance_slot w) x (in_shim w) (handled w).
Definition set_threads (ds : list dispatch) (w : shim_world) : shim_world :=
  mkShimWorld (binders w) (instance_slot w) (shim_bound w) ds (handled w).

(** [Binder::Init] up to the exchange on the slot; a binder that is active, or
    finds the slot taken, is left alone. *)
Definition Init_publish (b : nat) (w : shim_world) : option shim_world :=
  match binders w !! b, instance_slot w with
  | None, _ => None
  | Some Idle, None => Some (set_slot (Some b) (set_phase b Published w))
  | Some _, _ => Some w
  end.

Definition Init_bind (b : nat) (ok : bool) (w : shim_world) : option shim_world :=
  if decide (binders w !! b = Some Published)
  then Some (if ok then set_bound true (set_phase b Bound w) else set_slot None (set_phase b Idle w))
  else None.

(** [Binder::Stop]: unbinding waits for the threads in the shim. *)
Definition Stop_unbind (b : nat) (w : shim_world) : option shim_world :=
  if decide (binders w !! b = Some Active /\ in_shim w = []) then Some (set_bound false (set_phase b Unbound w)) else None.

Definition Stop_clear (b : nat) (w : shim_world) : option shim_world :=
  if decide (binders w !! b = Some Inactive) then Some (set_slot None (set_phase b Idle w)) else None.

(** A step from one phase to the next. *)
Definition advance (b : nat) (p q : binder_phase) (w : shim_world) : option shim_world :=
  if decide (binders w !! b = Some p) then Some (set_phase b q w) else None.

(** [osw_event_handler] after its load: nothing when the slot was null. *)
Definition osw_event_handler (o : option nat) (w : shim_world) : shim_world :=
  match o with
  | None => w
  | Some b => mkShimWorld (binders w) (instance_slot w) (shim_bound w) (in_shim w)
                (handled w ++ [(b, bool_decide (is_Some (binders w !! b)))])
  end.

Definition shim_step (l : shim_label) (w : shim_world) : option shim_world :=
  match l with
  | BinderNew b => if decide (binders w !! b = None) then Some (set_phase b Idle w) else None
  | InitPublish b => Init_publish b w
  | InitBind b ok => Init_bind b ok w
  | InitActivate b => advance b Bound Active w
  | StopUnbind b => Stop_unbind b w
  | StopDeactivate b => advance b Unbound Inactive w
  | StopClear b => Stop_clear b w
  | BinderDelete b =>
      if decide (binders w !! b = Some Idle)
      then Some (mkShimWorld (delete b (binders w)) (instance_slot w) (shim_bound w) (in_shim w) (handled w))
      else None
  | DispatchBegin => if shim_bound w then Some (set_threads (in_shim w ++ [Entered]) w) else None
  | DispatchLoad i =>
      if decide (in_shim w !! i = Some Entered)
      then Some (set_threads (<[i := Loaded (instance_slot w)]> (in_shim w)) w) else None
  | DispatchHandle i =>
      match in_shim w !! i with
      | Some (Loaded o) => Some (set_threads (delete i (in_shim w)) (osw_event_handler o w))
      | _ => None
      end
  end.

Inductive shim_reachable : shim_world -> Prop :=
  | shim_reach_init : shim_reachable shim_init
  | shim_reach_step l w w' : shim_reachable w -> shim_step l w = Some w' -> shim_reachable w'.

(** ** The detector *)

(** [BindEavesdropDetector] and [UnbindEavesdropDetector] on whether FreeSWITCH
    has the detector bound, with the status it answers. *)
Definition BindEavesdropDetector (SWITCH_STATUS_SUCCESS status : Z) (bound : bool) : bool * bool :=
  if negb (status =? SWITCH_STATUS_SUCCESS) then (false, bound) else (true, true).

Definition UnbindEavesdropDetector (bound : bool) : bool := false.

(** ** The slot and the binders *)

(** Which phases have the slot, and which the binding. *)
Definition holds_slot (p : binder_phase) : bool := match p with Idle => false | _ => true end.
Definition holds_binding (p : binder_phase) : bool := match p with Bound | Active => true | _ => false end.

Record shim_inv (w : shim_world) : Prop := {
  si_slot b p : binders w !! b = Some p -> (holds_slot p = true <-> instance_slot w = Some b);
  si_owner b : instance_slot w = Some b -> is_Some (binders w !! b);
  si_bound b p : binders w !! b = Some p -> instance_slot w = Some b -> shim_bound w = holds_binding p;
  si_free : instance_slot w = None -> shim_bound w = false;
  si_threads : shim_bound w = false -> in_shim w = [];
  si_loaded o : Loaded o ∈ in_shim w -> o = instance_slot w;
  si_handled : Forall (fun c => c.2 = true) (handled w) }.

(** A binder that has the slot moves to another phase. *)
Lemma set_phase_inv w b p q x :
  shim_inv w -> binders w !! b = Some p -> holds_slot p = true -> holds_slot q = true ->
  x = holds_binding q -> (x = false -> in_shim w = []) -> shim_inv (set_bound x (set_phase b q w)).
Proof.
  intros [H1 H2 H3 H4 H5 H6 H7] Hb Hp Hq -> Ht. pose proof (proj1 (H1 _ _ Hb) Hp) as Hs.
  split; cbn; try done.
  - intros b' p'. destruct (decide (b = b')) as [<-|]; rewrite ?lookup_insert_eq, ?lookup_insert_ne by done; [|apply H1].
    intros [= <-]. by rewrite Hq.
  - intros b' Hs'. destruct (decide (b = b')) as [<-|]; [by rewrite lookup_insert_eq|rewrite lookup_insert_ne by done; by apply H2].
  - intros b' p' Hb' Hs'. rewrite Hs in Hs'. injection Hs' as <-. rewrite lookup_insert_eq in Hb'. by simplify_eq.
  - by rewrite Hs.
Qed.

(** A binder that has the slot and no binding gives it up. *)
Lemma release_slot_inv w b p :
  shim_inv w -> binders w !! b = Some p -> holds_slot p = true -> holds_binding p = false ->
  shim_inv (set_slot None (set_phase b Idle w)).
Proof.
  intros [H1 H2 H3 H4 H5 H6 H7] Hb Hp Hn. pose proof (proj1 (H1 _ _ Hb) Hp) as Hs.
  pose proof (H3 _ _ Hb Hs) as Hbd. rewrite Hn in Hbd. split; cbn; try done.
  - intros b' p'. destruct (decide (b = b')) as [<-|]; rewrite ?lookup_insert_eq, ?lookup_insert_ne by done.
    + by intros [= <-].
    + intros Hb'. split; [|done]. intros ?. pose proof (proj1 (H1 _ _ Hb') H). congruence.
  - rewrite (H5 Hbd). by intros o ?%elem_of_nil.
Qed.

Lemma shim_threads_inv w ds :
  shim_inv w -> (shim_bound w = false -> ds = []) -> (forall o, Loaded o ∈ ds -> o = instance_slot w) ->
  shim_inv (set_threads ds w).
Proof. intros [H1 H2 H3 H4 H5 H6 H7] Ht Hl. by split. Qed.

Lemma BinderNew_inv w b : shim_inv w -> binders w !! b = None -> shim_inv (set_phase b Idle w).
Proof.
  intros [H1 H2 H3 H4 H5 H6 H7] Hb.
  assert (instance_slot w <> Some b) by (intros E; apply H2 in E as [? E]; congruence).
  split; cbn; try done.
  - intros b' p'. destruct (decide (b = b')) as [<-|]; rewrite ?lookup_insert_eq, ?lookup_insert_ne by done; [|apply H1].
    by intros [= <-].
  - intros b' Hs. rewrite lookup_insert_ne by congruence. by apply H2.
  - intros b' p' Hb' Hs. rewrite lookup_insert_ne in Hb' by congruence. by eapply H3.
Qed.

Lemma Init_publish_inv w b w' : shim_inv w -> Init_publish b w = Some w' -> shim_inv w'.
Proof.
  intros Hi Hs. unfold Init_publish in Hs. pose proof Hi as [H1 H2 H3 H4 H5 H6 H7].
  destruct (binders w !! b) as [p|] eqn:Hb; [|done]. destruct p; [|by simplify_eq..].
  destruct (instance_slot w) eqn:Hs0; [by simplify_eq|]. injection Hs as <-. split; cbn; try done.
  - intros b' p'. destruct (decide (b = b')) as [<-|]; rewrite ?lookup_insert_eq, ?lookup_insert_ne by done.
    + by intros [= <-].
    + intros Hb'. rewrite (H1 _ _ Hb'). naive_solver congruence.
  - intros b' [= <-]. by rewrite lookup_insert_eq.
  - intros b' p' Hb' [= <-]. rewrite lookup_insert_eq in Hb'. simplify_eq. cbn. by apply H4.
  - rewrite (H5 (H4 eq_refl)). by intros o ?%elem_of_nil.
Qed.

Lemma BinderDelete_inv w b :
  shim_inv w -> binders w !! b = Some Idle ->
  shim_inv (mkShimWorld (delete b (binders w)) (instance_slot w) (shim_bound w) (in_shim w) (handled w)).
Proof.
  intros [H1 H2 H3 H4 H5 H6 H7] Hb. assert (instance_slot w <> Some b) by (intros E; by apply (H1 _ _ Hb) in E).
  split; cbn; try done.
  - intros b' p' [_ Hb']%lookup_delete_Some. by apply H1.
  - intros b' Hs. rewrite lookup_delete_ne by congruence. by apply H2.
  - intros b' p' [_ Hb']%lookup_delete_Some. by apply H3.
Qed.

(** A step that leaves the binding as it is. *)
Lemma advance_inv w b p q w' :
  shim_inv w -> holds_slot p = true -> holds_slot q = true -> holds_binding p = holds_binding q ->
  advance b p q w = Some w' -> shim_inv w'.
Proof.
  intros Hi Hp Hq E Hs. unfold advance in Hs. case_decide as Hb; [|done]. injection Hs as <-.
  pose proof (si_bound _ Hi _ _ Hb (proj1 (si_slot _ Hi _ _ Hb) Hp)) as Hbd. rewrite E in Hbd.
  pose proof (set_phase_inv w b p q (shim_bound w) Hi Hb Hp Hq Hbd (si_threads _ Hi)) as H. by destruct w.
Qed.

Lemma DispatchHandle_inv w i o :
  shim_inv w -> in_shim w !! i = Some (Loaded o) -> shim_inv (set_threads (delete i (in_shim w)) (osw_event_handler o w)).
Proof.
  intros Hi Hd. pose proof Hi as [H1 H2 H3 H4 H5 H6 H7].
  pose proof (H6 o (list_elem_of_lookup_2 _ _ _ Hd)) as Ho. apply shim_threads_inv.
  - destruct o as [b|]; [|done]. split; cbn; try done. apply Forall_app. split; [done|]. constructor; [|done].
    cbn. apply bool_decide_eq_true. by apply H2.
  - destruct o; cbn; intros E; by rewrite (H5 E) in Hd.
  - intros o' Ho'. assert (Loaded o' ∈ in_shim w).
    { eapply elem_of_submseteq; [done|]. apply sublist_submseteq, sublist_delete. }
    destruct o; cbn; by apply H6.
Qed.

Lemma shim_step_inv l w w' : shim_inv w -> shim_step l w = Some w' -> shim_inv w'.
Proof.
  intros Hi Hs. destruct l as [b|b|b ok|b|b|b|b|b| |i|i]; cbn [shim_step] in Hs.
  - case_decide; [|done]. injection Hs as <-. by apply BinderNew_inv.
  - by eapply Init_publish_inv.
  - unfold Init_bind in Hs. case_decide; [|done]. injection Hs as <-.
    destruct ok; [by eapply set_phase_inv|by eapply release_slot_inv].
  - by eapply (advance_inv _ _ Bound Active).
  - unfold Stop_unbind in Hs. case_decide as Hb; [|done]. destruct Hb as [Hb Ht]. injection Hs as <-. by eapply set_phase_inv.
  - by eapply (advance_inv _ _ Unbound Inactive).
  - unfold Stop_clear in Hs. case_decide; [|done]. injection Hs as <-. by eapply release_slot_inv.
  - case_decide; [|done]. injection Hs as <-. by apply BinderDelete_inv.
  - destruct (shim_bound w) eqn:Hbd; [|done]. injection Hs as <-. apply shim_threads_inv; [done|by rewrite Hbd|].
    intros o [Ho|Ho%list_elem_of_singleton]%elem_of_app; [by apply Hi|done].
  - case_decide as Hd; [|done]. injection Hs as <-. apply shim_threads_inv; [done|..].
    + intros E. by rewrite (si_threads _ Hi E) in Hd.
    + intros o (j & Ho)%list_elem_of_lookup_1.
      apply list_lookup_insert_Some in Ho as [(-> & ? & _)|[_ ?]]; [by simplify_eq|].
      eapply si_loaded; [done|]. by eapply list_elem_of_lookup_2.
  - destruct (in_shim w !! i) as [[|o]|] eqn:Hd; [done| |done]. injection Hs as <-. by apply DispatchHandle_inv.
Qed.

Lemma shim_reachable_inv w : shim_reachable w -> shim_inv w.
Proof.
  induction 1 as [|l w w' _ IH Hs]; [|by eapply shim_step_inv].
  split; cbn; try done. by intros o ?%elem_of_nil.
Qed.

(** However [Init], [Stop], construction and destruction of any number of binders
    interleave with dispatching threads: no event is handed to a binder that no
    longer exists, a thread in the shim finds the binder that is being bound or is
    active in the slot and never a null, at most one binder is past its [Init], and
    none that may be deleted is in the slot. *)
Theorem shim_never_dangles w :
  shim_reachable w ->
  Forall (fun c => c.2 = true) (handled w) /\
  (in_shim w <> [] -> exists b p, instance_slot w = Some b /\ binders w !! b = Some p /\ holds_binding p = true) /\
  (forall o, Loaded o ∈ in_shim w -> o = instance_slot w) /\
  (forall b b' p p', binders w !! b = Some p -> binders w !! b' = Some p' ->
     holds_slot p = true -> holds_slot p' = true -> b = b') /\
  (forall b, binders w !! b = Some Idle -> instance_slot w <> Some b).
Proof.
  intros Hr. destruct (shim_reachable_inv w Hr) as [H1 H2 H3 H4 H5 H6 H7]. split_and!; try done.
  - intros Hd. destruct (instance_slot w) as [b|] eqn:Hs; [|by rewrite H5 in Hd by auto].
    destruct (H2 b eq_refl) as [p Hp]. exists b, p. split_and!; [done..|]. rewrite <- (H3 _ _ Hp eq_refl).
    destruct (shim_bound w); [done|]. by rewrite H5 in Hd.
  - intros b b' p p' Hb Hb' Hp Hp'. apply (H1 _ _ Hb) in Hp. apply (H1 _ _ Hb') in Hp'. congruence.
  - intros b Hb E. by apply (H1 _ _ Hb) in E.
Qed.

(** ** The hook and the manager *)

(** What the effects of the hook do to the manager at [p]. *)
Fixpoint run_destroy (p : nat) (es : list destroy_effect) (m : MediaBugManager) : MediaBugManager * list ctx_event :=
  match es with
  | [] => (m, [])
  | e :: es =>
      let '(m1, cs) :=
        match e with
        | CallDetachAll (Registered q) uuid => if decide (q = p) then DetachAll uuid m else (m, [])
        | CallRemoveSilence (Registered q) uuid => (if decide (q = p) then RemoveSilenceDriverForChannel uuid m else m, [])
        | _ => (m, [])
        end in
      let '(m2, cs') := run_destroy p es m1 in (m2, cs ++ cs')
  end.

(** Once a manager is registered, the hook that FreeSWITCH runs for a channel in
    CS_DESTROY is the step of [BugManager], in the manager's world. *)
Lemma ChannelDestroy_hook_step kCsDestroy p streams fn h uuid w :
  uuid <> ""%string -> unlocked w uuid = true ->
  forallb (fun id => negb (bool_decide (id ∈ held (w_heap w)))) (channel_ids (w_mgr w) uuid) = true ->
  OswMediaChannelDestroy uuid w =
  let hook := (RegisterStateHandlers p streams fn h).1 in
  let '(m', es) := run_destroy p (ChannelDestroy_hook kCsDestroy (Some (mkHookSession (Some kCsDestroy) (Some uuid))) hook)
                     (w_mgr w) in
  with_events w m' (w_locks w) es RNone.
Proof.
  intros Hu Hl Hh. unfold OswMediaChannelDestroy, ChannelDestroy_hook, RegisterStateHandlers.
  cbn [fst hs_state hs_uuid sh_bug_manager sh_active_streams sh_cleanup_fn]. rewrite Hl, Hh, Z.eqb_refl. cbn [negb].
  destruct uuid as [|c u]; [done|]. destruct fn as [f|], streams as [x|]; cbn [app run_destroy]; rewrite !decide_True by done.
  all: destruct (DetachAll (String c u) (w_mgr w)) as [m es]; rewrite ?decide_True by done; by rewrite ?app_nil_r.
Qed.

(** It leaves channels in other states alone, and once the handlers are
    unregistered it reaches no manager but the singleton. *)
Lemma ChannelDestroy_hook_quiet kCsDestroy st u h :
  st <> kCsDestroy -> ChannelDestroy_hook kCsDestroy (Some (mkHookSession (Some st) u)) h = [].
Proof. intros N. unfold ChannelDestroy_hook. cbn. by rewrite (proj2 (Z.eqb_neq _ _) N). Qed.

Lemma ChannelDestroy_hook_unregistered kCsDestroy s h p m :
  run_destroy p (ChannelDestroy_hook kCsDestroy s (UnregisterStateHandlers h).1) m = (m, []).
Proof. unfold ChannelDestroy_hook. cbn. repeat case_match; done. Qed.
